(** * Airport resource simulator: reservation and fairness core

    A shallow embedding of the C sources of the simulator and the proofs
    of the properties its specification states about them.

    The repository holds six variants of the same program.  Four of them
    are embedded here, each in a module named after its file:

    - [SoFinal]       src/So-final.c (atomic reservation gate, progress
                      flags, priority queue, starvation check);
    - [SoRefatorado]  src/So_refatorado_corrigido.c (the same gate with
                      the PENDENTE status and the corrected checa_falha);
    - [So]            src/So.c (no gate: semaphores taken one by one in an
                      order that depends on the flight class, aging);
    - [SoRestrito]    src/So_restrito.c (the acquisition loop with
                      rollback).

    Conventions of the embedding.

    - C [int] and [time_t] values are integers of [Z].  Every counter of
      the program is bounded by a capacity or by MAX_AVIOES, so the
      arithmetic on counters does not come near the bounds of its type
      (signed overflow is undefined in C and is not modelled).  Times
      are 64-bit seconds since the epoch and their differences are
      taken in [Z]; where the code converts such a difference to int,
      (int)(t - t0) in So_refatorado_corrigido.c and So_restrito.c, the
      embedding applies [para_int], which keeps the low 32 bits.  C ints
      used as truth values (0/1 flags) are [bool].
    - A worker thread is a function in a state monad.  The state holds
      the process-wide variables, the record of the worker's own
      aircraft, the log of the worker's effects on shared resources, and
      an oracle: the list of what the worker finds each time it returns
      from a blocking call (pthread_cond_timedwait, sem_wait,
      sem_timedwait, sleep, nanosleep).  Between two blocking calls the
      worker runs atomically, and the clock, which is one of the shared
      variables, stands still.
    - The interleaving of several workers is the replay of their logs
      over a shared reservation gate (section [Intercalacao]). *)

From Stdlib Require Import ZArith List Bool Lia.
Import ListNotations.
Local Open Scope Z_scope.

(** ** Shared between the variants *)

Inductive Recurso : Type := PISTA | PORTAO | TORRE.

Definition Recurso_eqb (r s : Recurso) : bool :=
  match r, s with
  | PISTA, PISTA | PORTAO, PORTAO | TORRE, TORRE => true
  | _, _ => false
  end.

(** The remaining need of a resource: the C expression [has_x ? 0 : 1]
    is [falta has_x]. *)
Definition falta (has : bool) : Z := if has then 0 else 1.

(** The conversion (int)(t - t0) of a difference of two time_t values,
    as So_refatorado_corrigido.c and So_restrito.c write it: time_t has
    64 bits and int has 32, and the conversion keeps the low 32 bits,
    read as a signed number. *)
Definition para_int (z : Z) : Z :=
  (z + 2147483648) mod 4294967296 - 2147483648.

Arguments para_int : simpl never.

(** A state monad with failure; [None] is a worker that never returns
    (blocked for ever, or the oracle ran out). *)
Section Monada.
Context {S : Type}.

Definition M (A : Type) : Type := S -> option (A * S).

Definition ret {A} (x : A) : M A := fun s => Some (x, s).

Definition bind {A B} (c : M A) (k : A -> M B) : M B :=
  fun s => match c s with
           | Some (x, s') => k x s'
           | None => None
           end.

Definition trava {A} : M A := fun _ => None.

Definition le : M S := fun s => Some (s, s).

Definition altera (f : S -> S) : M unit := fun s => Some (tt, f s).

(** Partial-correctness predicate transformer: [apos c Q s] holds when
    the run of [c] from [s], if it returns, returns in [Q]. *)
Definition apos {A} (c : M A) (Q : A -> S -> Prop) (s : S) : Prop :=
  match c s with
  | Some (x, s') => Q x s'
  | None => True
  end.

(** [garante P c Q]: a run of [c] from a state in [P], if it returns,
    returns in [Q]; [preserva P c]: it returns in [P]. *)
Definition garante {A} (P : S -> Prop) (c : M A) (Q : A -> S -> Prop)
  : Prop :=
  forall s, P s -> apos c Q s.

Definition preserva {A} (P : S -> Prop) (c : M A) : Prop :=
  garante P c (fun _ s' => P s').

End Monada.

Arguments M : clear implicits.

Declare Scope monada_scope.
Delimit Scope monada_scope with monada.
Notation "x <- c ;; k" := (bind c (fun x => k))
  (at level 61, c at next level, right associativity) : monada_scope.
Notation "c ;;; k" := (bind c (fun _ => k))
  (at level 61, right associativity) : monada_scope.
Local Open Scope monada_scope.

(** ** src/So-final.c *)

Module SoFinal.

Definition LIMITE_DEADLOCK : Z := 30.
Definition ALERTA_CRITICO_SECS : Z := 60.
Definition TEMPO_MAXIMO_ESPERA : Z := 90.
Definition TIMEOUT_OPERACAO : Z := 10.

(** Return codes of reservar_recursos. *)
Definition SEM_OK : Z := 0.
Definition SEM_TIMEOUT : Z := -1.
Definition SEM_SIM_ENCERRADA : Z := -2.
Definition SEM_AVIAO_FALHOU : Z := -3.

Inductive TipoVoo : Type := DOMESTICO | INTERNACIONAL.

Inductive StatusAviao : Type :=
  SUCESSO | FALHA | ALERTA_CRITICO | STARVATION | DEADLOCK.

Record Aviao : Type := {
  id : Z;
  tipo : TipoVoo;
  criacao : Z;
  inicio_pouso : Z; fim_pouso : Z;
  inicio_desembarque : Z; fim_desembarque : Z;
  inicio_decolagem : Z; fim_decolagem : Z;
  status_final : StatusAviao;
  tempo_espera_total : Z;
  em_alerta_critico : bool;
  ultimo_tempo_espera : Z;
  has_pista : bool;
  has_portao : bool;
  has_torre : bool
}.

(** The reservation gate: pistas_disp, portoes_disp, torres_disp. *)
Record Reserva : Type := {
  pistas_disp : Z;
  portoes_disp : Z;
  torres_disp : Z
}.

(** The process-wide variables a worker reads and writes; [relogio] is
    the value time(NULL) returns. *)
Record Mundo : Type := {
  relogio : Z;
  simulacao_ativa : bool;
  pistas : Z; portoes : Z; torres : Z;
  reserva : Reserva;
  esperando_internacional : Z;
  esperando_domestico : Z;
  deadlock_count : Z;
  acidentes_count : Z
}.

(** Field updates. *)
Definition com_status (s : StatusAviao) (a : Aviao) : Aviao :=
  {| id := id a; tipo := tipo a; criacao := criacao a;
     inicio_pouso := inicio_pouso a; fim_pouso := fim_pouso a;
     inicio_desembarque := inicio_desembarque a;
     fim_desembarque := fim_desembarque a;
     inicio_decolagem := inicio_decolagem a;
     fim_decolagem := fim_decolagem a;
     status_final := s;
     tempo_espera_total := tempo_espera_total a;
     em_alerta_critico := em_alerta_critico a;
     ultimo_tempo_espera := ultimo_tempo_espera a;
     has_pista := has_pista a; has_portao := has_portao a;
     has_torre := has_torre a |}.

Definition com_alerta (b : bool) (a : Aviao) : Aviao :=
  {| id := id a; tipo := tipo a; criacao := criacao a;
     inicio_pouso := inicio_pouso a; fim_pouso := fim_pouso a;
     inicio_desembarque := inicio_desembarque a;
     fim_desembarque := fim_desembarque a;
     inicio_decolagem := inicio_decolagem a;
     fim_decolagem := fim_decolagem a;
     status_final := status_final a;
     tempo_espera_total := tempo_espera_total a;
     em_alerta_critico := b;
     ultimo_tempo_espera := ultimo_tempo_espera a;
     has_pista := has_pista a; has_portao := has_portao a;
     has_torre := has_torre a |}.

Definition com_ultimo_tempo_espera (t : Z) (a : Aviao) : Aviao :=
  {| id := id a; tipo := tipo a; criacao := criacao a;
     inicio_pouso := inicio_pouso a; fim_pouso := fim_pouso a;
     inicio_desembarque := inicio_desembarque a;
     fim_desembarque := fim_desembarque a;
     inicio_decolagem := inicio_decolagem a;
     fim_decolagem := fim_decolagem a;
     status_final := status_final a;
     tempo_espera_total := tempo_espera_total a;
     em_alerta_critico := em_alerta_critico a;
     ultimo_tempo_espera := t;
     has_pista := has_pista a; has_portao := has_portao a;
     has_torre := has_torre a |}.

(** The six phase time stamps, addressed by phase and end. *)
Inductive Fase : Type := POUSO | DESEMBARQUE | DECOLAGEM.

Definition com_inicio (f : Fase) (t : Z) (a : Aviao) : Aviao :=
  {| id := id a; tipo := tipo a; criacao := criacao a;
     inicio_pouso := match f with POUSO => t | _ => inicio_pouso a end;
     fim_pouso := fim_pouso a;
     inicio_desembarque :=
       match f with DESEMBARQUE => t | _ => inicio_desembarque a end;
     fim_desembarque := fim_desembarque a;
     inicio_decolagem :=
       match f with DECOLAGEM => t | _ => inicio_decolagem a end;
     fim_decolagem := fim_decolagem a;
     status_final := status_final a;
     tempo_espera_total := tempo_espera_total a;
     em_alerta_critico := em_alerta_critico a;
     ultimo_tempo_espera := ultimo_tempo_espera a;
     has_pista := has_pista a; has_portao := has_portao a;
     has_torre := has_torre a |}.

Definition com_fim (f : Fase) (t : Z) (a : Aviao) : Aviao :=
  {| id := id a; tipo := tipo a; criacao := criacao a;
     inicio_pouso := inicio_pouso a;
     fim_pouso := match f with POUSO => t | _ => fim_pouso a end;
     inicio_desembarque := inicio_desembarque a;
     fim_desembarque :=
       match f with DESEMBARQUE => t | _ => fim_desembarque a end;
     inicio_decolagem := inicio_decolagem a;
     fim_decolagem :=
       match f with DECOLAGEM => t | _ => fim_decolagem a end;
     status_final := status_final a;
     tempo_espera_total := tempo_espera_total a;
     em_alerta_critico := em_alerta_critico a;
     ultimo_tempo_espera := ultimo_tempo_espera a;
     has_pista := has_pista a; has_portao := has_portao a;
     has_torre := has_torre a |}.

Definition has (r : Recurso) (a : Aviao) : bool :=
  match r with
  | PISTA => has_pista a
  | PORTAO => has_portao a
  | TORRE => has_torre a
  end.

Definition com_has (r : Recurso) (b : bool) (a : Aviao) : Aviao :=
  {| id := id a; tipo := tipo a; criacao := criacao a;
     inicio_pouso := inicio_pouso a; fim_pouso := fim_pouso a;
     inicio_desembarque := inicio_desembarque a;
     fim_desembarque := fim_desembarque a;
     inicio_decolagem := inicio_decolagem a;
     fim_decolagem := fim_decolagem a;
     status_final := status_final a;
     tempo_espera_total := tempo_espera_total a;
     em_alerta_critico := em_alerta_critico a;
     ultimo_tempo_espera := ultimo_tempo_espera a;
     has_pista := match r with PISTA => b | _ => has_pista a end;
     has_portao := match r with PORTAO => b | _ => has_portao a end;
     has_torre := match r with TORRE => b | _ => has_torre a end |}.

Definition com_reserva (r : Reserva) (m : Mundo) : Mundo :=
  {| relogio := relogio m; simulacao_ativa := simulacao_ativa m;
     pistas := pistas m; portoes := portoes m; torres := torres m;
     reserva := r;
     esperando_internacional := esperando_internacional m;
     esperando_domestico := esperando_domestico m;
     deadlock_count := deadlock_count m;
     acidentes_count := acidentes_count m |}.

Definition sem_valor (r : Recurso) (m : Mundo) : Z :=
  match r with
  | PISTA => pistas m
  | PORTAO => portoes m
  | TORRE => torres m
  end.

Definition com_sem (r : Recurso) (v : Z) (m : Mundo) : Mundo :=
  {| relogio := relogio m; simulacao_ativa := simulacao_ativa m;
     pistas := match r with PISTA => v | _ => pistas m end;
     portoes := match r with PORTAO => v | _ => portoes m end;
     torres := match r with TORRE => v | _ => torres m end;
     reserva := reserva m;
     esperando_internacional := esperando_internacional m;
     esperando_domestico := esperando_domestico m;
     deadlock_count := deadlock_count m;
     acidentes_count := acidentes_count m |}.

Definition esperando (t : TipoVoo) (m : Mundo) : Z :=
  match t with
  | INTERNACIONAL => esperando_internacional m
  | DOMESTICO => esperando_domestico m
  end.

Definition com_esperando (t : TipoVoo) (v : Z) (m : Mundo) : Mundo :=
  {| relogio := relogio m; simulacao_ativa := simulacao_ativa m;
     pistas := pistas m; portoes := portoes m; torres := torres m;
     reserva := reserva m;
     esperando_internacional :=
       match t with INTERNACIONAL => v | _ => esperando_internacional m end;
     esperando_domestico :=
       match t with DOMESTICO => v | _ => esperando_domestico m end;
     deadlock_count := deadlock_count m;
     acidentes_count := acidentes_count m |}.

Definition com_deadlock_count (v : Z) (m : Mundo) : Mundo :=
  {| relogio := relogio m; simulacao_ativa := simulacao_ativa m;
     pistas := pistas m; portoes := portoes m; torres := torres m;
     reserva := reserva m;
     esperando_internacional := esperando_internacional m;
     esperando_domestico := esperando_domestico m;
     deadlock_count := v;
     acidentes_count := acidentes_count m |}.

Definition com_acidentes_count (v : Z) (m : Mundo) : Mundo :=
  {| relogio := relogio m; simulacao_ativa := simulacao_ativa m;
     pistas := pistas m; portoes := portoes m; torres := torres m;
     reserva := reserva m;
     esperando_internacional := esperando_internacional m;
     esperando_domestico := esperando_domestico m;
     deadlock_count := deadlock_count m;
     acidentes_count := v |}.

(** *** verificar_starvation and checa_falha *)

(** The guard that opens verificar_starvation: the aircraft is already
    FALHA, STARVATION or DEADLOCK. *)
Definition ja_marcado (s : StatusAviao) : bool :=
  match s with
  | FALHA | STARVATION | DEADLOCK => true
  | SUCESSO | ALERTA_CRITICO => false
  end.

Definition verificar_starvation (m : Mundo) (a : Aviao) : Mundo * Aviao :=
  if ja_marcado (status_final a) then (m, a)
  else
    let agora := relogio m in
    let tempo_espera := agora - ultimo_tempo_espera a in
    if (ALERTA_CRITICO_SECS <=? tempo_espera)
       && (tempo_espera <? TEMPO_MAXIMO_ESPERA)
       && negb (em_alerta_critico a)
    then (m, com_status ALERTA_CRITICO (com_alerta true a))
    else if TEMPO_MAXIMO_ESPERA <=? tempo_espera then
      match tipo a with
      | DOMESTICO =>
          (com_acidentes_count (acidentes_count m + 1) m,
           com_status STARVATION a)
      | INTERNACIONAL =>
          (com_deadlock_count (deadlock_count m + 1) m,
           com_status DEADLOCK a)
      end
    else (m, a).

Definition checa_falha (m : Mundo) (a : Aviao) : bool * (Mundo * Aviao) :=
  let '(m', a') := verificar_starvation m a in
  (match status_final a' with
   | FALHA | STARVATION => true
   | SUCESSO | ALERTA_CRITICO | DEADLOCK => false
   end, (m', a')).

(** *** monitor_deadlock: the body of the sweep, for one aircraft *)

Definition preso (agora inicio fim : Z) : bool :=
  (0 <? inicio) && (fim =? 0) && (LIMITE_DEADLOCK <? agora - inicio).

Definition monitor_deadlock (agora : Z) (a : Aviao) : Aviao * Z :=
  if id a =? 0 then (a, 0)
  else
    match status_final a with
    | SUCESSO | FALHA | STARVATION | DEADLOCK => (a, 0)
    | ALERTA_CRITICO =>
        if preso agora (inicio_pouso a) (fim_pouso a)
           || preso agora (inicio_desembarque a) (fim_desembarque a)
           || preso agora (inicio_decolagem a) (fim_decolagem a)
        then (com_status DEADLOCK a, 1)
        else (a, 0)
    end.

(** *** The worker's state *)

(** What the worker does to the shared resources and to its progress
    flags, in program order. *)
Inductive Evento : Type :=
| EvEntraFila (t : TipoVoo)          (* esperando_t++ *)
| EvDesiste (t : TipoVoo)            (* esperando_t-- in aguardar_prioridade *)
| EvLiberaPrioridade (t : TipoVoo)   (* liberar_prioridade(t) *)
| EvReservar (p g t rc : Z)          (* reservar_recursos(.,p,g,t,.) = rc *)
| EvLiberaReserva (p g t : Z)        (* liberar_reserva(p,g,t) *)
| EvSemWait (r : Recurso)            (* sem_wait(r) == 0 *)
| EvSemWaitErro (r : Recurso)        (* sem_wait(r) != 0 *)
| EvSemPost (r : Recurso)            (* sem_post(r) *)
| EvHas (r : Recurso) (b : bool)     (* has_r = b *)
| EvSleep (n : Z).                   (* sleep(n) *)

(** What the worker finds when a blocking call returns: the shared
    variables as the other threads left them, whether the monitor swept
    the worker's aircraft meanwhile, and whether the call was a sem_wait
    that returned an error. *)
Record Interf : Type := {
  visto : Mundo;
  monitor_passou : bool;
  erro_sem : bool
}.

Record Estado : Type := {
  mundo : Mundo;
  aviao : Aviao;
  ambiente : list Interf;
  historico : list Evento
}.

Definition le_mundo : M Estado Mundo := s <- le;; ret (mundo s).
Definition le_aviao : M Estado Aviao := s <- le;; ret (aviao s).
Definition time : M Estado Z := s <- le;; ret (relogio (mundo s)).

Definition poe_mundo (f : Mundo -> Mundo) : M Estado unit :=
  altera (fun s => {| mundo := f (mundo s); aviao := aviao s;
                      ambiente := ambiente s; historico := historico s |}).

Definition poe_aviao (f : Aviao -> Aviao) : M Estado unit :=
  altera (fun s => {| mundo := mundo s; aviao := f (aviao s);
                      ambiente := ambiente s; historico := historico s |}).

Definition emite (e : Evento) : M Estado unit :=
  altera (fun s => {| mundo := mundo s; aviao := aviao s;
                      ambiente := ambiente s;
                      historico := historico s ++ [e] |}).

(** Return from a blocking call: the next item of the oracle. *)
Definition acorda (i : Interf) (s : Estado) (resto : list Interf) : Estado :=
  if monitor_passou i then
    let '(a, detectados) := monitor_deadlock (relogio (visto i)) (aviao s) in
    {| mundo := com_deadlock_count (deadlock_count (visto i) + detectados)
                                   (visto i);
       aviao := a; ambiente := resto; historico := historico s |}
  else
    {| mundo := visto i; aviao := aviao s;
       ambiente := resto; historico := historico s |}.

Definition bloqueia : M Estado Interf :=
  fun s => match ambiente s with
           | [] => None
           | i :: resto => Some (i, acorda i s resto)
           end.

Definition checa_falha_m : M Estado bool :=
  fun s =>
    let '(f, (m, a)) := checa_falha (mundo s) (aviao s) in
    Some (f, {| mundo := m; aviao := a;
                ambiente := ambiente s; historico := historico s |}).

(** *** reservar_recursos and liberar_reserva *)

Definition suficiente (np ng nt : Z) (r : Reserva) : bool :=
  (np <=? pistas_disp r) && (ng <=? portoes_disp r) && (nt <=? torres_disp r).

Definition debita (np ng nt : Z) (r : Reserva) : Reserva :=
  {| pistas_disp := pistas_disp r - np;
     portoes_disp := portoes_disp r - ng;
     torres_disp := torres_disp r - nt |}.

Definition credita (np ng nt : Z) (r : Reserva) : Reserva :=
  {| pistas_disp := pistas_disp r + np;
     portoes_disp := portoes_disp r + ng;
     torres_disp := torres_disp r + nt |}.

(** One turn of the while(1) of reservar_recursos: it leaves the loop
    with a return code, or goes to pthread_cond_timedwait. *)
Inductive Volta : Type := Retorna (rc : Z) | Reavalia.

Definition expira (start timeout_seg : Z) : M Estado Volta :=
  now <- time;;
  let rem := timeout_seg - (now - start) in
  if rem <=? 0 then ret (Retorna SEM_TIMEOUT) else ret Reavalia.

Definition concede (np ng nt start timeout_seg : Z) : M Estado Volta :=
  m <- le_mundo;;
  if suficiente np ng nt (reserva m) then
    poe_mundo (com_reserva (debita np ng nt (reserva m)));;;
    ret (Retorna SEM_OK)
  else expira start timeout_seg.

Definition reservar_volta (np ng nt start timeout_seg : Z) : M Estado Volta :=
  m <- le_mundo;;
  if negb (simulacao_ativa m) then ret (Retorna SEM_SIM_ENCERRADA)
  else
    f <- checa_falha_m;;
    if f then ret (Retorna SEM_AVIAO_FALHOU)
    else
      a <- le_aviao;;
      m <- le_mundo;;
      if em_alerta_critico a then concede np ng nt start timeout_seg
      else
        match tipo a with
        | DOMESTICO =>
            if 0 <? esperando_internacional m
            then expira start timeout_seg
            else concede np ng nt start timeout_seg
        | INTERNACIONAL => concede np ng nt start timeout_seg
        end.

Fixpoint reservar_laco (voltas : nat) (np ng nt start timeout_seg : Z)
  : M Estado Z :=
  match voltas with
  | O => trava
  | S voltas' =>
      v <- reservar_volta np ng nt start timeout_seg;;
      match v with
      | Retorna rc => ret rc
      | Reavalia =>
          bloqueia;;;
          reservar_laco voltas' np ng nt start timeout_seg
      end
  end.

(** The loop waits at most once per item of the oracle, so one turn
    more than the oracle is long never runs out. *)
Definition reservar_recursos (np ng nt timeout_seg : Z) : M Estado Z :=
  s <- le;;
  let start := relogio (mundo s) in
  rc <- reservar_laco (S (length (ambiente s))) np ng nt start timeout_seg;;
  emite (EvReservar np ng nt rc);;;
  ret rc.

Definition liberar_reserva (np ng nt : Z) : M Estado unit :=
  m <- le_mundo;;
  poe_mundo (com_reserva (credita np ng nt (reserva m)));;;
  emite (EvLiberaReserva np ng nt).

(** *** aguardar_prioridade and liberar_prioridade *)

(** The condition of the two while loops of aguardar_prioridade, with
    the short-circuit evaluation of &&; [limite] is 1 for an
    international flight and 0 for a domestic one. *)
Definition deve_aguardar (limite : Z) : M Estado bool :=
  m <- le_mundo;;
  if (limite <? esperando_internacional m) && simulacao_ativa m then
    f <- checa_falha_m;;
    if f then ret false
    else a <- le_aviao;; ret (negb (em_alerta_critico a))
  else ret false.

Fixpoint aguardar_laco (voltas : nat) (limite : Z) : M Estado unit :=
  match voltas with
  | O => trava
  | S voltas' =>
      c <- deve_aguardar limite;;
      if c then bloqueia;;; aguardar_laco voltas' limite
      else ret tt
  end.

(** The test after the loop: !simulacao_ativa || checa_falha(aviao). *)
Definition desistiu : M Estado bool :=
  m <- le_mundo;;
  if negb (simulacao_ativa m) then ret true else checa_falha_m.

Definition aguardar_prioridade (t : TipoVoo) : M Estado unit :=
  now <- time;;
  poe_aviao (com_ultimo_tempo_espera now);;;
  m <- le_mundo;;
  poe_mundo (com_esperando t (esperando t m + 1));;;
  emite (EvEntraFila t);;;
  s <- le;;
  aguardar_laco (S (length (ambiente s)))
                (match t with INTERNACIONAL => 1 | DOMESTICO => 0 end);;;
  d <- desistiu;;
  if d then
    m <- le_mundo;;
    poe_mundo (com_esperando t (esperando t m - 1));;;
    emite (EvDesiste t)
  else ret tt.

Definition liberar_prioridade (t : TipoVoo) : M Estado unit :=
  m <- le_mundo;;
  (if 0 <? esperando t m
   then poe_mundo (com_esperando t (esperando t m - 1))
   else ret tt);;;
  emite (EvLiberaPrioridade t).

(** *** Semaphores, flags, sleep *)

(** sem_wait returns 0 only after taking a unit; a worker that the
    oracle wakes with no unit left stays blocked. *)
Definition sem_wait (r : Recurso) : M Estado Z :=
  i <- bloqueia;;
  if erro_sem i then emite (EvSemWaitErro r);;; ret (-1)
  else
    m <- le_mundo;;
    if 0 <? sem_valor r m then
      poe_mundo (com_sem r (sem_valor r m - 1));;;
      emite (EvSemWait r);;;
      ret 0
    else trava.

Definition sem_post (r : Recurso) : M Estado unit :=
  m <- le_mundo;;
  poe_mundo (com_sem r (sem_valor r m + 1));;;
  emite (EvSemPost r).

Definition marca (r : Recurso) (b : bool) : M Estado unit :=
  poe_aviao (com_has r b);;;
  emite (EvHas r b).

Definition sleep (n : Z) : M Estado unit :=
  bloqueia;;;
  emite (EvSleep n).

(** *** The three phases *)

(** The value a phase returns when reservar_recursos returned [r]:
    r == SEM_OK ? 0 : (r == SEM_SIM_ENCERRADA || r == SEM_AVIAO_FALHOU
    ? r : -1). *)
Definition devolve (r : Z) : Z :=
  if r =? SEM_OK then 0
  else if (r =? SEM_SIM_ENCERRADA) || (r =? SEM_AVIAO_FALHOU) then r
  else -1.

(** A block of a C function that may execute [return]: [Some rc] leaves
    the function with [rc], [None] falls through to the next block. *)
Definition segue (b : M Estado (option Z)) (k : M Estado Z) : M Estado Z :=
  x <- b;;
  match x with
  | Some rc => ret rc
  | None => k
  end.

Definition libera_minha_prioridade : M Estado unit :=
  a <- le_aviao;;
  liberar_prioridade (tipo a).

(** if (r != SEM_OK) { if (r == SEM_TIMEOUT) status_final = FALHA;
    liberar_prioridade(tipo); return ...; } *)
Definition reserva_negada (r : Z) : M Estado (option Z) :=
  if negb (r =? SEM_OK) then
    (if r =? SEM_TIMEOUT then poe_aviao (com_status FALHA) else ret tt);;;
    libera_minha_prioridade;;;
    ret (Some (devolve r))
  else ret None.

(** if (has_r) { sem_post(&r); has_r = 0; } *)
Definition solta (r : Recurso) : M Estado unit :=
  a <- le_aviao;;
  if has r a then sem_post r;;; marca r false else ret tt.

(** if (!has_r) { if (sem_wait(&r) != 0) { desfaz; liberar_reserva(...);
    liberar_prioridade(tipo); return -1; } has_r = 1; } *)
Definition toma (r : Recurso) (desfaz : M Estado unit) (np ng nt : Z)
  : M Estado (option Z) :=
  a <- le_aviao;;
  if negb (has r a) then
    w <- sem_wait r;;
    if negb (w =? 0) then
      desfaz;;;
      liberar_reserva np ng nt;;;
      libera_minha_prioridade;;;
      ret (Some (-1))
    else marca r true;;; ret None
  else ret None.

(** The entry of the three phases: the two checks around
    aguardar_prioridade. *)
Definition entrada : M Estado (option Z) :=
  f <- checa_falha_m;;
  if f then ret (Some (-1))
  else
    a <- le_aviao;;
    aguardar_prioridade (tipo a);;;
    f <- checa_falha_m;;
    if f then libera_minha_prioridade;;; ret (Some (-1))
    else ret None.

(** The end of the three phases: the time stamps, the alert flag and
    the status are rewritten, then the priority is released. *)
Definition conclui (f : Fase) : M Estado Z :=
  now <- time;;
  poe_aviao (com_fim f now);;;
  poe_aviao (com_ultimo_tempo_espera now);;;
  poe_aviao (com_alerta false);;;
  a <- le_aviao;;
  (match status_final a with
   | ALERTA_CRITICO => poe_aviao (com_status SUCESSO)
   | _ => ret tt
   end);;;
  libera_minha_prioridade;;;
  ret 0.

Definition marca_inicio (f : Fase) : M Estado unit :=
  now <- time;;
  poe_aviao (com_inicio f now).

Definition pouso : M Estado Z :=
  segue entrada (
  marca_inicio POUSO;;;
  a <- le_aviao;;
  let need_pista := falta (has_pista a) in
  let need_portao := 0 in
  let need_torre := falta (has_torre a) in
  r <- reservar_recursos need_pista need_portao need_torre TIMEOUT_OPERACAO;;
  segue (reserva_negada r) (
  segue (toma TORRE (ret tt) need_pista need_portao need_torre) (
  segue (toma PISTA (solta TORRE) need_pista need_portao need_torre) (
  sleep 1;;;
  solta PISTA;;;
  solta TORRE;;;
  liberar_reserva need_pista need_portao need_torre;;;
  conclui POUSO)))).

Definition desembarque : M Estado Z :=
  segue entrada (
  marca_inicio DESEMBARQUE;;;
  a <- le_aviao;;
  let need_pista := 0 in
  let need_portao := falta (has_portao a) in
  let need_torre := falta (has_torre a) in
  r <- reservar_recursos need_pista need_portao need_torre TIMEOUT_OPERACAO;;
  segue (reserva_negada r) (
  segue (toma TORRE (ret tt) need_pista need_portao need_torre) (
  segue (toma PORTAO (solta TORRE) need_pista need_portao need_torre) (
  sleep 1;;;
  solta TORRE;;;
  liberar_reserva 0 0 need_torre;;;
  sleep 1;;;
  solta PORTAO;;;
  liberar_reserva 0 need_portao 0;;;
  conclui DESEMBARQUE)))).

Definition decolagem : M Estado Z :=
  segue entrada (
  marca_inicio DECOLAGEM;;;
  a <- le_aviao;;
  let need_pista := falta (has_pista a) in
  let need_portao := falta (has_portao a) in
  let need_torre := falta (has_torre a) in
  r <- reservar_recursos need_pista need_portao need_torre TIMEOUT_OPERACAO;;
  segue (reserva_negada r) (
  segue (toma TORRE (ret tt) need_pista need_portao need_torre) (
  segue (toma PORTAO (solta TORRE) need_pista need_portao need_torre) (
  segue (toma PISTA (solta PORTAO;;; solta TORRE)
              need_pista need_portao need_torre) (
  sleep 1;;;
  solta TORRE;;;
  solta PORTAO;;;
  solta PISTA;;;
  liberar_reserva need_pista need_portao need_torre;;;
  conclui DECOLAGEM))))).

(** *** aviao_thread *)

Definition marca_espera : M Estado unit :=
  now <- time;;
  poe_aviao (com_ultimo_tempo_espera now).

(** if (r == SEM_SIM_ENCERRADA || r == SEM_AVIAO_FALHOU) pthread_exit;
    if (r != 0) pthread_exit; *)
Definition encerra (r : Z) : bool :=
  (r =? SEM_SIM_ENCERRADA) || (r =? SEM_AVIAO_FALHOU) || negb (r =? 0).

Definition aviao_thread : M Estado unit :=
  marca_espera;;;
  marca TORRE false;;;
  marca PORTAO false;;;
  marca PISTA false;;;
  r <- pouso;;
  if encerra r then ret tt
  else
    marca_espera;;;
    r <- desembarque;;
    if encerra r then ret tt
    else
      marca_espera;;;
      r <- decolagem;;
      if (r =? SEM_SIM_ENCERRADA) || (r =? SEM_AVIAO_FALHOU) then ret tt
      else if r =? 0 then poe_aviao (com_status SUCESSO)
      else ret tt.

(** *** Initial values *)

(** inicializarRecursos with the configured capacities, at time [t0]. *)
Definition inicializarRecursos (n_pistas n_portoes n_torres t0 : Z)
  : Mundo :=
  {| relogio := t0; simulacao_ativa := true;
     pistas := n_pistas; portoes := n_portoes; torres := n_torres;
     reserva := {| pistas_disp := n_pistas; portoes_disp := n_portoes;
                   torres_disp := n_torres |};
     esperando_internacional := 0; esperando_domestico := 0;
     deadlock_count := 0; acidentes_count := 0 |}.

(** The record main fills for a new aircraft: the status starts at
    SUCESSO. *)
Definition novo (i : Z) (tp : TipoVoo) (t0 : Z) : Aviao :=
  {| id := i; tipo := tp; criacao := t0;
     inicio_pouso := 0; fim_pouso := 0;
     inicio_desembarque := 0; fim_desembarque := 0;
     inicio_decolagem := 0; fim_decolagem := 0;
     status_final := SUCESSO;
     tempo_espera_total := 0;
     em_alerta_critico := false;
     ultimo_tempo_espera := t0;
     has_pista := false; has_portao := false; has_torre := false |}.

(** A wake-up that finds the world [m], with no sweep of the monitor
    and no error. *)
Definition encontra (m : Mundo) : Interf :=
  {| visto := m; monitor_passou := false; erro_sem := false |}.

Definition inicio (m : Mundo) (a : Aviao) (amb : list Interf) : Estado :=
  {| mundo := m; aviao := a; ambiente := amb; historico := [] |}.

(** *** The phases as the specification tabulates them

    The acquisition order of each phase and the events a phase leaves in
    the log along each of its control paths, written from the table and
    the protocol of the specification (section 4.3).  The proofs show
    that every run of [pouso], [desembarque] and [decolagem] follows one
    of these paths. *)

(** The three progress flags of an aircraft. *)
Record Posse : Type := {
  tem_pista : bool;
  tem_portao : bool;
  tem_torre : bool
}.

Definition posse (a : Aviao) : Posse :=
  {| tem_pista := has_pista a; tem_portao := has_portao a;
     tem_torre := has_torre a |}.

Definition tem (r : Recurso) (p : Posse) : bool :=
  match r with
  | PISTA => tem_pista p
  | PORTAO => tem_portao p
  | TORRE => tem_torre p
  end.

Definition com_tem (r : Recurso) (b : bool) (p : Posse) : Posse :=
  {| tem_pista := match r with PISTA => b | _ => tem_pista p end;
     tem_portao := match r with PORTAO => b | _ => tem_portao p end;
     tem_torre := match r with TORRE => b | _ => tem_torre p end |}.

Definition nada : Posse :=
  {| tem_pista := false; tem_portao := false; tem_torre := false |}.

(** Landing: tower, runway.  Disembarkation: tower, gate.  Takeoff:
    tower, gate, runway. *)
Definition ordem (f : Fase) : list Recurso :=
  match f with
  | POUSO => [TORRE; PISTA]
  | DESEMBARQUE => [TORRE; PORTAO]
  | DECOLAGEM => [TORRE; PORTAO; PISTA]
  end.

(** The remaining need of resource [r] in phase [f] for an aircraft that
    holds [p]. *)
Definition precisa (f : Fase) (r : Recurso) (p : Posse) : Z :=
  if existsb (Recurso_eqb r) (ordem f) then falta (tem r p) else 0.

(** The control paths of a phase: the aircraft is found failed at the
    entry; it is found failed after the priority wait; the reservation
    returns [r], not SEM_OK; the reservation succeeds and the sem_wait of
    resource [r] fails; the phase completes.  [d] tells whether
    aguardar_prioridade took the aircraft out of the count itself. *)
Inductive Caminho : Type :=
| CFalhaEntrada
| CFalhaFila (d : bool)
| CNegada (d : bool) (r : Z)
| CErro (d : bool) (r : Recurso)
| CCompleta (d : bool).

Definition ev_fila (t : TipoVoo) (d : bool) : list Evento :=
  EvEntraFila t :: (if d then [EvDesiste t] else []).

Definition ev_solta (r : Recurso) (p : Posse) : list Evento * Posse :=
  if tem r p then ([EvSemPost r; EvHas r false], com_tem r false p)
  else ([], p).

Fixpoint ev_desfaz (feitos : list Recurso) (p : Posse)
  : list Evento * Posse :=
  match feitos with
  | [] => ([], p)
  | r :: resto =>
      let '(e1, p1) := ev_solta r p in
      let '(e2, p2) := ev_desfaz resto p1 in
      (e1 ++ e2, p2)
  end.

(** The acquisitions in the order [ord]; [erro] names the resource whose
    sem_wait fails, [feitos] lists the resources already passed, last
    first.  The boolean tells whether all were taken. *)
Fixpoint ev_toma (erro : option Recurso) (ord feitos : list Recurso)
                 (p : Posse) : list Evento * Posse * bool :=
  match ord with
  | [] => ([], p, true)
  | r :: resto =>
      if tem r p then ev_toma erro resto (r :: feitos) p
      else if match erro with
              | Some e => Recurso_eqb e r
              | None => false
              end
      then let '(e, p') := ev_desfaz feitos p in
           (EvSemWaitErro r :: e, p', false)
      else let '(e, p', ok) :=
             ev_toma erro resto (r :: feitos) (com_tem r true p) in
           (EvSemWait r :: EvHas r true :: e, p', ok)
  end.

(** The releases that close a completed phase; [p0] is what the aircraft
    held at the entry, [p] what it holds after the phase body. *)
Definition ev_final (f : Fase) (p0 p : Posse) : list Evento * Posse :=
  let np := precisa f PISTA p0 in
  let ng := precisa f PORTAO p0 in
  let nt := precisa f TORRE p0 in
  match f with
  | POUSO =>
      let '(e1, p1) := ev_desfaz [PISTA; TORRE] p in
      (e1 ++ [EvLiberaReserva np ng nt], p1)
  | DESEMBARQUE =>
      let '(e1, p1) := ev_solta TORRE p in
      let '(e2, p2) := ev_solta PORTAO p1 in
      (e1 ++ [EvLiberaReserva 0 0 nt; EvSleep 1] ++ e2
          ++ [EvLiberaReserva 0 ng 0], p2)
  | DECOLAGEM =>
      let '(e1, p1) := ev_desfaz [TORRE; PORTAO; PISTA] p in
      (e1 ++ [EvLiberaReserva np ng nt], p1)
  end.

(** The log of phase [f] along path [c] for a flight of class [t] that
    enters holding [p0], and what the aircraft holds at the return. *)
Definition rastro (f : Fase) (t : TipoVoo) (p0 : Posse) (c : Caminho)
  : list Evento * Posse :=
  let np := precisa f PISTA p0 in
  let ng := precisa f PORTAO p0 in
  let nt := precisa f TORRE p0 in
  match c with
  | CFalhaEntrada => ([], p0)
  | CFalhaFila d => (ev_fila t d ++ [EvLiberaPrioridade t], p0)
  | CNegada d r =>
      (ev_fila t d ++ [EvReservar np ng nt r; EvLiberaPrioridade t], p0)
  | CErro d r =>
      let '(e, p, _) := ev_toma (Some r) (ordem f) [] p0 in
      (ev_fila t d ++ [EvReservar np ng nt SEM_OK] ++ e
         ++ [EvLiberaReserva np ng nt; EvLiberaPrioridade t], p)
  | CCompleta d =>
      let '(e, p, _) := ev_toma None (ordem f) [] p0 in
      let '(e2, p2) := ev_final f p0 p in
      (ev_fila t d ++ [EvReservar np ng nt SEM_OK] ++ e
         ++ [EvSleep 1] ++ e2 ++ [EvLiberaPrioridade t], p2)
  end.

Definition retorno (c : Caminho) : Z :=
  match c with
  | CNegada _ r => devolve r
  | CCompleta _ => 0
  | _ => -1
  end.

(** The paths a phase can take from [p0]: a denied reservation does not
    return SEM_OK, and only a resource of the phase that is not held can
    fail to be taken. *)
Definition possivel (f : Fase) (p0 : Posse) (c : Caminho) : Prop :=
  match c with
  | CNegada _ r => r <> SEM_OK
  | CErro _ r => In r (ordem f) /\ tem r p0 = false
  | _ => True
  end.

Definition fase (f : Fase) : M Estado Z :=
  match f with
  | POUSO => pouso
  | DESEMBARQUE => desembarque
  | DECOLAGEM => decolagem
  end.

(** [ate_aqui s0 tr p s]: since state [s0] the worker has logged [tr],
    it holds [p], and its flight class is unchanged. *)
Definition ate_aqui (s0 : Estado) (tr : list Evento) (p : Posse)
                    (s : Estado) : Prop :=
  historico s = historico s0 ++ tr
  /\ posse (aviao s) = p
  /\ tipo (aviao s) = tipo (aviao s0).

(** What a path leaves in the aircraft record besides the flags: a
    reservation that timed out leaves the status FALHA, a completed phase
    leaves the alert flag down. *)
Definition desfecho (c : Caminho) (a : Aviao) : Prop :=
  match c with
  | CNegada _ r => r = SEM_TIMEOUT -> status_final a = FALHA
  | CCompleta _ => em_alerta_critico a = false
  | _ => True
  end.

(** [segue_caminho f s0 rc s]: the run of phase [f] from [s0] that
    returned [rc] in state [s] followed one of the tabulated paths. *)
Definition segue_caminho (f : Fase) (s0 : Estado) (rc : Z) (s : Estado)
  : Prop :=
  exists c,
    possivel f (posse (aviao s0)) c
    /\ ate_aqui s0 (fst (rastro f (tipo (aviao s0)) (posse (aviao s0)) c))
                   (snd (rastro f (tipo (aviao s0)) (posse (aviao s0)) c)) s
    /\ rc = retorno c
    /\ desfecho c (aviao s).

(** *** Reading a log *)

(** The resources on which sem_wait was called, in the order of the
    calls. *)
Definition tentados (tr : list Evento) : list Recurso :=
  flat_map (fun e => match e with
                     | EvSemWait r | EvSemWaitErro r => [r]
                     | _ => []
                     end) tr.

(** How many units of [r] the worker took, and how many it gave back. *)
Definition tomadas (r : Recurso) (tr : list Evento) : nat :=
  length (filter (fun e => match e with
                           | EvSemWait r' => Recurso_eqb r r'
                           | _ => false
                           end) tr).

Definition devolvidas (r : Recurso) (tr : list Evento) : nat :=
  length (filter (fun e => match e with
                           | EvSemPost r' => Recurso_eqb r r'
                           | _ => false
                           end) tr).

(** The resources whose flag the worker raised. *)
Definition marcados (tr : list Evento) : list Recurso :=
  flat_map (fun e => match e with
                     | EvHas r true => [r]
                     | _ => []
                     end) tr.

Definition zero : Reserva :=
  {| pistas_disp := 0; portoes_disp := 0; torres_disp := 0 |}.

(** What the worker took from the reservation gate, and what it gave
    back to it. *)
Definition debitado (tr : list Evento) : Reserva :=
  fold_left (fun acc e => match e with
                          | EvReservar p g t rc =>
                              if rc =? SEM_OK then credita p g t acc else acc
                          | _ => acc
                          end) tr zero.

Definition creditado (tr : list Evento) : Reserva :=
  fold_left (fun acc e => match e with
                          | EvLiberaReserva p g t => credita p g t acc
                          | _ => acc
                          end) tr zero.


(** The resources of phase [f] that an aircraft holding [p] has to
    take, in the order of the phase. *)
Definition a_tomar (f : Fase) (p : Posse) : list Recurso :=
  filter (fun r => negb (tem r p)) (ordem f).

(** A wake-up from a sem_wait that returned an error. *)
Definition erro (m : Mundo) : Interf :=
  {| visto := m; monitor_passou := false; erro_sem := true |}.

(** A domestic flight that lands on an idle airport (3 runways, 5 gates,
    2 tower slots) and whose sem_wait on the runway returns an error. *)
Definition pouso_com_erro : Estado :=
  inicio (inicializarRecursos 3 5 2 100) (novo 1 DOMESTICO 100)
         [encontra (inicializarRecursos 3 5 2 100);
          erro (inicializarRecursos 3 5 2 100)].

(** The same flight with nothing in its way: one wake-up per blocking
    call of the three phases. *)
Definition voo_tranquilo : Estado :=
  inicio (inicializarRecursos 3 5 2 100) (novo 1 DOMESTICO 100)
         (map (fun t => encontra (inicializarRecursos 3 5 2 t))
              [100; 100; 101; 101; 101; 102; 103; 103; 103; 103; 104]).

(** *** The log of a whole flight *)

Definition fases : list Fase := [POUSO; DESEMBARQUE; DECOLAGEM].

(** What aviao_thread logs before the first phase: the three flags are
    lowered. *)
Definition ev_partida : list Evento :=
  [EvHas TORRE false; EvHas PORTAO false; EvHas PISTA false].

(** The paths of the successive phases of a flight: a phase is entered
    only when the one before returned 0. *)
Fixpoint voo_valido (fs : list Fase) (cs : list Caminho) : Prop :=
  match cs with
  | [] => fs = []
  | c :: cs' =>
      match fs with
      | [] => False
      | f :: fs' =>
          possivel f nada c
          /\ (if retorno c =? 0 then voo_valido fs' cs' else cs' = [])
      end
  end.

(** The log of the phases [fs] along the paths [cs], each phase entered
    with no flag up. *)
Fixpoint rastro_voo (t : TipoVoo) (fs : list Fase) (cs : list Caminho)
  : list Evento :=
  match fs, cs with
  | f :: fs', c :: cs' => fst (rastro f t nada c) ++ rastro_voo t fs' cs'
  | _, _ => []
  end.

(** The amounts of the calls of reservar_recursos, in order. *)
Definition reservas (tr : list Evento) : list (Z * Z * Z) :=
  flat_map (fun e => match e with
                     | EvReservar p g t _ => [(p, g, t)]
                     | _ => []
                     end) tr.

(** The full requirement of a phase (runway, gate, tower). *)
Definition requer (f : Fase) : Z * Z * Z :=
  match f with
  | POUSO => (1, 0, 1)
  | DESEMBARQUE => (0, 1, 1)
  | DECOLAGEM => (1, 1, 1)
  end.

(** *** Several workers over one reservation gate

    The workers of a simulation are replayed from their logs: a step of
    the system is the next event of one worker.  A reservation that
    returned SEM_OK can only be replayed when the gate holds enough, as
    in reservar_recursos; the other events are always enabled.  Each
    worker carries its account: what it has reserved and not yet given
    back, and its three flags. *)

Definition disp (r : Recurso) (x : Reserva) : Z :=
  match r with
  | PISTA => pistas_disp x
  | PORTAO => portoes_disp x
  | TORRE => torres_disp x
  end.

Record Conta : Type := {
  devido : Reserva;
  marcado : Posse
}.

Definition conta_zero : Conta := {| devido := zero; marcado := nada |}.

(** The effect of an event on the account of the worker that logs it. *)
Definition lanca (e : Evento) (c : Conta) : Conta :=
  match e with
  | EvReservar p g t rc =>
      if rc =? SEM_OK
      then {| devido := credita p g t (devido c); marcado := marcado c |}
      else c
  | EvLiberaReserva p g t =>
      {| devido := debita p g t (devido c); marcado := marcado c |}
  | EvHas r b => {| devido := devido c; marcado := com_tem r b (marcado c) |}
  | _ => c
  end.

(** The effect of an event on the gate; [None] when the event cannot
    happen in this state of the gate. *)
Definition efeito (e : Evento) (l : Reserva) : option Reserva :=
  match e with
  | EvReservar p g t rc =>
      if rc =? SEM_OK
      then if suficiente p g t l then Some (debita p g t l) else None
      else Some l
  | EvLiberaReserva p g t => Some (credita p g t l)
  | _ => Some l
  end.

Record Fio : Type := {
  conta : Conta;
  resta : list Evento
}.

Record Sistema : Type := {
  livre : Reserva;
  fios : list Fio
}.

Inductive passo : Sistema -> Sistema -> Prop :=
| passo_fio : forall l l' antes depois c e tr,
    efeito e l = Some l' ->
    passo {| livre := l;
             fios := antes ++ {| conta := c; resta := e :: tr |} :: depois |}
          {| livre := l';
             fios := antes ++ {| conta := lanca e c; resta := tr |}
                           :: depois |}.

(** The logs of the workers: the complete logs of aviao_thread, run
    from any state against any oracle. *)
Definition rastro_de_voo (tr : list Evento) : Prop :=
  exists s s',
    historico s = [] /\ aviao_thread s = Some (tt, s') /\ historico s' = tr.

(** The system as inicializarRecursos leaves it: the gate holds the
    capacities and no worker has done anything. *)
Definition partida (cap : Reserva) (s : Sistema) : Prop :=
  livre s = cap
  /\ Forall (fun f => conta f = conta_zero /\ rastro_de_voo (resta f))
            (fios s).

Inductive alcancavel (cap : Reserva) : Sistema -> Prop :=
| alc_partida : forall s, partida cap s -> alcancavel cap s
| alc_passo : forall s s', alcancavel cap s -> passo s s' ->
                           alcancavel cap s'.

(** The units of [r] that the workers have reserved, and the number of
    flags of [r] that are up. *)
Definition reservado (r : Recurso) (fs : list Fio) : Z :=
  fold_right (fun f acc => disp r (devido (conta f)) + acc) 0 fs.

Definition em_posse (r : Recurso) (fs : list Fio) : Z :=
  fold_right (fun f acc => Z.b2z (tem r (marcado (conta f))) + acc) 0 fs.

(** An account is sound when a flag is up only for a unit that is
    reserved; a log is safe from an account when the account stays sound
    along it and it only credits amounts that are not negative. *)
Definition conta_ok (c : Conta) : bool :=
  (Z.b2z (tem_pista (marcado c)) <=? pistas_disp (devido c))
  && (Z.b2z (tem_portao (marcado c)) <=? portoes_disp (devido c))
  && (Z.b2z (tem_torre (marcado c)) <=? torres_disp (devido c)).

Definition evento_ok (e : Evento) : bool :=
  match e with
  | EvLiberaReserva p g t => (0 <=? p) && (0 <=? g) && (0 <=? t)
  | _ => true
  end.

Fixpoint seguro (c : Conta) (tr : list Evento) : bool :=
  conta_ok c
  && match tr with
     | [] => true
     | e :: tr' => evento_ok e && seguro (lanca e c) tr'
     end.

Definition lanca_todos (tr : list Evento) (c : Conta) : Conta :=
  fold_left (fun acc e => lanca e acc) tr c.

(** What the replay keeps true: the gate and the accounts add up to the
    capacities, the gate is never negative, every worker's remaining log
    is safe from its account. *)
Definition conserva (cap : Reserva) (s : Sistema) : Prop :=
  (forall r, disp r (livre s) + reservado r (fios s) = disp r cap)
  /\ (forall r, 0 <= disp r (livre s))
  /\ Forall (fun f => seguro (conta f) (resta f) = true) (fios s).

(** The replay of the next event of the first worker, and of the next
    [n] events. *)
Definition avanca (s : Sistema) : option Sistema :=
  match fios s with
  | {| conta := c; resta := e :: tr |} :: depois =>
      match efeito e (livre s) with
      | Some l' =>
          Some {| livre := l';
                  fios := {| conta := lanca e c; resta := tr |} :: depois |}
      | None => None
      end
  | _ => None
  end.

Fixpoint avanca_n (n : nat) (s : Sistema) : option Sistema :=
  match n with
  | O => Some s
  | S n' =>
      match avanca s with
      | Some s' => avanca_n n' s'
      | None => None
      end
  end.

(** The log of the flight [voo_tranquilo], and an airport with 3
    runways, 5 gates and 2 tower slots where it is the only flight. *)
Definition rastro_tranquilo : list Evento :=
  match aviao_thread voo_tranquilo with
  | Some (_, s') => historico s'
  | None => []
  end.

Definition capacidade_padrao : Reserva :=
  {| pistas_disp := 3; portoes_disp := 5; torres_disp := 2 |}.

Definition um_voo : Sistema :=
  {| livre := capacidade_padrao;
     fios := [{| conta := conta_zero; resta := rastro_tranquilo |}] |}.

(** The same airport when the flight has its landing reservation and
    has not yet taken the semaphores: five events into its log. *)
Definition um_voo_reservado : Sistema :=
  {| livre := {| pistas_disp := 2; portoes_disp := 5; torres_disp := 1 |};
     fios := [{| conta := {| devido := {| pistas_disp := 1;
                                          portoes_disp := 0;
                                          torres_disp := 1 |};
                             marcado := nada |};
                 resta := skipn 5 rastro_tranquilo |}] |}.

(** *** What reservar_recursos decides on *)

(** The part of the shared state that reservar_recursos decides on: the
    three counters of the gate and the count of contending international
    flights. *)
Definition porta (m : Mundo) : Reserva * Z :=
  (reserva m, esperando_internacional m).

(** The gate as the caller saw it last: at the last of the wake-ups
    [cons] it went through, or at the call when it never waited. *)
Definition porta_vista (m : Mundo) (cons : list Interf) : Reserva * Z :=
  last (map (fun i => porta (visto i)) cons) (porta m).

(** What reservar_recursos does when it returns [rc], the gate being
    [g] at that moment: SEM_OK is returned only when the three counters
    suffice and the class rule lets the caller pass, and then exactly the
    amounts asked are debited; otherwise the counters are left alone. *)
Definition decisao (np ng nt : Z) (g : Reserva * Z) (rc : Z) (s' : Estado)
  : Prop :=
  (rc = SEM_OK ->
     np <= pistas_disp (fst g) /\ ng <= portoes_disp (fst g)
     /\ nt <= torres_disp (fst g)
     /\ reserva (mundo s') = debita np ng nt (fst g)
     /\ (tipo (aviao s') = DOMESTICO ->
         em_alerta_critico (aviao s') = false -> snd g <= 0))
  /\ (rc <> SEM_OK -> reserva (mundo s') = fst g).

(** An idle airport where one international flight is contending, at
    time [t]. *)
Definition internacional_esperando (t : Z) : Mundo :=
  com_esperando INTERNACIONAL 1 (inicializarRecursos 3 5 2 t).

(** A domestic flight that asks for a runway and a tower slot there and
    is woken at 105 and at 110 seconds; the same flight in critical
    alert. *)
Definition domestico_barrado : Estado :=
  inicio (internacional_esperando 100) (novo 1 DOMESTICO 100)
         [encontra (internacional_esperando 105);
          encontra (internacional_esperando 110)].

Definition domestico_em_alerta : Estado :=
  inicio (internacional_esperando 100)
         (com_alerta true (novo 1 DOMESTICO 100))
         [encontra (internacional_esperando 105);
          encontra (internacional_esperando 110)].

(** The codes the calls of reservar_recursos returned, in order. *)
Definition codigos (tr : list Evento) : list Z :=
  flat_map (fun e => match e with
                     | EvReservar _ _ _ rc => [rc]
                     | _ => []
                     end) tr.

(** The aircraft of the worker is in critical alert. *)
Definition em_alerta (s : Estado) : Prop :=
  em_alerta_critico (aviao s) = true.

(** What a block of a phase guarantees when it keeps the invariant [P]:
    it leaves the phase only with a failure code. *)
Definition sai_ou_segue (P : Estado -> Prop) (x : option Z) (s : Estado)
  : Prop :=
  P s /\ match x with
         | Some rc => rc <> 0
         | None => True
         end.

(** *** An airport with no runway *)

(** The gate holds no runway, now and at every wake-up to come, and the
    aircraft holds none. *)
Definition sem_pista (s : Estado) : Prop :=
  pistas_disp (reserva (mundo s)) <= 0
  /\ Forall (fun i => pistas_disp (reserva (visto i)) <= 0) (ambiente s)
  /\ has_pista (aviao s) = false.

(** The idle airport with no runway, still running at time [t], and
    stopped. *)
Definition sem_pistas_em (t : Z) : Mundo := inicializarRecursos 0 5 2 t.

Definition encerrada (m : Mundo) : Mundo :=
  {| relogio := relogio m; simulacao_ativa := false;
     pistas := pistas m; portoes := portoes m; torres := torres m;
     reserva := reserva m;
     esperando_internacional := esperando_internacional m;
     esperando_domestico := esperando_domestico m;
     deadlock_count := deadlock_count m;
     acidentes_count := acidentes_count m |}.

(** A flight that arrives there and waits the ten seconds of the
    timeout; a flight that arrives one second before the simulation is
    stopped. *)
Definition sem_pista_espera : Estado :=
  inicio (sem_pistas_em 100) (novo 1 INTERNACIONAL 100)
         [encontra (sem_pistas_em 105); encontra (sem_pistas_em 110)].

Definition sem_pista_encerra : Estado :=
  inicio (sem_pistas_em 100) (novo 1 INTERNACIONAL 100)
         [encontra (encerrada (sem_pistas_em 101))].

(** The aircraft has not been given up: checa_falha would let it go on
    unless verificar_starvation marks it now. *)
Definition vivo (a : Aviao) : Prop :=
  status_final a <> FALHA /\ status_final a <> STARVATION.

(** A world in which a worker that last made progress at [u] and asks
    for [np] runways can only wait: the simulation runs, the starvation
    limit is not reached, and the gate has fewer than [np] runways. *)
Definition retido (u np : Z) (m : Mundo) : Prop :=
  simulacao_ativa m = true
  /\ relogio m - u < TEMPO_MAXIMO_ESPERA
  /\ pistas_disp (reserva m) < np.

(** *** The alert across two phases *)

(** A domestic flight in critical alert lands while an international
    flight is contending; the queue is the same when it comes to
    disembark, until the simulation is stopped. *)
Definition na_fila (t : Z) : Mundo :=
  com_esperando DOMESTICO 1 (internacional_esperando t).

Definition pousando (t : Z) : Mundo :=
  com_reserva (debita 1 0 1 capacidade_padrao) (na_fila t).

Definition alerta_que_pousa : Estado :=
  inicio (internacional_esperando 100)
         (com_alerta true (novo 1 DOMESTICO 100))
         [encontra (pousando 100);
          encontra (com_sem TORRE 1 (pousando 100));
          encontra (com_sem PISTA 2 (com_sem TORRE 1 (pousando 101)));
          encontra (na_fila 130);
          encontra (encerrada (na_fila 140))].

(** The same flight where there is no runway. *)
Definition alerta_sem_pista : Estado :=
  inicio (sem_pistas_em 100) (com_alerta true (novo 1 DOMESTICO 100))
         [encontra (sem_pistas_em 105); encontra (sem_pistas_em 110)].

(** *** An aircraft that was given up *)

(** The two values of the status that checa_falha looks for. *)
Definition falho (a : Aviao) : Prop :=
  status_final a = FALHA \/ status_final a = STARVATION.

(** A domestic flight marked FALHA on an idle airport, with two
    wake-ups to spend. *)
Definition ja_falhou : Estado :=
  inicio (inicializarRecursos 3 5 2 100)
         (com_status FALHA (novo 1 DOMESTICO 100))
         [encontra (inicializarRecursos 3 5 2 105);
          encontra (inicializarRecursos 3 5 2 110)].

(** *** The sweep of monitor_deadlock and gerarRelatorioFinal *)

(** The for loop of monitor_deadlock over the array, at time [agora]:
    the array as the sweep leaves it and the value of [detectados]. *)
Fixpoint varre (agora : Z) (avioes : list Aviao) : list Aviao * Z :=
  match avioes with
  | [] => ([], 0)
  | a :: resto =>
      let '(a', d) := monitor_deadlock agora a in
      let '(resto', n) := varre agora resto in
      (a' :: resto', d + n)
  end.

(** One turn of the while loop after the sleep: the sweep, then
    deadlock_count += detectados. *)
Definition monitor_passada (m : Mundo) (avioes : list Aviao)
  : Mundo * list Aviao :=
  let '(avioes', detectados) := varre (relogio m) avioes in
  (com_deadlock_count (deadlock_count m + detectados) m, avioes').

(** The five totals of gerarRelatorioFinal. *)
Record Resumo : Type := {
  sucesso : Z;
  falha : Z;
  alerta : Z;
  starvation : Z;
  deadlocks : Z
}.

(** The body of the for loop: records with id 0 are passed over. *)
Definition soma_no_resumo (r : Resumo) (a : Aviao) : Resumo :=
  if id a =? 0 then r
  else
    match status_final a with
    | SUCESSO =>
        {| sucesso := sucesso r + 1; falha := falha r; alerta := alerta r;
           starvation := starvation r; deadlocks := deadlocks r |}
    | FALHA =>
        {| sucesso := sucesso r; falha := falha r + 1; alerta := alerta r;
           starvation := starvation r; deadlocks := deadlocks r |}
    | ALERTA_CRITICO =>
        {| sucesso := sucesso r; falha := falha r; alerta := alerta r + 1;
           starvation := starvation r; deadlocks := deadlocks r |}
    | STARVATION =>
        {| sucesso := sucesso r; falha := falha r; alerta := alerta r;
           starvation := starvation r + 1; deadlocks := deadlocks r |}
    | DEADLOCK =>
        {| sucesso := sucesso r; falha := falha r; alerta := alerta r;
           starvation := starvation r; deadlocks := deadlocks r + 1 |}
    end.

Definition gerarRelatorioFinal (avioes : list Aviao) : Resumo :=
  fold_left soma_no_resumo avioes
            {| sucesso := 0; falha := 0; alerta := 0;
               starvation := 0; deadlocks := 0 |}.

(** The records of the array that hold an aircraft, and those among
    them with a given status. *)
Definition criado (a : Aviao) : bool := negb (id a =? 0).

Definition status_eqb (x y : StatusAviao) : bool :=
  match x, y with
  | SUCESSO, SUCESSO | FALHA, FALHA | ALERTA_CRITICO, ALERTA_CRITICO
  | STARVATION, STARVATION | DEADLOCK, DEADLOCK => true
  | _, _ => false
  end.

Definition com_status_de (st : StatusAviao) (avioes : list Aviao) : Z :=
  Z.of_nat (length (filter (fun a => criado a
                                     && status_eqb (status_final a) st)
                           avioes)).

(** Some phase of the aircraft began and is still open after more than
    LIMITE_DEADLOCK seconds. *)
Definition parado (agora : Z) (a : Aviao) : bool :=
  preso agora (inicio_pouso a) (fim_pouso a)
  || preso agora (inicio_desembarque a) (fim_desembarque a)
  || preso agora (inicio_decolagem a) (fim_decolagem a).

(** *** Why reservar_recursos returned *)

(** The four ways out of the loop of reservar_recursos, read in the
    state the call leaves; [start] is the time of the call. *)
Definition motivo (start timeout_seg rc : Z) (s : Estado) : Prop :=
  (rc = SEM_OK
   /\ simulacao_ativa (mundo s) = true /\ ~ falho (aviao s))
  \/ (rc = SEM_TIMEOUT
      /\ simulacao_ativa (mundo s) = true /\ ~ falho (aviao s)
      /\ timeout_seg <= relogio (mundo s) - start)
  \/ (rc = SEM_SIM_ENCERRADA /\ simulacao_ativa (mundo s) = false)
  \/ (rc = SEM_AVIAO_FALHOU
      /\ simulacao_ativa (mundo s) = true /\ falho (aviao s)).

(** The resources whose sem_wait returned an error. *)
Definition erros (tr : list Evento) : list Recurso :=
  flat_map (fun e => match e with
                     | EvSemWaitErro r => [r]
                     | _ => []
                     end) tr.

(** *** sem_trywait_timeout *)

Definition verificar_starvation_m : M Estado unit :=
  altera (fun s =>
            let '(m, a) := verificar_starvation (mundo s) (aviao s) in
            {| mundo := m; aviao := a;
               ambiente := ambiente s; historico := historico s |}).

(** sem_trywait(sem) == 0: a unit is taken when there is one. *)
Definition sem_trywait (r : Recurso) : M Estado bool :=
  m <- le_mundo;;
  if 0 <? sem_valor r m then
    poe_mundo (com_sem r (sem_valor r m - 1));;;
    emite (EvSemWait r);;;
    ret true
  else ret false.

(** The while loop of sem_trywait_timeout; usleep is the blocking
    call. *)
Fixpoint sem_trywait_laco (voltas : nat) (r : Recurso) (start segundos : Z)
  : M Estado Z :=
  match voltas with
  | O => trava
  | S voltas' =>
      now <- time;;
      if now - start <? segundos then
        m <- le_mundo;;
        if negb (simulacao_ativa m) then ret SEM_SIM_ENCERRADA
        else
          f <- checa_falha_m;;
          if f then ret SEM_AVIAO_FALHOU
          else
            ok <- sem_trywait r;;
            if ok then ret SEM_OK
            else
              bloqueia;;;
              now <- time;;
              poe_aviao (com_ultimo_tempo_espera now);;;
              verificar_starvation_m;;;
              f <- checa_falha_m;;
              if f then ret SEM_AVIAO_FALHOU
              else sem_trywait_laco voltas' r start segundos
      else ret SEM_TIMEOUT
  end.

Definition sem_trywait_timeout (r : Recurso) (segundos : Z) : M Estado Z :=
  start <- time;;
  s <- le;;
  sem_trywait_laco (S (length (ambiente s))) r start segundos.

(** What the call leaves in the log when it returns [rc]. *)
Definition tomou (r : Recurso) (rc : Z) : list Evento :=
  if rc =? SEM_OK then [EvSemWait r] else [].

(** A flight polls the tower, which is taken, for two seconds. *)
Definition torre_tomada (t : Z) : Mundo :=
  com_sem TORRE 0 (inicializarRecursos 3 5 2 t).

Definition sem_torre : Estado :=
  inicio (torre_tomada 100) (novo 1 DOMESTICO 100)
         [encontra (torre_tomada 101); encontra (torre_tomada 102)].

(** The most international flights that may be registered while a
    flight of class [t] goes on: itself for an international flight,
    none for a domestic one. *)
Definition limite_da_fila (t : TipoVoo) : Z :=
  match t with INTERNACIONAL => 1 | DOMESTICO => 0 end.

(** A domestic flight arrives while an international flight is
    registered; one second later the international flight has left. *)
Definition atras_de_internacional : Estado :=
  inicio (com_esperando INTERNACIONAL 1 (inicializarRecursos 3 5 2 100))
         (novo 2 DOMESTICO 100)
         [encontra (com_esperando DOMESTICO 1
                      (inicializarRecursos 3 5 2 101))].

(** What ends the wait of aguardar_prioridade. *)
Definition pode_seguir (limite : Z) (s : Estado) : Prop :=
  esperando_internacional (mundo s) <= limite
  \/ simulacao_ativa (mundo s) = false
  \/ falho (aviao s)
  \/ em_alerta_critico (aviao s) = true.

(** Replaying a log for the semaphore of [r]: whether the worker holds
    a unit, or [None] once it took a second unit while holding one or
    posted the semaphore while holding none. *)
Definition passo_semaforo (r : Recurso) (h : option bool) (e : Evento)
  : option bool :=
  match h with
  | None => None
  | Some b =>
      match e with
      | EvSemWait r' =>
          if Recurso_eqb r r' then (if b then None else Some true)
          else Some b
      | EvSemPost r' =>
          if Recurso_eqb r r' then (if b then Some false else None)
          else Some b
      | _ => Some b
      end
  end.

Definition retem (r : Recurso) (b : bool) (tr : list Evento)
  : option bool :=
  fold_left (passo_semaforo r) tr (Some b).

(** *** A thread started after the end *)

(** A domestic flight whose thread starts when the simulation has been
    stopped, another domestic flight being counted in the queue; the
    oracle holds no wake-up. *)
Definition chega_tarde : Estado :=
  inicio (encerrada (com_esperando DOMESTICO 1
                                   (inicializarRecursos 3 5 2 100)))
         (novo 7 DOMESTICO 100) [].

(** What the thread leaves in the record after the paths [cs]: the
    status written after a third phase that returned 0, and otherwise
    what the last path left. *)
Definition fim_do_voo (cs : list Caminho) (a : Aviao) : Prop :=
  match cs with
  | [_; _; c] =>
      if retorno c =? 0 then status_final a = SUCESSO else desfecho c a
  | [_; c] | [c] => desfecho c a
  | _ => True
  end.

(** An international flight that is marked DEADLOCK when its thread
    starts and finds nothing in its way. *)
Definition voo_marcado : Estado :=
  inicio (inicializarRecursos 3 5 2 100)
         (com_status DEADLOCK (novo 1 INTERNACIONAL 100))
         (ambiente voo_tranquilo).

(** *** The shared counters as a phase leaves them

    The world of the worker is replaced at every wake-up, so what a
    phase leaves in the shared counters is read against the last
    wake-up the phase went through. *)

(** The wake-ups still to come are the last ones of [amb0]. *)
Definition por_vir (amb0 : list Interf) (s : Estado) : Prop :=
  exists pre, amb0 = pre ++ ambiente s.

(** The calls of reservar_recursos in a log. *)
Definition pedidos (tr : list Evento) : list Evento :=
  filter (fun e => match e with
                   | EvReservar _ _ _ _ => true
                   | _ => false
                   end) tr.

(** Since the oracle was [amb0] and the log [h0] the worker has used
    some wake-ups and called reservar_recursos as [c] tells. *)
Definition curso (amb0 : list Interf) (h0 c : list Evento) (s : Estado)
  : Prop :=
  por_vir amb0 s /\ pedidos (historico s) = pedidos h0 ++ c.

(** if (esperando > 0) esperando--; *)
Definition baixa (e : Z) : Z := if 0 <? e then e - 1 else e.

(** The gate and the two queue counters of [m] are those of [m0]. *)
Definition mesma_fila (m m0 : Mundo) : Prop :=
  reserva m = reserva m0
  /\ esperando_internacional m = esperando_internacional m0
  /\ esperando_domestico m = esperando_domestico m0.

(** The world the worker saw last: at the last of the wake-ups [cons],
    or [m] when there was none. *)
Definition ultimo_visto (m : Mundo) (cons : list Interf) : Mundo :=
  last (map visto cons) m.

(** What a phase whose reservation timed out leaves: the gate as the
    last wake-up [i] showed it, and the queue counter of the class of
    the flight lowered. *)
Definition expirou (amb0 : list Interf) (s' : Estado) : Prop :=
  exists pre i,
    amb0 = pre ++ i :: ambiente s'
    /\ reserva (mundo s') = reserva (visto i)
    /\ esperando (tipo (aviao s')) (mundo s')
       = baixa (esperando (tipo (aviao s')) (visto i)).

(** The amounts of the last call of liberar_reserva of a completed
    phase that reserved [np], [ng], [nt]. *)
Definition ultima_parcela (f : Fase) (np ng nt : Z) : Reserva :=
  match f with
  | DESEMBARQUE =>
      {| pistas_disp := 0; portoes_disp := ng; torres_disp := 0 |}
  | POUSO | DECOLAGEM =>
      {| pistas_disp := np; portoes_disp := ng; torres_disp := nt |}
  end.

(** What a completed phase leaves: the gate as the last wake-up [i]
    showed it, the end of the last sleep, plus the last release. *)
Definition devolveu (amb0 : list Interf) (f : Fase) (np ng nt : Z)
           (s' : Estado) : Prop :=
  exists pre i,
    amb0 = pre ++ i :: ambiente s'
    /\ reserva (mundo s')
       = credita (pistas_disp (ultima_parcela f np ng nt))
                 (portoes_disp (ultima_parcela f np ng nt))
                 (torres_disp (ultima_parcela f np ng nt))
                 (reserva (visto i)).

(** What a phase leaves, by the calls of reservar_recursos it logged. *)
Definition percurso (amb0 : list Interf) (h0 : list Evento) (f : Fase)
           (rc : Z) (s' : Estado) : Prop :=
  exists c,
    pedidos (historico s') = pedidos h0 ++ c
    /\ (c = []
        \/ exists np ng nt r,
            c = [EvReservar np ng nt r]
            /\ (r = SEM_TIMEOUT -> expirou amb0 s')
            /\ (rc = 0 -> devolveu amb0 f np ng nt s')).

(** No wake-up is used and the gate is [r0]: what the worker's own
    steps keep, liberar_reserva apart. *)
Definition assente (r0 : Reserva) (amb1 : list Interf) (s : Estado)
  : Prop :=
  ambiente s = amb1 /\ reserva (mundo s) = r0.

(** What reservar_recursos leaves when it has returned [r]: the call
    is logged, and after a timeout the gate and the queue are as the
    last wake-up [i] showed them. *)
Definition reservado_em (amb0 : list Interf) (h0 : list Evento)
           (np ng nt r : Z) (s : Estado) : Prop :=
  curso amb0 h0 [EvReservar np ng nt r] s
  /\ (r = SEM_TIMEOUT ->
      exists pre i,
        amb0 = pre ++ i :: ambiente s /\ mesma_fila (mundo s) (visto i)).

End SoFinal.

(** ** src/So_refatorado_corrigido.c

    The variant that adds the initial status PENDENTE and makes
    checa_falha count DEADLOCK.  Its starvation check, its terminal-status
    predicate and its reservation gate are embedded. *)

Module SoRefatorado.

Definition LIMITE_DEADLOCK : Z := 30.
Definition ALERTA_CRITICO_SECS : Z := 60.
Definition TEMPO_MAXIMO_ESPERA : Z := 90.
Definition TIMEOUT_OPERACAO : Z := 10.

Definition SEM_OK : Z := 0.
Definition SEM_TIMEOUT : Z := -1.
Definition SEM_SIM_ENCERRADA : Z := -2.
Definition SEM_AVIAO_FALHOU : Z := -3.

Inductive TipoVoo : Type := DOMESTICO | INTERNACIONAL.

Inductive StatusAviao : Type :=
  PENDENTE | SUCESSO | FALHA | ALERTA_CRITICO | STARVATION | DEADLOCK.

Record Aviao : Type := {
  id : Z;
  tipo : TipoVoo;
  criacao : Z;
  inicio_pouso : Z; fim_pouso : Z;
  inicio_desembarque : Z; fim_desembarque : Z;
  inicio_decolagem : Z; fim_decolagem : Z;
  status_final : StatusAviao;
  em_alerta_critico : bool;
  ultimo_tempo_espera : Z;
  has_pista : bool; has_portao : bool; has_torre : bool
}.

Record Mundo : Type := {
  relogio : Z;
  simulacao_ativa : bool;
  pistas_disp : Z; portoes_disp : Z; torres_disp : Z;
  esperando_internacional : Z;
  esperando_domestico : Z;
  deadlock_count : Z;
  acidentes_count : Z
}.

Definition com_status (s : StatusAviao) (a : Aviao) : Aviao :=
  {| id := id a; tipo := tipo a; criacao := criacao a;
     inicio_pouso := inicio_pouso a; fim_pouso := fim_pouso a;
     inicio_desembarque := inicio_desembarque a;
     fim_desembarque := fim_desembarque a;
     inicio_decolagem := inicio_decolagem a;
     fim_decolagem := fim_decolagem a;
     status_final := s;
     em_alerta_critico := em_alerta_critico a;
     ultimo_tempo_espera := ultimo_tempo_espera a;
     has_pista := has_pista a; has_portao := has_portao a;
     has_torre := has_torre a |}.

Definition com_alerta (b : bool) (a : Aviao) : Aviao :=
  {| id := id a; tipo := tipo a; criacao := criacao a;
     inicio_pouso := inicio_pouso a; fim_pouso := fim_pouso a;
     inicio_desembarque := inicio_desembarque a;
     fim_desembarque := fim_desembarque a;
     inicio_decolagem := inicio_decolagem a;
     fim_decolagem := fim_decolagem a;
     status_final := status_final a;
     em_alerta_critico := b;
     ultimo_tempo_espera := ultimo_tempo_espera a;
     has_pista := has_pista a; has_portao := has_portao a;
     has_torre := has_torre a |}.

Definition com_disp (p g t : Z) (m : Mundo) : Mundo :=
  {| relogio := relogio m; simulacao_ativa := simulacao_ativa m;
     pistas_disp := p; portoes_disp := g; torres_disp := t;
     esperando_internacional := esperando_internacional m;
     esperando_domestico := esperando_domestico m;
     deadlock_count := deadlock_count m;
     acidentes_count := acidentes_count m |}.

Definition com_contadores (d ac : Z) (m : Mundo) : Mundo :=
  {| relogio := relogio m; simulacao_ativa := simulacao_ativa m;
     pistas_disp := pistas_disp m; portoes_disp := portoes_disp m;
     torres_disp := torres_disp m;
     esperando_internacional := esperando_internacional m;
     esperando_domestico := esperando_domestico m;
     deadlock_count := d;
     acidentes_count := ac |}.

Definition ja_marcado (s : StatusAviao) : bool :=
  match s with
  | FALHA | STARVATION | DEADLOCK => true
  | PENDENTE | SUCESSO | ALERTA_CRITICO => false
  end.

Definition verificar_starvation (m : Mundo) (a : Aviao) : Mundo * Aviao :=
  if ja_marcado (status_final a) then (m, a)
  else
    let t := relogio m in
    let espera := t - ultimo_tempo_espera a in
    if (ALERTA_CRITICO_SECS <=? espera) && (espera <? TEMPO_MAXIMO_ESPERA)
       && negb (em_alerta_critico a)
    then
      let a1 := com_alerta true a in
      (m, match status_final a1 with
          | PENDENTE => com_status ALERTA_CRITICO a1
          | _ => a1
          end)
    else if TEMPO_MAXIMO_ESPERA <=? espera then
      match tipo a with
      | DOMESTICO =>
          (com_contadores (deadlock_count m) (acidentes_count m + 1) m,
           com_status STARVATION a)
      | INTERNACIONAL =>
          (com_contadores (deadlock_count m + 1) (acidentes_count m) m,
           com_status DEADLOCK a)
      end
    else (m, a).

Definition checa_falha (m : Mundo) (a : Aviao) : bool * (Mundo * Aviao) :=
  let '(m', a') := verificar_starvation m a in
  (ja_marcado (status_final a'), (m', a')).

(** The body of the sweep of monitor_deadlock for one aircraft. *)
Definition preso (t inicio fim : Z) : bool :=
  (0 <? inicio) && (fim =? 0) && (LIMITE_DEADLOCK <? t - inicio).

Definition monitor_deadlock (t : Z) (a : Aviao) : Aviao * Z :=
  if id a =? 0 then (a, 0)
  else
    match status_final a with
    | SUCESSO | FALHA | STARVATION | DEADLOCK => (a, 0)
    | PENDENTE | ALERTA_CRITICO =>
        if preso t (inicio_pouso a) (fim_pouso a)
           || preso t (inicio_desembarque a) (fim_desembarque a)
           || preso t (inicio_decolagem a) (fim_decolagem a)
        then (com_status DEADLOCK a, 1)
        else (a, 0)
    end.

(** What the caller of reservar_recursos finds after each
    pthread_cond_timedwait. *)
Record Interf : Type := {
  visto : Mundo;
  monitor_passou : bool
}.

Definition acorda (i : Interf) (a : Aviao) : Mundo * Aviao :=
  if monitor_passou i then
    let '(a', n) := monitor_deadlock (relogio (visto i)) a in
    (com_contadores (deadlock_count (visto i) + n)
                    (acidentes_count (visto i)) (visto i), a')
  else (visto i, a).

(** reservar_recursos, by recursion on the wake-ups the oracle still
    holds; it returns the code, the state it leaves and the wake-ups it
    did not use, and [None] when the caller waits beyond the oracle. *)
Fixpoint reservar_laco (amb : list Interf) (np ng nt inicio timeout_seg : Z)
                       (m : Mundo) (a : Aviao)
  : option (Z * (Mundo * Aviao) * list Interf) :=
  if negb (simulacao_ativa m) then Some (SEM_SIM_ENCERRADA, (m, a), amb)
  else
    let '(f, (m1, a1)) := checa_falha m a in
    if f then Some (SEM_AVIAO_FALHOU, (m1, a1), amb)
    else
      let prioridade_alerta := em_alerta_critico a1 in
      let domestico_deve_esperar :=
        match tipo a1 with
        | DOMESTICO =>
            (0 <? esperando_internacional m1) && negb prioridade_alerta
        | INTERNACIONAL => false
        end in
      if negb domestico_deve_esperar
         && ((np <=? pistas_disp m1) && (ng <=? portoes_disp m1)
             && (nt <=? torres_disp m1))
      then Some (SEM_OK,
                 (com_disp (pistas_disp m1 - np) (portoes_disp m1 - ng)
                           (torres_disp m1 - nt) m1, a1), amb)
      else
        let agora_t := relogio m1 in
        let decorrido := para_int (agora_t - inicio) in
        if timeout_seg <=? decorrido then Some (SEM_TIMEOUT, (m1, a1), amb)
        else
          match amb with
          | [] => None
          | i :: amb' =>
              let '(m2, a2) := acorda i a1 in
              reservar_laco amb' np ng nt inicio timeout_seg m2 a2
          end.

Definition reservar_recursos (amb : list Interf) (m : Mundo) (a : Aviao)
                             (np ng nt timeout_seg : Z)
  : option (Z * (Mundo * Aviao) * list Interf) :=
  reservar_laco amb np ng nt (relogio m) timeout_seg m a.

(** The part of the shared state that reservar_recursos decides on, and
    that part as the caller saw it last. *)
Definition porta (m : Mundo) : Z * Z * Z * Z :=
  (pistas_disp m, portoes_disp m, torres_disp m, esperando_internacional m).

Definition porta_vista (m : Mundo) (cons : list Interf) : Z * Z * Z * Z :=
  last (map (fun i => porta (visto i)) cons) (porta m).

(** What reservar_recursos does when it returns [rc] in the world [m']
    for the aircraft [a'], the gate being [g] at that moment. *)
Definition decisao (np ng nt : Z) (g : Z * Z * Z * Z) (rc : Z)
                   (m' : Mundo) (a' : Aviao) : Prop :=
  let '(p, gt, t, ei) := g in
  (rc = SEM_OK ->
     np <= p /\ ng <= gt /\ nt <= t
     /\ pistas_disp m' = p - np /\ portoes_disp m' = gt - ng
     /\ torres_disp m' = t - nt
     /\ (tipo a' = DOMESTICO -> em_alerta_critico a' = false -> ei <= 0))
  /\ (rc <> SEM_OK ->
      pistas_disp m' = p /\ portoes_disp m' = gt /\ torres_disp m' = t).

(** The record main fills for a new aircraft: the status starts at
    PENDENTE. *)
Definition novo (i : Z) (tp : TipoVoo) (t0 : Z) : Aviao :=
  {| id := i; tipo := tp; criacao := t0;
     inicio_pouso := 0; fim_pouso := 0;
     inicio_desembarque := 0; fim_desembarque := 0;
     inicio_decolagem := 0; fim_decolagem := 0;
     status_final := PENDENTE;
     em_alerta_critico := false;
     ultimo_tempo_espera := t0;
     has_pista := false; has_portao := false; has_torre := false |}.

(** inicializarRecursos with the configured capacities, at time [t0]. *)
Definition inicializarRecursos (n_pistas n_portoes n_torres t0 : Z)
  : Mundo :=
  {| relogio := t0; simulacao_ativa := true;
     pistas_disp := n_pistas; portoes_disp := n_portoes;
     torres_disp := n_torres;
     esperando_internacional := 0; esperando_domestico := 0;
     deadlock_count := 0; acidentes_count := 0 |}.

(** An idle airport where one international flight is contending, at
    time [t], and the wake-up that finds it. *)
Definition internacional_esperando (t : Z) : Mundo :=
  {| relogio := t; simulacao_ativa := true;
     pistas_disp := 3; portoes_disp := 5; torres_disp := 2;
     esperando_internacional := 1; esperando_domestico := 1;
     deadlock_count := 0; acidentes_count := 0 |}.

Definition encontra (m : Mundo) : Interf :=
  {| visto := m; monitor_passou := false |}.

(** Why reservar_recursos, called at time [inicio], returned [rc]. *)
Definition motivo (inicio timeout_seg rc : Z) (m' : Mundo) (a' : Aviao)
  : Prop :=
  (rc = SEM_OK /\ simulacao_ativa m' = true
   /\ ja_marcado (status_final a') = false)
  \/ (rc = SEM_TIMEOUT /\ simulacao_ativa m' = true
      /\ ja_marcado (status_final a') = false
      /\ timeout_seg <= para_int (relogio m' - inicio))
  \/ (rc = SEM_SIM_ENCERRADA /\ simulacao_ativa m' = false)
  \/ (rc = SEM_AVIAO_FALHOU /\ ja_marcado (status_final a') = true).

(** A domestic flight asks for a runway and a tower slot at time 100
    while an international flight is contending; the contention is
    still there at times 105 and 110. *)
Definition espera_internacional : list Interf :=
  [encontra (internacional_esperando 105);
   encontra (internacional_esperando 110)].

(** *** The sweep of monitor_deadlock and gerarRelatorioFinal *)

(** The for loop of monitor_deadlock over the array, at time [t]: the
    array as the sweep leaves it and the number of records it marked,
    each of which adds one to deadlock_count. *)
Fixpoint varre (t : Z) (avioes : list Aviao) : list Aviao * Z :=
  match avioes with
  | [] => ([], 0)
  | a :: resto =>
      let '(a', d) := monitor_deadlock t a in
      let '(resto', n) := varre t resto in
      (a' :: resto', d + n)
  end.

(** One turn of the while loop after the sleep. *)
Definition monitor_passada (m : Mundo) (avioes : list Aviao)
  : Mundo * list Aviao :=
  let '(avioes', n) := varre (relogio m) avioes in
  (com_contadores (deadlock_count m + n) (acidentes_count m) m, avioes').

(** The six totals of gerarRelatorioFinal. *)
Record Resumo : Type := {
  suc : Z; fal : Z; al : Z; starv : Z; dead : Z; pend : Z
}.

(** The body of the for loop: records with id 0 are passed over. *)
Definition soma_no_resumo (r : Resumo) (a : Aviao) : Resumo :=
  if id a =? 0 then r
  else
    match status_final a with
    | SUCESSO =>
        {| suc := suc r + 1; fal := fal r; al := al r;
           starv := starv r; dead := dead r; pend := pend r |}
    | FALHA =>
        {| suc := suc r; fal := fal r + 1; al := al r;
           starv := starv r; dead := dead r; pend := pend r |}
    | ALERTA_CRITICO =>
        {| suc := suc r; fal := fal r; al := al r + 1;
           starv := starv r; dead := dead r; pend := pend r |}
    | STARVATION =>
        {| suc := suc r; fal := fal r; al := al r;
           starv := starv r + 1; dead := dead r; pend := pend r |}
    | DEADLOCK =>
        {| suc := suc r; fal := fal r; al := al r;
           starv := starv r; dead := dead r + 1; pend := pend r |}
    | PENDENTE =>
        {| suc := suc r; fal := fal r; al := al r;
           starv := starv r; dead := dead r; pend := pend r + 1 |}
    end.

Definition gerarRelatorioFinal (avioes : list Aviao) : Resumo :=
  fold_left soma_no_resumo avioes
            {| suc := 0; fal := 0; al := 0;
               starv := 0; dead := 0; pend := 0 |}.

(** The records of the array that hold an aircraft. *)
Definition criado (a : Aviao) : bool := negb (id a =? 0).

(** The total of the report that counts status [st]. *)
Definition total_de (st : StatusAviao) : Resumo -> Z :=
  match st with
  | PENDENTE => pend
  | SUCESSO => suc
  | FALHA => fal
  | ALERTA_CRITICO => al
  | STARVATION => starv
  | DEADLOCK => dead
  end.

Definition status_eqb (x y : StatusAviao) : bool :=
  match x, y with
  | PENDENTE, PENDENTE | SUCESSO, SUCESSO | FALHA, FALHA
  | ALERTA_CRITICO, ALERTA_CRITICO | STARVATION, STARVATION
  | DEADLOCK, DEADLOCK => true
  | _, _ => false
  end.

(** Whether the record holds an aircraft with status [st], as 1 or
    0. *)
Definition vale (st : StatusAviao) (a : Aviao) : Z :=
  if criado a && status_eqb (status_final a) st then 1 else 0.

(** *** The worker: aguardar_prioridade, the phases, aviao_thread *)

Record Semaforos : Type := {
  pistas : Z;
  portoes : Z;
  torres : Z
}.

Definition sem_valor (r : Recurso) (sm : Semaforos) : Z :=
  match r with
  | PISTA => pistas sm
  | PORTAO => portoes sm
  | TORRE => torres sm
  end.

Definition com_sem (r : Recurso) (v : Z) (sm : Semaforos) : Semaforos :=
  {| pistas := match r with PISTA => v | _ => pistas sm end;
     portoes := match r with PORTAO => v | _ => portoes sm end;
     torres := match r with TORRE => v | _ => torres sm end |}.

Definition esperando (t : TipoVoo) (m : Mundo) : Z :=
  match t with
  | INTERNACIONAL => esperando_internacional m
  | DOMESTICO => esperando_domestico m
  end.

Definition com_esperando (t : TipoVoo) (v : Z) (m : Mundo) : Mundo :=
  {| relogio := relogio m; simulacao_ativa := simulacao_ativa m;
     pistas_disp := pistas_disp m; portoes_disp := portoes_disp m;
     torres_disp := torres_disp m;
     esperando_internacional :=
       match t with INTERNACIONAL => v | _ => esperando_internacional m end;
     esperando_domestico :=
       match t with DOMESTICO => v | _ => esperando_domestico m end;
     deadlock_count := deadlock_count m;
     acidentes_count := acidentes_count m |}.

Inductive Fase : Type := POUSO | DESEMBARQUE | DECOLAGEM.

Definition has (r : Recurso) (a : Aviao) : bool :=
  match r with
  | PISTA => has_pista a
  | PORTAO => has_portao a
  | TORRE => has_torre a
  end.

Definition com_has (r : Recurso) (b : bool) (a : Aviao) : Aviao :=
  {| id := id a; tipo := tipo a; criacao := criacao a;
     inicio_pouso := inicio_pouso a; fim_pouso := fim_pouso a;
     inicio_desembarque := inicio_desembarque a;
     fim_desembarque := fim_desembarque a;
     inicio_decolagem := inicio_decolagem a;
     fim_decolagem := fim_decolagem a;
     status_final := status_final a;
     em_alerta_critico := em_alerta_critico a;
     ultimo_tempo_espera := ultimo_tempo_espera a;
     has_pista := match r with PISTA => b | _ => has_pista a end;
     has_portao := match r with PORTAO => b | _ => has_portao a end;
     has_torre := match r with TORRE => b | _ => has_torre a end |}.

(** a->inicio_x = agora(); a->ultimo_tempo_espera = a->inicio_x; *)
Definition com_inicio (f : Fase) (t : Z) (a : Aviao) : Aviao :=
  {| id := id a; tipo := tipo a; criacao := criacao a;
     inicio_pouso := match f with POUSO => t | _ => inicio_pouso a end;
     fim_pouso := fim_pouso a;
     inicio_desembarque :=
       match f with DESEMBARQUE => t | _ => inicio_desembarque a end;
     fim_desembarque := fim_desembarque a;
     inicio_decolagem :=
       match f with DECOLAGEM => t | _ => inicio_decolagem a end;
     fim_decolagem := fim_decolagem a;
     status_final := status_final a;
     em_alerta_critico := em_alerta_critico a;
     ultimo_tempo_espera := t;
     has_pista := has_pista a; has_portao := has_portao a;
     has_torre := has_torre a |}.

(** a->fim_x = agora(); a->ultimo_tempo_espera = a->fim_x;
    a->em_alerta_critico = 0; *)
Definition com_fim (f : Fase) (t : Z) (a : Aviao) : Aviao :=
  {| id := id a; tipo := tipo a; criacao := criacao a;
     inicio_pouso := inicio_pouso a;
     fim_pouso := match f with POUSO => t | _ => fim_pouso a end;
     inicio_desembarque := inicio_desembarque a;
     fim_desembarque :=
       match f with DESEMBARQUE => t | _ => fim_desembarque a end;
     inicio_decolagem := inicio_decolagem a;
     fim_decolagem :=
       match f with DECOLAGEM => t | _ => fim_decolagem a end;
     status_final := status_final a;
     em_alerta_critico := false;
     ultimo_tempo_espera := t;
     has_pista := has_pista a; has_portao := has_portao a;
     has_torre := has_torre a |}.

Definition com_ultimo_tempo_espera (t : Z) (a : Aviao) : Aviao :=
  {| id := id a; tipo := tipo a; criacao := criacao a;
     inicio_pouso := inicio_pouso a; fim_pouso := fim_pouso a;
     inicio_desembarque := inicio_desembarque a;
     fim_desembarque := fim_desembarque a;
     inicio_decolagem := inicio_decolagem a;
     fim_decolagem := fim_decolagem a;
     status_final := status_final a;
     em_alerta_critico := em_alerta_critico a;
     ultimo_tempo_espera := t;
     has_pista := has_pista a; has_portao := has_portao a;
     has_torre := has_torre a |}.

Inductive Evento : Type :=
| EvEntraFila (t : TipoVoo)          (* the queue counter of t goes up *)
| EvLiberaPrioridade (t : TipoVoo)   (* liberar_prioridade(t) *)
| EvReservar (np ng nt rc : Z)       (* reservar_recursos returned rc *)
| EvLiberaReserva (np ng nt : Z)     (* liberar_reserva(np, ng, nt) *)
| EvSemWait (r : Recurso)            (* sem_wait(r) returned 0 *)
| EvSemWaitErro (r : Recurso)        (* sem_wait(r) returned an error *)
| EvSemPost (r : Recurso)            (* sem_post(r) *)
| EvSleep (n : Z).                   (* sleep(n) *)

(** What the worker finds when a blocking call returns: the shared
    variables and whether the monitor swept its aircraft, as for
    reservar_recursos; the semaphores as the other threads left them;
    and whether the call was a sem_wait that returned an error. *)
Record Despertar : Type := {
  interf : Interf;
  sems_vistos : Semaforos;
  erro_sem : bool
}.

Record Estado : Type := {
  mundo : Mundo;
  semaforos : Semaforos;
  aviao : Aviao;
  ambiente : list Despertar;
  historico : list Evento
}.

Definition le_mundo : M Estado Mundo := s <- le;; ret (mundo s).
Definition le_aviao : M Estado Aviao := s <- le;; ret (aviao s).
Definition le_semaforos : M Estado Semaforos :=
  s <- le;; ret (semaforos s).
Definition agora : M Estado Z := s <- le;; ret (relogio (mundo s)).

Definition poe_mundo (f : Mundo -> Mundo) : M Estado unit :=
  altera (fun s => {| mundo := f (mundo s); semaforos := semaforos s;
                      aviao := aviao s;
                      ambiente := ambiente s; historico := historico s |}).

Definition poe_semaforos (f : Semaforos -> Semaforos) : M Estado unit :=
  altera (fun s => {| mundo := mundo s; semaforos := f (semaforos s);
                      aviao := aviao s;
                      ambiente := ambiente s; historico := historico s |}).

Definition poe_aviao (f : Aviao -> Aviao) : M Estado unit :=
  altera (fun s => {| mundo := mundo s; semaforos := semaforos s;
                      aviao := f (aviao s);
                      ambiente := ambiente s; historico := historico s |}).

Definition emite (e : Evento) : M Estado unit :=
  altera (fun s => {| mundo := mundo s; semaforos := semaforos s;
                      aviao := aviao s;
                      ambiente := ambiente s;
                      historico := historico s ++ [e] |}).

(** Return from a blocking call: the next item of the oracle. *)
Definition bloqueia : M Estado Despertar :=
  fun s => match ambiente s with
           | [] => None
           | i :: resto =>
               let '(m, a) := acorda (interf i) (aviao s) in
               Some (i, {| mundo := m; semaforos := sems_vistos i;
                           aviao := a; ambiente := resto;
                           historico := historico s |})
           end.

Definition checa_falha_m : M Estado bool :=
  fun s =>
    let '(f, (m, a)) := checa_falha (mundo s) (aviao s) in
    Some (f, {| mundo := m; semaforos := semaforos s; aviao := a;
                ambiente := ambiente s; historico := historico s |}).

(** reservar_recursos run by the worker: the wake-ups it uses are
    taken from the worker's oracle, and the semaphores are as the last
    of them shows. *)
Definition reservar_recursos_m (np ng nt timeout_seg : Z) : M Estado Z :=
  fun s =>
    match reservar_recursos (map interf (ambiente s)) (mundo s) (aviao s)
                            np ng nt timeout_seg with
    | Some (rc, (m, a), resto) =>
        let usados := (length (ambiente s) - length resto)%nat in
        Some (rc,
              {| mundo := m;
                 semaforos := last (map sems_vistos
                                        (firstn usados (ambiente s)))
                                   (semaforos s);
                 aviao := a;
                 ambiente := skipn usados (ambiente s);
                 historico := historico s ++ [EvReservar np ng nt rc] |})
    | None => None
    end.

Definition liberar_reserva (p g t : Z) : M Estado unit :=
  m <- le_mundo;;
  poe_mundo (com_disp (pistas_disp m + p) (portoes_disp m + g)
                      (torres_disp m + t));;;
  emite (EvLiberaReserva p g t).

(** The condition of the two while loops of aguardar_prioridade, with
    the short-circuit evaluation of &&; [limite] is 1 for an
    international flight and 0 for a domestic one. *)
Definition deve_aguardar (limite : Z) : M Estado bool :=
  m <- le_mundo;;
  if (limite <? esperando_internacional m) && simulacao_ativa m then
    f <- checa_falha_m;;
    if f then ret false
    else a <- le_aviao;; ret (negb (em_alerta_critico a))
  else ret false.

Fixpoint aguardar_laco (voltas : nat) (limite : Z) : M Estado unit :=
  match voltas with
  | O => trava
  | S voltas' =>
      c <- deve_aguardar limite;;
      if c then bloqueia;;; aguardar_laco voltas' limite
      else ret tt
  end.

(** The aircraft stays in the count of its class until
    liberar_prioridade. *)
Definition aguardar_prioridade (t : TipoVoo) : M Estado unit :=
  m <- le_mundo;;
  poe_mundo (com_esperando t (esperando t m + 1));;;
  emite (EvEntraFila t);;;
  s <- le;;
  aguardar_laco (S (length (ambiente s)))
                (match t with INTERNACIONAL => 1 | DOMESTICO => 0 end).

Definition liberar_prioridade (t : TipoVoo) : M Estado unit :=
  m <- le_mundo;;
  (if 0 <? esperando t m
   then poe_mundo (com_esperando t (esperando t m - 1))
   else ret tt);;;
  emite (EvLiberaPrioridade t).

(** sem_wait returns 0 only after taking a unit; a worker that the
    oracle wakes with no unit left stays blocked. *)
Definition sem_wait (r : Recurso) : M Estado Z :=
  i <- bloqueia;;
  if erro_sem i then emite (EvSemWaitErro r);;; ret (-1)
  else
    sm <- le_semaforos;;
    if 0 <? sem_valor r sm then
      poe_semaforos (com_sem r (sem_valor r sm - 1));;;
      emite (EvSemWait r);;;
      ret 0
    else trava.

Definition sem_post (r : Recurso) : M Estado unit :=
  sm <- le_semaforos;;
  poe_semaforos (com_sem r (sem_valor r sm + 1));;;
  emite (EvSemPost r).

Definition sleep (n : Z) : M Estado unit :=
  bloqueia;;;
  emite (EvSleep n).

(** A block of a C function that may execute [return]: [Some rc] leaves
    the function with [rc], [None] falls through to the next block. *)
Definition segue (b : M Estado (option Z)) (k : M Estado Z) : M Estado Z :=
  x <- b;;
  match x with
  | Some rc => ret rc
  | None => k
  end.

Definition libera_minha_prioridade : M Estado unit :=
  a <- le_aviao;;
  liberar_prioridade (tipo a).

(** The entry of the three phases: the two checks around
    aguardar_prioridade. *)
Definition entrada : M Estado (option Z) :=
  f <- checa_falha_m;;
  if f then ret (Some (-1))
  else
    a <- le_aviao;;
    aguardar_prioridade (tipo a);;;
    f <- checa_falha_m;;
    if f then libera_minha_prioridade;;; ret (Some (-1))
    else ret None.

Definition marca_inicio (f : Fase) : M Estado unit :=
  t <- agora;;
  poe_aviao (com_inicio f t).

(** if (r != SEM_OK) { if (r == SEM_TIMEOUT) status_final = FALHA;
    liberar_prioridade(tipo); return -1; } *)
Definition reserva_negada (r : Z) : M Estado (option Z) :=
  if negb (r =? SEM_OK) then
    (if r =? SEM_TIMEOUT then poe_aviao (com_status FALHA) else ret tt);;;
    libera_minha_prioridade;;;
    ret (Some (-1))
  else ret None.

(** if (has_r) { sem_post(&r); has_r = 0; } *)
Definition solta (r : Recurso) : M Estado unit :=
  a <- le_aviao;;
  if has r a then sem_post r;;; poe_aviao (com_has r false) else ret tt.

(** if (!has_r) { if (sem_wait(&r) != 0) { desfaz; liberar_reserva(...);
    liberar_prioridade(tipo); return -1; } has_r = 1; } *)
Definition toma (r : Recurso) (desfaz : M Estado unit) (np ng nt : Z)
  : M Estado (option Z) :=
  a <- le_aviao;;
  if negb (has r a) then
    w <- sem_wait r;;
    if negb (w =? 0) then
      desfaz;;;
      liberar_reserva np ng nt;;;
      libera_minha_prioridade;;;
      ret (Some (-1))
    else poe_aviao (com_has r true);;; ret None
  else ret None.

(** The end of the three phases. *)
Definition conclui (f : Fase) : M Estado Z :=
  t <- agora;;
  poe_aviao (com_fim f t);;;
  libera_minha_prioridade;;;
  ret 0.

Definition pouso : M Estado Z :=
  segue entrada (
  marca_inicio POUSO;;;
  a <- le_aviao;;
  let need_p := falta (has_pista a) in
  let need_t := falta (has_torre a) in
  r <- reservar_recursos_m need_p 0 need_t TIMEOUT_OPERACAO;;
  segue (reserva_negada r) (
  segue (toma TORRE (ret tt) need_p 0 need_t) (
  segue (toma PISTA (solta TORRE) need_p 0 need_t) (
  sleep 1;;;
  solta PISTA;;;
  solta TORRE;;;
  liberar_reserva need_p 0 need_t;;;
  conclui POUSO)))).

Definition desembarque : M Estado Z :=
  segue entrada (
  marca_inicio DESEMBARQUE;;;
  a <- le_aviao;;
  let need_g := falta (has_portao a) in
  let need_t := falta (has_torre a) in
  r <- reservar_recursos_m 0 need_g need_t TIMEOUT_OPERACAO;;
  segue (reserva_negada r) (
  segue (toma TORRE (ret tt) 0 need_g need_t) (
  segue (toma PORTAO (solta TORRE) 0 need_g need_t) (
  sleep 1;;;
  solta TORRE;;;
  liberar_reserva 0 0 need_t;;;
  sleep 1;;;
  solta PORTAO;;;
  liberar_reserva 0 need_g 0;;;
  conclui DESEMBARQUE)))).

Definition decolagem : M Estado Z :=
  segue entrada (
  marca_inicio DECOLAGEM;;;
  a <- le_aviao;;
  let need_p := falta (has_pista a) in
  let need_g := falta (has_portao a) in
  let need_t := falta (has_torre a) in
  r <- reservar_recursos_m need_p need_g need_t TIMEOUT_OPERACAO;;
  segue (reserva_negada r) (
  segue (toma TORRE (ret tt) need_p need_g need_t) (
  segue (toma PORTAO (solta TORRE) need_p need_g need_t) (
  segue (toma PISTA (solta PORTAO;;; solta TORRE) need_p need_g need_t) (
  sleep 1;;;
  solta TORRE;;;
  solta PORTAO;;;
  solta PISTA;;;
  liberar_reserva need_p need_g need_t;;;
  conclui DECOLAGEM))))).

Definition fase (f : Fase) : M Estado Z :=
  match f with
  | POUSO => pouso
  | DESEMBARQUE => desembarque
  | DECOLAGEM => decolagem
  end.

(** fase(a) == 0 && !checa_falha(a): the check is made only when the
    phase returned 0. *)
Definition completou (f : Fase) : M Estado bool :=
  r <- fase f;;
  if r =? 0 then c <- checa_falha_m;; ret (negb c) else ret false.

Definition aviao_thread : M Estado unit :=
  t <- agora;;
  poe_aviao (com_ultimo_tempo_espera t);;;
  ok <- completou POUSO;;
  if ok then
    ok <- completou DESEMBARQUE;;
    if ok then
      ok <- completou DECOLAGEM;;
      if ok then
        a <- le_aviao;;
        match status_final a with
        | PENDENTE => poe_aviao (com_status SUCESSO)
        | _ => ret tt
        end
      else ret tt
    else ret tt
  else ret tt.

(** *** Reading the worker's log *)

(** The codes reservar_recursos returned, in order, and the sem_waits
    that failed. *)
Definition codigos (tr : list Evento) : list Z :=
  flat_map (fun e => match e with
                     | EvReservar _ _ _ rc => [rc]
                     | _ => []
                     end) tr.

Definition erros (tr : list Evento) : list Recurso :=
  flat_map (fun e => match e with
                     | EvSemWaitErro r => [r]
                     | _ => []
                     end) tr.

(** Replaying a log for the semaphore of [r]: whether the worker holds
    a unit, or [None] once it took a second unit while holding one or
    posted the semaphore while holding none. *)
Definition passo_semaforo (r : Recurso) (h : option bool) (e : Evento)
  : option bool :=
  match h with
  | None => None
  | Some b =>
      match e with
      | EvSemWait r' =>
          if Recurso_eqb r r' then (if b then None else Some true)
          else Some b
      | EvSemPost r' =>
          if Recurso_eqb r r' then (if b then Some false else None)
          else Some b
      | _ => Some b
      end
  end.

Definition retem (r : Recurso) (b : bool) (tr : list Evento)
  : option bool :=
  fold_left (passo_semaforo r) tr (Some b).

(** *** A sample flight *)

Definition aeroporto (t : Z) : Mundo := inicializarRecursos 3 5 2 t.

Definition cheio : Semaforos := {| pistas := 3; portoes := 5; torres := 2 |}.

(** A domestic flight alone at the airport goes through its three
    phases: eleven blocking calls, each finding the gate and the
    semaphores as the flight itself left them. *)
Definition so_eu (t p g tw : Z) (sm : Semaforos) : Despertar :=
  {| interf := encontra (com_esperando DOMESTICO 1
                           (com_disp p g tw (aeroporto t)));
     sems_vistos := sm; erro_sem := false |}.

Definition sems (p g tw : Z) : Semaforos :=
  {| pistas := p; portoes := g; torres := tw |}.

Definition voo_tranquilo : Estado :=
  {| mundo := aeroporto 100;
     semaforos := cheio;
     aviao := novo 1 DOMESTICO 100;
     ambiente :=
       [so_eu 100 2 5 1 (sems 3 5 2); so_eu 100 2 5 1 (sems 3 5 1);
        so_eu 101 2 5 1 (sems 2 5 1);
        so_eu 101 3 4 1 (sems 3 5 2); so_eu 101 3 4 1 (sems 3 5 1);
        so_eu 102 3 4 1 (sems 3 4 1); so_eu 103 3 4 2 (sems 3 4 2);
        so_eu 103 2 4 1 (sems 3 5 2); so_eu 103 2 4 1 (sems 3 5 1);
        so_eu 103 2 4 1 (sems 3 4 1); so_eu 104 2 4 1 (sems 2 4 1)];
     historico := [] |}.

(** The same flight, already in critical alert when its thread
    starts. *)
Definition voo_em_alerta : Estado :=
  {| mundo := mundo voo_tranquilo;
     semaforos := semaforos voo_tranquilo;
     aviao := com_status ALERTA_CRITICO
                         (com_alerta true (aviao voo_tranquilo));
     ambiente := ambiente voo_tranquilo;
     historico := [] |}.

(** *** What the worker keeps *)

(** The status is not SUCESSO, and with [registro] it is not PENDENTE
    either: it records an alert or a failure. *)
Definition guarda_st (registro : bool) (st : StatusAviao) : Prop :=
  st <> SUCESSO /\ (registro = true -> st <> PENDENTE).

Definition guarda (registro : bool) (s : Estado) : Prop :=
  guarda_st registro (status_final (aviao s)).

(** The same, the log holding the reservation codes [c] and the failed
    sem_waits [e]. *)
Definition anotado (registro : bool) (c : list Z) (e : list Recurso)
           (s : Estado) : Prop :=
  guarda registro s
  /\ codigos (historico s) = c /\ erros (historico s) = e.

(** What a block of a phase leaves: a return with a failure code, or
    [P]. *)
Definition bloco (registro : bool) (P : Estado -> Prop) (x : option Z)
           (s : Estado) : Prop :=
  match x with
  | Some rc => rc <> 0 /\ guarda registro s
  | None => P s
  end.

(** What a phase leaves: [P] when it returns 0. *)
Definition fase_feita (registro : bool) (P : Estado -> Prop) (rc : Z)
           (s : Estado) : Prop :=
  guarda registro s /\ (rc = 0 -> P s).

(** *** What the worker holds *)

(** The has_* flags as a table, and a table with one entry written. *)
Definition nada : Recurso -> bool := fun _ => false.

Definition poe (r : Recurso) (b : bool) (p : Recurso -> bool)
  : Recurso -> bool :=
  fun x => if Recurso_eqb x r then b else p x.

(** Replaying a log for the queue: whether the worker is counted in
    esperando_*, or [None] once it entered the count twice or called
    liberar_prioridade without being counted. *)
Definition passo_fila (h : option bool) (e : Evento) : option bool :=
  match h with
  | None => None
  | Some b =>
      match e with
      | EvEntraFila _ => if b then None else Some true
      | EvLiberaPrioridade _ => if b then Some false else None
      | _ => Some b
      end
  end.

Definition na_fila (b : bool) (tr : list Evento) : option bool :=
  fold_left passo_fila tr (Some b).

(** The units the worker took from the gate and has not given back:
    what the reservations that returned SEM_OK debited, less what
    liberar_reserva credited. *)
Definition passo_saldo (q : Z * Z * Z) (e : Evento) : Z * Z * Z :=
  let '(p, g, t) := q in
  match e with
  | EvReservar np ng nt rc =>
      if rc =? SEM_OK then (p + np, g + ng, t + nt) else q
  | EvLiberaReserva np ng nt => (p - np, g - ng, t - nt)
  | _ => q
  end.

Definition saldo (tr : list Evento) : Z * Z * Z :=
  fold_left passo_saldo tr (0, 0, 0).

(** The worker's books since the log was [h0]: the flags are [pf], the
    semaphores it holds by the log are [pr], it is counted in the queue
    or not as [fl] says, and it owes the gate [q]. *)
Definition em_dia (h0 : list Evento) (pf pr : Recurso -> bool) (fl : bool)
           (q : Z * Z * Z) (s : Estado) : Prop :=
  (forall r, has r (aviao s) = pf r)
  /\ exists tr,
      historico s = h0 ++ tr
      /\ (forall r, retem r false tr = Some (pr r))
      /\ na_fila false tr = Some fl
      /\ saldo tr = q.

(** Nothing held, out of the queue, nothing owed. *)
Definition quite (h0 : list Evento) (s : Estado) : Prop :=
  em_dia h0 nada nada false (0, 0, 0) s.

(** What a block of a phase leaves: quits on a return, [P] when it
    falls through. *)
Definition sai_quite (h0 : list Evento) (P : Estado -> Prop)
           (x : option Z) (s : Estado) : Prop :=
  match x with
  | Some _ => quite h0 s
  | None => P s
  end.

(** The flight of [voo_tranquilo] when its second sem_wait, for a
    runway, returns an error. *)
Definition voo_com_erro : Estado :=
  {| mundo := aeroporto 100;
     semaforos := cheio;
     aviao := novo 1 DOMESTICO 100;
     ambiente :=
       [so_eu 100 2 5 1 (sems 3 5 2);
        {| interf := interf (so_eu 100 2 5 1 (sems 3 5 1));
           sems_vistos := sems 3 5 1; erro_sem := true |}];
     historico := [] |}.

(** An international flight that the monitor has marked DEADLOCK; the
    oracle holds no wake-up. *)
Definition voo_marcado : Estado :=
  {| mundo := aeroporto 100;
     semaforos := cheio;
     aviao := com_status DEADLOCK (novo 1 INTERNACIONAL 100);
     ambiente := [];
     historico := [] |}.

(** *** The shared counters against the log

    The world of the worker is replaced at every wake-up, so the
    counters a thread leaves are read against the last wake-up it went
    through and the calls it logged since. *)

(** The counters of the gate and of the queue after the call that [e]
    records, from their values in [m]. *)
Definition refaz (m : Mundo) (e : Evento) : Mundo :=
  match e with
  | EvEntraFila t => com_esperando t (esperando t m + 1) m
  | EvLiberaPrioridade t =>
      if 0 <? esperando t m then com_esperando t (esperando t m - 1) m
      else m
  | EvReservar np ng nt rc =>
      if rc =? SEM_OK
      then com_disp (pistas_disp m - np) (portoes_disp m - ng)
                    (torres_disp m - nt) m
      else m
  | EvLiberaReserva np ng nt =>
      com_disp (pistas_disp m + np) (portoes_disp m + ng)
               (torres_disp m + nt) m
  | EvSemWait _ | EvSemWaitErro _ | EvSemPost _ | EvSleep _ => m
  end.

(** The three counters of the gate and the two of the queue agree. *)
Definition mesmas_contas (m m' : Mundo) : Prop :=
  pistas_disp m = pistas_disp m'
  /\ portoes_disp m = portoes_disp m'
  /\ torres_disp m = torres_disp m'
  /\ esperando_internacional m = esperando_internacional m'
  /\ esperando_domestico m = esperando_domestico m'.

(** Since the oracle was [amb0], the world [m0] and the log [h0]: the
    counters are those that the last wake-up showed, or those of [m0]
    when there was none, with the calls logged since replayed on
    them. *)
Definition conferido (amb0 : list Despertar) (m0 : Mundo)
           (h0 : list Evento) (s : Estado) : Prop :=
  exists tr1 tr2 w,
    historico s = h0 ++ tr1 ++ tr2
    /\ ((ambiente s = amb0 /\ tr1 = [] /\ w = m0)
        \/ exists pre i,
            amb0 = pre ++ i :: ambiente s /\ w = visto (interf i))
    /\ mesmas_contas (mundo s) (fold_left refaz tr2 w).

End SoRefatorado.

(** ** src/So.c *)

Module So.

Definition ALERTA_CRITICO_SECS : Z := 60.
Definition TEMPO_MAXIMO_ESPERA : Z := 90.
Definition TIMEOUT_OPERACAO : Z := 10.

Inductive TipoVoo : Type := INTERNACIONAL | DOMESTICO.

Inductive EstadoAviao : Type :=
| EST_CRIADO
| EST_AGUARDANDO_POUSO
| EST_POUSANDO
| EST_AGUARDANDO_DESEMBARQUE
| EST_DESEMBARCANDO
| EST_AGUARDANDO_DECOLAGEM
| EST_DECOLANDO
| EST_FINALIZADO
| EST_FALHA.

Record Aviao : Type := {
  id : Z;
  tipo : TipoVoo;
  estado : EstadoAviao;
  inicio_espera : Z;
  ultimo_progresso : Z;
  alertas_starvation : Z;
  falhou : bool;
  operacoes_concluidas : Z;
  boosted : bool;
  prioridade_base : Z;
  prioridade_efetiva : Z
}.

(** The process-wide variables a worker reads or writes.
    [outro_boosted] stands for the rest of the array avioes[]: some
    other aircraft is boosted and neither finished nor failed. *)
Record Mundo : Type := {
  relogio : Z;
  sem_pistas : Z;
  sem_portoes : Z;
  sem_torre : Z;
  aguardando_internacional : Z;
  aguardando_domestico : Z;
  total_sucesso : Z;
  total_falha : Z;
  total_alertas_starvation : Z;
  total_boosts : Z;
  outro_boosted : bool
}.

Definition com_estado (v : EstadoAviao) (a : Aviao) : Aviao :=
  {| id := id a; tipo := tipo a; estado := v;
     inicio_espera := inicio_espera a;
     ultimo_progresso := ultimo_progresso a;
     alertas_starvation := alertas_starvation a; falhou := falhou a;
     operacoes_concluidas := operacoes_concluidas a; boosted := boosted a;
     prioridade_base := prioridade_base a;
     prioridade_efetiva := prioridade_efetiva a |}.

Definition com_inicio_espera (v : Z) (a : Aviao) : Aviao :=
  {| id := id a; tipo := tipo a; estado := estado a;
     inicio_espera := v;
     ultimo_progresso := ultimo_progresso a;
     alertas_starvation := alertas_starvation a; falhou := falhou a;
     operacoes_concluidas := operacoes_concluidas a; boosted := boosted a;
     prioridade_base := prioridade_base a;
     prioridade_efetiva := prioridade_efetiva a |}.

Definition com_ultimo_progresso (v : Z) (a : Aviao) : Aviao :=
  {| id := id a; tipo := tipo a; estado := estado a;
     inicio_espera := inicio_espera a;
     ultimo_progresso := v;
     alertas_starvation := alertas_starvation a; falhou := falhou a;
     operacoes_concluidas := operacoes_concluidas a; boosted := boosted a;
     prioridade_base := prioridade_base a;
     prioridade_efetiva := prioridade_efetiva a |}.

Definition com_alertas (v : Z) (a : Aviao) : Aviao :=
  {| id := id a; tipo := tipo a; estado := estado a;
     inicio_espera := inicio_espera a;
     ultimo_progresso := ultimo_progresso a;
     alertas_starvation := v; falhou := falhou a;
     operacoes_concluidas := operacoes_concluidas a; boosted := boosted a;
     prioridade_base := prioridade_base a;
     prioridade_efetiva := prioridade_efetiva a |}.

Definition com_falhou (v : bool) (a : Aviao) : Aviao :=
  {| id := id a; tipo := tipo a; estado := estado a;
     inicio_espera := inicio_espera a;
     ultimo_progresso := ultimo_progresso a;
     alertas_starvation := alertas_starvation a; falhou := v;
     operacoes_concluidas := operacoes_concluidas a; boosted := boosted a;
     prioridade_base := prioridade_base a;
     prioridade_efetiva := prioridade_efetiva a |}.

Definition com_operacoes (v : Z) (a : Aviao) : Aviao :=
  {| id := id a; tipo := tipo a; estado := estado a;
     inicio_espera := inicio_espera a;
     ultimo_progresso := ultimo_progresso a;
     alertas_starvation := alertas_starvation a; falhou := falhou a;
     operacoes_concluidas := v; boosted := boosted a;
     prioridade_base := prioridade_base a;
     prioridade_efetiva := prioridade_efetiva a |}.

Definition com_boosted (v : bool) (a : Aviao) : Aviao :=
  {| id := id a; tipo := tipo a; estado := estado a;
     inicio_espera := inicio_espera a;
     ultimo_progresso := ultimo_progresso a;
     alertas_starvation := alertas_starvation a; falhou := falhou a;
     operacoes_concluidas := operacoes_concluidas a; boosted := v;
     prioridade_base := prioridade_base a;
     prioridade_efetiva := prioridade_efetiva a |}.

Definition com_prioridade_base (v : Z) (a : Aviao) : Aviao :=
  {| id := id a; tipo := tipo a; estado := estado a;
     inicio_espera := inicio_espera a;
     ultimo_progresso := ultimo_progresso a;
     alertas_starvation := alertas_starvation a; falhou := falhou a;
     operacoes_concluidas := operacoes_concluidas a; boosted := boosted a;
     prioridade_base := v;
     prioridade_efetiva := prioridade_efetiva a |}.

Definition com_prioridade_efetiva (v : Z) (a : Aviao) : Aviao :=
  {| id := id a; tipo := tipo a; estado := estado a;
     inicio_espera := inicio_espera a;
     ultimo_progresso := ultimo_progresso a;
     alertas_starvation := alertas_starvation a; falhou := falhou a;
     operacoes_concluidas := operacoes_concluidas a; boosted := boosted a;
     prioridade_base := prioridade_base a;
     prioridade_efetiva := v |}.

Definition sem_valor (r : Recurso) (m : Mundo) : Z :=
  match r with
  | PISTA => sem_pistas m
  | PORTAO => sem_portoes m
  | TORRE => sem_torre m
  end.

Definition com_sem (r : Recurso) (v : Z) (m : Mundo) : Mundo :=
  {| relogio := relogio m;
     sem_pistas := match r with PISTA => v | _ => sem_pistas m end;
     sem_portoes := match r with PORTAO => v | _ => sem_portoes m end;
     sem_torre := match r with TORRE => v | _ => sem_torre m end;
     aguardando_internacional := aguardando_internacional m;
     aguardando_domestico := aguardando_domestico m;
     total_sucesso := total_sucesso m; total_falha := total_falha m;
     total_alertas_starvation := total_alertas_starvation m;
     total_boosts := total_boosts m; outro_boosted := outro_boosted m |}.

Definition aguardando (t : TipoVoo) (m : Mundo) : Z :=
  match t with
  | INTERNACIONAL => aguardando_internacional m
  | DOMESTICO => aguardando_domestico m
  end.

Definition com_aguardando (t : TipoVoo) (v : Z) (m : Mundo) : Mundo :=
  {| relogio := relogio m;
     sem_pistas := sem_pistas m; sem_portoes := sem_portoes m;
     sem_torre := sem_torre m;
     aguardando_internacional :=
       match t with INTERNACIONAL => v | _ => aguardando_internacional m end;
     aguardando_domestico :=
       match t with DOMESTICO => v | _ => aguardando_domestico m end;
     total_sucesso := total_sucesso m; total_falha := total_falha m;
     total_alertas_starvation := total_alertas_starvation m;
     total_boosts := total_boosts m; outro_boosted := outro_boosted m |}.

Definition com_total_sucesso (v : Z) (m : Mundo) : Mundo :=
  {| relogio := relogio m;
     sem_pistas := sem_pistas m; sem_portoes := sem_portoes m;
     sem_torre := sem_torre m;
     aguardando_internacional := aguardando_internacional m;
     aguardando_domestico := aguardando_domestico m;
     total_sucesso := v; total_falha := total_falha m;
     total_alertas_starvation := total_alertas_starvation m;
     total_boosts := total_boosts m; outro_boosted := outro_boosted m |}.

Definition com_total_falha (v : Z) (m : Mundo) : Mundo :=
  {| relogio := relogio m;
     sem_pistas := sem_pistas m; sem_portoes := sem_portoes m;
     sem_torre := sem_torre m;
     aguardando_internacional := aguardando_internacional m;
     aguardando_domestico := aguardando_domestico m;
     total_sucesso := total_sucesso m; total_falha := v;
     total_alertas_starvation := total_alertas_starvation m;
     total_boosts := total_boosts m; outro_boosted := outro_boosted m |}.

Definition com_total_alertas (v : Z) (m : Mundo) : Mundo :=
  {| relogio := relogio m;
     sem_pistas := sem_pistas m; sem_portoes := sem_portoes m;
     sem_torre := sem_torre m;
     aguardando_internacional := aguardando_internacional m;
     aguardando_domestico := aguardando_domestico m;
     total_sucesso := total_sucesso m; total_falha := total_falha m;
     total_alertas_starvation := v;
     total_boosts := total_boosts m; outro_boosted := outro_boosted m |}.

Definition com_total_boosts (v : Z) (m : Mundo) : Mundo :=
  {| relogio := relogio m;
     sem_pistas := sem_pistas m; sem_portoes := sem_portoes m;
     sem_torre := sem_torre m;
     aguardando_internacional := aguardando_internacional m;
     aguardando_domestico := aguardando_domestico m;
     total_sucesso := total_sucesso m; total_falha := total_falha m;
     total_alertas_starvation := total_alertas_starvation m;
     total_boosts := v; outro_boosted := outro_boosted m |}.

(** *** checa_starvation *)

(** The first if of checa_starvation: the alert, raised once, and the
    boost that comes with it. *)
Definition alerta_starvation (espera : Z) (m : Mundo) (a : Aviao)
  : Mundo * Aviao :=
  if negb (falhou a) && (ALERTA_CRITICO_SECS <=? espera)
     && (alertas_starvation a =? 0)
  then
    let a1 := com_alertas (alertas_starvation a + 1) a in
    let '(m2, a2) :=
      if negb (boosted a1)
      then (com_total_boosts (total_boosts m + 1) m,
            com_prioridade_efetiva 3 (com_boosted true a1))
      else (m, a1) in
    (com_total_alertas (total_alertas_starvation m2 + 1) m2, a2)
  else (m, a).

(** Returns true when the aircraft fell. *)
Definition checa_starvation (m : Mundo) (a : Aviao)
  : bool * (Mundo * Aviao) :=
  let t := relogio m in
  let espera := t - inicio_espera a in
  let '(m1, a1) := alerta_starvation espera m a in
  if negb (falhou a1) && (TEMPO_MAXIMO_ESPERA <=? espera)
  then (true, (com_total_falha (total_falha m1 + 1) m1,
               com_estado EST_FALHA (com_falhou true a1)))
  else (false, (m1, a1)).

(** *** The worker's state *)

Inductive Evento : Type :=
| EvObteve (r : Recurso)     (* a wait on the semaphore of r returned 0 *)
| EvLibera (r : Recurso)     (* sem_post on the semaphore of r *)
| EvCede                     (* a domestic worker gives way: sleep_ms(80) *)
| EvCedeBoost.               (* an international one does: sleep_ms(50) *)

(** What the worker finds when a blocking call returns: the shared
    variables as the other threads left them and, for a wait on a
    semaphore, whether it returned 0.  A wait interrupted by a signal
    and resumed is one wait. *)
Record Interf : Type := {
  visto : Mundo;
  obteve : bool
}.

Record Estado : Type := {
  mundo : Mundo;
  aviao : Aviao;
  ambiente : list Interf;
  historico : list Evento
}.

Definition le_mundo : M Estado Mundo := s <- le;; ret (mundo s).
Definition le_aviao : M Estado Aviao := s <- le;; ret (aviao s).
Definition agora : M Estado Z := s <- le;; ret (relogio (mundo s)).

Definition poe_mundo (f : Mundo -> Mundo) : M Estado unit :=
  altera (fun s => {| mundo := f (mundo s); aviao := aviao s;
                      ambiente := ambiente s; historico := historico s |}).

Definition poe_aviao (f : Aviao -> Aviao) : M Estado unit :=
  altera (fun s => {| mundo := mundo s; aviao := f (aviao s);
                      ambiente := ambiente s; historico := historico s |}).

Definition emite (e : Evento) : M Estado unit :=
  altera (fun s => {| mundo := mundo s; aviao := aviao s;
                      ambiente := ambiente s;
                      historico := historico s ++ [e] |}).

Definition bloqueia : M Estado Interf :=
  fun s => match ambiente s with
           | [] => None
           | i :: resto =>
               Some (i, {| mundo := visto i; aviao := aviao s;
                           ambiente := resto; historico := historico s |})
           end.

Definition checa_starvation_m : M Estado bool :=
  fun s =>
    let '(c, (m, a)) := checa_starvation (mundo s) (aviao s) in
    Some (c, {| mundo := m; aviao := a;
                ambiente := ambiente s; historico := historico s |}).

Definition muda_estado (novo : EstadoAviao) : M Estado unit :=
  poe_aviao (com_estado novo);;;
  t <- agora;;
  poe_aviao (com_inicio_espera t).

(** sleep and sleep_ms. *)
Definition dorme : M Estado unit := bloqueia;;; ret tt.

(** A wait on the semaphore of [r], sem_timedwait in aguardar_sem_timed
    or sem_wait: 0 after taking a unit, -1 otherwise.  A worker that the
    oracle says took a unit when there is none stays blocked. *)
Definition espera_sem (r : Recurso) : M Estado Z :=
  i <- bloqueia;;
  if obteve i then
    m <- le_mundo;;
    if 0 <? sem_valor r m then
      poe_mundo (com_sem r (sem_valor r m - 1));;;
      emite (EvObteve r);;;
      ret 0
    else trava
  else ret (-1).

Definition aguardar_sem_timed (r : Recurso) (segundos_timeout : Z)
  : M Estado Z :=
  espera_sem r.

Definition sem_wait (r : Recurso) : M Estado Z := espera_sem r.

Definition liberar (r : Recurso) : M Estado unit :=
  m <- le_mundo;;
  poe_mundo (com_sem r (sem_valor r m + 1));;;
  emite (EvLibera r).

(** *** adquirir_recurso_prioritario *)

(** The scan of avioes[] for a boosted aircraft that is neither
    finished nor failed; the array holds the worker's own record too. *)
Definition em_andamento (e : EstadoAviao) : bool :=
  match e with
  | EST_FINALIZADO | EST_FALHA => false
  | _ => true
  end.

Definition existe_boost (m : Mundo) (a : Aviao) : bool :=
  (boosted a && em_andamento (estado a)) || outro_boosted m.

(** if (checa_starvation(a)) return -1;
    if ((agora()-inicio) >= timeout_total) return -1;
    [None] is the next turn of the loop. *)
Definition reavalia (inicio timeout_total : Z) : M Estado (option Z) :=
  c <- checa_starvation_m;;
  if c then ret (Some (-1))
  else
    t <- agora;;
    if timeout_total <=? t - inicio then ret (Some (-1)) else ret None.

(** One turn of the while(1).  The flight classes are exclusive, so the
    two tests of the source are one chain here. *)
Definition adquirir_volta (r : Recurso) (inicio timeout_total : Z)
  : M Estado (option Z) :=
  a <- le_aviao;;
  m <- le_mundo;;
  match tipo a with
  | DOMESTICO =>
      if negb (boosted a) && (0 <? aguardando_internacional m) then
        emite EvCede;;;
        dorme;;;
        reavalia inicio timeout_total
      else
        rc <- aguardar_sem_timed r 2;;
        if rc =? 0 then ret (Some 0) else reavalia inicio timeout_total
  | INTERNACIONAL =>
      if existe_boost m a then
        emite EvCedeBoost;;;
        dorme;;;
        reavalia inicio timeout_total
      else
        rc <- aguardar_sem_timed r 2;;
        if rc =? 0 then ret (Some 0) else reavalia inicio timeout_total
  end.

Fixpoint adquirir_laco (voltas : nat) (r : Recurso)
         (inicio timeout_total : Z) : M Estado Z :=
  match voltas with
  | O => trava
  | S voltas' =>
      v <- adquirir_volta r inicio timeout_total;;
      match v with
      | Some rc => ret rc
      | None => adquirir_laco voltas' r inicio timeout_total
      end
  end.

(** Every turn of the loop blocks once, so one turn more than the
    oracle is long never runs out. *)
Definition adquirir_recurso_prioritario (modo_forcar_deadlock : bool)
           (r : Recurso) (timeout_total : Z) : M Estado Z :=
  if modo_forcar_deadlock then
    rc <- sem_wait r;;
    if rc =? 0 then ret 0 else ret (-1)
  else
    inicio <- agora;;
    s <- le;;
    adquirir_laco (S (length (ambiente s))) r inicio timeout_total.

Definition executa_fase : M Estado unit :=
  dorme;;;
  t <- agora;;
  poe_aviao (com_ultimo_progresso t);;;
  poe_aviao (com_inicio_espera t);;;
  a <- le_aviao;;
  poe_aviao (com_operacoes (operacoes_concluidas a + 1)).

(** *** The phases *)

Definition aguardando_mais : M Estado unit :=
  a <- le_aviao;;
  m <- le_mundo;;
  poe_mundo (com_aguardando (tipo a) (aguardando (tipo a) m + 1)).

Definition aguardando_menos : M Estado unit :=
  a <- le_aviao;;
  m <- le_mundo;;
  poe_mundo (com_aguardando (tipo a) (aguardando (tipo a) m - 1)).

(** The order in which a phase asks for its semaphores. *)
Definition ordem_pouso (t : TipoVoo) : Recurso * Recurso :=
  match t with
  | INTERNACIONAL => (PISTA, TORRE)
  | DOMESTICO => (TORRE, PISTA)
  end.

Definition ordem_desembarque (t : TipoVoo) : Recurso * Recurso :=
  match t with
  | INTERNACIONAL => (PORTAO, TORRE)
  | DOMESTICO => (TORRE, PORTAO)
  end.

Definition ordem_decolagem (t : TipoVoo) : Recurso * Recurso * Recurso :=
  match t with
  | INTERNACIONAL => (PORTAO, PISTA, TORRE)
  | DOMESTICO => (TORRE, PORTAO, PISTA)
  end.

(** The while(1) of fase_pouso and of fase_desembarque up to the second
    semaphore: [Some rc] is a return, [None] leaves the loop with both
    semaphores held.  [continue] is the recursive call. *)
Fixpoint par_laco (voltas : nat) (first second : Recurso)
         (acquired_first : bool) : M Estado (option Z) :=
  match voltas with
  | O => trava
  | S voltas' =>
      aguardando_mais;;;
      r1 <- (if negb acquired_first
             then adquirir_recurso_prioritario false first TIMEOUT_OPERACAO
             else ret 0);;
      if negb (r1 =? 0) then
        aguardando_menos;;;
        a <- le_aviao;;
        if falhou a then ret (Some (-1))
        else par_laco voltas' first second acquired_first
      else
        r2 <- adquirir_recurso_prioritario false second TIMEOUT_OPERACAO;;
        if negb (r2 =? 0) then
          liberar first;;;
          aguardando_menos;;;
          a <- le_aviao;;
          if falhou a then ret (Some (-1))
          else dorme;;; par_laco voltas' first second false
        else
          aguardando_menos;;;
          ret None
  end.

Definition fase_pouso (modo_forcar_deadlock : bool) : M Estado Z :=
  muda_estado EST_AGUARDANDO_POUSO;;;
  a <- le_aviao;;
  let '(first, second) := ordem_pouso (tipo a) in
  if modo_forcar_deadlock then
    sem_wait first;;;
    dorme;;;
    sem_wait second;;;
    muda_estado EST_POUSANDO;;;
    executa_fase;;;
    liberar first;;;
    liberar second;;;
    ret 0
  else
    s <- le;;
    v <- par_laco (S (length (ambiente s))) first second false;;
    match v with
    | Some rc => ret rc
    | None =>
        muda_estado EST_POUSANDO;;;
        executa_fase;;;
        liberar first;;;
        liberar second;;;
        ret 0
    end.

(** The tower is released at once, the gate after the extra time. *)
Definition libera_desembarque (first second : Recurso) : M Estado unit :=
  a <- le_aviao;;
  match tipo a with
  | INTERNACIONAL => liberar second;;; dorme;;; liberar first
  | DOMESTICO => liberar first;;; dorme;;; liberar second
  end.

Definition fase_desembarque (modo_forcar_deadlock : bool) : M Estado Z :=
  muda_estado EST_AGUARDANDO_DESEMBARQUE;;;
  a <- le_aviao;;
  let '(first, second) := ordem_desembarque (tipo a) in
  if modo_forcar_deadlock then
    sem_wait first;;;
    dorme;;;
    sem_wait second;;;
    muda_estado EST_DESEMBARCANDO;;;
    executa_fase;;;
    libera_desembarque first second;;;
    ret 0
  else
    s <- le;;
    v <- par_laco (S (length (ambiente s))) first second false;;
    match v with
    | Some rc => ret rc
    | None =>
        muda_estado EST_DESEMBARCANDO;;;
        executa_fase;;;
        libera_desembarque first second;;;
        ret 0
    end.

(** The while(1) of fase_decolagem up to the third semaphore. *)
Fixpoint trio_laco (voltas : nat) (r1 r2 r3 : Recurso) (got1 got2 : bool)
  : M Estado (option Z) :=
  match voltas with
  | O => trava
  | S voltas' =>
      aguardando_mais;;;
      x1 <- (if negb got1
             then adquirir_recurso_prioritario false r1 TIMEOUT_OPERACAO
             else ret 0);;
      if negb (x1 =? 0) then
        aguardando_menos;;;
        a <- le_aviao;;
        if falhou a then ret (Some (-1))
        else trio_laco voltas' r1 r2 r3 got1 got2
      else
        x2 <- (if negb got2
               then adquirir_recurso_prioritario false r2 TIMEOUT_OPERACAO
               else ret 0);;
        if negb (x2 =? 0) then
          liberar r1;;;
          aguardando_menos;;;
          a <- le_aviao;;
          if falhou a then ret (Some (-1))
          else dorme;;; trio_laco voltas' r1 r2 r3 false got2
        else
          x3 <- adquirir_recurso_prioritario false r3 TIMEOUT_OPERACAO;;
          if negb (x3 =? 0) then
            liberar r2;;;
            liberar r1;;;
            aguardando_menos;;;
            a <- le_aviao;;
            if falhou a then ret (Some (-1))
            else dorme;;; trio_laco voltas' r1 r2 r3 false false
          else
            aguardando_menos;;;
            ret None
  end.

Definition conclui_decolagem (r1 r2 r3 : Recurso) : M Estado Z :=
  muda_estado EST_DECOLANDO;;;
  executa_fase;;;
  liberar r1;;;
  liberar r2;;;
  liberar r3;;;
  poe_aviao (com_estado EST_FINALIZADO);;;
  m <- le_mundo;;
  poe_mundo (com_total_sucesso (total_sucesso m + 1));;;
  ret 0.

Definition fase_decolagem (modo_forcar_deadlock : bool) : M Estado Z :=
  muda_estado EST_AGUARDANDO_DECOLAGEM;;;
  a <- le_aviao;;
  let '(r1, r2, r3) := ordem_decolagem (tipo a) in
  if modo_forcar_deadlock then
    sem_wait r1;;;
    dorme;;;
    sem_wait r2;;;
    dorme;;;
    sem_wait r3;;;
    conclui_decolagem r1 r2 r3
  else
    s <- le;;
    v <- trio_laco (S (length (ambiente s))) r1 r2 r3 false false;;
    match v with
    | Some rc => ret rc
    | None => conclui_decolagem r1 r2 r3
    end.

(** fase_x(a) != 0 || a->falhou *)
Definition parou (rc : Z) : M Estado bool :=
  a <- le_aviao;;
  ret (negb (rc =? 0) || falhou a).

Definition rotina_aviao (modo_forcar_deadlock : bool) : M Estado unit :=
  t <- agora;;
  poe_aviao (com_inicio_espera t);;;
  poe_aviao (com_ultimo_progresso t);;;
  a <- le_aviao;;
  poe_aviao (com_prioridade_base
               (match tipo a with INTERNACIONAL => 2 | DOMESTICO => 1 end));;;
  a <- le_aviao;;
  poe_aviao (com_prioridade_efetiva (prioridade_base a));;;
  rc <- fase_pouso modo_forcar_deadlock;;
  p <- parou rc;;
  if p then ret tt
  else
    rc <- fase_desembarque modo_forcar_deadlock;;
    p <- parou rc;;
    if p then ret tt
    else
      dorme;;;
      t <- agora;;
      poe_aviao (com_inicio_espera t);;;
      rc <- fase_decolagem modo_forcar_deadlock;;
      _ <- parou rc;;
      ret tt.

(** *** Initial values *)

Definition inicializar_recursos (n_pistas n_portoes n_torres t0 : Z)
  : Mundo :=
  {| relogio := t0;
     sem_pistas := n_pistas; sem_portoes := n_portoes;
     sem_torre := n_torres;
     aguardando_internacional := 0; aguardando_domestico := 0;
     total_sucesso := 0; total_falha := 0;
     total_alertas_starvation := 0; total_boosts := 0;
     outro_boosted := false |}.

(** The record main fills after calloc. *)
Definition novo (i : Z) (tp : TipoVoo) : Aviao :=
  {| id := i; tipo := tp; estado := EST_CRIADO;
     inicio_espera := 0; ultimo_progresso := 0;
     alertas_starvation := 0; falhou := false;
     operacoes_concluidas := 0; boosted := false;
     prioridade_base := 0; prioridade_efetiva := 0 |}.

Definition inicio (m : Mundo) (a : Aviao) (amb : list Interf) : Estado :=
  {| mundo := m; aviao := a; ambiente := amb; historico := [] |}.

(** *** Reading a log *)

(** The times a worker gave way to the flight-class rule. *)
Definition cede_classe (e : Evento) : bool :=
  match e with
  | EvCede => true
  | _ => false
  end.

Definition cessoes (tr : list Evento) : nat :=
  length (filter cede_classe tr).

(** A boosted worker that has given way [n] times so far. *)
Definition impulsionado (n : nat) (s : Estado) : Prop :=
  boosted (aviao s) = true /\ cessoes (historico s) = n.

(** The semaphores a log takes, in order. *)
Definition obtidos (tr : list Evento) : list Recurso :=
  flat_map (fun e => match e with EvObteve r => [r] | _ => [] end) tr.

(** Replaying a log against an acquisition order [ord]: the semaphores
    held, oldest first, or [None] once a semaphore was taken out of
    turn or released while not held.  A semaphore is taken in turn when
    those held are the first ones of [ord] and it is the next one. *)
Fixpoint prefixo (held ord : list Recurso) : bool :=
  match held, ord with
  | [], _ => true
  | x :: held', y :: ord' => Recurso_eqb x y && prefixo held' ord'
  | _ :: _, [] => false
  end.

Fixpoint retira (r : Recurso) (held : list Recurso) : list Recurso :=
  match held with
  | [] => []
  | x :: held' => if Recurso_eqb r x then held' else x :: retira r held'
  end.

Definition na_vez (ord held : list Recurso) (r : Recurso) : bool :=
  prefixo held ord
  && match nth_error ord (length held) with
     | Some r' => Recurso_eqb r r'
     | None => false
     end.

Definition passo_ordem (ord : list Recurso) (h : option (list Recurso))
           (e : Evento) : option (list Recurso) :=
  match h with
  | None => None
  | Some held =>
      match e with
      | EvObteve r =>
          if na_vez ord held r then Some (held ++ [r]) else None
      | EvLibera r =>
          if existsb (Recurso_eqb r) held then Some (retira r held)
          else None
      | EvCede | EvCedeBoost => Some held
      end
  end.

Definition em_ordem (ord : list Recurso) (tr : list Evento)
  : option (list Recurso) :=
  fold_left (passo_ordem ord) tr (Some []).

(** The worker's log since [s0] replays against [ord] and leaves
    [held]; the flight class is the one of [s0]. *)
Definition segura (s0 : Estado) (ord held : list Recurso) (s : Estado)
  : Prop :=
  tipo (aviao s) = tipo (aviao s0)
  /\ exists tr,
      historico s = historico s0 ++ tr /\ em_ordem ord tr = Some held.

(** What a call that may take the semaphore of [r] leaves: 0 and the
    semaphore held, or a failure and nothing more held. *)
Definition tomou_ou_nao (s0 : Estado) (ord held : list Recurso)
           (r : Recurso) (rc : Z) (s : Estado) : Prop :=
  (rc = 0 /\ segura s0 ord (held ++ [r]) s)
  \/ (rc <> 0 /\ segura s0 ord held s).

(** The order of each phase as a list. *)
Definition par (p : Recurso * Recurso) : list Recurso :=
  [fst p; snd p].

Definition trio (p : Recurso * Recurso * Recurso) : list Recurso :=
  [fst (fst p); snd (fst p); snd p].

(** *** Sample runs *)

(** An idle airport at time [t]. *)
Definition livre (t : Z) : Mundo := inicializar_recursos 3 5 2 t.

(** The same with an international flight in the queue. *)
Definition com_internacional (t : Z) : Mundo :=
  com_aguardando INTERNACIONAL 1 (livre t).

Definition consegue (m : Mundo) : Interf := {| visto := m; obteve := true |}.
Definition passa (m : Mundo) : Interf := {| visto := m; obteve := false |}.

(** An international flight takes off from the idle airport: three
    waits that succeed, then the sleep of the phase. *)
Definition decola_internacional : Estado :=
  inicio (livre 100) (novo 1 INTERNACIONAL)
         [consegue (com_internacional 100);
          consegue (com_sem PORTAO 4 (com_internacional 100));
          consegue (com_sem PISTA 2
                      (com_sem PORTAO 4 (com_internacional 100)));
          passa (com_sem TORRE 1
                   (com_sem PISTA 2 (com_sem PORTAO 4 (livre 103))))].

(** A boosted domestic flight asks for the tower while an
    international flight waits. *)
Definition domestico_boosted : Estado :=
  inicio (com_internacional 100)
         (com_boosted true (novo 2 DOMESTICO))
         [consegue (com_internacional 100)].

(** A boosted domestic flight goes through its three phases while an
    international flight waits: every wait on a semaphore succeeds. *)
Definition voo_boosted : Estado :=
  inicio (com_internacional 100)
         (com_boosted true (novo 2 DOMESTICO))
         (repeat (consegue (com_internacional 100)) 12).

(** What one turn of the loop of adquirir_recurso_prioritario leaves:
    a return as above, or nothing more held and another turn. *)
Definition volta_ok (s0 : Estado) (ord held : list Recurso) (r : Recurso)
           (v : option Z) (s : Estado) : Prop :=
  match v with
  | Some rc => tomou_ou_nao s0 ord held r rc s
  | None => segura s0 ord held s
  end.

(** What the loop of a phase leaves: a return with nothing held, or
    all the semaphores of the phase held. *)
Definition laco_ok (s0 : Estado) (ord : list Recurso) (v : option Z)
           (s : Estado) : Prop :=
  match v with
  | Some _ => segura s0 ord [] s
  | None => segura s0 ord ord s
  end.

(** The airport with no runway free at time [t], [torre] slots of the
    tower being free and one domestic flight in the queue. *)
Definition sem_pista_livre (t torre : Z) : Mundo :=
  com_aguardando DOMESTICO 1
    (com_sem TORRE torre (com_sem PISTA 0 (livre t))).

(** A boosted domestic flight that has waited to land since time 10:
    at 99 it gets a tower slot, and its wait for the runway ends at 100
    without the runway. *)
Definition cai_e_devolve : Estado :=
  inicio (com_aguardando DOMESTICO 0 (sem_pista_livre 99 2))
         (com_inicio_espera 10
            (com_estado EST_AGUARDANDO_POUSO
               (com_boosted true (com_alertas 1 (novo 2 DOMESTICO)))))
         [consegue (sem_pista_livre 99 2); passa (sem_pista_livre 100 1)].

(** *** The outcome of a worker *)

(** The aircraft has completed [k] operations and has fallen or not:
    a fallen aircraft is in state EST_FALHA. *)
Definition situacao (caido : bool) (k : Z) (s : Estado) : Prop :=
  falhou (aviao s) = caido
  /\ operacoes_concluidas (aviao s) = k
  /\ (caido = true -> estado (aviao s) = EST_FALHA).

(** What a call that may give up leaves of an aircraft that had not
    fallen: 0 and the aircraft as it was, or -1. *)
Definition obteve_ou_caiu (k : Z) (rc : Z) (s : Estado) : Prop :=
  (rc = 0 /\ situacao false k s)
  \/ (rc = -1 /\ exists caido, situacao caido k s).

(** What a phase leaves: 0 and one operation more, or -1 and the
    aircraft fallen, which the test mode never does. *)
Definition fase_ok (modo_forcar_deadlock : bool) (k : Z) (rc : Z)
           (s : Estado) : Prop :=
  (rc = 0 /\ situacao false (k + 1) s)
  \/ (rc = -1 /\ situacao true k s /\ modo_forcar_deadlock = false).

(** What the loop of a phase leaves: a return of -1 with the aircraft
    fallen, or the semaphores taken by an aircraft that has not. *)
Definition laco_fim (k : Z) (v : option Z) (s : Estado) : Prop :=
  match v with
  | Some rc => rc = -1 /\ situacao true k s
  | None => situacao false k s
  end.

(** The three phases of a flight, in the order rotina_aviao runs
    them. *)
Definition fases (modo_forcar_deadlock : bool) : list (M Estado Z) :=
  [fase_pouso modo_forcar_deadlock;
   fase_desembarque modo_forcar_deadlock;
   fase_decolagem modo_forcar_deadlock].

(** A domestic flight arrives at time 10 at an airport with no tower
    slot and no runway free; its first wait for the tower ends at time
    101 without the tower. *)
Definition espera_longa : Estado :=
  inicio (sem_pista_livre 10 0) (novo 3 DOMESTICO)
         [passa (sem_pista_livre 101 0)].

(** The semaphores a log posts, in order. *)
Definition liberados (tr : list Evento) : list Recurso :=
  flat_map (fun e => match e with EvLibera r => [r] | _ => [] end) tr.

(** The worker's log has taken [h] and posted [l] so far. *)
Definition quieto (h l : list Recurso) (s : Estado) : Prop :=
  obtidos (historico s) = h /\ liberados (historico s) = l.

(** What ends a call of adquirir_recurso_prioritario that returns
    -1. *)
Definition desistencia (inicio timeout_total : Z) (s : Estado) : Prop :=
  falhou (aviao s) = true
  \/ timeout_total <= relogio (mundo s) - inicio.

(** A boosted international flight arrives at an idle airport at time
    100; it wakes from its first sleep at time 200. *)
Definition internacional_boosted : Estado :=
  inicio (livre 100) (com_boosted true (novo 4 INTERNACIONAL))
         [passa (livre 200)].

(** What one turn of adquirir_recurso_prioritario leaves of a log
    that had taken [h] and posted [l]: a return of 0 with [r] taken, a
    return of -1 with nothing taken, or nothing taken and another
    turn. *)
Definition volta_toma (h l : list Recurso) (r : Recurso)
           (inicio timeout_total : Z) (v : option Z) (s : Estado) : Prop :=
  match v with
  | Some rc =>
      (rc = 0 /\ quieto (h ++ [r]) l s)
      \/ (rc = -1 /\ quieto h l s /\ desistencia inicio timeout_total s)
  | None => quieto h l s
  end.

(** A property of the worker's own record and log. *)
Definition local (P : Aviao -> list Evento -> Prop) (s : Estado) : Prop :=
  P (aviao s) (historico s).

(** A boosted international flight whose log has taken [h] and posted
    [l]; the same while its state is neither EST_FINALIZADO nor
    EST_FALHA; the same once it has fallen or while it is in such a
    state. *)
Definition cede_a_si (h l : list Recurso) (a : Aviao) (tr : list Evento)
  : Prop :=
  tipo a = INTERNACIONAL /\ boosted a = true
  /\ obtidos tr = h /\ liberados tr = l.

Definition em_curso (h l : list Recurso) (a : Aviao) (tr : list Evento)
  : Prop :=
  cede_a_si h l a tr /\ em_andamento (estado a) = true.

Definition parado (h l : list Recurso) (a : Aviao) (tr : list Evento)
  : Prop :=
  cede_a_si h l a tr
  /\ (falhou a = true \/ em_andamento (estado a) = true).

(** The return of a phase that took and posted nothing and left the
    aircraft fallen. *)
Definition cai_sem_nada (h l : list Recurso) (rc : Z) (s : Estado) : Prop :=
  rc = -1 /\ local (cede_a_si h l) s /\ falhou (aviao s) = true.

(** *** rotina_monitor *)

Definition LIMITE_DEADLOCK : Z := 30.

(** The scan of avioes[] at time [t]: possivel_deadlock and ativos
    after the loop, which stops at the first aircraft that made
    progress less than LIMITE_DEADLOCK seconds ago.  An entry of the
    array is a null pointer or a record. *)
Fixpoint monitor_laco (t : Z) (avioes : list (option Aviao)) (ativos : Z)
  : bool * Z :=
  match avioes with
  | [] => (true, ativos)
  | None :: resto => monitor_laco t resto ativos
  | Some a :: resto =>
      if negb (em_andamento (estado a)) then monitor_laco t resto ativos
      else if t - ultimo_progresso a <? LIMITE_DEADLOCK
           then (false, ativos + 1)
           else monitor_laco t resto (ativos + 1)
  end.

(** One turn of the while loop of rotina_monitor after the sleep:
    whether it counts a deadlock alert, and whether it leaves the
    loop. *)
Definition monitor_volta (modo_forcar_deadlock encerrar_criacao : bool)
           (t : Z) (avioes : list (option Aviao)) : bool * bool :=
  let '(possivel_deadlock, ativos) := monitor_laco t avioes 0 in
  let alerta := (0 <? ativos) && possivel_deadlock in
  (alerta,
   (alerta && modo_forcar_deadlock)
   || (encerrar_criacao && (ativos =? 0))).

End So.

(** ** src/So_restrito.c *)

Module SoRestrito.

Definition ALERTA_CRITICO : Z := 60.
Definition FALHA_TIMEOUT : Z := 90.
Definition TIMEOUT_RECURSO : Z := 2.
Definition TIMEOUT_OPERACAO : Z := 10.

Inductive Tipo : Type := INTERNACIONAL | DOMESTICO.

Inductive Estado : Type :=
| EST_CRIADO | EST_AG_POUSO | EST_POUSO | EST_AG_DESEMB | EST_DESEMB
| EST_PREP_DECOL | EST_AG_DECOL | EST_DECOL | EST_FINAL | EST_FALHA.

Record Aviao : Type := {
  id : Z;
  tipo : Tipo;
  estado : Estado;
  inicio_espera : Z;
  ultimo_progresso : Z;
  alertas_starv : Z;
  falhou : bool;
  boosted : bool;
  operacoes : Z
}.

Record Mundo : Type := {
  relogio : Z;
  sem_pistas : Z;
  sem_portoes : Z;
  sem_torre : Z;
  aguardando_internacional : Z;
  total_falha : Z;
  total_alertas_starvation : Z;
  total_boosts : Z
}.

Definition sem_valor (r : Recurso) (m : Mundo) : Z :=
  match r with
  | PISTA => sem_pistas m
  | PORTAO => sem_portoes m
  | TORRE => sem_torre m
  end.

Definition com_sem (r : Recurso) (v : Z) (m : Mundo) : Mundo :=
  {| relogio := relogio m;
     sem_pistas := match r with PISTA => v | _ => sem_pistas m end;
     sem_portoes := match r with PORTAO => v | _ => sem_portoes m end;
     sem_torre := match r with TORRE => v | _ => sem_torre m end;
     aguardando_internacional := aguardando_internacional m;
     total_falha := total_falha m;
     total_alertas_starvation := total_alertas_starvation m;
     total_boosts := total_boosts m |}.

Definition com_aguardando (v : Z) (m : Mundo) : Mundo :=
  {| relogio := relogio m;
     sem_pistas := sem_pistas m; sem_portoes := sem_portoes m;
     sem_torre := sem_torre m;
     aguardando_internacional := v;
     total_falha := total_falha m;
     total_alertas_starvation := total_alertas_starvation m;
     total_boosts := total_boosts m |}.

(** The three counters of the final report. *)
Definition com_totais (f al b : Z) (m : Mundo) : Mundo :=
  {| relogio := relogio m;
     sem_pistas := sem_pistas m; sem_portoes := sem_portoes m;
     sem_torre := sem_torre m;
     aguardando_internacional := aguardando_internacional m;
     total_falha := f;
     total_alertas_starvation := al;
     total_boosts := b |}.

(** alertas_starv, boosted, and falhou with the state that goes with
    it. *)
Definition com_alerta (al : Z) (b : bool) (a : Aviao) : Aviao :=
  {| id := id a; tipo := tipo a; estado := estado a;
     inicio_espera := inicio_espera a;
     ultimo_progresso := ultimo_progresso a;
     alertas_starv := al; falhou := falhou a; boosted := b;
     operacoes := operacoes a |}.

Definition com_falha (a : Aviao) : Aviao :=
  {| id := id a; tipo := tipo a; estado := EST_FALHA;
     inicio_espera := inicio_espera a;
     ultimo_progresso := ultimo_progresso a;
     alertas_starv := alertas_starv a; falhou := true;
     boosted := boosted a; operacoes := operacoes a |}.

Definition final (e : Estado) : bool :=
  match e with
  | EST_FINAL => true
  | _ => false
  end.

Definition checa_starvation (m : Mundo) (a : Aviao) : Mundo * Aviao :=
  if falhou a || final (estado a) then (m, a)
  else
    let t := relogio m in
    let espera := para_int (t - inicio_espera a) in
    let '(m1, a1) :=
      if (ALERTA_CRITICO <=? espera) && (alertas_starv a =? 0) then
        let m' := com_totais (total_falha m)
                             (total_alertas_starvation m + 1)
                             (total_boosts m) m in
        match tipo a with
        | DOMESTICO =>
            if negb (boosted a)
            then (com_totais (total_falha m')
                             (total_alertas_starvation m')
                             (total_boosts m' + 1) m',
                  com_alerta 1 true a)
            else (m', com_alerta 1 (boosted a) a)
        | INTERNACIONAL => (m', com_alerta 1 (boosted a) a)
        end
      else (m, a) in
    if FALHA_TIMEOUT <=? espera
    then (com_totais (total_falha m1 + 1) (total_alertas_starvation m1)
                     (total_boosts m1) m1,
          com_falha a1)
    else (m1, a1).

(** *** The worker's state *)

Inductive Evento : Type :=
| EvPegou (r : Recurso)   (* sem_trywait or sem_wait on r returned 0 *)
| EvPost (r : Recurso).   (* sem_post on r *)

(** What the worker finds when it returns from a sleep or from a
    blocking sem_wait. *)
Record Interf : Type := {
  visto : Mundo
}.

Record Execucao : Type := {
  mundo : Mundo;
  aviao : Aviao;
  ambiente : list Interf;
  historico : list Evento
}.

Definition le_mundo : M Execucao Mundo := s <- le;; ret (mundo s).
Definition le_aviao : M Execucao Aviao := s <- le;; ret (aviao s).
Definition agora : M Execucao Z := s <- le;; ret (relogio (mundo s)).

Definition poe_mundo (f : Mundo -> Mundo) : M Execucao unit :=
  altera (fun s => {| mundo := f (mundo s); aviao := aviao s;
                      ambiente := ambiente s; historico := historico s |}).

Definition emite (e : Evento) : M Execucao unit :=
  altera (fun s => {| mundo := mundo s; aviao := aviao s;
                      ambiente := ambiente s;
                      historico := historico s ++ [e] |}).

Definition dorme : M Execucao unit :=
  fun s => match ambiente s with
           | [] => None
           | i :: resto =>
               Some (tt, {| mundo := visto i; aviao := aviao s;
                            ambiente := resto; historico := historico s |})
           end.

Definition checa_starvation_m : M Execucao unit :=
  altera (fun s =>
            let '(m, a) := checa_starvation (mundo s) (aviao s) in
            {| mundo := m; aviao := a;
               ambiente := ambiente s; historico := historico s |}).

(** sem_trywait: true when it took a unit. *)
Definition sem_trywait (r : Recurso) : M Execucao bool :=
  m <- le_mundo;;
  if 0 <? sem_valor r m then
    poe_mundo (com_sem r (sem_valor r m - 1));;;
    emite (EvPegou r);;;
    ret true
  else ret false.

(** sem_wait of the test mode: it returns once it has taken a unit. *)
Definition sem_wait (r : Recurso) : M Execucao unit :=
  dorme;;;
  m <- le_mundo;;
  if 0 <? sem_valor r m then
    poe_mundo (com_sem r (sem_valor r m - 1));;;
    emite (EvPegou r)
  else trava.

Definition sem_post (r : Recurso) : M Execucao unit :=
  m <- le_mundo;;
  poe_mundo (com_sem r (sem_valor r m + 1));;;
  emite (EvPost r).

(** *** adquirir_fase *)

Definition ordem_fase (fase : Z) (t : Tipo) : list Recurso :=
  if fase =? 0 then
    match t with
    | INTERNACIONAL => [PISTA; TORRE]
    | DOMESTICO => [TORRE; PISTA]
    end
  else if fase =? 1 then
    match t with
    | INTERNACIONAL => [PORTAO; TORRE]
    | DOMESTICO => [TORRE; PORTAO]
    end
  else
    match t with
    | INTERNACIONAL => [PORTAO; PISTA; TORRE]
    | DOMESTICO => [TORRE; PORTAO; PISTA]
    end.

(** The while(1) that polls one semaphore: true when it was taken. *)
Fixpoint tenta (voltas : nat) (r : Recurso) (inicio_recurso : Z)
  : M Execucao bool :=
  match voltas with
  | O => trava
  | S voltas' =>
      ok <- sem_trywait r;;
      if ok then ret true
      else
        dorme;;;
        checa_starvation_m;;;
        a <- le_aviao;;
        if falhou a then ret false
        else
          t <- agora;;
          if TIMEOUT_RECURSO <=? para_int (t - inicio_recurso)
          then ret false
          else tenta voltas' r inicio_recurso
  end.

(** for (k = 0; k < acquired; k++) sem_post(ordem[k]) *)
Fixpoint devolve (tomados : list Recurso) : M Execucao unit :=
  match tomados with
  | [] => ret tt
  | r :: resto => sem_post r;;; devolve resto
  end.

(** The for loop over ordem[i..n-1], [acquired] semaphores taken so
    far; it returns the value of [acquired] after the loop. *)
Fixpoint percorre (modo_forcar_deadlock : bool) (ordem resto : list Recurso)
         (i acquired : nat) : M Execucao nat :=
  match resto with
  | [] => ret acquired
  | r :: resto' =>
      if modo_forcar_deadlock then
        sem_wait r;;;
        (if (S i <? length ordem)%nat then dorme else ret tt);;;
        percorre modo_forcar_deadlock ordem resto' (S i) (S acquired)
      else
        inicio_recurso <- agora;;
        s <- le;;
        ok <- tenta (S (length (ambiente s))) r inicio_recurso;;
        let acquired' := if ok then S acquired else acquired in
        a <- le_aviao;;
        if falhou a then ret acquired'
        else if negb (acquired' =? S i)%nat then
          devolve (firstn acquired' ordem);;;
          ret O
        else percorre modo_forcar_deadlock ordem resto' (S i) acquired'
  end.

Definition aguardando_soma (d : Z) : M Execucao unit :=
  a <- le_aviao;;
  match tipo a with
  | INTERNACIONAL =>
      m <- le_mundo;;
      poe_mundo (com_aguardando (aguardando_internacional m + d))
  | DOMESTICO => ret tt
  end.

(** The while (!a->falhou) of adquirir_fase; leaving the loop by its
    condition returns -1. *)
Fixpoint adquirir_laco (voltas : nat) (modo_forcar_deadlock : bool)
         (ordem : list Recurso) (inicio_total : Z) : M Execucao Z :=
  match voltas with
  | O => trava
  | S voltas' =>
      a <- le_aviao;;
      if falhou a then ret (-1)
      else
        m <- le_mundo;;
        if match tipo a with DOMESTICO => negb (boosted a) | _ => false end
           && (0 <? aguardando_internacional m)
        then
          dorme;;;
          checa_starvation_m;;;
          adquirir_laco voltas' modo_forcar_deadlock ordem inicio_total
        else
          aguardando_soma 1;;;
          acquired <- percorre modo_forcar_deadlock ordem ordem O O;;
          aguardando_soma (-1);;;
          a <- le_aviao;;
          if falhou a then ret (-1)
          else if (acquired =? length ordem)%nat then ret 0
          else if modo_forcar_deadlock then ret (-1)
          else
            checa_starvation_m;;;
            t <- agora;;
            adquirir_laco voltas' modo_forcar_deadlock ordem
                          (if TIMEOUT_OPERACAO
                              <=? para_int (t - inicio_total)
                           then t else inicio_total)
  end.

(** Every turn of the loop that does not return has slept once, so one
    turn more than the oracle is long never runs out. *)
Definition adquirir_fase (modo_forcar_deadlock : bool) (fase : Z)
  : M Execucao Z :=
  a <- le_aviao;;
  if falhou a then ret (-1)
  else
    inicio_total <- agora;;
    s <- le;;
    adquirir_laco (S (length (ambiente s))) modo_forcar_deadlock
                  (ordem_fase fase (tipo a)) inicio_total.

(** *** A sample run *)

(** An airport with two tower slots, five gates and no runway free, at
    time [t], [torre] slots of the tower being free. *)
Definition sem_pista_livre (t torre : Z) : Mundo :=
  {| relogio := t;
     sem_pistas := 0; sem_portoes := 5; sem_torre := torre;
     aguardando_internacional := 0;
     total_falha := 0; total_alertas_starvation := 1; total_boosts := 1 |}.

(** A domestic flight that has waited to land since time 10 and was
    alerted and boosted at 70. *)
Definition esperando_pouso : Aviao :=
  {| id := 1; tipo := DOMESTICO; estado := EST_AG_POUSO;
     inicio_espera := 10; ultimo_progresso := 10;
     alertas_starv := 1; falhou := false; boosted := true;
     operacoes := 0 |}.

(** It calls adquirir_fase(a, 0) at time 99, finds a tower slot, and
    is still polling the runway when its wait reaches ninety seconds. *)
Definition cai_com_a_torre : Execucao :=
  {| mundo := sem_pista_livre 99 2;
     aviao := esperando_pouso;
     ambiente := [{| visto := sem_pista_livre 100 1 |}];
     historico := [] |}.

(** *** Reading a log *)

Fixpoint retira (r : Recurso) (held : list Recurso) : list Recurso :=
  match held with
  | [] => []
  | x :: held' => if Recurso_eqb r x then held' else x :: retira r held'
  end.

(** Replaying a log: the semaphores held, oldest first, or [None]
    once a semaphore was posted while not held. *)
Definition passo_posse (h : option (list Recurso)) (e : Evento)
  : option (list Recurso) :=
  match h with
  | None => None
  | Some held =>
      match e with
      | EvPegou r => Some (held ++ [r])
      | EvPost r =>
          if existsb (Recurso_eqb r) held then Some (retira r held)
          else None
      end
  end.

Definition posse_apos (tr : list Evento) : option (list Recurso) :=
  fold_left passo_posse tr (Some []).

(** The worker's log since [h0] replays and leaves [held]. *)
Definition segura (h0 : list Evento) (held : list Recurso) (s : Execucao)
  : Prop :=
  exists tr, historico s = h0 ++ tr /\ posse_apos tr = Some held.

(** The same for an aircraft that has not fallen. *)
Definition vivo_com (h0 : list Evento) (held : list Recurso) (s : Execucao)
  : Prop :=
  falhou (aviao s) = false /\ segura h0 held s.

(** What the for loop of adquirir_fase leaves: the first [acquired]
    semaphores of the order are held; an aircraft that has not fallen
    holds all of them or none. *)
Definition percorrido (modo_forcar_deadlock : bool) (h0 : list Evento)
           (ordem : list Recurso) (acquired : nat) (s : Execucao) : Prop :=
  segura h0 (firstn acquired ordem) s
  /\ (acquired <= length ordem)%nat
  /\ (falhou (aviao s) = false ->
      acquired = length ordem
      \/ (acquired = O /\ modo_forcar_deadlock = false)).

(** What adquirir_fase leaves: 0 and the semaphores of the phase held,
    or -1 and the aircraft fallen, holding the first [j] of them. *)
Definition adquirido (h0 : list Evento) (ordem : list Recurso) (rc : Z)
           (s : Execucao) : Prop :=
  (rc = 0 /\ segura h0 ordem s)
  \/ (rc = -1 /\ falhou (aviao s) = true
      /\ exists j, (j <= length ordem)%nat
                   /\ segura h0 (firstn j ordem) s).

(** An international flight lands at an idle airport: it finds the
    runway and the tower at once. *)
Definition aeroporto_livre (t : Z) : Mundo :=
  {| relogio := t;
     sem_pistas := 3; sem_portoes := 5; sem_torre := 2;
     aguardando_internacional := 0;
     total_falha := 0; total_alertas_starvation := 0; total_boosts := 0 |}.

Definition chegada_internacional : Execucao :=
  {| mundo := aeroporto_livre 100;
     aviao := {| id := 2; tipo := INTERNACIONAL; estado := EST_AG_POUSO;
                 inicio_espera := 100; ultimo_progresso := 100;
                 alertas_starv := 0; falhou := false; boosted := false;
                 operacoes := 0 |};
     ambiente := [];
     historico := [] |}.

(** *** rotina_monitor *)

Definition LIMITE_DEADLOCK : Z := 30.

(** estado != EST_FINAL && estado != EST_FALHA *)
Definition ativo (a : Aviao) : bool :=
  match estado a with
  | EST_FINAL | EST_FALHA => false
  | _ => true
  end.

(** The for loop of rotina_monitor over avioes[], at the time [t] read
    before the loop: the counters, the records, ativos and possivel
    after the loop.  An entry of the array is a null pointer or a
    record. *)
Fixpoint monitor_laco (t : Z) (m : Mundo) (avioes : list (option Aviao))
         (ativos : Z) (possivel : bool)
  : Mundo * list (option Aviao) * Z * bool :=
  match avioes with
  | [] => (m, [], ativos, possivel)
  | None :: resto =>
      let '(m', l, n, p) := monitor_laco t m resto ativos possivel in
      (m', None :: l, n, p)
  | Some a :: resto =>
      if ativo a then
        let '(m1, a1) := checa_starvation m a in
        let possivel1 :=
          if t - ultimo_progresso a1 <? LIMITE_DEADLOCK then false
          else possivel in
        let '(m', l, n, p) :=
          monitor_laco t m1 resto (ativos + 1) possivel1 in
        (m', Some a1 :: l, n, p)
      else
        let '(m', l, n, p) := monitor_laco t m resto ativos possivel in
        (m', Some a :: l, n, p)
  end.

(** One turn of the while loop after the sleep: the counters and the
    records it leaves, whether it counts a deadlock alert, and whether
    it leaves the loop. *)
Definition monitor_volta (modo_forcar_deadlock criando : bool)
           (m : Mundo) (avioes : list (option Aviao))
  : Mundo * list (option Aviao) * bool * bool :=
  let t := relogio m in
  let '(m', l, ativos, possivel) := monitor_laco t m avioes 0 true in
  let alerta := (0 <? ativos) && possivel in
  (m', l, alerta,
   (alerta && modo_forcar_deadlock) || (negb criando && (ativos =? 0))).

(** What the sweep does to one entry, and whether it makes it fall. *)
Definition varrido (m : Mundo) (o : option Aviao) : option Aviao :=
  match o with
  | Some a => Some (if ativo a then snd (checa_starvation m a) else a)
  | None => None
  end.

Definition ativo_em (o : option Aviao) : bool :=
  match o with
  | Some a => ativo a
  | None => false
  end.

Definition cai_na_varredura (m : Mundo) (o : option Aviao) : bool :=
  match o with
  | Some a =>
      ativo a && negb (falhou a) && falhou (snd (checa_starvation m a))
  | None => false
  end.

End SoRestrito.

(** * Proofs *)

(** ** The monad *)

Section MonadaFatos.
Context {S : Type}.

Lemma apos_ret {A} (x : A) (Q : A -> S -> Prop) s :
  Q x s -> apos (ret x) Q s.
Proof. exact (fun H => H). Qed.

Lemma apos_bind {A B} (c : M S A) (k : A -> M S B) (Q : B -> S -> Prop) s :
  apos c (fun x s' => apos (k x) Q s') s -> apos (bind c k) Q s.
Proof.
  unfold apos, bind. destruct (c s) as [[x s']|]; auto.
Qed.

Lemma apos_mono {A} (c : M S A) (P Q : A -> S -> Prop) s :
  apos c P s -> (forall x s', P x s' -> Q x s') -> apos c Q s.
Proof.
  unfold apos. destruct (c s) as [[x s']|]; auto.
Qed.

Lemma apos_trava {A} (Q : A -> S -> Prop) s : apos trava Q s.
Proof. exact I. Qed.

Lemma apos_le (Q : S -> S -> Prop) s : Q s s -> apos le Q s.
Proof. exact (fun H => H). Qed.

Lemma apos_altera (f : S -> S) (Q : unit -> S -> Prop) s :
  Q tt (f s) -> apos (altera f) Q s.
Proof. exact (fun H => H). Qed.

Lemma apos_elim {A} (c : M S A) (Q : A -> S -> Prop) s x s' :
  apos c Q s -> c s = Some (x, s') -> Q x s'.
Proof. unfold apos. intros H E. rewrite E in H. exact H. Qed.

Lemma apos_intro {A} (c : M S A) (Q : A -> S -> Prop) s :
  (forall x s', c s = Some (x, s') -> Q x s') -> apos c Q s.
Proof. unfold apos. destruct (c s) as [[x s']|]; auto. Qed.
End MonadaFatos.

Section Invariantes.
Context {S : Type} (P : S -> Prop).

Lemma preserva_ret {A} (x : A) : preserva P (ret x).
Proof. intros s H. apply apos_ret. exact H. Qed.

Lemma preserva_trava {A} : preserva P (@trava S A).
Proof. intros s H. apply apos_trava. Qed.

Lemma preserva_le : preserva P le.
Proof. intros s H. apply apos_le. exact H. Qed.

Lemma garante_bind {A B} (c : M S A) (k : A -> M S B) Q :
  preserva P c -> (forall x, garante P (k x) Q) -> garante P (bind c k) Q.
Proof.
  intros Hc Hk s H. apply apos_bind.
  eapply apos_mono; [exact (Hc s H)|]. intros x s' H'. exact (Hk x s' H').
Qed.

Lemma preserva_bind {A B} (c : M S A) (k : A -> M S B) :
  preserva P c -> (forall x, preserva P (k x)) -> preserva P (bind c k).
Proof. intros Hc Hk. apply garante_bind; assumption. Qed.

Lemma garante_ret {A} (x : A) (Q : A -> S -> Prop) :
  (forall s, P s -> Q x s) -> garante P (ret x) Q.
Proof. intros H s Hs. apply apos_ret. exact (H s Hs). Qed.

Lemma garante_fraco {A} (c : M S A) (Q Q' : A -> S -> Prop) :
  garante P c Q -> (forall x s, Q x s -> Q' x s) -> garante P c Q'.
Proof. intros H HQ s Hs. eapply apos_mono; [exact (H s Hs)|exact HQ]. Qed.
End Invariantes.

(** The rules that carry an invariant through the code of a worker. *)
Create HintDb preserva.
#[global] Hint Resolve preserva_ret preserva_trava preserva_le
  preserva_bind : preserva.
#[global] Hint Extern 2 (preserva _ (if ?b then _ else _)) =>
  destruct b : preserva.
#[global] Hint Extern 2 (preserva _ (match ?x with _ => _ end)) =>
  destruct x : preserva.
#[global] Hint Extern 1 (forall _, preserva _ _) => intro : preserva.

(** [apos] is folded while the steps of a run are chained, and opened
    where a primitive is computed. *)
#[global] Opaque apos.

Ltac abre := with_strategy transparent [apos] (unfold apos).

(** ** The starvation check *)

Section Starvation.
Import SoFinal.

Lemma verificar_starvation_marcado m a :
  ja_marcado (status_final a) = true -> verificar_starvation m a = (m, a).
Proof. unfold verificar_starvation. intros ->. reflexivity. Qed.

(** Past the 90 seconds the first branch of verificar_starvation is
    closed and the second one decides by the flight class alone. *)
Lemma verificar_starvation_90 m a :
  ja_marcado (status_final a) = false ->
  TEMPO_MAXIMO_ESPERA <= relogio m - ultimo_tempo_espera a ->
  verificar_starvation m a =
    match tipo a with
    | DOMESTICO => (com_acidentes_count (acidentes_count m + 1) m,
                    com_status STARVATION a)
    | INTERNACIONAL => (com_deadlock_count (deadlock_count m + 1) m,
                        com_status DEADLOCK a)
    end.
Proof.
  unfold verificar_starvation. intros -> Hw.
  replace (relogio m - ultimo_tempo_espera a <? TEMPO_MAXIMO_ESPERA)
    with false by (symmetry; apply Z.ltb_ge; exact Hw).
  rewrite andb_false_r. simpl.
  replace (TEMPO_MAXIMO_ESPERA <=? relogio m - ultimo_tempo_espera a)
    with true by (symmetry; apply Z.leb_le; exact Hw).
  reflexivity.
Qed.
End Starvation.

Section StarvationRefatorado.
Import SoRefatorado.

Lemma verificar_starvation_ref_90 m a :
  ja_marcado (status_final a) = false ->
  TEMPO_MAXIMO_ESPERA <= relogio m - ultimo_tempo_espera a ->
  verificar_starvation m a =
    match tipo a with
    | DOMESTICO =>
        (com_contadores (deadlock_count m) (acidentes_count m + 1) m,
         com_status STARVATION a)
    | INTERNACIONAL =>
        (com_contadores (deadlock_count m + 1) (acidentes_count m) m,
         com_status DEADLOCK a)
    end.
Proof.
  unfold verificar_starvation. intros -> Hw.
  replace (relogio m - ultimo_tempo_espera a <? TEMPO_MAXIMO_ESPERA)
    with false by (symmetry; apply Z.ltb_ge; exact Hw).
  rewrite andb_false_r. simpl.
  replace (TEMPO_MAXIMO_ESPERA <=? relogio m - ultimo_tempo_espera a)
    with true by (symmetry; apply Z.leb_le; exact Hw).
  reflexivity.
Qed.
End StarvationRefatorado.

(** C6.  The 90-second rule of verificar_starvation, in So-final.c and in
    So_refatorado_corrigido.c: an aircraft that is not yet FALHA,
    STARVATION or DEADLOCK (so every non-terminal one) and whose wait,
    the clock minus ultimo_tempo_espera, is at least 90 is reclassified
    by its class.  A domestic one becomes STARVATION, acidentes_count
    grows by one and deadlock_count is untouched; an international one
    becomes DEADLOCK, deadlock_count grows by one and acidentes_count is
    untouched. *)
Theorem reclassificacao_por_classe :
  (forall m a,
      SoFinal.ja_marcado (SoFinal.status_final a) = false ->
      SoFinal.TEMPO_MAXIMO_ESPERA
        <= SoFinal.relogio m - SoFinal.ultimo_tempo_espera a ->
      let '(m', a') := SoFinal.verificar_starvation m a in
      match SoFinal.tipo a with
      | SoFinal.DOMESTICO =>
          SoFinal.status_final a' = SoFinal.STARVATION
          /\ SoFinal.acidentes_count m' = SoFinal.acidentes_count m + 1
          /\ SoFinal.deadlock_count m' = SoFinal.deadlock_count m
      | SoFinal.INTERNACIONAL =>
          SoFinal.status_final a' = SoFinal.DEADLOCK
          /\ SoFinal.deadlock_count m' = SoFinal.deadlock_count m + 1
          /\ SoFinal.acidentes_count m' = SoFinal.acidentes_count m
      end)
  /\
  (forall m a,
      SoRefatorado.ja_marcado (SoRefatorado.status_final a) = false ->
      SoRefatorado.TEMPO_MAXIMO_ESPERA
        <= SoRefatorado.relogio m - SoRefatorado.ultimo_tempo_espera a ->
      let '(m', a') := SoRefatorado.verificar_starvation m a in
      match SoRefatorado.tipo a with
      | SoRefatorado.DOMESTICO =>
          SoRefatorado.status_final a' = SoRefatorado.STARVATION
          /\ SoRefatorado.acidentes_count m'
             = SoRefatorado.acidentes_count m + 1
          /\ SoRefatorado.deadlock_count m' = SoRefatorado.deadlock_count m
      | SoRefatorado.INTERNACIONAL =>
          SoRefatorado.status_final a' = SoRefatorado.DEADLOCK
          /\ SoRefatorado.deadlock_count m'
             = SoRefatorado.deadlock_count m + 1
          /\ SoRefatorado.acidentes_count m'
             = SoRefatorado.acidentes_count m
      end).
Proof.
  split; intros m a Hs Hw.
  - rewrite (verificar_starvation_90 m a Hs Hw).
    destruct (SoFinal.tipo a); simpl; auto.
  - rewrite (verificar_starvation_ref_90 m a Hs Hw).
    destruct (SoRefatorado.tipo a); simpl; auto.
Qed.

Lemma reclassificacao_por_classe_testemunha :
  SoFinal.status_final
    (snd (SoFinal.verificar_starvation
            (SoFinal.inicializarRecursos 3 5 2 190)
            (SoFinal.novo 1 SoFinal.DOMESTICO 100)))
  = SoFinal.STARVATION
  /\ SoRefatorado.status_final
       (snd (SoRefatorado.verificar_starvation
               (SoRefatorado.inicializarRecursos 3 5 2 190)
               (SoRefatorado.novo 1 SoRefatorado.INTERNACIONAL 100)))
     = SoRefatorado.DEADLOCK.
Proof.
  split.
  - pose proof (proj1 reclassificacao_por_classe
                  (SoFinal.inicializarRecursos 3 5 2 190)
                  (SoFinal.novo 1 SoFinal.DOMESTICO 100) eq_refl) as H.
    assert (Hw : SoFinal.TEMPO_MAXIMO_ESPERA <= 190 - 100)
      by (vm_compute; discriminate).
    specialize (H Hw).
    destruct (SoFinal.verificar_starvation _ _) as [m' a'].
    simpl in *. apply H.
  - pose proof (proj2 reclassificacao_por_classe
                  (SoRefatorado.inicializarRecursos 3 5 2 190)
                  (SoRefatorado.novo 1 SoRefatorado.INTERNACIONAL 100)
                  eq_refl) as H.
    assert (Hw : SoRefatorado.TEMPO_MAXIMO_ESPERA <= 190 - 100)
      by (vm_compute; discriminate).
    specialize (H Hw).
    destruct (SoRefatorado.verificar_starvation _ _) as [m' a'].
    simpl in *. apply H.
Defined.

(** ** So-final.c: what the operations leave in the log *)

Section Leituras.
Import SoFinal.

Lemma apos_le_aviao {B} (k : Aviao -> M Estado B) Q (s : Estado) :
  apos (k (aviao s)) Q s -> apos (bind le_aviao k) Q s.
Proof. abre. exact (fun H => H). Qed.

Lemma apos_le_mundo {B} (k : Mundo -> M Estado B) Q (s : Estado) :
  apos (k (mundo s)) Q s -> apos (bind le_mundo k) Q s.
Proof. abre. exact (fun H => H). Qed.

Lemma apos_time {B} (k : Z -> M Estado B) Q (s : Estado) :
  apos (k (relogio (mundo s))) Q s -> apos (bind time k) Q s.
Proof. abre. exact (fun H => H). Qed.

Lemma apos_le_estado {B} (k : Estado -> M Estado B) Q (s : Estado) :
  apos (k s) Q s -> apos (bind le k) Q s.
Proof. abre. exact (fun H => H). Qed.

Lemma has_tem s0 tr p s r :
  ate_aqui s0 tr p s -> has r (aviao s) = tem r p.
Proof. intros (_ & <- & _). destruct r; reflexivity. Qed.

End Leituras.

(** Running a step whose specification is known. *)
Ltac passo H :=
  apply apos_bind; eapply apos_mono; [apply H; eauto|]; cbv beta.

Ltac leitura :=
  first [ apply apos_le_aviao | apply apos_le_mundo
        | apply apos_time | apply apos_le_estado ]; cbv beta.

(** A return point of a phase: the path [c] accounts for the run. *)
Ltac folha c H :=
  exists c;
  match goal with p0 : SoFinal.Posse |- _ => destruct p0 as [[] [] []] end;
  simpl in *; try discriminate;
  (split; [simpl; tauto
          |split; [exact H|split; [reflexivity|simpl; auto]]]).

Ltac necessidades s H :=
  change (SoFinal.has_pista (SoFinal.aviao s))
    with (SoFinal.has PISTA (SoFinal.aviao s));
  change (SoFinal.has_portao (SoFinal.aviao s))
    with (SoFinal.has PORTAO (SoFinal.aviao s));
  change (SoFinal.has_torre (SoFinal.aviao s))
    with (SoFinal.has TORRE (SoFinal.aviao s));
  rewrite ?(has_tem _ _ _ _ PISTA H), ?(has_tem _ _ _ _ PORTAO H),
          ?(has_tem _ _ _ _ TORRE H).

Section Operacoes.
Import SoFinal.

Lemma verificar_starvation_posse m a :
  posse (snd (verificar_starvation m a)) = posse a
  /\ tipo (snd (verificar_starvation m a)) = tipo a.
Proof.
  unfold verificar_starvation.
  destruct (ja_marcado (status_final a)); [auto|].
  destruct (_ && negb _); [simpl; auto|].
  destruct (TEMPO_MAXIMO_ESPERA <=? _); [|auto].
  destruct (tipo a) eqn:E; simpl; auto.
Qed.

Lemma verificar_starvation_gate m a :
  reserva (fst (verificar_starvation m a)) = reserva m
  /\ esperando_internacional (fst (verificar_starvation m a))
     = esperando_internacional m
  /\ simulacao_ativa (fst (verificar_starvation m a)) = simulacao_ativa m
  /\ relogio (fst (verificar_starvation m a)) = relogio m.
Proof.
  unfold verificar_starvation.
  destruct (ja_marcado (status_final a)); [auto|].
  destruct (_ && negb _); [simpl; auto|].
  destruct (TEMPO_MAXIMO_ESPERA <=? _); [|auto].
  destruct (tipo a) eqn:E; simpl; auto.
Qed.

(** The alert flag is raised by verificar_starvation and never lowered. *)
Lemma verificar_starvation_alerta m a :
  em_alerta_critico a = true ->
  em_alerta_critico (snd (verificar_starvation m a)) = true.
Proof.
  unfold verificar_starvation. intros H.
  destruct (ja_marcado (status_final a)); [auto|].
  destruct (_ && negb _); [simpl; auto|].
  destruct (TEMPO_MAXIMO_ESPERA <=? _); [|auto].
  destruct (tipo a) eqn:E; simpl; auto.
Qed.

Lemma monitor_deadlock_posse t a :
  posse (fst (monitor_deadlock t a)) = posse a
  /\ tipo (fst (monitor_deadlock t a)) = tipo a
  /\ em_alerta_critico (fst (monitor_deadlock t a)) = em_alerta_critico a.
Proof.
  unfold monitor_deadlock.
  destruct (id a =? 0); [auto|].
  destruct (status_final a); auto.
  destruct (_ || _); auto.
Qed.

Lemma acorda_local i s resto :
  historico (acorda i s resto) = historico s
  /\ posse (aviao (acorda i s resto)) = posse (aviao s)
  /\ tipo (aviao (acorda i s resto)) = tipo (aviao s)
  /\ ambiente (acorda i s resto) = resto
  /\ em_alerta_critico (aviao (acorda i s resto))
     = em_alerta_critico (aviao s).
Proof.
  unfold acorda. destruct (monitor_passou i); [|simpl; auto].
  pose proof (monitor_deadlock_posse (relogio (visto i)) (aviao s)) as H.
  destruct (monitor_deadlock _ _) as [a n]. simpl in *. tauto.
Qed.

Lemma acorda_gate i s resto :
  reserva (mundo (acorda i s resto)) = reserva (visto i)
  /\ esperando_internacional (mundo (acorda i s resto))
     = esperando_internacional (visto i)
  /\ simulacao_ativa (mundo (acorda i s resto)) = simulacao_ativa (visto i)
  /\ relogio (mundo (acorda i s resto)) = relogio (visto i).
Proof.
  unfold acorda. destruct (monitor_passou i); [|simpl; auto].
  destruct (monitor_deadlock _ _) as [a n]. simpl. auto.
Qed.

Variable s0 : Estado.

Lemma ate_aqui_inicio : ate_aqui s0 [] (posse (aviao s0)) s0.
Proof. unfold ate_aqui. rewrite app_nil_r. auto. Qed.

Lemma checa_falha_m_ate tr p s :
  ate_aqui s0 tr p s ->
  apos checa_falha_m (fun _ s' => ate_aqui s0 tr p s') s.
Proof.
  intros (Hh & Hp & Ht). abre; unfold checa_falha_m, checa_falha.
  pose proof (verificar_starvation_posse (mundo s) (aviao s)) as [H1 H2].
  destruct (verificar_starvation _ _) as [m a]. simpl in *.
  unfold ate_aqui. simpl. rewrite H1, H2. auto.
Qed.

Lemma bloqueia_ate tr p s :
  ate_aqui s0 tr p s ->
  apos bloqueia (fun _ s' => ate_aqui s0 tr p s') s.
Proof.
  intros (Hh & Hp & Ht). abre; unfold bloqueia.
  destruct (ambiente s) as [|i resto]; [exact I|].
  destruct (acorda_local i s resto) as (H1 & H2 & H3 & _).
  unfold ate_aqui. rewrite H1, H2, H3. auto.
Qed.

Lemma emite_ate tr p s e :
  ate_aqui s0 tr p s ->
  apos (emite e) (fun _ s' => ate_aqui s0 (tr ++ [e]) p s'
                              /\ aviao s' = aviao s) s.
Proof.
  intros (Hh & Hp & Ht). abre; unfold emite, altera, ate_aqui. simpl.
  rewrite Hh, app_assoc. auto.
Qed.

Lemma poe_mundo_ate tr p s f :
  ate_aqui s0 tr p s ->
  apos (poe_mundo f) (fun _ s' => ate_aqui s0 tr p s'
                                  /\ aviao s' = aviao s) s.
Proof.
  intros H. abre; unfold poe_mundo, altera, ate_aqui. simpl. auto.
Qed.

(** An update of the aircraft record that touches neither the flags nor
    the flight class. *)
Lemma poe_aviao_ate tr p s f :
  (forall a, posse (f a) = posse a /\ tipo (f a) = tipo a) ->
  ate_aqui s0 tr p s ->
  apos (poe_aviao f) (fun _ s' => ate_aqui s0 tr p s'
                                  /\ aviao s' = f (aviao s)) s.
Proof.
  intros Hf (Hh & Hp & Ht). abre; unfold poe_aviao, altera, ate_aqui. simpl.
  destruct (Hf (aviao s)) as [-> ->]. auto.
Qed.

Lemma sem_post_ate tr p s r :
  ate_aqui s0 tr p s ->
  apos (sem_post r) (fun _ s' => ate_aqui s0 (tr ++ [EvSemPost r]) p s'
                                 /\ aviao s' = aviao s) s.
Proof.
  intros (Hh & Hp & Ht). abre; unfold ate_aqui. simpl.
  rewrite Hh, app_assoc. auto.
Qed.

Lemma marca_ate tr p s r b :
  ate_aqui s0 tr p s ->
  apos (marca r b)
       (fun _ s' => ate_aqui s0 (tr ++ [EvHas r b]) (com_tem r b p) s') s.
Proof.
  intros (Hh & Hp & Ht). abre; unfold ate_aqui. simpl.
  rewrite Hh, app_assoc, <- Hp. destruct r; auto.
Qed.

Lemma sleep_ate tr p s n :
  ate_aqui s0 tr p s ->
  apos (sleep n) (fun _ s' => ate_aqui s0 (tr ++ [EvSleep n]) p s') s.
Proof.
  intros H. unfold sleep.
  passo bloqueia_ate. intros _ s1 H1.
  eapply apos_mono; [apply emite_ate; eauto|]. cbv beta. tauto.
Qed.

Lemma liberar_reserva_ate tr p s np ng nt :
  ate_aqui s0 tr p s ->
  apos (liberar_reserva np ng nt)
       (fun _ s' => ate_aqui s0 (tr ++ [EvLiberaReserva np ng nt]) p s'
                    /\ aviao s' = aviao s) s.
Proof.
  intros (Hh & Hp & Ht). abre; unfold ate_aqui. simpl.
  rewrite Hh, app_assoc. auto.
Qed.

Lemma liberar_prioridade_ate tr p s t :
  ate_aqui s0 tr p s ->
  apos (liberar_prioridade t)
       (fun _ s' => ate_aqui s0 (tr ++ [EvLiberaPrioridade t]) p s'
                    /\ aviao s' = aviao s) s.
Proof.
  intros (Hh & Hp & Ht). abre; unfold ate_aqui, liberar_prioridade.
  unfold bind at 1. simpl.
  destruct (0 <? esperando t (mundo s)); simpl;
    rewrite Hh, app_assoc; auto.
Qed.

Lemma libera_minha_prioridade_ate tr p s :
  ate_aqui s0 tr p s ->
  apos libera_minha_prioridade
       (fun _ s' =>
          ate_aqui s0 (tr ++ [EvLiberaPrioridade (tipo (aviao s0))]) p s'
          /\ aviao s' = aviao s) s.
Proof.
  intros H. unfold libera_minha_prioridade. leitura.
  destruct H as (Hh & Hp & Ht). rewrite Ht.
  apply liberar_prioridade_ate. unfold ate_aqui. auto.
Qed.

Lemma sem_wait_ate tr p s r :
  ate_aqui s0 tr p s ->
  apos (sem_wait r)
       (fun w s' => (w = 0 /\ ate_aqui s0 (tr ++ [EvSemWait r]) p s')
                    \/ (w = -1
                        /\ ate_aqui s0 (tr ++ [EvSemWaitErro r]) p s')) s.
Proof.
  intros H. unfold sem_wait.
  passo bloqueia_ate. intros i s1 H1.
  destruct (erro_sem i).
  - passo emite_ate. intros _ s2 [H2 _]. apply apos_ret. auto.
  - leitura. destruct (0 <? sem_valor r (mundo s1)); [|apply apos_trava].
    passo poe_mundo_ate. intros _ s2 [H2 _].
    passo emite_ate. intros _ s3 [H3 _]. apply apos_ret. auto.
Qed.

Lemma solta_ate tr p s r :
  ate_aqui s0 tr p s ->
  apos (solta r)
       (fun _ s' => ate_aqui s0 (tr ++ fst (ev_solta r p))
                             (snd (ev_solta r p)) s') s.
Proof.
  intros H. unfold solta, ev_solta. leitura.
  replace (has r (aviao s)) with (tem r p)
    by (destruct H as (_ & <- & _); destruct r; reflexivity).
  destruct (tem r p); simpl.
  - passo sem_post_ate. intros _ s1 [H1 _].
    eapply apos_mono; [apply marca_ate; eauto|]. cbv beta.
    intros _ s2 H2. rewrite <- app_assoc in H2. exact H2.
  - apply apos_ret. rewrite app_nil_r. exact H.
Qed.

Lemma deve_aguardar_ate tr p s limite :
  ate_aqui s0 tr p s ->
  apos (deve_aguardar limite) (fun _ s' => ate_aqui s0 tr p s') s.
Proof.
  intros H. unfold deve_aguardar. leitura.
  destruct (_ && _); [|apply apos_ret; exact H].
  passo checa_falha_m_ate. intros f s1 H1.
  destruct f; [apply apos_ret; exact H1|].
  leitura. apply apos_ret. exact H1.
Qed.

Lemma aguardar_laco_ate n limite : forall tr p s,
  ate_aqui s0 tr p s ->
  apos (aguardar_laco n limite) (fun _ s' => ate_aqui s0 tr p s') s.
Proof.
  induction n as [|n IH]; intros tr p s H; simpl; [apply apos_trava|].
  passo deve_aguardar_ate. intros c s1 H1.
  destruct c; [|apply apos_ret; exact H1].
  passo bloqueia_ate. intros _ s2 H2.
  apply IH. exact H2.
Qed.

Lemma desistiu_ate tr p s :
  ate_aqui s0 tr p s ->
  apos desistiu (fun _ s' => ate_aqui s0 tr p s') s.
Proof.
  intros H. unfold desistiu. leitura.
  destruct (negb _); [apply apos_ret; exact H|].
  apply checa_falha_m_ate. exact H.
Qed.

Lemma aguardar_prioridade_ate tr p s t :
  ate_aqui s0 tr p s ->
  apos (aguardar_prioridade t)
       (fun _ s' => exists d, ate_aqui s0 (tr ++ ev_fila t d) p s') s.
Proof.
  intros H. unfold aguardar_prioridade. leitura.
  passo poe_aviao_ate. intros _ s1 [H1 _].
  leitura.
  passo poe_mundo_ate. intros _ s2 [H2 _].
  passo emite_ate. intros _ s3 [H3 _].
  leitura.
  passo aguardar_laco_ate. intros _ s4 H4.
  passo desistiu_ate. intros d s5 H5.
  destruct d.
  - leitura.
    passo poe_mundo_ate. intros _ s6 [H6 _].
    eapply apos_mono; [apply emite_ate; eauto|]. cbv beta.
    intros _ s7 [H7 _]. exists true.
    unfold ev_fila. rewrite <- app_assoc in H7. exact H7.
  - apply apos_ret. exists false. exact H5.
Qed.

Lemma expira_ate tr p s start timeout_seg :
  ate_aqui s0 tr p s ->
  apos (expira start timeout_seg) (fun _ s' => ate_aqui s0 tr p s') s.
Proof.
  intros H. unfold expira. leitura.
  destruct (_ <=? 0); apply apos_ret; exact H.
Qed.

Lemma concede_ate tr p s np ng nt start timeout_seg :
  ate_aqui s0 tr p s ->
  apos (concede np ng nt start timeout_seg)
       (fun _ s' => ate_aqui s0 tr p s') s.
Proof.
  intros H. unfold concede. leitura.
  destruct (suficiente _ _ _ _); [|apply expira_ate; exact H].
  passo poe_mundo_ate. intros _ s1 [H1 _]. apply apos_ret. exact H1.
Qed.

Lemma reservar_volta_ate tr p s np ng nt start timeout_seg :
  ate_aqui s0 tr p s ->
  apos (reservar_volta np ng nt start timeout_seg)
       (fun _ s' => ate_aqui s0 tr p s') s.
Proof.
  intros H. unfold reservar_volta. leitura.
  destruct (negb _); [apply apos_ret; exact H|].
  passo checa_falha_m_ate. intros f s1 H1.
  destruct f; [apply apos_ret; exact H1|].
  leitura. leitura.
  destruct (em_alerta_critico _); [apply concede_ate; exact H1|].
  destruct (tipo _); [|apply concede_ate; exact H1].
  destruct (0 <? _); [apply expira_ate|apply concede_ate]; exact H1.
Qed.

Lemma reservar_laco_ate n np ng nt start timeout_seg : forall tr p s,
  ate_aqui s0 tr p s ->
  apos (reservar_laco n np ng nt start timeout_seg)
       (fun _ s' => ate_aqui s0 tr p s') s.
Proof.
  induction n as [|n IH]; intros tr p s H; simpl; [apply apos_trava|].
  passo reservar_volta_ate. intros v s1 H1.
  destruct v as [rc|]; [apply apos_ret; exact H1|].
  passo bloqueia_ate. intros _ s2 H2.
  apply IH. exact H2.
Qed.

Lemma reservar_recursos_ate tr p s np ng nt timeout_seg :
  ate_aqui s0 tr p s ->
  apos (reservar_recursos np ng nt timeout_seg)
       (fun rc s' => ate_aqui s0 (tr ++ [EvReservar np ng nt rc]) p s') s.
Proof.
  intros H. unfold reservar_recursos. leitura.
  passo reservar_laco_ate. intros rc s1 H1.
  passo emite_ate. intros _ s2 [H2 _]. apply apos_ret. exact H2.
Qed.

(** The block that takes resource [r]; [D] gives the log and the flags
    the rollback [desfaz] leaves. *)
Lemma toma_ate tr p s r desfaz (D : Posse -> list Evento * Posse) np ng nt :
  (forall tr' s', ate_aqui s0 tr' p s' ->
     apos desfaz (fun _ s'' => ate_aqui s0 (tr' ++ fst (D p)) (snd (D p)) s'')
          s') ->
  ate_aqui s0 tr p s ->
  apos (toma r desfaz np ng nt)
       (fun x s' =>
          match x with
          | None =>
              ate_aqui s0
                (tr ++ (if tem r p then [] else [EvSemWait r; EvHas r true]))
                (if tem r p then p else com_tem r true p) s'
          | Some rc =>
              tem r p = false /\ rc = -1
              /\ ate_aqui s0
                   (tr ++ EvSemWaitErro r :: fst (D p)
                       ++ [EvLiberaReserva np ng nt;
                           EvLiberaPrioridade (tipo (aviao s0))])
                   (snd (D p)) s'
          end) s.
Proof.
  intros HD H. unfold toma. leitura.
  rewrite (has_tem _ _ _ _ r H).
  destruct (tem r p) eqn:E; simpl.
  - apply apos_ret. rewrite app_nil_r. exact H.
  - passo sem_wait_ate. intros w s1 [[-> H1]|[-> H1]]; simpl.
    + passo marca_ate. intros _ s2 H2. apply apos_ret.
      rewrite <- app_assoc in H2. exact H2.
    + passo HD. intros _ s2 H2.
      passo liberar_reserva_ate. intros _ s3 [H3 _].
      passo libera_minha_prioridade_ate. intros _ s4 [H4 _].
      apply apos_ret. split; [reflexivity|]. split; [reflexivity|].
      repeat rewrite <- app_assoc in H4. simpl in H4. exact H4.
Qed.

Lemma sem_desfaz p : forall tr' s',
  ate_aqui s0 tr' p s' ->
  apos (ret tt)
       (fun _ s'' => ate_aqui s0 (tr' ++ fst (@nil Evento, p))
                              (snd (@nil Evento, p)) s'') s'.
Proof. intros tr' s' H. apply apos_ret. simpl. rewrite app_nil_r. exact H. Qed.

Lemma solta_desfaz r p : forall tr' s',
  ate_aqui s0 tr' p s' ->
  apos (solta r)
       (fun _ s'' => ate_aqui s0 (tr' ++ fst (ev_solta r p))
                              (snd (ev_solta r p)) s'') s'.
Proof. intros tr' s' H. apply solta_ate. exact H. Qed.

Lemma solta2_desfaz r1 r2 p : forall tr' s',
  ate_aqui s0 tr' p s' ->
  apos (solta r1;;; solta r2)
       (fun _ s'' => ate_aqui s0 (tr' ++ fst (ev_desfaz [r1; r2] p))
                              (snd (ev_desfaz [r1; r2] p)) s'') s'.
Proof.
  intros tr' s' H. simpl.
  passo solta_ate. intros _ s1 H1.
  eapply apos_mono; [apply solta_ate; eauto|]. cbv beta.
  intros _ s2 H2.
  destruct (ev_solta r1 p) as [e1 p1]. simpl in *.
  destruct (ev_solta r2 p1) as [e2 p2]. simpl in *.
  rewrite app_nil_r, app_assoc. exact H2.
Qed.

Lemma entrada_ate p s :
  ate_aqui s0 [] p s ->
  apos entrada
       (fun x s' =>
          match x with
          | Some rc =>
              rc = -1
              /\ (ate_aqui s0 [] p s'
                  \/ exists d,
                       ate_aqui s0
                         (ev_fila (tipo (aviao s0)) d
                            ++ [EvLiberaPrioridade (tipo (aviao s0))])
                         p s')
          | None =>
              exists d, ate_aqui s0 (ev_fila (tipo (aviao s0)) d) p s'
          end) s.
Proof.
  intros H. unfold entrada.
  passo checa_falha_m_ate. intros f s1 H1.
  destruct f; [apply apos_ret; auto|].
  leitura.
  replace (tipo (aviao s1)) with (tipo (aviao s0)) by (symmetry; apply H1).
  passo aguardar_prioridade_ate. intros _ s2 [d H2]. simpl in H2.
  passo checa_falha_m_ate. intros f s3 H3.
  destruct f.
  - passo libera_minha_prioridade_ate. intros _ s4 [H4 _].
    apply apos_ret. split; [reflexivity|]. right. exists d. exact H4.
  - apply apos_ret. exists d. exact H3.
Qed.

Lemma reserva_negada_ate tr p s r :
  ate_aqui s0 tr p s ->
  apos (reserva_negada r)
       (fun x s' =>
          match x with
          | Some rc =>
              r <> SEM_OK /\ rc = devolve r
              /\ ate_aqui s0 (tr ++ [EvLiberaPrioridade (tipo (aviao s0))])
                          p s'
              /\ (r = SEM_TIMEOUT -> status_final (aviao s') = FALHA)
          | None => r = SEM_OK /\ ate_aqui s0 tr p s'
          end) s.
Proof.
  intros H. unfold reserva_negada.
  destruct (r =? SEM_OK) eqn:E; simpl.
  - apply apos_ret. apply Z.eqb_eq in E. auto.
  - apply Z.eqb_neq in E.
    destruct (r =? SEM_TIMEOUT) eqn:Et.
    + passo poe_aviao_ate. intros _ s1 [H1 Ha].
      passo libera_minha_prioridade_ate. intros _ s2 [H2 Hb].
      apply apos_ret. split; [exact E|]. split; [reflexivity|].
      split; [exact H2|].
      intros _. rewrite Hb, Ha. reflexivity.
    + apply apos_bind. apply apos_ret.
      passo libera_minha_prioridade_ate. intros _ s2 [H2 Hb].
      apply apos_ret. split; [exact E|]. split; [reflexivity|].
      split; [exact H2|].
      intros Hr. rewrite Hr in Et. discriminate Et.
Qed.

Lemma marca_inicio_ate tr p s f :
  ate_aqui s0 tr p s ->
  apos (marca_inicio f) (fun _ s' => ate_aqui s0 tr p s') s.
Proof.
  intros H. unfold marca_inicio. leitura.
  eapply apos_mono; [apply poe_aviao_ate; eauto|].
  cbv beta. tauto.
Qed.

Lemma conclui_ate tr p s f :
  ate_aqui s0 tr p s ->
  apos (conclui f)
       (fun rc s' =>
          rc = 0
          /\ ate_aqui s0 (tr ++ [EvLiberaPrioridade (tipo (aviao s0))]) p s'
          /\ em_alerta_critico (aviao s') = false) s.
Proof.
  intros H. unfold conclui. leitura.
  passo poe_aviao_ate. intros _ s1 [H1 _].
  passo poe_aviao_ate. intros _ s2 [H2 _].
  passo poe_aviao_ate. intros _ s3 [H3 Ha].
  leitura.
  assert (Hal : em_alerta_critico (aviao s3) = false)
    by (rewrite Ha; reflexivity).
  assert (Hst : apos (match status_final (aviao s3) with
                      | ALERTA_CRITICO => poe_aviao (com_status SUCESSO)
                      | _ => ret tt
                      end)
                     (fun _ s' => ate_aqui s0 tr p s'
                                  /\ em_alerta_critico (aviao s') = false)
                     s3).
  { destruct (status_final (aviao s3)); try (apply apos_ret; auto).
    eapply apos_mono; [apply poe_aviao_ate; eauto|]. cbv beta.
    intros _ s4 [H4 Hb]. split; [exact H4|]. rewrite Hb. exact Hal. }
  apply apos_bind. eapply apos_mono; [exact Hst|]. cbv beta.
  intros _ s4 [H4 Hb].
  passo libera_minha_prioridade_ate. intros _ s5 [H5 Hc].
  apply apos_ret. split; [reflexivity|]. split; [exact H5|].
  rewrite Hc. exact Hb.
Qed.

Lemma pouso_caminho : apos pouso (segue_caminho POUSO s0) s0.
Proof.
  pose proof ate_aqui_inicio as H0.
  unfold segue_caminho. remember (posse (aviao s0)) as p0 eqn:Ep.
  unfold pouso, segue.
  passo entrada_ate. intros x s1 Hx. destruct x as [rc|].
  { apply apos_ret. destruct Hx as [-> [Hx|[d Hx]]].
    - folha CFalhaEntrada Hx.
    - destruct d; folha (CFalhaFila true) Hx || folha (CFalhaFila false) Hx. }
  destruct Hx as [d H1].
  passo marca_inicio_ate. intros _ s2 H2.
  leitura. necessidades s2 H2.
  passo reservar_recursos_ate. intros r s3 H3.
  passo reserva_negada_ate. intros x s4 Hx. destruct x as [rc|].
  { apply apos_ret. destruct Hx as (Hr & -> & Hx & Hst).
    destruct d; folha (CNegada true r) Hx || folha (CNegada false r) Hx. }
  destruct Hx as [-> H4].
  passo toma_ate; [apply sem_desfaz|]. intros x s5 Hx. destruct x as [rc|].
  { apply apos_ret. destruct Hx as (E & -> & Hx).
    destruct d; folha (CErro true TORRE) Hx || folha (CErro false TORRE) Hx. }
  passo toma_ate; [apply solta_desfaz|]. intros x s6 Hx6.
  destruct x as [rc|].
  { apply apos_ret. destruct Hx6 as (E & -> & Hx6).
    destruct d; folha (CErro true PISTA) Hx6 || folha (CErro false PISTA) Hx6. }
  passo sleep_ate. intros _ s7 H7.
  passo solta_ate. intros _ s8 H8.
  passo solta_ate. intros _ s9 H9.
  passo liberar_reserva_ate. intros _ s10 [H10 _].
  eapply apos_mono; [apply conclui_ate; eauto|]. cbv beta.
  intros rc s11 (-> & H11 & Hal).
  destruct d; folha (CCompleta true) H11 || folha (CCompleta false) H11.
Qed.

Lemma desembarque_caminho : apos desembarque (segue_caminho DESEMBARQUE s0) s0.
Proof.
  pose proof ate_aqui_inicio as H0.
  unfold segue_caminho. remember (posse (aviao s0)) as p0 eqn:Ep.
  unfold desembarque, segue.
  passo entrada_ate. intros x s1 Hx. destruct x as [rc|].
  { apply apos_ret. destruct Hx as [-> [Hx|[d Hx]]].
    - folha CFalhaEntrada Hx.
    - destruct d; folha (CFalhaFila true) Hx || folha (CFalhaFila false) Hx. }
  destruct Hx as [d H1].
  passo marca_inicio_ate. intros _ s2 H2.
  leitura. necessidades s2 H2.
  passo reservar_recursos_ate. intros r s3 H3.
  passo reserva_negada_ate. intros x s4 Hx. destruct x as [rc|].
  { apply apos_ret. destruct Hx as (Hr & -> & Hx & Hst).
    destruct d; folha (CNegada true r) Hx || folha (CNegada false r) Hx. }
  destruct Hx as [-> H4].
  passo toma_ate; [apply sem_desfaz|]. intros x s5 Hx. destruct x as [rc|].
  { apply apos_ret. destruct Hx as (E & -> & Hx).
    destruct d; folha (CErro true TORRE) Hx || folha (CErro false TORRE) Hx. }
  passo toma_ate; [apply solta_desfaz|]. intros x s6 Hx6.
  destruct x as [rc|].
  { apply apos_ret. destruct Hx6 as (E & -> & Hx6).
    destruct d;
      folha (CErro true PORTAO) Hx6 || folha (CErro false PORTAO) Hx6. }
  passo sleep_ate. intros _ s7 H7.
  passo solta_ate. intros _ s8 H8.
  passo liberar_reserva_ate. intros _ s9 [H9 _].
  passo sleep_ate. intros _ s10 H10.
  passo solta_ate. intros _ s11 H11.
  passo liberar_reserva_ate. intros _ s12 [H12 _].
  eapply apos_mono; [apply conclui_ate; eauto|]. cbv beta.
  intros rc s13 (-> & H13 & Hal).
  destruct d; folha (CCompleta true) H13 || folha (CCompleta false) H13.
Qed.

Lemma decolagem_caminho : apos decolagem (segue_caminho DECOLAGEM s0) s0.
Proof.
  pose proof ate_aqui_inicio as H0.
  unfold segue_caminho. remember (posse (aviao s0)) as p0 eqn:Ep.
  unfold decolagem, segue.
  passo entrada_ate. intros x s1 Hx. destruct x as [rc|].
  { apply apos_ret. destruct Hx as [-> [Hx|[d Hx]]].
    - folha CFalhaEntrada Hx.
    - destruct d; folha (CFalhaFila true) Hx || folha (CFalhaFila false) Hx. }
  destruct Hx as [d H1].
  passo marca_inicio_ate. intros _ s2 H2.
  leitura. necessidades s2 H2.
  passo reservar_recursos_ate. intros r s3 H3.
  passo reserva_negada_ate. intros x s4 Hx. destruct x as [rc|].
  { apply apos_ret. destruct Hx as (Hr & -> & Hx & Hst).
    destruct d; folha (CNegada true r) Hx || folha (CNegada false r) Hx. }
  destruct Hx as [-> H4].
  passo toma_ate; [apply sem_desfaz|]. intros x s5 Hx. destruct x as [rc|].
  { apply apos_ret. destruct Hx as (E & -> & Hx).
    destruct d; folha (CErro true TORRE) Hx || folha (CErro false TORRE) Hx. }
  passo toma_ate; [apply solta_desfaz|]. intros x s6 Hx6.
  destruct x as [rc|].
  { apply apos_ret. destruct Hx6 as (E & -> & Hx6).
    destruct d;
      folha (CErro true PORTAO) Hx6 || folha (CErro false PORTAO) Hx6. }
  passo toma_ate; [apply solta2_desfaz|]. intros x s7 Hx7.
  destruct x as [rc|].
  { apply apos_ret. destruct Hx7 as (E & -> & Hx7).
    destruct d;
      folha (CErro true PISTA) Hx7 || folha (CErro false PISTA) Hx7. }
  passo sleep_ate. intros _ s8 H8.
  passo solta_ate. intros _ s9 H9.
  passo solta_ate. intros _ s10 H10.
  passo solta_ate. intros _ s11 H11.
  passo liberar_reserva_ate. intros _ s12 [H12 _].
  eapply apos_mono; [apply conclui_ate; eauto|]. cbv beta.
  intros rc s13 (-> & H13 & Hal).
  destruct d; folha (CCompleta true) H13 || folha (CCompleta false) H13.
Qed.

(** Every run of a phase follows one of the tabulated paths. *)
Lemma fase_caminho f : apos (fase f) (segue_caminho f s0) s0.
Proof.
  destruct f; simpl.
  - apply pouso_caminho.
  - apply desembarque_caminho.
  - apply decolagem_caminho.
Qed.

End Operacoes.

Lemma fase_segue f s0 rc s :
  SoFinal.fase f s0 = Some (rc, s) -> SoFinal.segue_caminho f s0 rc s.
Proof. intros E. exact (apos_elim _ _ _ _ _ (fase_caminho s0 f) E). Qed.

(** ** So-final.c: the paths of a phase *)

Section Caminhos.
Import SoFinal.

Lemma segue_caminho_rastro f s rc s' :
  fase f s = Some (rc, s') ->
  exists c,
    possivel f (posse (aviao s)) c
    /\ historico s'
       = historico s ++ fst (rastro f (tipo (aviao s)) (posse (aviao s)) c)
    /\ posse (aviao s') = snd (rastro f (tipo (aviao s)) (posse (aviao s)) c)
    /\ tipo (aviao s') = tipo (aviao s)
    /\ rc = retorno c
    /\ desfecho c (aviao s').
Proof.
  intros E.
  destruct (fase_segue f s rc s' E)
    as (c & Hp & (Hh & Ha & Ht) & Hr & Hd).
  exists c. auto 10.
Qed.

Lemma devolve_nao_zero r : r <> SEM_OK -> devolve r <> 0.
Proof.
  unfold devolve, SEM_OK, SEM_SIM_ENCERRADA, SEM_AVIAO_FALHOU. intros H.
  destruct (r =? 0) eqn:E; [apply Z.eqb_eq in E; contradiction|].
  destruct (r =? -2) eqn:E2; [apply Z.eqb_eq in E2; simpl; lia|].
  destruct (r =? -3) eqn:E3; [apply Z.eqb_eq in E3; simpl; lia|].
  simpl. lia.
Qed.

(** A phase returns 0 only along the complete path. *)
Lemma retorno_zero f p c :
  possivel f p c -> retorno c = 0 -> exists d, c = CCompleta d.
Proof.
  destruct c; simpl; intros H E; try discriminate.
  - exfalso. exact (devolve_nao_zero r H E).
  - exists d. reflexivity.
Qed.

(** A log holds a reservation that returned SEM_OK and the phase failed
    only along the path of a failed sem_wait. *)
Lemma reservou_e_falhou f t p c np ng nt :
  possivel f p c ->
  In (EvReservar np ng nt SEM_OK) (fst (rastro f t p c)) ->
  retorno c <> 0 ->
  exists d r, c = CErro d r.
Proof.
  destruct c as [|d|d r|d r|d]; simpl; intros Hp Hin Hr.
  - contradiction.
  - destruct d; simpl in Hin; intuition discriminate.
  - exfalso. destruct d; simpl in Hin.
    + destruct Hin as [H|[H|[H|[H|[]]]]]; try discriminate.
      injection H as _ _ _ H. exact (Hp H).
    + destruct Hin as [H|[H|[H|[]]]]; try discriminate.
      injection H as _ _ _ H. exact (Hp H).
  - exists d, r. reflexivity.
  - contradiction.
Qed.

(** The path of a failed sem_wait, read on the table: what was taken
    is given back, the flags raised are lowered, the gate gets back what
    it gave, and the priority is released last. *)
Lemma rastro_erro f t p d r :
  possivel f p (CErro d r) ->
  In (EvSemWaitErro r) (fst (rastro f t p (CErro d r)))
  /\ (forall x, (tomadas x (fst (rastro f t p (CErro d r)))
                 <= devolvidas x (fst (rastro f t p (CErro d r))))%nat)
  /\ (p = nada ->
      forall x, tomadas x (fst (rastro f t p (CErro d r)))
                = devolvidas x (fst (rastro f t p (CErro d r))))
  /\ (forall x, In x (marcados (fst (rastro f t p (CErro d r)))) ->
                tem x (snd (rastro f t p (CErro d r))) = false)
  /\ (forall x, tem x (snd (rastro f t p (CErro d r))) = true ->
                tem x p = true)
  /\ debitado (fst (rastro f t p (CErro d r)))
     = {| pistas_disp := precisa f PISTA p;
          portoes_disp := precisa f PORTAO p;
          torres_disp := precisa f TORRE p |}
  /\ creditado (fst (rastro f t p (CErro d r)))
     = debitado (fst (rastro f t p (CErro d r)))
  /\ last (fst (rastro f t p (CErro d r))) (EvSleep 0)
     = EvLiberaPrioridade t.
Proof.
  intros [Hin Ht].
  destruct f, r; simpl in Hin;
    try (exfalso; intuition discriminate);
    destruct p as [[] [] []]; try discriminate Ht; destruct d;
    (split; [simpl; tauto|]);
    (split; [intros x; destruct x; unfold tomadas, devolvidas; simpl; lia|]);
    (split; [intros E x; try discriminate E; destruct x; reflexivity|]);
    (split; [intros x Hx; unfold marcados in Hx; simpl in Hx;
             destruct x; simpl; intuition discriminate|]);
    (split; [intros x Hx; destruct x; simpl in *; congruence|]);
    (split; [reflexivity|]);
    (split; [reflexivity|]);
    reflexivity.
Qed.

End Caminhos.

Lemma has_posse r a : SoFinal.has r a = SoFinal.tem r (SoFinal.posse a).
Proof. destruct r; reflexivity. Qed.

(** The rollback of So-final.c.  When a phase (pouso, desembarque,
    decolagem) obtained its reservation and then returns a failure, the
    failure is a sem_wait that returned an error and the phase has
    rolled back before returning -1: every unit it took from a
    semaphore was given back
    (exactly those, for an aircraft that entered the phase holding
    nothing), every progress flag it raised is lowered and it holds
    nothing that it did not hold at the entry, the gate was credited with
    exactly what the reservation debited, which is the remaining need of
    the phase, and the last thing the phase did was liberar_prioridade
    for the class of the aircraft. *)
Theorem rollback_completo f s rc s' tr :
  SoFinal.fase f s = Some (rc, s') ->
  SoFinal.historico s' = SoFinal.historico s ++ tr ->
  (exists np ng nt, In (SoFinal.EvReservar np ng nt SoFinal.SEM_OK) tr) ->
  rc <> 0 ->
  rc = -1
  /\ (exists r, In (SoFinal.EvSemWaitErro r) tr)
  /\ (forall x, (SoFinal.tomadas x tr <= SoFinal.devolvidas x tr)%nat)
  /\ (SoFinal.posse (SoFinal.aviao s) = SoFinal.nada ->
      forall x, SoFinal.tomadas x tr = SoFinal.devolvidas x tr)
  /\ (forall x, In x (SoFinal.marcados tr) ->
                SoFinal.has x (SoFinal.aviao s') = false)
  /\ (forall x, SoFinal.has x (SoFinal.aviao s') = true ->
                SoFinal.has x (SoFinal.aviao s) = true)
  /\ SoFinal.debitado tr
     = {| SoFinal.pistas_disp :=
            SoFinal.precisa f PISTA (SoFinal.posse (SoFinal.aviao s));
          SoFinal.portoes_disp :=
            SoFinal.precisa f PORTAO (SoFinal.posse (SoFinal.aviao s));
          SoFinal.torres_disp :=
            SoFinal.precisa f TORRE (SoFinal.posse (SoFinal.aviao s)) |}
  /\ SoFinal.creditado tr = SoFinal.debitado tr
  /\ last tr (SoFinal.EvSleep 0)
     = SoFinal.EvLiberaPrioridade (SoFinal.tipo (SoFinal.aviao s)).
Proof.
  intros E Hh (np & ng & nt & Hin) Hrc.
  destruct (segue_caminho_rastro f s rc s' E)
    as (c & Hp & Hh' & Hpos & Ht & Hr & Hd).
  rewrite Hh in Hh'. apply app_inv_head in Hh'. subst tr.
  assert (Hc : exists d r, c = SoFinal.CErro d r).
  { apply (reservou_e_falhou f _ _ c np ng nt Hp Hin). congruence. }
  destruct Hc as (d & r & ->).
  destruct (rastro_erro f (SoFinal.tipo (SoFinal.aviao s))
              (SoFinal.posse (SoFinal.aviao s)) d r Hp)
    as (H1 & H2 & H3 & H4 & H5 & H6 & H7 & H8).
  split; [exact Hr|]. split; [exists r; exact H1|].
  split; [exact H2|]. split; [exact H3|].
  split; [intros x Hx; rewrite has_posse, Hpos; exact (H4 x Hx)|].
  split; [intros x Hx; rewrite has_posse in *; rewrite Hpos in Hx;
          exact (H5 x Hx)|].
  auto.
Qed.

Lemma rollback_completo_testemunha :
  exists s' tr,
    SoFinal.fase SoFinal.POUSO SoFinal.pouso_com_erro = Some (-1, s')
    /\ SoFinal.historico s' = SoFinal.historico SoFinal.pouso_com_erro ++ tr
    /\ In (SoFinal.EvReservar 1 0 1 SoFinal.SEM_OK) tr
    /\ (forall x, SoFinal.tomadas x tr = SoFinal.devolvidas x tr)
    /\ SoFinal.creditado tr = SoFinal.debitado tr
    /\ SoFinal.has TORRE (SoFinal.aviao s') = false.
Proof.
  destruct (SoFinal.fase SoFinal.POUSO SoFinal.pouso_com_erro)
    as [[rc s']|] eqn:E; [|vm_compute in E; discriminate E].
  pose proof E as E'. vm_compute in E'. injection E' as Hrc Hs.
  exists s', (SoFinal.historico s').
  assert (Hh : SoFinal.historico s'
               = SoFinal.historico SoFinal.pouso_com_erro
                   ++ SoFinal.historico s') by reflexivity.
  assert (Hin : In (SoFinal.EvReservar 1 0 1 SoFinal.SEM_OK)
                   (SoFinal.historico s'))
    by (rewrite <- Hs; vm_compute; tauto).
  assert (Hne : rc <> 0) by (rewrite <- Hrc; discriminate).
  destruct (rollback_completo SoFinal.POUSO _ rc s' _ E Hh
              (ex_intro _ 1 (ex_intro _ 0 (ex_intro _ 1 Hin))) Hne)
    as (H0 & _ & _ & H3 & H4 & _ & _ & H7 & _).
  rewrite <- H0.
  split; [reflexivity|]. split; [exact Hh|]. split; [exact Hin|].
  split; [exact (H3 eq_refl)|].
  split; [exact H7|].
  apply H4. rewrite <- Hs. vm_compute. tauto.
Defined.


(** The sem_wait calls of a path are an initial segment of the
    resources to take, in the order of the phase; the complete path
    calls them all. *)
Lemma rastro_ordem f t p c :
  SoFinal.possivel f p c ->
  exists resto,
    SoFinal.a_tomar f p
    = SoFinal.tentados (fst (SoFinal.rastro f t p c)) ++ resto
    /\ (SoFinal.retorno c = 0 -> resto = []).
Proof.
  intros Hp.
  destruct c as [|d|d r|d r|d].
  - exists (SoFinal.a_tomar f p). split; [reflexivity|discriminate].
  - exists (SoFinal.a_tomar f p).
    split; [destruct d; reflexivity|discriminate].
  - exists (SoFinal.a_tomar f p).
    split; [destruct d; reflexivity|].
    intros E. exfalso. exact (devolve_nao_zero r Hp E).
  - destruct Hp as [Hin Ht].
    destruct f, r; simpl in Hin; try (exfalso; intuition discriminate);
      destruct p as [[] [] []]; try discriminate Ht; destruct d;
      eexists; (split; [reflexivity|discriminate]).
  - exists []. split; [|reflexivity].
    destruct f, p as [[] [] []], d; reflexivity.
Qed.

(** So-final.c takes the semaphores in the order of the table, whatever
    the flight class, and passes over the resources whose flag is up. *)
Lemma ordem_fixa_final f s rc s' tr :
  SoFinal.fase f s = Some (rc, s') ->
  SoFinal.historico s' = SoFinal.historico s ++ tr ->
  (exists resto,
      filter (fun r => negb (SoFinal.has r (SoFinal.aviao s)))
             (SoFinal.ordem f)
      = SoFinal.tentados tr ++ resto
      /\ (rc = 0 -> resto = []))
  /\ (forall r, SoFinal.has r (SoFinal.aviao s) = true ->
                ~ In r (SoFinal.tentados tr)).
Proof.
  intros E Hh.
  destruct (segue_caminho_rastro f s rc s' E)
    as (c & Hp & Hh' & Hpos & Ht & Hr & Hd).
  rewrite Hh in Hh'. apply app_inv_head in Hh'. subst tr.
  destruct (rastro_ordem f (SoFinal.tipo (SoFinal.aviao s)) _ c Hp)
    as (resto & H1 & H2).
  assert (Hf : filter (fun r => negb (SoFinal.has r (SoFinal.aviao s)))
                      (SoFinal.ordem f)
               = SoFinal.a_tomar f (SoFinal.posse (SoFinal.aviao s))).
  { unfold SoFinal.a_tomar. apply filter_ext. intros r.
    rewrite has_posse. reflexivity. }
  split.
  - exists resto. rewrite Hf. split; [exact H1|].
    intros E0. apply H2. congruence.
  - intros r Hr' Hin.
    assert (Hin' : In r (SoFinal.a_tomar f (SoFinal.posse (SoFinal.aviao s))))
      by (rewrite H1; apply in_or_app; left; exact Hin).
    unfold SoFinal.a_tomar in Hin'. apply filter_In in Hin'.
    destruct Hin' as [_ Hn]. rewrite has_posse in Hr'.
    rewrite Hr' in Hn. discriminate Hn.
Qed.

(** ** So-final.c: the flight of one aircraft *)

Section Voo.
Import SoFinal.

Lemma ate_aqui_trans s0 s1 s2 tr1 tr2 p1 p2 :
  ate_aqui s0 tr1 p1 s1 -> ate_aqui s1 tr2 p2 s2 ->
  ate_aqui s0 (tr1 ++ tr2) p2 s2.
Proof.
  intros (H1 & H2 & H3) (H4 & H5 & H6). unfold ate_aqui.
  rewrite H4, H1, H6, H3, app_assoc. auto.
Qed.

(** A phase entered with no flag up returns with no flag up, along
    every path. *)
Lemma rastro_nada f t c :
  possivel f nada c -> snd (rastro f t nada c) = nada.
Proof.
  destruct c as [|d|d r|d r|d]; simpl; try reflexivity.
  - intros [Hin _].
    destruct f, r; simpl in Hin; try (exfalso; intuition discriminate);
      reflexivity.
  - intros _. destruct f; reflexivity.
Qed.

Lemma marca_espera_ate s0 tr p s :
  ate_aqui s0 tr p s ->
  apos marca_espera (fun _ s' => ate_aqui s0 tr p s') s.
Proof.
  intros H. unfold marca_espera. leitura.
  eapply apos_mono; [apply poe_aviao_ate; eauto|]. cbv beta. tauto.
Qed.

(** One phase of the flight, entered with no flag up. *)
Lemma fase_do_voo s0 tr s f :
  ate_aqui s0 tr nada s ->
  apos (fase f)
       (fun rc s' =>
          exists c, possivel f nada c /\ rc = retorno c
                    /\ ate_aqui s0 (tr ++ fst (rastro f (tipo (aviao s0))
                                                      nada c)) nada s') s.
Proof.
  intros H. eapply apos_mono; [apply fase_caminho|]. cbv beta.
  intros rc s' (c & Hp & Ha & Hr & _).
  destruct H as (Hh & Hpos & Ht).
  rewrite Hpos, Ht in *.
  exists c. split; [exact Hp|]. split; [exact Hr|].
  rewrite <- (rastro_nada f (tipo (aviao s0)) c Hp) at 2.
  eapply ate_aqui_trans; [|exact Ha]. unfold ate_aqui. auto.
Qed.

Lemma encerra_retorno r : encerra r = negb (r =? 0).
Proof.
  unfold encerra, SEM_SIM_ENCERRADA, SEM_AVIAO_FALHOU.
  destruct (r =? 0) eqn:E; simpl.
  - apply Z.eqb_eq in E. subst r. reflexivity.
  - rewrite orb_true_r. reflexivity.
Qed.

(** The log of aviao_thread: the three flags lowered, then the logs of
    the phases it went through, each entered with no flag up. *)
Lemma aviao_thread_caminhos s0 :
  apos aviao_thread
       (fun _ s' =>
          exists cs,
            voo_valido fases cs
            /\ ate_aqui s0 (ev_partida
                            ++ rastro_voo (tipo (aviao s0)) fases cs)
                        nada s') s0.
Proof.
  pose proof (ate_aqui_inicio s0) as H0.
  unfold aviao_thread.
  passo marca_espera_ate. intros _ s1 H1.
  passo marca_ate. intros _ s2 H2.
  passo marca_ate. intros _ s3 H3.
  passo marca_ate. intros _ s4 H4.
  assert (H4' : ate_aqui s0 ev_partida nada s4).
  { destruct (posse (aviao s0)) as [b1 b2 b3]. exact H4. }
  clear H0 H1 H2 H3 H4.
  change pouso with (fase POUSO).
  passo fase_do_voo. intros r1 s5 (c1 & Hp1 & -> & H5).
  rewrite encerra_retorno.
  destruct (retorno c1 =? 0) eqn:E1; cbn [negb].
  2: { apply apos_ret. exists [c1]. split; [simpl; rewrite E1; auto|].
       replace (rastro_voo (tipo (aviao s0)) fases [c1])
         with (fst (rastro POUSO (tipo (aviao s0)) nada c1))
         by (simpl; rewrite app_nil_r; reflexivity).
       exact H5. }
  passo marca_espera_ate. intros _ s6 H6.
  change desembarque with (fase DESEMBARQUE).
  passo fase_do_voo. intros r2 s7 (c2 & Hp2 & -> & H7).
  rewrite encerra_retorno.
  destruct (retorno c2 =? 0) eqn:E2; cbn [negb].
  2: { apply apos_ret. exists [c1; c2].
       split; [simpl; rewrite E1, E2; auto|].
       replace (rastro_voo (tipo (aviao s0)) fases [c1; c2])
         with (fst (rastro POUSO (tipo (aviao s0)) nada c1)
               ++ fst (rastro DESEMBARQUE (tipo (aviao s0)) nada c2))
         by (simpl; rewrite app_nil_r; reflexivity).
       rewrite app_assoc. exact H7. }
  passo marca_espera_ate. intros _ s8 H8.
  change decolagem with (fase DECOLAGEM).
  passo fase_do_voo. intros r3 s9 (c3 & Hp3 & -> & H9).
  assert (Hfim : voo_valido fases [c1; c2; c3]
                 /\ ev_partida ++ rastro_voo (tipo (aviao s0)) fases
                                             [c1; c2; c3]
                    = ((ev_partida ++ fst (rastro POUSO (tipo (aviao s0))
                                                  nada c1))
                       ++ fst (rastro DESEMBARQUE (tipo (aviao s0)) nada c2))
                      ++ fst (rastro DECOLAGEM (tipo (aviao s0)) nada c3)).
  { split.
    - simpl. rewrite E1, E2. destruct (retorno c3 =? 0); auto.
    - replace (rastro_voo (tipo (aviao s0)) fases [c1; c2; c3])
        with (fst (rastro POUSO (tipo (aviao s0)) nada c1)
              ++ fst (rastro DESEMBARQUE (tipo (aviao s0)) nada c2)
              ++ fst (rastro DECOLAGEM (tipo (aviao s0)) nada c3))
        by (simpl; rewrite app_nil_r; reflexivity).
      rewrite !app_assoc. reflexivity. }
  destruct Hfim as [Hv Hr].
  destruct (_ || _); [apply apos_ret; exists [c1; c2; c3]; rewrite Hr; auto|].
  destruct (retorno c3 =? 0).
  - eapply apos_mono; [apply poe_aviao_ate; eauto|]. cbv beta.
    intros _ s10 [H10 _]. exists [c1; c2; c3]. rewrite Hr. auto.
  - apply apos_ret. exists [c1; c2; c3]. rewrite Hr. auto.
Qed.

End Voo.

Lemma aviao_thread_rastro s s' :
  SoFinal.aviao_thread s = Some (tt, s') ->
  exists cs,
    SoFinal.voo_valido SoFinal.fases cs
    /\ SoFinal.historico s'
       = SoFinal.historico s
           ++ SoFinal.ev_partida
           ++ SoFinal.rastro_voo (SoFinal.tipo (SoFinal.aviao s))
                                 SoFinal.fases cs
    /\ SoFinal.posse (SoFinal.aviao s') = SoFinal.nada.
Proof.
  intros E.
  destruct (apos_elim _ _ _ _ _ (aviao_thread_caminhos s) E)
    as (cs & Hv & Hh & Hp & _).
  exists cs. auto.
Qed.

(** Every path of a phase entered with no flag up calls
    reservar_recursos at most once, with the full requirement of the
    phase, and does call it when the phase returns 0. *)
Lemma reservas_rastro f t c :
  SoFinal.possivel f SoFinal.nada c ->
  (SoFinal.reservas (fst (SoFinal.rastro f t SoFinal.nada c)) = []
   /\ SoFinal.retorno c <> 0)
  \/ SoFinal.reservas (fst (SoFinal.rastro f t SoFinal.nada c))
     = [SoFinal.requer f].
Proof.
  intros Hp. destruct c as [|d|d r|d r|d].
  - left. split; [reflexivity|discriminate].
  - left. split; [destruct d; reflexivity|discriminate].
  - right. destruct f, d; reflexivity.
  - right. destruct Hp as [Hin _].
    destruct f, r; simpl in Hin; try (exfalso; intuition discriminate);
      destruct d; reflexivity.
  - right. destruct f, d; reflexivity.
Qed.

Lemma reservas_app tr1 tr2 :
  SoFinal.reservas (tr1 ++ tr2) = SoFinal.reservas tr1 ++ SoFinal.reservas tr2.
Proof. unfold SoFinal.reservas. apply flat_map_app. Qed.

Lemma rastro_voo_fim t fs : SoFinal.rastro_voo t fs [] = [].
Proof. destruct fs; reflexivity. Qed.

Lemma reservas_voo t : forall fs cs,
  SoFinal.voo_valido fs cs ->
  exists resto,
    map SoFinal.requer fs
    = SoFinal.reservas (SoFinal.rastro_voo t fs cs) ++ resto.
Proof.
  induction fs as [|f fs IH]; intros cs Hv.
  - exists []. destruct cs; reflexivity.
  - destruct cs as [|c cs]; [discriminate Hv|].
    destruct Hv as [Hp Hv]. simpl. rewrite reservas_app.
    destruct (reservas_rastro f t c Hp) as [[Hr Hn]|Hr]; rewrite Hr.
    + destruct (SoFinal.retorno c =? 0) eqn:E;
        [apply Z.eqb_eq in E; contradiction|].
      subst cs. rewrite rastro_voo_fim.
      exists (SoFinal.requer f :: map SoFinal.requer fs). reflexivity.
    + destruct (SoFinal.retorno c =? 0).
      * destruct (IH cs Hv) as [resto Hq]. exists resto.
        simpl. rewrite Hq. reflexivity.
      * subst cs. rewrite rastro_voo_fim. exists (map SoFinal.requer fs).
        reflexivity.
Qed.

(** C10.  In So-final.c the three progress flags are down at the entry
    of every phase.  A phase entered with the three flags down returns
    with the three flags down, whatever it returns; aviao_thread lowers
    the flags before the first phase, so its log is the log of phases
    that were each entered with no flag up, it ends with no flag up, and
    the amounts it asked of reservar_recursos are, in order, the full
    requirements of landing (1,0,1), disembarkation (0,1,1) and takeoff
    (1,1,1), as far as the flight went: no phase ever finds a resource
    carried over from the phase before. *)
Theorem sem_encadeamento :
  (forall f s rc s',
      SoFinal.fase f s = Some (rc, s') ->
      SoFinal.posse (SoFinal.aviao s) = SoFinal.nada ->
      SoFinal.posse (SoFinal.aviao s') = SoFinal.nada)
  /\ (forall s s' tr,
         SoFinal.aviao_thread s = Some (tt, s') ->
         SoFinal.historico s' = SoFinal.historico s ++ tr ->
         SoFinal.posse (SoFinal.aviao s') = SoFinal.nada
         /\ (exists cs,
                SoFinal.voo_valido SoFinal.fases cs
                /\ tr = SoFinal.ev_partida
                        ++ SoFinal.rastro_voo (SoFinal.tipo (SoFinal.aviao s))
                                              SoFinal.fases cs)
         /\ (exists resto,
                [(1, 0, 1); (0, 1, 1); (1, 1, 1)]
                = SoFinal.reservas tr ++ resto)).
Proof.
  split.
  - intros f s rc s' E Hn.
    destruct (segue_caminho_rastro f s rc s' E)
      as (c & Hp & _ & Hpos & _).
    rewrite Hn in Hpos, Hp. rewrite Hpos. apply rastro_nada. exact Hp.
  - intros s s' tr E Hh.
    destruct (aviao_thread_rastro s s' E) as (cs & Hv & Hh' & Hp).
    rewrite Hh in Hh'. apply app_inv_head in Hh'. subst tr.
    split; [exact Hp|]. split; [exists cs; auto|].
    destruct (reservas_voo (SoFinal.tipo (SoFinal.aviao s)) _ cs Hv)
      as [resto Hr].
    exists resto. rewrite reservas_app. simpl. exact Hr.
Qed.

Lemma sem_encadeamento_testemunha :
  (exists rc s',
      SoFinal.fase SoFinal.POUSO SoFinal.pouso_com_erro = Some (rc, s')
      /\ SoFinal.posse (SoFinal.aviao s') = SoFinal.nada)
  /\ (exists s',
         SoFinal.aviao_thread SoFinal.voo_tranquilo = Some (tt, s')
         /\ SoFinal.posse (SoFinal.aviao s') = SoFinal.nada
         /\ [(1, 0, 1); (0, 1, 1); (1, 1, 1)]
            = SoFinal.reservas (SoFinal.historico s') ++ []).
Proof.
  destruct sem_encadeamento as [T1 T2].
  split.
  - destruct (SoFinal.fase SoFinal.POUSO SoFinal.pouso_com_erro)
      as [[rc s']|] eqn:E; [|vm_compute in E; discriminate E].
    exists rc, s'. split; [reflexivity|].
    exact (T1 SoFinal.POUSO SoFinal.pouso_com_erro rc s' E eq_refl).
  - destruct (SoFinal.aviao_thread SoFinal.voo_tranquilo)
      as [[[] s']|] eqn:E; [|vm_compute in E; discriminate E].
    exists s'. split; [reflexivity|].
    assert (Hh : SoFinal.historico s'
                 = SoFinal.historico SoFinal.voo_tranquilo
                     ++ SoFinal.historico s') by reflexivity.
    destruct (T2 _ s' _ E Hh) as (H1 & _ & _).
    split; [exact H1|].
    pose proof E as E'. vm_compute in E'. injection E' as Hs.
    rewrite <- Hs. reflexivity.
Defined.

(** ** So-final.c: the reservation gate under interleaving *)

Section Intercalacao.
Import SoFinal.

Lemma seguro_conta c tr : seguro c tr = true -> conta_ok c = true.
Proof.
  destruct tr; simpl; intros H; apply andb_true_iff in H; tauto.
Qed.

Lemma seguro_app : forall tr1 tr2 c,
  seguro c tr1 = true ->
  seguro (lanca_todos tr1 c) tr2 = true ->
  seguro c (tr1 ++ tr2) = true.
Proof.
  induction tr1 as [|e tr1 IH]; intros tr2 c H1 H2; simpl in *.
  - exact H2.
  - apply andb_true_iff in H1. destruct H1 as [Hc H1].
    apply andb_true_iff in H1. destruct H1 as [He H1].
    rewrite Hc, He. simpl. apply IH; assumption.
Qed.

Lemma lanca_todos_app tr1 tr2 c :
  lanca_todos (tr1 ++ tr2) c = lanca_todos tr2 (lanca_todos tr1 c).
Proof. unfold lanca_todos. apply fold_left_app. Qed.

(** Every path of a phase entered with no flag up is safe from the
    empty account, and a path that returns 0 brings the account back to
    empty. *)
Lemma rastro_seguro f t c :
  possivel f nada c ->
  seguro conta_zero (fst (rastro f t nada c)) = true
  /\ (retorno c = 0 ->
      lanca_todos (fst (rastro f t nada c)) conta_zero = conta_zero).
Proof.
  intros Hp. destruct c as [|d|d r|d r|d].
  - split; reflexivity.
  - split; [destruct d; reflexivity|discriminate].
  - split.
    + simpl in Hp. apply Z.eqb_neq in Hp.
      destruct f, d; simpl; rewrite Hp; reflexivity.
    + intros E. exfalso. exact (devolve_nao_zero r Hp E).
  - destruct Hp as [Hin _]. split; [|discriminate].
    destruct f, r; simpl in Hin; try (exfalso; intuition discriminate);
      destruct d; reflexivity.
  - split; [|intros _]; destruct f, d; reflexivity.
Qed.

Lemma voo_seguro t : forall fs cs,
  voo_valido fs cs -> seguro conta_zero (rastro_voo t fs cs) = true.
Proof.
  induction fs as [|f fs IH]; intros cs Hv.
  - destruct cs; reflexivity.
  - destruct cs as [|c cs]; [discriminate Hv|].
    destruct Hv as [Hp Hv]. simpl.
    destruct (rastro_seguro f t c Hp) as [Hs Hz].
    destruct (retorno c =? 0) eqn:E.
    + apply Z.eqb_eq in E. apply seguro_app; [exact Hs|].
      rewrite (Hz E). apply IH. exact Hv.
    + subst cs. rewrite rastro_voo_fim, app_nil_r. exact Hs.
Qed.

(** The log of a worker is safe from the empty account. *)
Lemma rastro_de_voo_seguro tr :
  rastro_de_voo tr -> seguro conta_zero tr = true.
Proof.
  intros (s & s' & Hn & E & Hh).
  destruct (aviao_thread_rastro s s' E) as (cs & Hv & Hh' & _).
  rewrite Hn in Hh'. simpl in Hh'. rewrite Hh' in Hh. subst tr.
  change (seguro conta_zero
            (ev_partida ++ rastro_voo (tipo (aviao s)) fases cs) = true).
  apply seguro_app; [reflexivity|].
  apply voo_seguro. exact Hv.
Qed.

Lemma reservado_app r fs1 fs2 :
  reservado r (fs1 ++ fs2) = reservado r fs1 + reservado r fs2.
Proof.
  induction fs1 as [|f fs1 IH]; simpl; [reflexivity|]. rewrite IH. lia.
Qed.

Lemma em_posse_app r fs1 fs2 :
  em_posse r (fs1 ++ fs2) = em_posse r fs1 + em_posse r fs2.
Proof.
  induction fs1 as [|f fs1 IH]; simpl; [reflexivity|]. rewrite IH. lia.
Qed.

Lemma conta_ok_disp c r :
  conta_ok c = true -> Z.b2z (tem r (marcado c)) <= disp r (devido c).
Proof.
  unfold conta_ok. intros H.
  apply andb_true_iff in H. destruct H as [H H3].
  apply andb_true_iff in H. destruct H as [H1 H2].
  apply Z.leb_le in H1, H2, H3. destruct r; assumption.
Qed.

Lemma partida_conserva cap s :
  (forall r, 0 <= disp r cap) -> partida cap s -> conserva cap s.
Proof.
  intros Hcap [Hl Hf]. unfold conserva. rewrite Hl.
  assert (Hz : forall r, reservado r (fios s) = 0).
  { intros r. induction Hf as [|f fs [Hc _] _ IH]; simpl; [reflexivity|].
    rewrite Hc, IH. destruct r; reflexivity. }
  split; [intros r; rewrite Hz; lia|]. split; [exact Hcap|].
  clear Hz. induction Hf as [|f fs [Hc Hr] _ IH]; constructor.
  - rewrite Hc. apply rastro_de_voo_seguro. exact Hr.
  - exact IH.
Qed.

Lemma passo_conserva cap s s' :
  conserva cap s -> passo s s' -> conserva cap s'.
Proof.
  intros (Hsum & Hpos & Hseg) Hp.
  destruct Hp as [l l' antes depois c e tr He]. simpl in *.
  apply Forall_app in Hseg. destruct Hseg as [Ha Hd].
  inversion Hd as [|f fs Hf Hd']; subst. simpl in Hf.
  apply andb_true_iff in Hf. destruct Hf as [Hc Hf].
  apply andb_true_iff in Hf. destruct Hf as [Hev Hf].
  assert (Hnovo : Forall (fun f => seguro (conta f) (resta f) = true)
                         (antes ++ {| conta := lanca e c; resta := tr |}
                                :: depois)).
  { apply Forall_app. split; [exact Ha|]. constructor; assumption. }
  assert (Hs : forall r,
             disp r l + disp r (devido c)
             = disp r l' + disp r (devido (lanca e c))
             /\ 0 <= disp r l').
  { intros r. pose proof (Hpos r) as Hr.
    destruct e; simpl in He |- *;
      try (injection He as <-; split; [reflexivity|exact Hr]).
    - destruct (rc =? SEM_OK).
      + destruct (suficiente p g t l) eqn:Es; [|discriminate He].
        injection He as <-. unfold suficiente in Es.
        apply andb_true_iff in Es. destruct Es as [Es E3].
        apply andb_true_iff in Es. destruct Es as [E1 E2].
        apply Z.leb_le in E1, E2, E3.
        destruct r; simpl; split; lia.
      + injection He as <-. split; [reflexivity|exact Hr].
    - injection He as <-. simpl in Hev.
      apply andb_true_iff in Hev. destruct Hev as [Hev E3].
      apply andb_true_iff in Hev. destruct Hev as [E1 E2].
      apply Z.leb_le in E1, E2, E3.
      pose proof (Hpos PISTA). pose proof (Hpos PORTAO).
      pose proof (Hpos TORRE).
      destruct r; simpl in *; split; lia. }
  split; [|split; [intros r; apply Hs|exact Hnovo]].
  intros r. specialize (Hsum r). destruct (Hs r) as [Hq _].
  cbn [livre fios]. rewrite reservado_app in *.
  change (reservado r ({| conta := c; resta := e :: tr |} :: depois))
    with (disp r (devido c) + reservado r depois) in Hsum.
  change (reservado r ({| conta := lanca e c; resta := tr |} :: depois))
    with (disp r (devido (lanca e c)) + reservado r depois).
  lia.
Qed.

Lemma alcancavel_conserva cap s :
  (forall r, 0 <= disp r cap) -> alcancavel cap s -> conserva cap s.
Proof.
  intros Hcap H. induction H as [s H|s s' _ IH Hp].
  - apply partida_conserva; assumption.
  - eapply passo_conserva; eassumption.
Qed.

Lemma posse_reservado fs r :
  Forall (fun f => seguro (conta f) (resta f) = true) fs ->
  0 <= em_posse r fs <= reservado r fs.
Proof.
  induction 1 as [|f fs Hf _ IH]; [simpl; lia|].
  apply seguro_conta in Hf. pose proof (conta_ok_disp _ r Hf) as Hle.
  change (em_posse r (f :: fs))
    with (Z.b2z (tem r (marcado (conta f))) + em_posse r fs).
  change (reservado r (f :: fs))
    with (disp r (devido (conta f)) + reservado r fs).
  assert (0 <= Z.b2z (tem r (marcado (conta f))))
    by (destruct (tem r (marcado (conta f))); simpl; lia).
  lia.
Qed.

Lemma avanca_passo s s' : avanca s = Some s' -> passo s s'.
Proof.
  unfold avanca. destruct s as [l fs]. simpl.
  destruct fs as [|[c [|e tr]] depois]; try discriminate.
  destruct (efeito e l) as [l'|] eqn:E; [|discriminate].
  intros H. injection H as <-.
  exact (passo_fio l l' [] depois c e tr E).
Qed.

Lemma avanca_n_alcancavel cap : forall n s s',
  alcancavel cap s -> avanca_n n s = Some s' -> alcancavel cap s'.
Proof.
  induction n as [|n IH]; intros s s' Ha E; simpl in E.
  - injection E as <-. exact Ha.
  - destruct (avanca s) as [s1|] eqn:E1; [|discriminate E].
    apply (IH s1 s'); [|exact E].
    eapply alc_passo; [exact Ha|]. apply avanca_passo. exact E1.
Qed.

Lemma um_voo_partida : partida capacidade_padrao um_voo.
Proof.
  split; [reflexivity|]. constructor; [|constructor].
  split; [reflexivity|].
  unfold rastro_de_voo. simpl. unfold rastro_tranquilo.
  destruct (aviao_thread voo_tranquilo) as [[[] s']|] eqn:E;
    [|vm_compute in E; discriminate E].
  exists voo_tranquilo, s'. auto.
Qed.

End Intercalacao.

(** C3, as the code has it.  At every state reachable by interleaving
    the logs of any number of aviao_thread workers over a gate that
    starts at capacities that are not negative, and for each of the
    three resources: the counter of the gate stays between 0 and the
    capacity; the counter plus the units the workers have reserved and
    not yet given back is the capacity; the flags that are up count at
    most the reserved units, so the counter plus the flags never exceeds
    the capacity. *)
Theorem conservacao_da_reserva cap s :
  (forall r, 0 <= SoFinal.disp r cap) ->
  SoFinal.alcancavel cap s ->
  forall r,
    0 <= SoFinal.disp r (SoFinal.livre s) <= SoFinal.disp r cap
    /\ SoFinal.disp r (SoFinal.livre s)
       + SoFinal.reservado r (SoFinal.fios s) = SoFinal.disp r cap
    /\ 0 <= SoFinal.em_posse r (SoFinal.fios s)
         <= SoFinal.reservado r (SoFinal.fios s)
    /\ SoFinal.disp r (SoFinal.livre s)
       + SoFinal.em_posse r (SoFinal.fios s) <= SoFinal.disp r cap.
Proof.
  intros Hcap Ha r.
  destruct (alcancavel_conserva cap s Hcap Ha) as (Hsum & Hpos & Hseg).
  pose proof (Hsum r) as H1. pose proof (Hpos r) as H2.
  pose proof (posse_reservado _ r Hseg) as H3.
  lia.
Qed.

Lemma um_voo_reservado_alcancavel :
  SoFinal.alcancavel SoFinal.capacidade_padrao SoFinal.um_voo_reservado.
Proof.
  apply (avanca_n_alcancavel _ 5 SoFinal.um_voo).
  - apply SoFinal.alc_partida. apply um_voo_partida.
  - vm_compute. reflexivity.
Qed.

Lemma conservacao_da_reserva_testemunha :
  0 <= SoFinal.disp PISTA (SoFinal.livre SoFinal.um_voo_reservado) <= 3
  /\ SoFinal.disp PISTA (SoFinal.livre SoFinal.um_voo_reservado)
     + SoFinal.reservado PISTA (SoFinal.fios SoFinal.um_voo_reservado) = 3.
Proof.
  assert (Hcap : forall r, 0 <= SoFinal.disp r SoFinal.capacidade_padrao)
    by (intros r; destruct r; vm_compute; discriminate).
  destruct (conservacao_da_reserva SoFinal.capacidade_padrao
              SoFinal.um_voo_reservado Hcap um_voo_reservado_alcancavel
              PISTA) as (H1 & H2 & _).
  split; [exact H1|exact H2].
Defined.

(** C3 as stated fails between the reservation and the sem_wait: the
    single flight of [um_voo_reservado] has debited one runway from the
    gate and its has_pista flag is still down, so the counter plus the
    flags is 2 where the capacity is 3. *)
Lemma conservacao_contraexemplo :
  SoFinal.alcancavel SoFinal.capacidade_padrao SoFinal.um_voo_reservado
  /\ SoFinal.disp PISTA (SoFinal.livre SoFinal.um_voo_reservado)
     + SoFinal.em_posse PISTA (SoFinal.fios SoFinal.um_voo_reservado)
     <> SoFinal.disp PISTA SoFinal.capacidade_padrao.
Proof.
  split; [exact um_voo_reservado_alcancavel|].
  vm_compute. discriminate.
Qed.

(** ** So-final.c: the reservation gate, call by call *)

Section Reservar.
Import SoFinal.

Lemma checa_falha_m_gate s f s1 :
  checa_falha_m s = Some (f, s1) ->
  porta (mundo s1) = porta (mundo s)
  /\ simulacao_ativa (mundo s1) = simulacao_ativa (mundo s)
  /\ relogio (mundo s1) = relogio (mundo s)
  /\ ambiente s1 = ambiente s /\ historico s1 = historico s
  /\ tipo (aviao s1) = tipo (aviao s)
  /\ (em_alerta_critico (aviao s) = true ->
      em_alerta_critico (aviao s1) = true)
  /\ f = fst (checa_falha (mundo s) (aviao s)).
Proof.
  unfold checa_falha_m, checa_falha.
  pose proof (verificar_starvation_gate (mundo s) (aviao s))
    as (H1 & H2 & H3 & H4).
  pose proof (verificar_starvation_posse (mundo s) (aviao s)) as [_ H5].
  pose proof (verificar_starvation_alerta (mundo s) (aviao s)) as H6.
  destruct (verificar_starvation _ _) as [m a]. simpl in *.
  intros E. injection E as <- <-. simpl. unfold porta.
  rewrite H1, H2. auto 10.
Qed.

Lemma expira_gate start timeout_seg s v s1 :
  expira start timeout_seg s = Some (v, s1) ->
  s1 = s /\ v <> Retorna SEM_OK.
Proof.
  unfold expira, time, bind, le, ret. simpl.
  destruct (_ <=? 0); simpl; intros E; injection E as <- <-;
    split; try reflexivity; discriminate.
Qed.

Lemma concede_gate np ng nt start timeout_seg s v s1 :
  concede np ng nt start timeout_seg s = Some (v, s1) ->
  ambiente s1 = ambiente s /\ historico s1 = historico s
  /\ aviao s1 = aviao s
  /\ match v with
     | Retorna rc =>
         (rc = SEM_OK ->
            suficiente np ng nt (reserva (mundo s)) = true
            /\ reserva (mundo s1) = debita np ng nt (reserva (mundo s)))
         /\ (rc <> SEM_OK -> mundo s1 = mundo s)
     | Reavalia => mundo s1 = mundo s
     end.
Proof.
  unfold concede, le_mundo. unfold bind at 1 2. unfold le, ret at 1.
  destruct (suficiente np ng nt (reserva (mundo s))) eqn:Es.
  - simpl. intros E. injection E as <- <-. simpl.
    repeat split; auto. intros H. contradiction.
  - intros E. destruct (expira_gate _ _ _ _ _ E) as [-> Hv].
    repeat split; auto. destruct v as [rc|]; [|reflexivity].
    split; [|reflexivity]. intros ->. contradiction.
Qed.

Lemma suficiente_le np ng nt g :
  suficiente np ng nt g = true ->
  np <= pistas_disp g /\ ng <= portoes_disp g /\ nt <= torres_disp g.
Proof.
  unfold suficiente. intros H.
  apply andb_true_iff in H. destruct H as [H H3].
  apply andb_true_iff in H. destruct H as [H1 H2].
  apply Z.leb_le in H1, H2, H3. auto.
Qed.

Lemma decisao_negada np ng nt g rc s' :
  rc <> SEM_OK -> reserva (mundo s') = fst g -> decisao np ng nt g rc s'.
Proof.
  intros Hrc Hg. split; [intros E; contradiction|]. intros _. exact Hg.
Qed.

Lemma reservar_volta_gate np ng nt start timeout_seg s v s1 :
  reservar_volta np ng nt start timeout_seg s = Some (v, s1) ->
  ambiente s1 = ambiente s /\ historico s1 = historico s
  /\ tipo (aviao s1) = tipo (aviao s)
  /\ match v with
     | Retorna rc => decisao np ng nt (porta (mundo s)) rc s1
     | Reavalia => True
     end.
Proof.
  unfold reservar_volta, le_mundo. unfold bind at 1 2. unfold le, ret at 1.
  destruct (negb (simulacao_ativa (mundo s))).
  { intros E. unfold ret in E. injection E as <- <-.
    split; [reflexivity|]. split; [reflexivity|]. split; [reflexivity|].
    apply decisao_negada; [discriminate|reflexivity]. }
  unfold bind at 1.
  destruct (checa_falha_m s) as [[f s2]|] eqn:Ec; [|discriminate].
  destruct (checa_falha_m_gate _ _ _ Ec)
    as (Hg & _ & _ & Ha & Hh & Ht & _).
  destruct f.
  { intros E. unfold ret in E. injection E as <- <-.
    split; [exact Ha|]. split; [exact Hh|]. split; [exact Ht|].
    apply decisao_negada; [discriminate|]. rewrite <- Hg. reflexivity. }
  unfold le_aviao, bind at 1 2 3 4. unfold le, ret at 1 2. cbv beta.
  assert (Hgr : reserva (mundo s2) = fst (porta (mundo s)))
    by (rewrite <- Hg; reflexivity).
  assert (Hge : esperando_internacional (mundo s2) = snd (porta (mundo s)))
    by (rewrite <- Hg; reflexivity).
  assert (Hconc : forall v s1,
             concede np ng nt start timeout_seg s2 = Some (v, s1) ->
             (em_alerta_critico (aviao s2) = false ->
              tipo (aviao s2) = DOMESTICO ->
              snd (porta (mundo s)) <= 0) ->
             ambiente s1 = ambiente s /\ historico s1 = historico s
             /\ tipo (aviao s1) = tipo (aviao s)
             /\ match v with
                | Retorna rc => decisao np ng nt (porta (mundo s)) rc s1
                | Reavalia => True
                end).
  { intros v' s' E Hy.
    destruct (concede_gate _ _ _ _ _ _ _ _ E) as (H1 & H2 & H3 & H4).
    rewrite H1, H2, H3, Ha, Hh, Ht.
    split; [reflexivity|]. split; [reflexivity|]. split; [reflexivity|].
    destruct v' as [rc|]; [|exact I].
    destruct H4 as [Hok Hno]. split.
    - intros Hrc. destruct (Hok Hrc) as [Hs Hd].
      rewrite Hgr in Hs, Hd.
      destruct (suficiente_le _ _ _ _ Hs) as (L1 & L2 & L3).
      split; [exact L1|]. split; [exact L2|]. split; [exact L3|].
      split; [exact Hd|]. rewrite H3. auto.
    - intros Hrc. rewrite (Hno Hrc). exact Hgr. }
  destruct (em_alerta_critico (aviao s2)) eqn:Eal.
  { intros E. apply (Hconc _ _ E). discriminate. }
  destruct (tipo (aviao s2)) eqn:Etp.
  - destruct (0 <? esperando_internacional (mundo s2)) eqn:Eint.
    + intros E. destruct (expira_gate _ _ _ _ _ E) as [-> Hv].
      split; [exact Ha|]. split; [exact Hh|].
      split; [rewrite Etp; exact Ht|].
      destruct v as [rc|]; [|exact I].
      apply decisao_negada; [|exact Hgr]. intros ->. contradiction.
    + intros E. apply (Hconc _ _ E). intros _ _.
      apply Z.ltb_ge in Eint. rewrite <- Hge. exact Eint.
  - intros E. apply (Hconc _ _ E). discriminate.
Qed.

Lemma last_cons {A} (l : list A) : forall x d, last (x :: l) d = last l x.
Proof.
  induction l as [|y l IH]; intros x d; [reflexivity|].
  change (last (x :: y :: l) d) with (last (y :: l) d).
  rewrite (IH y d), (IH y x). reflexivity.
Qed.

Lemma porta_vista_cons m m2 i cons :
  porta m2 = porta (visto i) ->
  porta_vista m (i :: cons) = porta_vista m2 cons.
Proof.
  unfold porta_vista. intros H. rewrite H. simpl map. apply last_cons.
Qed.

Lemma reservar_laco_gate np ng nt start timeout_seg : forall n s rc s',
  reservar_laco n np ng nt start timeout_seg s = Some (rc, s') ->
  exists cons,
    ambiente s = cons ++ ambiente s'
    /\ historico s' = historico s
    /\ tipo (aviao s') = tipo (aviao s)
    /\ decisao np ng nt (porta_vista (mundo s) cons) rc s'.
Proof.
  induction n as [|n IH]; intros s rc s' E; simpl in E; [discriminate E|].
  unfold bind at 1 in E.
  destruct (reservar_volta np ng nt start timeout_seg s)
    as [[v s1]|] eqn:Ev; [|discriminate E].
  destruct (reservar_volta_gate _ _ _ _ _ _ _ _ Ev) as (Ha & Hh & Ht & Hd).
  destruct v as [rc1|].
  - injection E as <- <-. exists []. simpl. auto.
  - unfold bind at 1 in E. unfold bloqueia in E.
    destruct (ambiente s1) as [|i resto] eqn:Eamb; [discriminate E|].
    destruct (IH _ _ _ E) as (cons & Hc & Hh2 & Ht2 & Hd2).
    destruct (acorda_local i s1 resto) as (L1 & _ & L3 & L4 & _).
    destruct (acorda_gate i s1 resto) as (G1 & G2 & _).
    exists (i :: cons). rewrite <- Ha. rewrite L4 in Hc.
    split; [simpl; rewrite Hc; reflexivity|].
    split; [rewrite Hh2, L1; exact Hh|].
    split; [rewrite Ht2, L3; exact Ht|].
    rewrite (porta_vista_cons (mundo s) (mundo (acorda i s1 resto)));
      [exact Hd2|].
    unfold porta. rewrite G1, G2. reflexivity.
Qed.

End Reservar.

Lemma reservar_recursos_gate np ng nt timeout_seg s rc s' :
  SoFinal.reservar_recursos np ng nt timeout_seg s = Some (rc, s') ->
  exists cons,
    SoFinal.ambiente s = cons ++ SoFinal.ambiente s'
    /\ SoFinal.decisao np ng nt
         (SoFinal.porta_vista (SoFinal.mundo s) cons) rc s'.
Proof.
  unfold SoFinal.reservar_recursos. unfold bind at 1. unfold le.
  unfold bind at 1.
  destruct (SoFinal.reservar_laco _ _ _ _ _ _ s) as [[rc1 s1]|] eqn:E;
    [|discriminate].
  destruct (reservar_laco_gate _ _ _ _ _ _ _ _ _ E)
    as (cons & Hc & _ & _ & Hd).
  intros H. simpl in H. injection H as <- <-.
  exists cons. split; [exact Hc|]. exact Hd.
Qed.

(** An aircraft in critical alert passes whatever the count of
    contending international flights. *)
Lemma alerta_isento np ng nt timeout_seg s :
  SoFinal.simulacao_ativa (SoFinal.mundo s) = true ->
  fst (SoFinal.checa_falha (SoFinal.mundo s) (SoFinal.aviao s)) = false ->
  SoFinal.em_alerta_critico (SoFinal.aviao s) = true ->
  SoFinal.suficiente np ng nt (SoFinal.reserva (SoFinal.mundo s)) = true ->
  exists s',
    SoFinal.reservar_recursos np ng nt timeout_seg s
    = Some (SoFinal.SEM_OK, s')
    /\ SoFinal.reserva (SoFinal.mundo s')
       = SoFinal.debita np ng nt (SoFinal.reserva (SoFinal.mundo s))
    /\ SoFinal.ambiente s' = SoFinal.ambiente s.
Proof.
  intros Hsim Hf Hal Hsuf.
  unfold SoFinal.reservar_recursos. unfold bind at 1. unfold le.
  cbn [SoFinal.reservar_laco]. unfold bind at 1 2.
  unfold SoFinal.reservar_volta, SoFinal.le_mundo.
  unfold bind at 1 2. unfold le, ret at 1. rewrite Hsim. cbn [negb].
  unfold bind at 1. unfold SoFinal.checa_falha_m.
  unfold SoFinal.checa_falha in *.
  pose proof (verificar_starvation_gate (SoFinal.mundo s) (SoFinal.aviao s))
    as (G1 & _).
  pose proof (verificar_starvation_alerta (SoFinal.mundo s)
                (SoFinal.aviao s) Hal) as G2.
  destruct (SoFinal.verificar_starvation _ _) as [m a]. simpl in *.
  rewrite Hf. unfold SoFinal.le_aviao, SoFinal.le_mundo, bind, le, ret.
  simpl. rewrite G2. unfold SoFinal.concede, SoFinal.le_mundo, bind, le, ret.
  simpl. rewrite G1, Hsuf. simpl.
  eexists. split; [reflexivity|]. simpl. auto.
Qed.

Section ReservarRefatorado.
Import SoRefatorado.

Lemma verificar_starvation_ref_gate m a :
  porta (fst (verificar_starvation m a)) = porta m
  /\ simulacao_ativa (fst (verificar_starvation m a)) = simulacao_ativa m
  /\ tipo (snd (verificar_starvation m a)) = tipo a.
Proof.
  unfold verificar_starvation.
  destruct (ja_marcado (status_final a)); [auto|].
  destruct (_ && negb _).
  { simpl. destruct (status_final a); auto. }
  destruct (TEMPO_MAXIMO_ESPERA <=? _); [|auto].
  destruct (tipo a) eqn:E; simpl; auto.
Qed.

Lemma acorda_ref_gate i a :
  porta (fst (acorda i a)) = porta (visto i)
  /\ tipo (snd (acorda i a)) = tipo a.
Proof.
  unfold acorda. destruct (monitor_passou i); [|auto].
  unfold monitor_deadlock.
  destruct (id a =? 0); [auto|].
  destruct (status_final a); auto;
    destruct (_ || _); auto.
Qed.

Lemma reservar_laco_ref np ng nt inicio timeout_seg :
  forall amb m a rc m' a' resto,
    reservar_laco amb np ng nt inicio timeout_seg m a
    = Some (rc, (m', a'), resto) ->
    exists cons,
      amb = cons ++ resto
      /\ decisao np ng nt (porta_vista m cons) rc m' a'.
Proof.
  assert (Hneg : forall g rc m' a',
             rc <> SEM_OK -> porta m' = g -> decisao np ng nt g rc m' a').
  { intros [[[p g] t] ei] rc m' a' Hrc Hp. unfold decisao.
    split; [intros E; contradiction|]. intros _.
    unfold porta in Hp. injection Hp as -> -> -> _. auto. }
  assert (Hturn : forall amb m a rc m' a' resto
                         (rec : Mundo -> Aviao ->
                                option (Z * (Mundo * Aviao) * list Interf)),
             (if negb (simulacao_ativa m)
              then Some (SEM_SIM_ENCERRADA, (m, a), amb)
              else
                let '(f, (m1, a1)) := checa_falha m a in
                if f then Some (SEM_AVIAO_FALHOU, (m1, a1), amb)
                else
                  if negb (match tipo a1 with
                           | DOMESTICO =>
                               (0 <? esperando_internacional m1)
                               && negb (em_alerta_critico a1)
                           | INTERNACIONAL => false
                           end)
                     && ((np <=? pistas_disp m1) && (ng <=? portoes_disp m1)
                         && (nt <=? torres_disp m1))
                  then Some (SEM_OK,
                             (com_disp (pistas_disp m1 - np)
                                       (portoes_disp m1 - ng)
                                       (torres_disp m1 - nt) m1, a1), amb)
                  else
                    if timeout_seg <=? para_int (relogio m1 - inicio)
                    then Some (SEM_TIMEOUT, (m1, a1), amb)
                    else rec m1 a1) = Some (rc, (m', a'), resto) ->
             (resto = amb /\ decisao np ng nt (porta m) rc m' a')
             \/ exists m1 a1, rec m1 a1 = Some (rc, (m', a'), resto)).
  { intros amb m a rc m' a' resto rec.
    destruct (negb (simulacao_ativa m)).
    { intros E. injection E as <- <- <- <-. left. split; [reflexivity|].
      apply Hneg; [discriminate|reflexivity]. }
    unfold checa_falha.
    pose proof (verificar_starvation_ref_gate m a) as (G1 & _ & _).
    destruct (verificar_starvation m a) as [m1 a1]. simpl in G1.
    destruct (ja_marcado (status_final a1)).
    { intros E. injection E as <- <- <- <-. left. split; [reflexivity|].
      apply Hneg; [discriminate|exact G1]. }
    destruct (negb _ && _) eqn:Eg.
    - intros E. injection E as <- <- <- <-. left. split; [reflexivity|].
      apply andb_true_iff in Eg. destruct Eg as [Ey Es].
      apply andb_true_iff in Es. destruct Es as [Es E3].
      apply andb_true_iff in Es. destruct Es as [E1 E2].
      apply Z.leb_le in E1, E2, E3.
      unfold porta in G1. injection G1 as P1 P2 P3 P4.
      unfold decisao, porta. rewrite <- P1, <- P2, <- P3, <- P4.
      split; [|intros H; contradiction]. intros _. simpl.
      repeat (split; [assumption || reflexivity|]).
      intros Ht Hal. rewrite Ht, Hal in Ey. simpl in Ey.
      rewrite andb_true_r in Ey. apply negb_true_iff in Ey.
      apply Z.ltb_ge in Ey. exact Ey.
    - destruct (timeout_seg <=? para_int (relogio m1 - inicio)).
      + intros E. injection E as <- <- <- <-. left. split; [reflexivity|].
        apply Hneg; [discriminate|exact G1].
      + intros E. right. exists m1, a1. exact E. }
  induction amb as [|i amb IH]; intros m a rc m' a' resto E.
  - apply (Hturn [] m a rc m' a' resto (fun _ _ => None)) in E.
    destruct E as [[-> Hd]|(m1 & a1 & E)]; [|discriminate E].
    exists []. split; [reflexivity|exact Hd].
  - apply (Hturn (i :: amb) m a rc m' a' resto
             (fun m1 a1 => let '(m2, a2) := acorda i a1 in
                           reservar_laco amb np ng nt inicio timeout_seg
                                         m2 a2)) in E.
    destruct E as [[-> Hd]|(m1 & a1 & E)].
    + exists []. split; [reflexivity|exact Hd].
    + pose proof (acorda_ref_gate i a1) as [G _].
      destruct (acorda i a1) as [m2 a2]. simpl in G.
      destruct (IH _ _ _ _ _ _ E) as (cons & -> & Hd).
      exists (i :: cons). split; [reflexivity|].
      unfold porta_vista in *. simpl map. rewrite last_cons.
      rewrite <- G. exact Hd.
Qed.

End ReservarRefatorado.

Lemma alerta_isento_ref amb m a np ng nt timeout_seg :
  SoRefatorado.simulacao_ativa m = true ->
  fst (SoRefatorado.checa_falha m a) = false ->
  SoRefatorado.em_alerta_critico a = true ->
  np <= SoRefatorado.pistas_disp m ->
  ng <= SoRefatorado.portoes_disp m ->
  nt <= SoRefatorado.torres_disp m ->
  exists m' a',
    SoRefatorado.reservar_recursos amb m a np ng nt timeout_seg
    = Some (SoRefatorado.SEM_OK, (m', a'), amb)
    /\ SoRefatorado.pistas_disp m' = SoRefatorado.pistas_disp m - np
    /\ SoRefatorado.portoes_disp m' = SoRefatorado.portoes_disp m - ng
    /\ SoRefatorado.torres_disp m' = SoRefatorado.torres_disp m - nt.
Proof.
  intros Hsim Hf Hal H1 H2 H3.
  unfold SoRefatorado.reservar_recursos.
  assert (Hal' : SoRefatorado.em_alerta_critico
                   (snd (SoRefatorado.verificar_starvation m a)) = true).
  { unfold SoRefatorado.verificar_starvation.
    destruct (SoRefatorado.ja_marcado _); [exact Hal|].
    rewrite Hal. rewrite andb_false_r.
    destruct (_ <=? _); [|exact Hal].
    destruct (SoRefatorado.tipo a); exact Hal. }
  pose proof (verificar_starvation_ref_gate m a) as (G & _ & _).
  unfold SoRefatorado.checa_falha in Hf.
  destruct amb as [|i amb]; simpl; rewrite Hsim; simpl;
    unfold SoRefatorado.checa_falha;
    destruct (SoRefatorado.verificar_starvation m a) as [m1 a1];
    simpl in *; rewrite Hf, Hal';
    unfold SoRefatorado.porta in G; injection G as -> -> -> _;
    apply Z.leb_le in H1, H2, H3; rewrite H1, H2, H3;
    (replace (negb (match SoRefatorado.tipo a1 with
                    | SoRefatorado.DOMESTICO =>
                        (0 <? SoRefatorado.esperando_internacional m1)
                        && negb true
                    | SoRefatorado.INTERNACIONAL => false
                    end)) with true
      by (destruct (SoRefatorado.tipo a1);
          [rewrite andb_false_r|]; reflexivity));
    simpl; eexists; eexists; (split; [reflexivity|]); simpl; auto.
Qed.

(** C1.  reservar_recursos of So-final.c and of
    So_refatorado_corrigido.c is all-or-nothing and gives priority by
    class.  Whatever the caller finds at its wake-ups, when the call
    returns SEM_OK the three counters it saw last were at least the
    amounts asked and the call leaves them lower by exactly those
    amounts, and if the caller is a domestic flight out of critical
    alert then no international flight was contending; when it returns
    anything else the counters are as the caller saw them last.  An
    aircraft in critical alert is exempt from the class rule: while the
    simulation runs and the aircraft is not failed, sufficient counters
    get it SEM_OK at once, whatever the contending count. *)
Theorem reserva_tudo_ou_nada :
  (forall np ng nt timeout_seg s rc s',
      SoFinal.reservar_recursos np ng nt timeout_seg s = Some (rc, s') ->
      exists cons,
        SoFinal.ambiente s = cons ++ SoFinal.ambiente s'
        /\ SoFinal.decisao np ng nt
             (SoFinal.porta_vista (SoFinal.mundo s) cons) rc s')
  /\ (forall np ng nt timeout_seg s,
         SoFinal.simulacao_ativa (SoFinal.mundo s) = true ->
         fst (SoFinal.checa_falha (SoFinal.mundo s) (SoFinal.aviao s))
         = false ->
         SoFinal.em_alerta_critico (SoFinal.aviao s) = true ->
         SoFinal.suficiente np ng nt (SoFinal.reserva (SoFinal.mundo s))
         = true ->
         exists s',
           SoFinal.reservar_recursos np ng nt timeout_seg s
           = Some (SoFinal.SEM_OK, s')
           /\ SoFinal.reserva (SoFinal.mundo s')
              = SoFinal.debita np ng nt (SoFinal.reserva (SoFinal.mundo s))
           /\ SoFinal.ambiente s' = SoFinal.ambiente s)
  /\ (forall amb m a np ng nt timeout_seg rc m' a' resto,
         SoRefatorado.reservar_recursos amb m a np ng nt timeout_seg
         = Some (rc, (m', a'), resto) ->
         exists cons,
           amb = cons ++ resto
           /\ SoRefatorado.decisao np ng nt
                (SoRefatorado.porta_vista m cons) rc m' a')
  /\ (forall amb m a np ng nt timeout_seg,
         SoRefatorado.simulacao_ativa m = true ->
         fst (SoRefatorado.checa_falha m a) = false ->
         SoRefatorado.em_alerta_critico a = true ->
         np <= SoRefatorado.pistas_disp m ->
         ng <= SoRefatorado.portoes_disp m ->
         nt <= SoRefatorado.torres_disp m ->
         exists m' a',
           SoRefatorado.reservar_recursos amb m a np ng nt timeout_seg
           = Some (SoRefatorado.SEM_OK, (m', a'), amb)
           /\ SoRefatorado.pistas_disp m' = SoRefatorado.pistas_disp m - np
           /\ SoRefatorado.portoes_disp m' = SoRefatorado.portoes_disp m - ng
           /\ SoRefatorado.torres_disp m' = SoRefatorado.torres_disp m - nt).
Proof.
  split; [exact reservar_recursos_gate|].
  split; [exact alerta_isento|].
  split.
  - intros amb m a np ng nt timeout_seg rc m' a' resto E.
    exact (reservar_laco_ref _ _ _ _ _ _ _ _ _ _ _ _ E).
  - exact alerta_isento_ref.
Qed.

Lemma reserva_tudo_ou_nada_testemunha :
  (exists s' cons,
      SoFinal.reservar_recursos 1 0 1 10 SoFinal.domestico_barrado
      = Some (SoFinal.SEM_TIMEOUT, s')
      /\ SoFinal.ambiente SoFinal.domestico_barrado
         = cons ++ SoFinal.ambiente s'
      /\ SoFinal.decisao 1 0 1
           (SoFinal.porta_vista (SoFinal.mundo SoFinal.domestico_barrado)
                                cons)
           SoFinal.SEM_TIMEOUT s')
  /\ (exists s',
         SoFinal.reservar_recursos 1 0 1 10 SoFinal.domestico_em_alerta
         = Some (SoFinal.SEM_OK, s')
         /\ SoFinal.reserva (SoFinal.mundo s')
            = {| SoFinal.pistas_disp := 2; SoFinal.portoes_disp := 5;
                 SoFinal.torres_disp := 1 |})
  /\ (exists m' a' cons,
         SoRefatorado.reservar_recursos
           [SoRefatorado.encontra (SoRefatorado.internacional_esperando 105);
            SoRefatorado.encontra (SoRefatorado.internacional_esperando 110)]
           (SoRefatorado.internacional_esperando 100)
           (SoRefatorado.novo 1 SoRefatorado.DOMESTICO 100) 1 0 1 10
         = Some (SoRefatorado.SEM_TIMEOUT, (m', a'), [])
         /\ SoRefatorado.decisao 1 0 1
              (SoRefatorado.porta_vista
                 (SoRefatorado.internacional_esperando 100) cons)
              SoRefatorado.SEM_TIMEOUT m' a')
  /\ (exists m' a',
         SoRefatorado.reservar_recursos []
           (SoRefatorado.internacional_esperando 100)
           (SoRefatorado.com_alerta true
              (SoRefatorado.novo 1 SoRefatorado.DOMESTICO 100)) 1 0 1 10
         = Some (SoRefatorado.SEM_OK, (m', a'), [])
         /\ SoRefatorado.pistas_disp m' = 3 - 1).
Proof.
  destruct reserva_tudo_ou_nada as (T1 & T2 & T3 & T4).
  split; [|split; [|split]].
  - destruct (SoFinal.reservar_recursos 1 0 1 10 SoFinal.domestico_barrado)
      as [[rc s']|] eqn:E; [|vm_compute in E; discriminate E].
    destruct (T1 _ _ _ _ _ _ _ E) as (cons & Hc & Hd).
    pose proof E as E'. vm_compute in E'. injection E' as Hrc _.
    subst rc. exists s', cons. auto.
  - destruct (T2 1 0 1 10 SoFinal.domestico_em_alerta
                eq_refl eq_refl eq_refl eq_refl) as (s' & E & Hr & _).
    exists s'. split; [exact E|]. rewrite Hr. reflexivity.
  - destruct (SoRefatorado.reservar_recursos _ _ _ 1 0 1 10)
      as [[[rc [m' a']] resto]|] eqn:E; [|vm_compute in E; discriminate E].
    destruct (T3 _ _ _ _ _ _ _ _ _ _ _ E) as (cons & Hc & Hd).
    pose proof E as E'. vm_compute in E'. injection E' as Hrc _ _ Hresto.
    subst rc resto. exists m', a', cons. auto.
  - assert (H1 : 1 <= 3) by (vm_compute; discriminate).
    assert (H2 : 0 <= 5) by (vm_compute; discriminate).
    assert (H3 : 1 <= 2) by (vm_compute; discriminate).
    destruct (T4 [] (SoRefatorado.internacional_esperando 100)
                (SoRefatorado.com_alerta true
                   (SoRefatorado.novo 1 SoRefatorado.DOMESTICO 100))
                1 0 1 10 eq_refl eq_refl eq_refl H1 H2 H3)
      as (m' & a' & E & Hp & _).
    exists m', a'. split; [exact E|exact Hp].
Defined.

(** ** So-final.c: a reservation that times out *)

Lemma codigos_in np ng nt rc tr :
  In (SoFinal.EvReservar np ng nt rc) tr -> In rc (SoFinal.codigos tr).
Proof.
  unfold SoFinal.codigos. intros H. apply in_flat_map.
  exists (SoFinal.EvReservar np ng nt rc). split; [exact H|].
  left. reflexivity.
Qed.

(** A path calls reservar_recursos at most once; the code it got is
    the one that names the path. *)
Lemma codigos_rastro f t p c :
  SoFinal.possivel f p c ->
  SoFinal.codigos (fst (SoFinal.rastro f t p c))
  = match c with
    | SoFinal.CFalhaEntrada | SoFinal.CFalhaFila _ => []
    | SoFinal.CNegada _ r => [r]
    | SoFinal.CErro _ _ | SoFinal.CCompleta _ => [SoFinal.SEM_OK]
    end.
Proof.
  intros Hp. destruct c as [|d|d r|d r|d].
  - reflexivity.
  - destruct d; reflexivity.
  - destruct d; reflexivity.
  - destruct Hp as [Hin Ht].
    destruct f, r; simpl in Hin; try (exfalso; intuition discriminate);
      destruct p as [[] [] []]; try discriminate Ht; destruct d; reflexivity.
  - destruct f, p as [[] [] []], d; reflexivity.
Qed.

(** A phase whose reservation timed out: the status is FALHA, the
    priority is released last, the phase returns -1 and the flags are as
    they were. *)
Lemma reserva_expirada f s rc s' tr np ng nt :
  SoFinal.fase f s = Some (rc, s') ->
  SoFinal.historico s' = SoFinal.historico s ++ tr ->
  In (SoFinal.EvReservar np ng nt SoFinal.SEM_TIMEOUT) tr ->
  SoFinal.status_final (SoFinal.aviao s') = SoFinal.FALHA
  /\ last tr (SoFinal.EvSleep 0)
     = SoFinal.EvLiberaPrioridade (SoFinal.tipo (SoFinal.aviao s))
  /\ rc = -1
  /\ SoFinal.posse (SoFinal.aviao s') = SoFinal.posse (SoFinal.aviao s)
  /\ SoFinal.debitado tr = SoFinal.zero.
Proof.
  intros E Hh Hin.
  destruct (segue_caminho_rastro f s rc s' E)
    as (c & Hp & Hh' & Hpos & Ht & Hr & Hd).
  rewrite Hh in Hh'. apply app_inv_head in Hh'. subst tr.
  apply codigos_in in Hin. rewrite (codigos_rastro _ _ _ _ Hp) in Hin.
  destruct c as [|d|d r|d r|d]; simpl in Hin;
    try contradiction; try (exfalso; intuition discriminate).
  destruct Hin as [->|[]].
  split; [exact (Hd eq_refl)|].
  split; [destruct d; reflexivity|].
  split; [exact Hr|].
  split; [exact Hpos|].
  destruct d; reflexivity.
Qed.

(** ** So-final.c: invariants of a worker *)

Section InvariantesFinal.
Import SoFinal.
Variable P : Estado -> Prop.

Lemma preserva_le_mundo : preserva P le_mundo.
Proof. unfold le_mundo. auto with preserva. Qed.

Lemma preserva_le_aviao : preserva P le_aviao.
Proof. unfold le_aviao. auto with preserva. Qed.

Lemma preserva_time : preserva P time.
Proof. unfold time. auto with preserva. Qed.

Lemma garante_segue (b : M Estado (option Z)) (k : M Estado Z) :
  garante P b (sai_ou_segue P) ->
  garante P k (fun rc s' => rc <> 0 -> P s') ->
  garante P (segue b k) (fun rc s' => rc <> 0 -> P s').
Proof.
  intros Hb Hk s H. unfold segue. apply apos_bind.
  eapply apos_mono; [exact (Hb s H)|]. cbv beta.
  intros [rc|] s' [H' Hrc].
  - apply apos_ret. intros _. exact H'.
  - exact (Hk s' H').
Qed.

Lemma bloco_bind {A} (c : M Estado A) (k : A -> M Estado (option Z)) :
  preserva P c -> (forall x, garante P (k x) (sai_ou_segue P)) ->
  garante P (bind c k) (sai_ou_segue P).
Proof. apply garante_bind. Qed.

Lemma bloco_sai rc : rc <> 0 -> garante P (ret (Some rc)) (sai_ou_segue P).
Proof. intros Hrc s H. apply apos_ret. split; assumption. Qed.

Lemma bloco_segue : garante P (ret None) (sai_ou_segue P).
Proof. intros s H. apply apos_ret. split; [assumption|exact I]. Qed.

(** The phases keep an invariant on every path that fails once
    their operations keep it: conclui is the only one left out. *)
Hypothesis P_checa_falha_m : preserva P checa_falha_m.
Hypothesis P_aguardar_prioridade : forall t, preserva P (aguardar_prioridade t).
Hypothesis P_reservar_recursos :
  forall np ng nt timeout_seg,
    preserva P (reservar_recursos np ng nt timeout_seg).
Hypothesis P_liberar_prioridade : forall t, preserva P (liberar_prioridade t).
Hypothesis P_liberar_reserva :
  forall np ng nt, preserva P (liberar_reserva np ng nt).
Hypothesis P_sem_wait : forall r, preserva P (sem_wait r).
Hypothesis P_sem_post : forall r, preserva P (sem_post r).
Hypothesis P_marca : forall r b, preserva P (marca r b).
Hypothesis P_sleep : forall n, preserva P (sleep n).
Hypothesis P_marca_inicio : forall f, preserva P (marca_inicio f).
Hypothesis P_falha : preserva P (poe_aviao (com_status FALHA)).

#[local] Hint Resolve preserva_le_mundo preserva_le_aviao preserva_time
  P_checa_falha_m P_aguardar_prioridade P_reservar_recursos
  P_liberar_prioridade P_liberar_reserva P_sem_wait P_sem_post P_marca
  P_sleep P_marca_inicio P_falha : preserva.

Lemma preserva_libera_minha_prioridade : preserva P libera_minha_prioridade.
Proof. unfold libera_minha_prioridade. auto with preserva. Qed.

Lemma preserva_solta r : preserva P (solta r).
Proof. unfold solta. auto 10 with preserva. Qed.

#[local] Hint Resolve preserva_libera_minha_prioridade preserva_solta
  : preserva.

Lemma bloco_entrada : garante P entrada (sai_ou_segue P).
Proof.
  unfold entrada.
  apply bloco_bind; [auto with preserva|]. intros [|].
  { apply bloco_sai. discriminate. }
  apply bloco_bind; [auto with preserva|]. intros a.
  apply bloco_bind; [auto with preserva|]. intros _.
  apply bloco_bind; [auto with preserva|]. intros [|].
  - apply bloco_bind; [auto with preserva|]. intros _.
    apply bloco_sai. discriminate.
  - apply bloco_segue.
Qed.

Lemma bloco_reserva_negada r : garante P (reserva_negada r) (sai_ou_segue P).
Proof.
  unfold reserva_negada.
  destruct (r =? SEM_OK) eqn:E; simpl; [apply bloco_segue|].
  apply Z.eqb_neq in E.
  apply bloco_bind; [auto with preserva|]. intros _.
  apply bloco_bind; [auto with preserva|]. intros _.
  apply bloco_sai. apply devolve_nao_zero. exact E.
Qed.

Lemma bloco_toma r desfaz np ng nt :
  preserva P desfaz ->
  garante P (toma r desfaz np ng nt) (sai_ou_segue P).
Proof.
  intros Hd. unfold toma.
  apply bloco_bind; [auto with preserva|]. intros a.
  destruct (negb (has r a)); [|apply bloco_segue].
  apply bloco_bind; [auto with preserva|]. intros w.
  destruct (negb (w =? 0)).
  - apply bloco_bind; [exact Hd|]. intros _.
    apply bloco_bind; [auto with preserva|]. intros _.
    apply bloco_bind; [auto with preserva|]. intros _.
    apply bloco_sai. discriminate.
  - apply bloco_bind; [auto with preserva|]. intros _. apply bloco_segue.
Qed.

Lemma conclui_zero f : garante P (conclui f) (fun rc s' => rc <> 0 -> P s').
Proof.
  intros s _. eapply apos_mono; [apply (conclui_ate s); apply ate_aqui_inicio|].
  cbv beta. intros rc s' (-> & _). intros H. contradiction.
Qed.

Lemma garante_resto {A} (c : M Estado A) (k : A -> M Estado Z) :
  preserva P c ->
  (forall x, garante P (k x) (fun rc s' => rc <> 0 -> P s')) ->
  garante P (bind c k) (fun rc s' => rc <> 0 -> P s').
Proof. apply garante_bind. Qed.

Lemma fase_garante f : garante P (fase f) (fun rc s' => rc <> 0 -> P s').
Proof.
  destruct f; simpl; unfold pouso, desembarque, decolagem;
    (apply garante_segue; [apply bloco_entrada|]);
    (apply garante_resto; [auto with preserva|]; intros _);
    (apply garante_resto; [auto with preserva|]; intros a);
    (apply garante_resto; [auto with preserva|]; intros r);
    (apply garante_segue; [apply bloco_reserva_negada|]);
    repeat (apply garante_segue;
            [apply bloco_toma; auto 10 with preserva|]);
    repeat (apply garante_resto; [auto with preserva|]; intros _);
    apply conclui_zero.
Qed.

End InvariantesFinal.

(** ** So-final.c: the critical alert *)

Section Alerta.
Import SoFinal.

Lemma alerta_checa_falha_m : preserva em_alerta checa_falha_m.
Proof.
  intros s H. apply apos_intro. intros f s' E.
  destruct (checa_falha_m_gate _ _ _ E) as (_ & _ & _ & _ & _ & _ & Hal & _).
  exact (Hal H).
Qed.

Lemma alerta_bloqueia : preserva em_alerta bloqueia.
Proof.
  intros s H. apply apos_intro. intros i s' E. unfold bloqueia in E.
  destruct (ambiente s) as [|j resto]; [discriminate E|].
  injection E as _ <-.
  destruct (acorda_local j s resto) as (_ & _ & _ & _ & Hal).
  unfold em_alerta. rewrite Hal. exact H.
Qed.

Lemma alerta_poe_mundo f : preserva em_alerta (poe_mundo f).
Proof. intros s H. unfold poe_mundo. apply apos_altera. exact H. Qed.

Lemma alerta_emite e : preserva em_alerta (emite e).
Proof. intros s H. unfold emite. apply apos_altera. exact H. Qed.

Lemma alerta_poe_aviao f :
  (forall a, em_alerta_critico (f a) = em_alerta_critico a) ->
  preserva em_alerta (poe_aviao f).
Proof.
  intros Hf s H. unfold poe_aviao. apply apos_altera.
  unfold em_alerta. simpl. rewrite Hf. exact H.
Qed.

#[local] Hint Resolve alerta_checa_falha_m alerta_bloqueia alerta_poe_mundo
  alerta_emite alerta_poe_aviao preserva_le_mundo preserva_le_aviao
  preserva_time : preserva.

Lemma alerta_aguardar_laco n limite :
  preserva em_alerta (aguardar_laco n limite).
Proof.
  induction n as [|n IH]; simpl; [auto with preserva|].
  unfold deve_aguardar. auto 20 with preserva.
Qed.

Lemma alerta_reservar_laco n np ng nt start timeout_seg :
  preserva em_alerta (reservar_laco n np ng nt start timeout_seg).
Proof.
  induction n as [|n IH]; simpl; [auto with preserva|].
  unfold reservar_volta, concede, expira. auto 30 with preserva.
Qed.

#[local] Hint Resolve alerta_aguardar_laco alerta_reservar_laco : preserva.

Lemma alerta_aguardar_prioridade t :
  preserva em_alerta (aguardar_prioridade t).
Proof. unfold aguardar_prioridade, desistiu. auto 30 with preserva. Qed.

Lemma alerta_reservar_recursos np ng nt timeout_seg :
  preserva em_alerta (reservar_recursos np ng nt timeout_seg).
Proof. unfold reservar_recursos. auto 20 with preserva. Qed.

Lemma alerta_liberar_prioridade t : preserva em_alerta (liberar_prioridade t).
Proof. unfold liberar_prioridade. auto 20 with preserva. Qed.

Lemma alerta_liberar_reserva np ng nt :
  preserva em_alerta (liberar_reserva np ng nt).
Proof. unfold liberar_reserva. auto 20 with preserva. Qed.

Lemma alerta_sem_wait r : preserva em_alerta (sem_wait r).
Proof. unfold sem_wait. auto 20 with preserva. Qed.

Lemma alerta_sem_post r : preserva em_alerta (sem_post r).
Proof. unfold sem_post. auto 20 with preserva. Qed.

Lemma alerta_marca r b : preserva em_alerta (marca r b).
Proof. unfold marca. auto 20 with preserva. Qed.

Lemma alerta_sleep n : preserva em_alerta (sleep n).
Proof. unfold sleep. auto 20 with preserva. Qed.

Lemma alerta_marca_inicio f : preserva em_alerta (marca_inicio f).
Proof. unfold marca_inicio. auto 20 with preserva. Qed.

(** A phase that fails leaves the alert flag up when it found it up. *)
Lemma alerta_fase f :
  garante em_alerta (fase f) (fun rc s' => rc <> 0 -> em_alerta s').
Proof.
  apply fase_garante;
    auto using alerta_checa_falha_m, alerta_aguardar_prioridade,
      alerta_reservar_recursos, alerta_liberar_prioridade,
      alerta_liberar_reserva, alerta_sem_wait, alerta_sem_post,
      alerta_marca, alerta_sleep, alerta_marca_inicio, alerta_poe_aviao.
Qed.

End Alerta.

(** ** So-final.c: an airport with no runway *)

Section SemPista.
Import SoFinal.

Lemma porta_vista_in m cons :
  porta_vista m cons = porta m
  \/ exists i, In i cons /\ porta_vista m cons = porta (visto i).
Proof.
  unfold porta_vista. revert m.
  induction cons as [|i cons IH]; intros m; [left; reflexivity|].
  right. simpl map. rewrite last_cons.
  destruct (IH (visto i)) as [H|(j & Hj & H)].
  - exists i. split; [left; reflexivity|exact H].
  - exists j. split; [right; exact Hj|exact H].
Qed.

Lemma sem_pista_checa_falha_m : preserva sem_pista checa_falha_m.
Proof.
  intros s (H1 & H2 & H3). apply apos_intro. intros f s' E.
  destruct (checa_falha_m_gate _ _ _ E) as (Hg & _ & _ & Ha & _).
  pose proof (checa_falha_m_ate s [] _ s (ate_aqui_inicio s)) as Hp.
  apply (apos_elim _ _ _ _ _ Hp) in E. destruct E as (_ & Hpos & _).
  unfold sem_pista. rewrite Ha. unfold porta in Hg.
  injection Hg as -> _. split; [exact H1|]. split; [exact H2|].
  unfold posse in Hpos. injection Hpos as -> _ _. exact H3.
Qed.

Lemma sem_pista_bloqueia : preserva sem_pista bloqueia.
Proof.
  intros s (H1 & H2 & H3). apply apos_intro. intros i s' E.
  unfold bloqueia in E.
  destruct (ambiente s) as [|j resto]; [discriminate E|].
  injection E as _ <-.
  destruct (acorda_local j s resto) as (_ & Hpos & _ & Ha & _).
  destruct (acorda_gate j s resto) as (Hg & _).
  inversion H2 as [|? ? Hj Hr]; subst.
  unfold sem_pista. rewrite Hg, Ha.
  split; [exact Hj|]. split; [exact Hr|].
  unfold posse in Hpos. injection Hpos as -> _ _. exact H3.
Qed.

Lemma sem_pista_emite e : preserva sem_pista (emite e).
Proof. intros s H. unfold emite. apply apos_altera. exact H. Qed.

Lemma sem_pista_poe_mundo f :
  (forall m, reserva (f m) = reserva m) -> preserva sem_pista (poe_mundo f).
Proof.
  intros Hf s (H1 & H2 & H3). unfold poe_mundo. apply apos_altera.
  unfold sem_pista. simpl. rewrite Hf. auto.
Qed.

Lemma sem_pista_poe_aviao f :
  (forall a, has_pista (f a) = has_pista a) ->
  preserva sem_pista (poe_aviao f).
Proof.
  intros Hf s (H1 & H2 & H3). unfold poe_aviao. apply apos_altera.
  unfold sem_pista. simpl. rewrite Hf. auto.
Qed.

#[local] Hint Resolve sem_pista_checa_falha_m sem_pista_bloqueia
  sem_pista_emite sem_pista_poe_mundo sem_pista_poe_aviao
  preserva_le_mundo preserva_le_aviao preserva_time : preserva.

Lemma sem_pista_aguardar_laco n limite :
  preserva sem_pista (aguardar_laco n limite).
Proof.
  induction n as [|n IH]; simpl; [auto with preserva|].
  unfold deve_aguardar. auto 20 with preserva.
Qed.

#[local] Hint Resolve sem_pista_aguardar_laco : preserva.

Lemma sem_pista_aguardar_prioridade t :
  preserva sem_pista (aguardar_prioridade t).
Proof. unfold aguardar_prioridade, desistiu. auto 30 with preserva. Qed.

Lemma sem_pista_liberar_prioridade t :
  preserva sem_pista (liberar_prioridade t).
Proof. unfold liberar_prioridade. auto 20 with preserva. Qed.

Lemma sem_pista_marca_inicio f : preserva sem_pista (marca_inicio f).
Proof. unfold marca_inicio. auto 20 with preserva. Qed.

(** With no runway at the gate a reservation that asks for one is
    never granted. *)
Lemma sem_pista_reservar ng nt timeout_seg :
  garante sem_pista (reservar_recursos 1 ng nt timeout_seg)
          (fun rc s' => rc <> SEM_OK).
Proof.
  intros s (H1 & H2 & H3). apply apos_intro. intros rc s' E.
  destruct (reservar_recursos_gate _ _ _ _ _ _ _ E) as (cons & Hc & Hd & _).
  intros Hrc. destruct (Hd Hrc) as (Hle & _).
  assert (Hp : pistas_disp (fst (porta_vista (mundo s) cons)) <= 0).
  { destruct (porta_vista_in (mundo s) cons) as [->|(i & Hi & ->)].
    - exact H1.
    - rewrite Hc in H2. apply Forall_app in H2. destruct H2 as [H2 _].
      rewrite Forall_forall in H2. exact (H2 i Hi). }
  lia.
Qed.

(** So a landing never completes there. *)
Lemma sem_pista_pouso : garante sem_pista pouso (fun rc s' => rc <> 0).
Proof.
  intros s H. unfold pouso, segue.
  apply apos_bind.
  eapply apos_mono;
    [apply (bloco_entrada sem_pista sem_pista_checa_falha_m
              sem_pista_aguardar_prioridade sem_pista_liberar_prioridade s H)|].
  cbv beta. intros [rc|] s1 [H1 Hrc]; [apply apos_ret; exact Hrc|].
  apply apos_bind.
  eapply apos_mono; [apply (sem_pista_marca_inicio POUSO s1 H1)|]. cbv beta.
  intros _ s2 H2. leitura.
  destruct H2 as (G1 & G2 & G3). rewrite G3. simpl falta.
  apply apos_bind.
  eapply apos_mono;
    [apply (sem_pista_reservar 0 (falta (has_torre (aviao s2)))
              TIMEOUT_OPERACAO s2); unfold sem_pista; auto|].
  cbv beta. intros r s3 Hr.
  apply apos_bind.
  eapply apos_mono;
    [apply (reserva_negada_ate s3 [] _ s3 r (ate_aqui_inicio s3))|].
  cbv beta. intros [rc|] s4.
  - intros (Hn & -> & _). apply apos_ret. apply devolve_nao_zero. exact Hn.
  - intros [Hok _]. contradiction.
Qed.

End SemPista.

Section Expira.
Import SoFinal.

Lemma verificar_starvation_curso m a :
  relogio m - ultimo_tempo_espera a < TEMPO_MAXIMO_ESPERA ->
  vivo a ->
  fst (verificar_starvation m a) = m
  /\ vivo (snd (verificar_starvation m a))
  /\ ultimo_tempo_espera (snd (verificar_starvation m a))
     = ultimo_tempo_espera a.
Proof.
  intros Hw Hv. unfold verificar_starvation.
  destruct (ja_marcado (status_final a)); [auto|].
  destruct (_ && negb _).
  { simpl. split; [reflexivity|]. split; [|reflexivity].
    unfold vivo. simpl. split; discriminate. }
  destruct (TEMPO_MAXIMO_ESPERA <=? _) eqn:E; [|auto].
  apply Z.leb_le in E. lia.
Qed.

Lemma monitor_deadlock_curso t a :
  vivo a ->
  vivo (fst (monitor_deadlock t a))
  /\ ultimo_tempo_espera (fst (monitor_deadlock t a))
     = ultimo_tempo_espera a.
Proof.
  intros Hv. unfold monitor_deadlock.
  destruct (id a =? 0); [auto|].
  destruct (status_final a) eqn:E; auto.
  destruct (_ || _); [|auto].
  simpl. split; [|reflexivity]. unfold vivo. simpl. split; discriminate.
Qed.

Lemma acorda_curso i s resto :
  vivo (aviao s) ->
  vivo (aviao (acorda i s resto))
  /\ ultimo_tempo_espera (aviao (acorda i s resto))
     = ultimo_tempo_espera (aviao s).
Proof.
  intros Hv. unfold acorda. destruct (monitor_passou i); [|auto].
  pose proof (monitor_deadlock_curso (relogio (visto i)) (aviao s) Hv) as H.
  destruct (monitor_deadlock _ _) as [a n]. exact H.
Qed.

Lemma retido_insuficiente u np ng nt m :
  retido u np m -> suficiente np ng nt (reserva m) = false.
Proof.
  intros (_ & _ & H). unfold suficiente.
  destruct (np <=? pistas_disp (reserva m)) eqn:E; [|reflexivity].
  apply Z.leb_le in E. lia.
Qed.

(** One turn of the loop for a worker that can only wait: it leaves
    with SEM_TIMEOUT when the time is up and goes to sleep otherwise. *)
Lemma reservar_volta_retido np ng nt start timeout_seg s :
  vivo (aviao s) ->
  retido (ultimo_tempo_espera (aviao s)) np (mundo s) ->
  exists s1,
    reservar_volta np ng nt start timeout_seg s
    = Some (if timeout_seg - (relogio (mundo s) - start) <=? 0
            then Retorna SEM_TIMEOUT else Reavalia, s1)
    /\ mundo s1 = mundo s /\ ambiente s1 = ambiente s
    /\ vivo (aviao s1)
    /\ ultimo_tempo_espera (aviao s1) = ultimo_tempo_espera (aviao s).
Proof.
  intros Hv Hr.
  pose proof (retido_insuficiente _ _ ng nt _ Hr) as Hsuf.
  destruct Hr as (Hsim & Hw & Hp).
  destruct (verificar_starvation_curso _ _ Hw Hv) as (V1 & V2 & V3).
  unfold reservar_volta, le_mundo. unfold bind at 1 2. unfold le, ret at 1.
  rewrite Hsim. cbn [negb]. unfold bind at 1.
  unfold checa_falha_m, checa_falha.
  destruct (verificar_starvation (mundo s) (aviao s)) as [m1 a1].
  simpl in V1, V2, V3. subst m1.
  assert (Hf : match status_final a1 with
               | FALHA | STARVATION => true
               | _ => false
               end = false).
  { destruct V2 as [X Y]. destruct (status_final a1); congruence. }
  rewrite Hf.
  assert (Hc : forall s2, mundo s2 = mundo s -> 
             concede np ng nt start timeout_seg s2
             = expira start timeout_seg s2).
  { intros s2 E. unfold concede, le_mundo, bind, le, ret.
    rewrite E, Hsuf. reflexivity. }
  assert (He : forall s2, mundo s2 = mundo s ->
             expira start timeout_seg s2
             = Some (if timeout_seg - (relogio (mundo s) - start) <=? 0
                     then Retorna SEM_TIMEOUT else Reavalia, s2)).
  { intros s2 E. unfold expira, time, bind, le, ret. rewrite E.
    destruct (_ <=? 0); reflexivity. }
  eexists. split.
  - unfold le_aviao, le_mundo, bind, le, ret. cbn [aviao mundo].
    destruct (em_alerta_critico a1);
      [rewrite Hc by reflexivity; apply He; reflexivity|].
    destruct (tipo a1);
      [|rewrite Hc by reflexivity; apply He; reflexivity].
    destruct (0 <? _);
      [|rewrite Hc by reflexivity]; apply He; reflexivity.
  - simpl. auto.
Qed.

Lemma reservar_laco_expira np ng nt start timeout_seg :
  forall amb s n,
    ambiente s = amb -> (length amb < n)%nat ->
    vivo (aviao s) ->
    retido (ultimo_tempo_espera (aviao s)) np (mundo s) ->
    Forall (fun i => retido (ultimo_tempo_espera (aviao s)) np (visto i))
           amb ->
    timeout_seg <= relogio (mundo s) - start
    \/ Exists (fun i => timeout_seg <= relogio (visto i) - start) amb ->
    exists s',
      reservar_laco n np ng nt start timeout_seg s
      = Some (SEM_TIMEOUT, s').
Proof.
  induction amb as [|i resto IH]; intros s n Ha Hn Hv Hr Hall Hfim;
    (destruct n as [|n]; [simpl in Hn; lia|]);
    destruct (reservar_volta_retido np ng nt start timeout_seg s Hv Hr)
      as (s1 & E & M1 & A1 & V1 & U1);
    cbn [reservar_laco]; unfold bind at 1; rewrite E;
    destruct (_ <=? 0) eqn:Et.
  - eexists; reflexivity.
  - apply Z.leb_gt in Et. destruct Hfim as [H|H]; [lia|inversion H].
  - eexists; reflexivity.
  - apply Z.leb_gt in Et.
    unfold bind at 1. unfold bloqueia. rewrite A1, Ha.
    destruct (acorda_curso i s1 resto V1) as [V2 U2].
    destruct (acorda_local i s1 resto) as (_ & _ & _ & A2 & _).
    destruct (acorda_gate i s1 resto) as (G1 & _ & G3 & G4).
    inversion Hall as [|? ? Hi Hresto]; subst.
    assert (Hr2 : retido (ultimo_tempo_espera (aviao (acorda i s1 resto)))
                         np (mundo (acorda i s1 resto))).
    { rewrite U2, U1. destruct Hi as (I1 & I2 & I3).
      unfold retido. rewrite G1, G3, G4. auto. }
    apply (IH (acorda i s1 resto) n A2);
      [simpl in Hn; lia|exact V2|exact Hr2| |].
    + rewrite U2, U1. exact Hresto.
    + rewrite G4. destruct Hfim as [H|H]; [lia|].
      inversion H; subst; [left; assumption|right; assumption].
Qed.

(** Liveness of the timeout: while the simulation runs and the aircraft
    is not given up, a reservation that the gate cannot serve returns
    SEM_TIMEOUT as soon as the worker wakes with the time up. *)
Lemma reservar_recursos_expira np ng nt timeout_seg s :
  vivo (aviao s) ->
  retido (ultimo_tempo_espera (aviao s)) np (mundo s) ->
  Forall (fun i => retido (ultimo_tempo_espera (aviao s)) np (visto i))
         (ambiente s) ->
  timeout_seg <= 0
  \/ Exists (fun i => timeout_seg <= relogio (visto i) - relogio (mundo s))
            (ambiente s) ->
  exists s',
    reservar_recursos np ng nt timeout_seg s = Some (SEM_TIMEOUT, s').
Proof.
  intros Hv Hr Hall Hfim.
  destruct (reservar_laco_expira np ng nt (relogio (mundo s)) timeout_seg
              (ambiente s) s (S (length (ambiente s))) eq_refl
              (Nat.lt_succ_diag_r _) Hv Hr Hall) as (s1 & E).
  { destruct Hfim as [H|H]; [left; lia|right; exact H]. }
  unfold reservar_recursos. unfold bind at 1. unfold le.
  unfold bind at 1. rewrite E.
  unfold emite, altera, bind, ret. eexists. reflexivity.
Qed.

End Expira.

(** ** So-final.c: why the reservation loop returns *)

Section Motivo.
Import SoFinal.

Lemma checa_falha_m_falhou s f s1 :
  checa_falha_m s = Some (f, s1) ->
  (f = true -> falho (aviao s1)) /\ (f = false -> ~ falho (aviao s1)).
Proof.
  unfold checa_falha_m, checa_falha.
  destruct (verificar_starvation (mundo s) (aviao s)) as [m a].
  intros E. injection E as <- <-. simpl. unfold falho.
  destruct (status_final a); split; intros H; try discriminate H;
    auto; intros [X|X]; discriminate X.
Qed.

Lemma expira_motivo start timeout_seg s v s1 :
  expira start timeout_seg s = Some (v, s1) ->
  s1 = s
  /\ (v = Reavalia
      \/ (v = Retorna SEM_TIMEOUT
          /\ timeout_seg <= relogio (mundo s) - start)).
Proof.
  unfold expira, time, bind, le, ret.
  destruct (_ <=? 0) eqn:E; intros H; injection H as <- <-;
    (split; [reflexivity|]); [right|left; reflexivity].
  apply Z.leb_le in E. split; [reflexivity|lia].
Qed.

Lemma concede_motivo np ng nt start timeout_seg s v s1 :
  concede np ng nt start timeout_seg s = Some (v, s1) ->
  simulacao_ativa (mundo s1) = simulacao_ativa (mundo s)
  /\ relogio (mundo s1) = relogio (mundo s)
  /\ aviao s1 = aviao s
  /\ (v = Reavalia \/ v = Retorna SEM_OK
      \/ (v = Retorna SEM_TIMEOUT
          /\ timeout_seg <= relogio (mundo s) - start)).
Proof.
  unfold concede, le_mundo. unfold bind at 1 2. unfold le, ret at 1.
  destruct (suficiente np ng nt (reserva (mundo s))).
  - simpl. intros E. injection E as <- <-. simpl. auto 6.
  - intros E. destruct (expira_motivo _ _ _ _ _ E) as [-> H].
    split; [reflexivity|]. split; [reflexivity|]. split; [reflexivity|].
    destruct H as [H|H]; auto.
Qed.

Lemma reservar_volta_motivo np ng nt start timeout_seg s v s1 :
  reservar_volta np ng nt start timeout_seg s = Some (v, s1) ->
  match v with
  | Retorna rc => motivo start timeout_seg rc s1
  | Reavalia => True
  end.
Proof.
  unfold reservar_volta, le_mundo. unfold bind at 1 2. unfold le, ret at 1.
  destruct (simulacao_ativa (mundo s)) eqn:Hsim; cbn [negb].
  2:{ intros E. unfold ret in E. injection E as <- <-.
      right. right. left. auto. }
  unfold bind at 1.
  destruct (checa_falha_m s) as [[f s2]|] eqn:Ec; [|discriminate].
  destruct (checa_falha_m_gate _ _ _ Ec) as (_ & Hs & Hr & _).
  destruct (checa_falha_m_falhou _ _ _ Ec) as [Hf Hnf].
  rewrite <- Hs in Hsim.
  destruct f.
  { intros E. unfold ret in E. injection E as <- <-.
    right. right. right. auto. }
  specialize (Hnf eq_refl).
  unfold le_aviao, bind at 1 2 3 4. unfold le, ret at 1 2. cbv beta.
  assert (Hconc : forall v s1,
             concede np ng nt start timeout_seg s2 = Some (v, s1) ->
             match v with
             | Retorna rc => motivo start timeout_seg rc s1
             | Reavalia => True
             end).
  { intros v' s' E.
    destruct (concede_motivo _ _ _ _ _ _ _ _ E) as (H1 & H2 & H3 & H4).
    destruct H4 as [->|[->|[-> Ht]]]; [exact I| |].
    - left. rewrite H1, H3. auto.
    - right. left. rewrite H1, H2, H3. auto. }
  assert (Hexp : forall v s1,
             expira start timeout_seg s2 = Some (v, s1) ->
             match v with
             | Retorna rc => motivo start timeout_seg rc s1
             | Reavalia => True
             end).
  { intros v' s' E.
    destruct (expira_motivo _ _ _ _ _ E) as [-> [->|[-> Ht]]]; [exact I|].
    right. left. auto. }
  destruct (em_alerta_critico (aviao s2)); [apply Hconc|].
  destruct (tipo (aviao s2)); [|apply Hconc].
  destruct (0 <? _); [apply Hexp|apply Hconc].
Qed.

Lemma reservar_laco_motivo np ng nt start timeout_seg :
  forall n s rc s',
    reservar_laco n np ng nt start timeout_seg s = Some (rc, s') ->
    motivo start timeout_seg rc s'.
Proof.
  induction n as [|n IH]; intros s rc s' E; simpl in E; [discriminate E|].
  unfold bind at 1 in E.
  destruct (reservar_volta np ng nt start timeout_seg s)
    as [[v s1]|] eqn:Ev; [|discriminate E].
  pose proof (reservar_volta_motivo _ _ _ _ _ _ _ _ Ev) as Hv.
  destruct v as [rc1|].
  - injection E as <- <-. exact Hv.
  - unfold bind at 1 in E.
    destruct (bloqueia s1) as [[i s2]|]; [|discriminate E].
    exact (IH _ _ _ E).
Qed.

End Motivo.

(** ** So-final.c: the shared counters as a phase leaves them *)

Section Contadores.
Import SoFinal.

Lemma esperando_com_esperando t v m :
  esperando t (com_esperando t v m) = v.
Proof. destruct t; reflexivity. Qed.

Lemma verificar_starvation_fila m a :
  mesma_fila (fst (verificar_starvation m a)) m.
Proof.
  unfold verificar_starvation, mesma_fila.
  destruct (ja_marcado (status_final a)); [auto|].
  destruct (_ && negb _); [simpl; auto|].
  destruct (TEMPO_MAXIMO_ESPERA <=? _); [|auto].
  destruct (tipo a); simpl; auto.
Qed.

Lemma acorda_fila i s resto :
  mesma_fila (mundo (acorda i s resto)) (visto i).
Proof.
  unfold acorda, mesma_fila. destruct (monitor_passou i); [|simpl; auto].
  destruct (monitor_deadlock _ _) as [a n]. simpl. auto.
Qed.

Lemma mesma_fila_trans m1 m2 m3 :
  mesma_fila m1 m2 -> mesma_fila m2 m3 -> mesma_fila m1 m3.
Proof.
  unfold mesma_fila. intros (A1 & A2 & A3) (B1 & B2 & B3).
  repeat split; congruence.
Qed.

Lemma checa_falha_m_mesma_fila s f s1 :
  checa_falha_m s = Some (f, s1) -> mesma_fila (mundo s1) (mundo s).
Proof.
  unfold checa_falha_m, checa_falha.
  pose proof (verificar_starvation_fila (mundo s) (aviao s)) as H.
  destruct (verificar_starvation _ _) as [m a]. simpl in H.
  intros E. injection E as <- <-. exact H.
Qed.

(** A turn of reservar_recursos that returns without granting leaves
    the gate and the queue as it found them; it returns SEM_TIMEOUT
    only with the timeout elapsed on its own clock. *)
Lemma reservar_volta_fila np ng nt start timeout_seg s rc s1 :
  reservar_volta np ng nt start timeout_seg s = Some (Retorna rc, s1) ->
  rc <> SEM_OK ->
  mesma_fila (mundo s1) (mundo s)
  /\ (rc = SEM_TIMEOUT -> timeout_seg <= relogio (mundo s) - start).
Proof.
  unfold reservar_volta, le_mundo. unfold bind at 1 2. unfold le, ret at 1.
  destruct (negb (simulacao_ativa (mundo s))).
  { intros E _. unfold ret in E. injection E as <- <-.
    split; [repeat split|discriminate]. }
  unfold bind at 1.
  destruct (checa_falha_m s) as [[f s2]|] eqn:Ec; [|discriminate].
  pose proof (checa_falha_m_mesma_fila _ _ _ Ec) as Hf.
  destruct (checa_falha_m_gate _ _ _ Ec) as (_ & _ & Hr & _).
  destruct f.
  { intros E _. unfold ret in E. injection E as <- <-.
    split; [exact Hf|discriminate]. }
  unfold le_aviao, bind at 1 2 3 4. unfold le, ret at 1 2. cbv beta.
  assert (Hexp : forall s',
             expira start timeout_seg s2 = Some (Retorna rc, s') ->
             mesma_fila (mundo s') (mundo s)
             /\ (rc = SEM_TIMEOUT ->
                 timeout_seg <= relogio (mundo s) - start)).
  { intros s' E. destruct (expira_motivo _ _ _ _ _ E) as [-> Hm].
    split; [exact Hf|]. intros _.
    destruct Hm as [Hm|[_ Hm]]; [discriminate Hm|]. rewrite <- Hr.
    exact Hm. }
  assert (Hconc : forall s',
             concede np ng nt start timeout_seg s2 = Some (Retorna rc, s') ->
             rc <> SEM_OK ->
             mesma_fila (mundo s') (mundo s)
             /\ (rc = SEM_TIMEOUT ->
                 timeout_seg <= relogio (mundo s) - start)).
  { intros s' E Hrc.
    destruct (concede_gate _ _ _ _ _ _ _ _ E) as (_ & _ & _ & _ & Hno).
    rewrite (Hno Hrc). split; [exact Hf|]. intros ->.
    destruct (concede_motivo _ _ _ _ _ _ _ _ E) as (_ & _ & _ & Hm).
    destruct Hm as [Hm|[Hm|[_ Hm]]]; try discriminate Hm.
    rewrite <- Hr. exact Hm. }
  destruct (em_alerta_critico (aviao s2)); [exact (Hconc s1)|].
  destruct (tipo (aviao s2)); [|exact (Hconc s1)].
  destruct (0 <? esperando_internacional (mundo s2));
    [intros E _; exact (Hexp s1 E)|exact (Hconc s1)].
Qed.

Lemma reservar_volta_relogio np ng nt start timeout_seg s v s1 :
  reservar_volta np ng nt start timeout_seg s = Some (v, s1) ->
  ambiente s1 = ambiente s.
Proof.
  intros E. exact (proj1 (reservar_volta_gate _ _ _ _ _ _ _ _ E)).
Qed.

Lemma ultimo_visto_cons m i cons :
  ultimo_visto m (i :: cons) = ultimo_visto (visto i) cons.
Proof. unfold ultimo_visto. simpl map. apply last_cons. Qed.

Lemma mesma_fila_ultimo m m2 cons :
  mesma_fila m m2 ->
  mesma_fila (ultimo_visto m cons) (ultimo_visto m2 cons).
Proof.
  intros H. destruct cons as [|i cons]; [exact H|].
  rewrite !ultimo_visto_cons. repeat split.
Qed.

Lemma reservar_laco_fila np ng nt start timeout_seg :
  forall n s rc s',
    reservar_laco n np ng nt start timeout_seg s = Some (rc, s') ->
    rc <> SEM_OK ->
    exists cons,
      ambiente s = cons ++ ambiente s'
      /\ mesma_fila (mundo s') (ultimo_visto (mundo s) cons)
      /\ (rc = SEM_TIMEOUT ->
          relogio (mundo s) - start < timeout_seg -> cons <> []).
Proof.
  induction n as [|n IH]; intros s rc s' E Hrc; simpl in E;
    [discriminate E|].
  unfold bind at 1 in E.
  destruct (reservar_volta np ng nt start timeout_seg s)
    as [[v s1]|] eqn:Ev; [|discriminate E].
  pose proof (reservar_volta_relogio _ _ _ _ _ _ _ _ Ev) as Ha.
  destruct v as [rc1|].
  - injection E as <- <-.
    destruct (reservar_volta_fila _ _ _ _ _ _ _ _ Ev Hrc) as [Hf Ht].
    exists []. split; [simpl; symmetry; exact Ha|].
    split; [exact Hf|]. intros Hto Hlt. specialize (Ht Hto). lia.
  - unfold bind at 1 in E. unfold bloqueia in E.
    destruct (ambiente s1) as [|i resto] eqn:Eamb; [discriminate E|].
    destruct (IH _ _ _ E Hrc) as (cons & Hc & Hf & _).
    destruct (acorda_local i s1 resto) as (_ & _ & _ & L4 & _).
    rewrite L4 in Hc. exists (i :: cons).
    split; [rewrite <- Ha, Hc; reflexivity|]. split; [|discriminate].
    rewrite ultimo_visto_cons.
    eapply mesma_fila_trans; [exact Hf|].
    apply mesma_fila_ultimo. apply acorda_fila.
Qed.

(** A reservation that times out has waited, and leaves the gate and
    the queue as its last wake-up showed them. *)
Lemma reservar_recursos_expirou np ng nt timeout_seg s s' :
  0 < timeout_seg ->
  reservar_recursos np ng nt timeout_seg s = Some (SEM_TIMEOUT, s') ->
  exists pre i,
    ambiente s = pre ++ i :: ambiente s'
    /\ mesma_fila (mundo s') (visto i).
Proof.
  intros Hpos. unfold reservar_recursos. unfold bind at 1. unfold le.
  unfold bind at 1.
  destruct (reservar_laco _ np ng nt _ timeout_seg s)
    as [[rc s1]|] eqn:El; [|discriminate].
  unfold emite, altera, bind, ret. intros E. injection E as -> <-.
  destruct (reservar_laco_fila _ _ _ _ _ _ _ _ _ El)
    as (cons & Hc & Hf & Hne); [discriminate|].
  destruct (exists_last (Hne eq_refl ltac:(lia))) as (pre & i & ->).
  exists pre, i. simpl. rewrite Hc, <- app_assoc.
  split; [reflexivity|].
  unfold ultimo_visto in Hf. rewrite map_app in Hf.
  cbn [map] in Hf. rewrite last_last in Hf. exact Hf.
Qed.

End Contadores.

Section Cauda.
Import SoFinal.

Lemma apos_e {A} (c : M Estado A) (Q1 Q2 : A -> Estado -> Prop) s :
  apos c Q1 s -> apos c Q2 s -> apos c (fun x s' => Q1 x s' /\ Q2 x s') s.
Proof. abre. destruct (c s) as [[x s']|]; auto. Qed.

Section QuadroCauda.
Variables (r0 : Reserva) (amb1 : list Interf).

Lemma assente_poe_aviao f : preserva (assente r0 amb1) (poe_aviao f).
Proof. intros s H. unfold poe_aviao. apply apos_altera. exact H. Qed.

Lemma assente_emite e : preserva (assente r0 amb1) (emite e).
Proof. intros s H. unfold emite. apply apos_altera. exact H. Qed.

(** A write to the shared variables that leaves the gate alone. *)
Lemma assente_poe_mundo f :
  (forall m, reserva (f m) = reserva m) ->
  preserva (assente r0 amb1) (poe_mundo f).
Proof.
  intros Hf s [H1 H2]. unfold poe_mundo. apply apos_altera.
  split; [exact H1|]. simpl. rewrite Hf. exact H2.
Qed.

End QuadroCauda.

#[local] Hint Resolve preserva_le_mundo preserva_le_aviao preserva_time
  assente_poe_aviao assente_emite : preserva.
#[local] Hint Extern 1 (preserva (assente _ _) (poe_mundo _)) =>
  apply assente_poe_mundo; intros ?;
  first [reflexivity
        |match goal with |- context [com_sem ?r] => destruct r end;
         reflexivity
        |match goal with |- context [com_esperando ?t] => destruct t end;
         reflexivity] : preserva.

Section Operacoes.
Variables (r0 : Reserva) (amb1 : list Interf).

Lemma assente_sem_post r : preserva (assente r0 amb1) (sem_post r).
Proof. unfold sem_post. auto 20 with preserva. Qed.

Lemma assente_marca r b : preserva (assente r0 amb1) (marca r b).
Proof. unfold marca. auto 20 with preserva. Qed.

Lemma assente_solta r : preserva (assente r0 amb1) (solta r).
Proof.
  pose proof assente_sem_post. pose proof assente_marca.
  unfold solta. auto 20 with preserva.
Qed.

Lemma assente_liberar_prioridade t :
  preserva (assente r0 amb1) (liberar_prioridade t).
Proof. unfold liberar_prioridade. auto 20 with preserva. Qed.

Lemma assente_conclui f : preserva (assente r0 amb1) (conclui f).
Proof.
  pose proof assente_liberar_prioridade.
  unfold conclui, libera_minha_prioridade. auto 30 with preserva.
Qed.

(** liberar_reserva adds its arguments to the gate. *)
Lemma assente_liberar_reserva np ng nt :
  garante (assente r0 amb1) (liberar_reserva np ng nt)
          (fun _ => assente (credita np ng nt r0) amb1).
Proof.
  intros s [H1 H2]. unfold liberar_reserva, le_mundo, poe_mundo, emite.
  abre. unfold bind, le, ret, altera. simpl.
  split; [exact H1|]. rewrite H2. reflexivity.
Qed.

End Operacoes.

(** A sleep ends at the next wake-up, with the gate as that wake-up
    shows it. *)
Lemma sleep_assente n s :
  apos (sleep n)
       (fun _ s' =>
          exists i, ambiente s = i :: ambiente s'
                    /\ assente (reserva (visto i)) (ambiente s') s') s.
Proof.
  unfold sleep, bloqueia, emite. abre. unfold bind, altera.
  destruct (ambiente s) as [|i resto] eqn:E; [exact I|].
  destruct (acorda_local i s resto) as (_ & _ & _ & L4 & _).
  destruct (acorda_gate i s resto) as (G1 & _).
  exists i. simpl. rewrite L4. repeat split. exact G1.
Qed.

End Cauda.

Section Curso.
Import SoFinal.
Variables (amb0 : list Interf) (h0 : list Evento).

Lemma pedidos_mais tr e :
  pedidos (tr ++ [e]) = pedidos tr ++ pedidos [e].
Proof. apply filter_app. Qed.

Section QuadroCurso.
Variable c : list Evento.

Lemma curso_poe_mundo f : preserva (curso amb0 h0 c) (poe_mundo f).
Proof. intros s H. unfold poe_mundo. apply apos_altera. exact H. Qed.

Lemma curso_poe_aviao f : preserva (curso amb0 h0 c) (poe_aviao f).
Proof. intros s H. unfold poe_aviao. apply apos_altera. exact H. Qed.

Lemma curso_emite e :
  pedidos [e] = [] -> preserva (curso amb0 h0 c) (emite e).
Proof.
  intros He s [H1 H2]. unfold emite. apply apos_altera.
  split; [exact H1|]. simpl. rewrite pedidos_mais, He, app_nil_r.
  exact H2.
Qed.

Lemma curso_bloqueia : preserva (curso amb0 h0 c) bloqueia.
Proof.
  intros s [[pre H1] H2]. abre. unfold bloqueia.
  destruct (ambiente s) as [|i resto] eqn:E; [exact I|].
  destruct (acorda_local i s resto) as (L1 & _ & _ & L4 & _).
  split; [|rewrite L1; exact H2].
  exists (pre ++ [i]). rewrite L4, <- app_assoc. exact H1.
Qed.

Lemma curso_checa_falha_m : preserva (curso amb0 h0 c) checa_falha_m.
Proof.
  intros s [[pre H1] H2]. apply apos_intro. intros f s1 E.
  destruct (checa_falha_m_gate _ _ _ E) as (_ & _ & _ & Ha & Hh & _).
  split; [exists pre; rewrite Ha; exact H1|rewrite Hh; exact H2].
Qed.

End QuadroCurso.

#[local] Hint Resolve preserva_le_mundo preserva_le_aviao preserva_time
  curso_poe_mundo curso_poe_aviao curso_bloqueia curso_checa_falha_m
  : preserva.
#[local] Hint Extern 1 (preserva (curso _ _ _) (emite _)) =>
  apply curso_emite; reflexivity : preserva.

Section OperacoesCurso.
Variable c : list Evento.

Lemma curso_deve_aguardar limite :
  preserva (curso amb0 h0 c) (deve_aguardar limite).
Proof. unfold deve_aguardar. auto 20 with preserva. Qed.

Lemma curso_aguardar_laco limite :
  forall n, preserva (curso amb0 h0 c) (aguardar_laco n limite).
Proof.
  pose proof (curso_deve_aguardar limite).
  induction n as [|n IH]; simpl; auto 20 with preserva.
Qed.

Lemma curso_desistiu : preserva (curso amb0 h0 c) desistiu.
Proof. unfold desistiu. auto 20 with preserva. Qed.

Lemma curso_aguardar_prioridade t :
  preserva (curso amb0 h0 c) (aguardar_prioridade t).
Proof.
  pose proof curso_aguardar_laco. pose proof curso_desistiu.
  unfold aguardar_prioridade. auto 30 with preserva.
Qed.

Lemma curso_liberar_prioridade t :
  preserva (curso amb0 h0 c) (liberar_prioridade t).
Proof. unfold liberar_prioridade. auto 20 with preserva. Qed.

Lemma curso_liberar_reserva np ng nt :
  preserva (curso amb0 h0 c) (liberar_reserva np ng nt).
Proof. unfold liberar_reserva. auto 20 with preserva. Qed.

Lemma curso_sem_wait r : preserva (curso amb0 h0 c) (sem_wait r).
Proof. unfold sem_wait. auto 20 with preserva. Qed.

Lemma curso_sem_post r : preserva (curso amb0 h0 c) (sem_post r).
Proof. unfold sem_post. auto 20 with preserva. Qed.

Lemma curso_marca r b : preserva (curso amb0 h0 c) (marca r b).
Proof. unfold marca. auto 20 with preserva. Qed.

Lemma curso_sleep n : preserva (curso amb0 h0 c) (sleep n).
Proof. unfold sleep. auto 20 with preserva. Qed.

Lemma curso_marca_inicio f : preserva (curso amb0 h0 c) (marca_inicio f).
Proof. unfold marca_inicio. auto 20 with preserva. Qed.

Lemma curso_reservar_volta np ng nt start timeout_seg :
  preserva (curso amb0 h0 c) (reservar_volta np ng nt start timeout_seg).
Proof. unfold reservar_volta, concede, expira. auto 30 with preserva. Qed.

Lemma curso_reservar_laco np ng nt start timeout_seg :
  forall n,
    preserva (curso amb0 h0 c)
             (reservar_laco n np ng nt start timeout_seg).
Proof.
  pose proof (curso_reservar_volta np ng nt start timeout_seg).
  induction n as [|n IH]; simpl; auto 20 with preserva.
Qed.

End OperacoesCurso.

Lemma curso_reservar_recursos np ng nt timeout_seg :
  garante (curso amb0 h0 [])
          (reservar_recursos np ng nt timeout_seg)
          (fun r s => curso amb0 h0 [EvReservar np ng nt r] s).
Proof.
  unfold reservar_recursos.
  apply garante_bind; [auto with preserva|intros s0].
  apply garante_bind; [apply curso_reservar_laco|intros rc].
  intros s [H1 H2]. apply apos_bind. unfold emite. apply apos_altera.
  apply apos_ret. split; [exact H1|]. simpl.
  rewrite pedidos_mais, H2, app_nil_r. reflexivity.
Qed.

Lemma curso_conclui c f : preserva (curso amb0 h0 c) (conclui f).
Proof.
  pose proof (curso_liberar_prioridade c).
  unfold conclui, libera_minha_prioridade. auto 30 with preserva.
Qed.

Lemma curso_solta c r : preserva (curso amb0 h0 c) (solta r).
Proof.
  apply preserva_solta; [apply curso_sem_post|apply curso_marca].
Qed.

Lemma garante_muda {A B} (P : Estado -> Prop) (R : A -> Estado -> Prop)
      (Q : B -> Estado -> Prop) (c : M Estado A) (k : A -> M Estado B) :
  garante P c R -> (forall x, garante (R x) (k x) Q) ->
  garante P (bind c k) Q.
Proof.
  intros Hc Hk s H. apply apos_bind.
  eapply apos_mono; [exact (Hc s H)|]. intros x s1 H1. exact (Hk x s1 H1).
Qed.

(** A return with a failure code, the reservation not made or
    granted. *)
Lemma percurso_sai c f rc s :
  c = [] \/ (exists np ng nt, c = [EvReservar np ng nt SEM_OK]) ->
  rc <> 0 -> curso amb0 h0 c s -> percurso amb0 h0 f rc s.
Proof.
  intros Hc Hrc [_ H]. exists c. split; [exact H|].
  destruct Hc as [->|(np & ng & nt & ->)]; [left; reflexivity|].
  right. exists np, ng, nt, SEM_OK. split; [reflexivity|].
  split; [discriminate|intros; contradiction].
Qed.

Lemma percurso_segue c f (b : M Estado (option Z)) (k : M Estado Z) :
  c = [] \/ (exists np ng nt, c = [EvReservar np ng nt SEM_OK]) ->
  garante (curso amb0 h0 c) b (sai_ou_segue (curso amb0 h0 c)) ->
  garante (curso amb0 h0 c) k (percurso amb0 h0 f) ->
  garante (curso amb0 h0 c) (segue b k) (percurso amb0 h0 f).
Proof.
  intros Hc Hb Hk s H. unfold segue. apply apos_bind.
  eapply apos_mono; [exact (Hb s H)|]. cbv beta.
  intros [rc|] s' [H' Hrc].
  - apply apos_ret. exact (percurso_sai c f rc s' Hc Hrc H').
  - exact (Hk s' H').
Qed.

Lemma reservado_reservar_recursos np ng nt :
  garante (curso amb0 h0 [])
          (reservar_recursos np ng nt TIMEOUT_OPERACAO)
          (reservado_em amb0 h0 np ng nt).
Proof.
  intros s H. apply apos_intro. intros r s2 E.
  split;
    [exact (apos_elim _ _ _ _ _
              (curso_reservar_recursos np ng nt _ s H) E)|].
  intros ->.
  destruct (reservar_recursos_expirou np ng nt TIMEOUT_OPERACAO s s2
              eq_refl E) as (pre & i & Ha & Hf).
  destruct H as [[pre0 Hp] _]. exists (pre0 ++ pre), i.
  split; [rewrite Hp, Ha, app_assoc; reflexivity|exact Hf].
Qed.

(** What follows a reservation that timed out: the status, then
    liberar_prioridade, with no wait. *)
Lemma reserva_negada_expirada s :
  exists s',
    reserva_negada SEM_TIMEOUT s = Some (Some (-1), s')
    /\ ambiente s' = ambiente s
    /\ reserva (mundo s') = reserva (mundo s)
    /\ tipo (aviao s') = tipo (aviao s)
    /\ esperando (tipo (aviao s)) (mundo s')
       = baixa (esperando (tipo (aviao s)) (mundo s)).
Proof.
  unfold reserva_negada. simpl.
  unfold libera_minha_prioridade, liberar_prioridade, le_aviao, le_mundo,
    poe_aviao, poe_mundo, emite, altera, bind, le, ret. simpl.
  unfold baixa.
  destruct (0 <? esperando (tipo (aviao s)) (mundo s)) eqn:E;
    eexists; (split; [reflexivity|]); simpl;
    repeat split; try reflexivity.
  apply esperando_com_esperando.
Qed.

Lemma reserva_negada_sai r s x s' :
  r <> SEM_OK ->
  reserva_negada r s = Some (x, s') -> x = Some (devolve r).
Proof.
  intros Hr. apply Z.eqb_neq in Hr.
  unfold reserva_negada, libera_minha_prioridade, liberar_prioridade,
    le_aviao, le_mundo, poe_aviao, poe_mundo, emite, altera, bind, le, ret.
  rewrite Hr. simpl.
  destruct (r =? SEM_TIMEOUT); simpl;
    match goal with
    | |- context [if ?b then _ else _] => destruct b
    end; intros E; injection E as <- _; reflexivity.
Qed.

Lemma percurso_reserva_negada f np ng nt r (k : M Estado Z) :
  garante (curso amb0 h0 [EvReservar np ng nt SEM_OK]) k
          (percurso amb0 h0 f) ->
  garante (reservado_em amb0 h0 np ng nt r) (segue (reserva_negada r) k)
          (percurso amb0 h0 f).
Proof.
  intros Hk s [Hc Ht]. unfold segue. apply apos_bind.
  destruct (Z.eq_dec r SEM_OK) as [->|Hr].
  { unfold reserva_negada. simpl. apply apos_ret. exact (Hk s Hc). }
  pose proof (bloco_reserva_negada _ (curso_liberar_prioridade _)
                (curso_poe_aviao _ _) r s Hc) as Hb.
  apply apos_intro. intros x s' E.
  destruct (apos_elim _ _ _ _ _ Hb E) as [Hc' _].
  rewrite (reserva_negada_sai r s x s' Hr E).
  apply apos_ret. exists [EvReservar np ng nt r].
  split; [exact (proj2 Hc')|].
  right. exists np, ng, nt, r. split; [reflexivity|].
  split; [|intros Hz; exfalso; exact (devolve_nao_zero r Hr Hz)].
  intros ->. destruct (Ht eq_refl) as (pre & i & Ha & F1 & F2 & F3).
  destruct (reserva_negada_expirada s) as (s1 & E1 & A1 & A2 & A3 & A4).
  rewrite E1 in E. injection E as _ <-.
  exists pre, i. rewrite A1, A2, A3, A4.
  split; [exact Ha|]. split; [exact F1|].
  f_equal. destruct (tipo (aviao s)); simpl; assumption.
Qed.

(** The end of a completed phase: the steps after the last wake-up. *)
Lemma percurso_cauda f np ng nt (k : M Estado Z) :
  preserva (curso amb0 h0 [EvReservar np ng nt SEM_OK]) k ->
  (forall s,
      apos k (fun _ s' =>
                exists pre i,
                  ambiente s = pre ++ i :: ambiente s'
                  /\ reserva (mundo s')
                     = credita (pistas_disp (ultima_parcela f np ng nt))
                               (portoes_disp (ultima_parcela f np ng nt))
                               (torres_disp (ultima_parcela f np ng nt))
                               (reserva (visto i))) s) ->
  garante (curso amb0 h0 [EvReservar np ng nt SEM_OK]) k
          (percurso amb0 h0 f).
Proof.
  intros Hp Hk s H.
  eapply apos_mono; [exact (apos_e _ _ _ _ (Hp s H) (Hk s))|].
  cbv beta. intros rc s' [[_ Hh] (pre & i & Ha & Hr)].
  exists [EvReservar np ng nt SEM_OK]. split; [exact Hh|].
  right. exists np, ng, nt, SEM_OK. split; [reflexivity|].
  split; [discriminate|]. intros _.
  destruct H as [[pre0 Hp0] _]. exists (pre0 ++ pre), i.
  split; [rewrite Hp0, Ha, app_assoc; reflexivity|exact Hr].
Qed.

#[local] Hint Resolve curso_conclui curso_solta curso_sleep
  curso_liberar_reserva curso_marca_inicio : preserva.

Ltac passo_assente L :=
  apply apos_bind; eapply apos_mono; [exact L|]; cbv beta.

Lemma cauda_pouso np ng nt s :
  apos (sleep 1;;; solta PISTA;;; solta TORRE;;;
        liberar_reserva np ng nt;;; conclui POUSO)
       (fun _ s' =>
          exists pre i,
            ambiente s = pre ++ i :: ambiente s'
            /\ reserva (mundo s') = credita np ng nt (reserva (visto i))) s.
Proof.
  passo_assente (sleep_assente 1 s). intros _ s1 (i & Ha & H1).
  passo_assente (assente_solta _ _ PISTA s1 H1). intros _ s2 H2.
  passo_assente (assente_solta _ _ TORRE s2 H2). intros _ s3 H3.
  passo_assente (assente_liberar_reserva _ _ np ng nt s3 H3).
  intros _ s4 H4.
  eapply apos_mono; [exact (assente_conclui _ _ POUSO s4 H4)|]. cbv beta.
  intros _ s5 [H5 H6]. exists [], i. rewrite H5. auto.
Qed.

Lemma cauda_desembarque ng nt s :
  apos (sleep 1;;; solta TORRE;;; liberar_reserva 0 0 nt;;;
        sleep 1;;; solta PORTAO;;; liberar_reserva 0 ng 0;;;
        conclui DESEMBARQUE)
       (fun _ s' =>
          exists pre i,
            ambiente s = pre ++ i :: ambiente s'
            /\ reserva (mundo s') = credita 0 ng 0 (reserva (visto i))) s.
Proof.
  passo_assente (sleep_assente 1 s). intros _ s1 (i1 & Ha & H1).
  passo_assente (assente_solta _ _ TORRE s1 H1). intros _ s2 H2.
  passo_assente (assente_liberar_reserva _ _ 0 0 nt s2 H2).
  intros _ s3 [H3 _].
  passo_assente (sleep_assente 1 s3). intros _ s4 (i2 & Hb & H4).
  passo_assente (assente_solta _ _ PORTAO s4 H4). intros _ s5 H5.
  passo_assente (assente_liberar_reserva _ _ 0 ng 0 s5 H5).
  intros _ s6 H6.
  eapply apos_mono; [exact (assente_conclui _ _ DESEMBARQUE s6 H6)|].
  cbv beta. intros _ s7 [H7 H8]. exists [i1], i2.
  rewrite H7, Ha, <- H3, Hb. auto.
Qed.

Lemma cauda_decolagem np ng nt s :
  apos (sleep 1;;; solta TORRE;;; solta PORTAO;;; solta PISTA;;;
        liberar_reserva np ng nt;;; conclui DECOLAGEM)
       (fun _ s' =>
          exists pre i,
            ambiente s = pre ++ i :: ambiente s'
            /\ reserva (mundo s') = credita np ng nt (reserva (visto i))) s.
Proof.
  passo_assente (sleep_assente 1 s). intros _ s1 (i & Ha & H1).
  passo_assente (assente_solta _ _ TORRE s1 H1). intros _ s2 H2.
  passo_assente (assente_solta _ _ PORTAO s2 H2). intros _ s3 H3.
  passo_assente (assente_solta _ _ PISTA s3 H3). intros _ s4 H4.
  passo_assente (assente_liberar_reserva _ _ np ng nt s4 H4).
  intros _ s5 H5.
  eapply apos_mono; [exact (assente_conclui _ _ DECOLAGEM s5 H5)|].
  cbv beta. intros _ s6 [H6 H7]. exists [], i. rewrite H6. auto.
Qed.

(** Every run of a phase, by the calls of reservar_recursos it
    logged. *)
Lemma fase_percurso f :
  garante (curso amb0 h0 []) (fase f) (percurso amb0 h0 f).
Proof.
  assert (Hent : garante (curso amb0 h0 []) entrada
                         (sai_ou_segue (curso amb0 h0 []))).
  { apply bloco_entrada;
      [apply curso_checa_falha_m|apply curso_aguardar_prioridade
      |apply curso_liberar_prioridade]. }
  assert (Htoma : forall np ng nt r desfaz,
             preserva (curso amb0 h0 [EvReservar np ng nt SEM_OK]) desfaz ->
             garante (curso amb0 h0 [EvReservar np ng nt SEM_OK])
                     (toma r desfaz np ng nt)
                     (sai_ou_segue
                        (curso amb0 h0 [EvReservar np ng nt SEM_OK]))).
  { intros np ng nt r desfaz Hd.
    apply bloco_toma;
      [apply curso_liberar_prioridade|apply curso_liberar_reserva
      |apply curso_sem_wait|apply curso_marca|exact Hd]. }
  destruct f; cbn [fase]; unfold pouso, desembarque, decolagem;
    (apply percurso_segue; [left; reflexivity|exact Hent|]);
    (apply garante_bind; [apply curso_marca_inicio|intros _]);
    (apply garante_bind; [apply preserva_le_aviao|intros a]);
    cbv zeta;
    (eapply garante_muda; [apply reservado_reservar_recursos|intros r]);
    apply percurso_reserva_negada;
    repeat (apply percurso_segue;
            [right; eauto|apply Htoma; auto 20 with preserva|]).
  - apply percurso_cauda; [auto 20 with preserva|].
    intros s. apply cauda_pouso.
  - apply percurso_cauda; [auto 20 with preserva|].
    intros s. apply cauda_desembarque.
  - apply percurso_cauda; [auto 20 with preserva|].
    intros s. apply cauda_decolagem.
Qed.

End Curso.


(** What a phase leaves in the shared counters, by the calls of
    reservar_recursos of its log. *)
Lemma fase_deixa f s rc s' tr :
  SoFinal.fase f s = Some (rc, s') ->
  SoFinal.historico s' = SoFinal.historico s ++ tr ->
  SoFinal.pedidos tr = []
  \/ exists np ng nt r,
      SoFinal.pedidos tr = [SoFinal.EvReservar np ng nt r]
      /\ (r = SoFinal.SEM_TIMEOUT -> SoFinal.expirou (SoFinal.ambiente s) s')
      /\ (rc = 0 -> SoFinal.devolveu (SoFinal.ambiente s) f np ng nt s').
Proof.
  intros E Hh.
  assert (H0 : SoFinal.curso (SoFinal.ambiente s) (SoFinal.historico s)
                             [] s).
  { split; [exists []; reflexivity|rewrite app_nil_r; reflexivity]. }
  destruct (apos_elim _ _ _ _ _ (fase_percurso _ _ f s H0) E)
    as (c & Hc & H).
  rewrite Hh in Hc. unfold SoFinal.pedidos in Hc at 1.
  rewrite filter_app in Hc. apply app_inv_head in Hc.
  fold (SoFinal.pedidos tr) in Hc. rewrite Hc. exact H.
Qed.




(** liberar_prioridade lowers the counter of the class, if it is
    positive, and nothing else. *)
Lemma liberar_prioridade_baixa t s0 :
  exists s1,
    SoFinal.liberar_prioridade t s0 = Some (tt, s1)
    /\ SoFinal.esperando t (SoFinal.mundo s1)
       = SoFinal.baixa (SoFinal.esperando t (SoFinal.mundo s0))
    /\ SoFinal.reserva (SoFinal.mundo s1)
       = SoFinal.reserva (SoFinal.mundo s0)
    /\ SoFinal.historico s1
       = SoFinal.historico s0 ++ [SoFinal.EvLiberaPrioridade t]
    /\ SoFinal.ambiente s1 = SoFinal.ambiente s0
    /\ SoFinal.aviao s1 = SoFinal.aviao s0.
Proof.
  unfold SoFinal.liberar_prioridade, SoFinal.le_mundo, SoFinal.poe_mundo,
    SoFinal.emite, altera, bind, le, ret, SoFinal.baixa. simpl.
  destruct (0 <? SoFinal.esperando t (SoFinal.mundo s0));
    eexists; (split; [reflexivity|]); simpl;
    repeat split; try reflexivity; destruct t; reflexivity.
Qed.

(** C9 (So-final.c, pouso / desembarque / decolagem and
    reservar_recursos).  A phase whose reservation returned SEM_TIMEOUT
    sets the status to FALHA, releases the priority as its last action
    and returns -1, with the flags and the gate as it found them.  The
    shared counters are read as well as the log.  The worker sees the
    shared variables anew at each wake-up; the phase ends with the gate
    that the last wake-up of the wait of the reservation showed, and
    with the queue counter of the class of the flight that this wake-up
    showed lowered by one if it was positive: the aircraft is taken out
    of the queue.  In an airport with no runway no landing ever
    completes.  The reservation does return SEM_TIMEOUT there provided
    the simulation is still running and the aircraft has not been given
    up at each wake-up, and some wake-up comes with the timeout elapsed.
    And a call of liberar_prioridade, from any state, lowers the queue
    counter of its class by one if it is positive, logs itself, and
    leaves the gate, the aircraft and the wake-ups to come as they
    are. *)
Theorem expiracao_da_reserva :
  (forall f s rc s' tr np ng nt,
      SoFinal.fase f s = Some (rc, s') ->
      SoFinal.historico s' = SoFinal.historico s ++ tr ->
      In (SoFinal.EvReservar np ng nt SoFinal.SEM_TIMEOUT) tr ->
      SoFinal.status_final (SoFinal.aviao s') = SoFinal.FALHA
      /\ last tr (SoFinal.EvSleep 0)
         = SoFinal.EvLiberaPrioridade (SoFinal.tipo (SoFinal.aviao s))
      /\ rc = -1
      /\ SoFinal.posse (SoFinal.aviao s') = SoFinal.posse (SoFinal.aviao s)
      /\ SoFinal.debitado tr = SoFinal.zero
      /\ (exists pre i,
             SoFinal.ambiente s = pre ++ i :: SoFinal.ambiente s'
             /\ SoFinal.reserva (SoFinal.mundo s')
                = SoFinal.reserva (SoFinal.visto i)
             /\ SoFinal.esperando (SoFinal.tipo (SoFinal.aviao s))
                                  (SoFinal.mundo s')
                = SoFinal.baixa
                    (SoFinal.esperando (SoFinal.tipo (SoFinal.aviao s))
                                       (SoFinal.visto i))))
  /\ (forall s rc s',
         SoFinal.sem_pista s ->
         SoFinal.pouso s = Some (rc, s') -> rc <> 0)
  /\ (forall np ng nt timeout_seg s,
         SoFinal.vivo (SoFinal.aviao s) ->
         SoFinal.retido (SoFinal.ultimo_tempo_espera (SoFinal.aviao s)) np
                        (SoFinal.mundo s) ->
         Forall (fun i =>
                   SoFinal.retido
                     (SoFinal.ultimo_tempo_espera (SoFinal.aviao s)) np
                     (SoFinal.visto i))
                (SoFinal.ambiente s) ->
         timeout_seg <= 0
         \/ Exists (fun i =>
                      timeout_seg
                      <= SoFinal.relogio (SoFinal.visto i)
                         - SoFinal.relogio (SoFinal.mundo s))
                   (SoFinal.ambiente s) ->
         exists s',
           SoFinal.reservar_recursos np ng nt timeout_seg s
           = Some (SoFinal.SEM_TIMEOUT, s'))
  /\ (forall t s0,
         exists s1,
           SoFinal.liberar_prioridade t s0 = Some (tt, s1)
           /\ SoFinal.esperando t (SoFinal.mundo s1)
              = SoFinal.baixa (SoFinal.esperando t (SoFinal.mundo s0))
           /\ SoFinal.reserva (SoFinal.mundo s1)
              = SoFinal.reserva (SoFinal.mundo s0)
           /\ SoFinal.historico s1
              = SoFinal.historico s0 ++ [SoFinal.EvLiberaPrioridade t]
           /\ SoFinal.ambiente s1 = SoFinal.ambiente s0
           /\ SoFinal.aviao s1 = SoFinal.aviao s0).
Proof.
  split; [|split; [|split;
    [exact reservar_recursos_expira|exact liberar_prioridade_baixa]]].
  - intros f s rc s' tr np ng nt E Hh Hin.
    destruct (reserva_expirada f s rc s' tr np ng nt E Hh Hin)
      as (H1 & H2 & H3 & H4 & H5).
    repeat (split; [assumption|]).
    assert (Hp : In (SoFinal.EvReservar np ng nt SoFinal.SEM_TIMEOUT)
                    (SoFinal.pedidos tr))
      by (apply filter_In; split; [exact Hin|reflexivity]).
    destruct (fase_deixa f s rc s' tr E Hh)
      as [Hf|(np' & ng' & nt' & r & Hf & Hexp & _)];
      [rewrite Hf in Hp; contradiction|].
    rewrite Hf in Hp. destruct Hp as [Hp|[]].
    injection Hp as _ _ _ ->.
    destruct (Hexp eq_refl) as (pre & i & Ha & Hg & Hq).
    destruct (segue_caminho_rastro f s rc s' E)
      as (_ & _ & _ & _ & Ht & _).
    rewrite Ht in Hq. exists pre, i. auto.
  - intros s rc s' H E.
    exact (apos_elim _ _ _ _ _ (sem_pista_pouso s H) E).
Qed.

Lemma expiracao_da_reserva_testemunha :
  (exists s',
      SoFinal.fase SoFinal.POUSO SoFinal.sem_pista_espera = Some (-1, s')
      /\ SoFinal.status_final (SoFinal.aviao s') = SoFinal.FALHA
      /\ SoFinal.esperando_internacional (SoFinal.mundo s') = 0)
  /\ (exists rc s',
         SoFinal.pouso SoFinal.sem_pista_espera = Some (rc, s') /\ rc <> 0)
  /\ (exists s',
         SoFinal.reservar_recursos 1 0 1 10 SoFinal.sem_pista_espera
         = Some (SoFinal.SEM_TIMEOUT, s')).
Proof.
  destruct expiracao_da_reserva as (T1 & T2 & T3 & _).
  split; [|split].
  - destruct (SoFinal.fase SoFinal.POUSO SoFinal.sem_pista_espera)
      as [[rc s']|] eqn:E; [|vm_compute in E; discriminate E].
    pose proof E as E'. vm_compute in E'. injection E' as Hrc Hs.
    assert (Hin : In (SoFinal.EvReservar 1 0 1 SoFinal.SEM_TIMEOUT)
                     (SoFinal.historico s')).
    { rewrite <- Hs. vm_compute. auto. }
    destruct (T1 SoFinal.POUSO SoFinal.sem_pista_espera rc s'
                (SoFinal.historico s') 1 0 1 E eq_refl Hin)
      as (Hst & _ & Hr & _).
    exists s'. rewrite <- Hr.
    split; [reflexivity|]. split; [exact Hst|].
    rewrite <- Hs. reflexivity.
  - destruct (SoFinal.pouso SoFinal.sem_pista_espera)
      as [[rc s']|] eqn:E; [|vm_compute in E; discriminate E].
    exists rc, s'. split; [reflexivity|].
    apply (T2 SoFinal.sem_pista_espera rc s'); [|exact E].
    unfold SoFinal.sem_pista. split; [vm_compute; discriminate|].
    split; [|reflexivity].
    repeat constructor; vm_compute; discriminate.
  - apply (T3 1 0 1 10 SoFinal.sem_pista_espera).
    + split; discriminate.
    + repeat split; vm_compute; reflexivity.
    + repeat constructor; vm_compute; reflexivity.
    + right. apply Exists_cons_tl, Exists_cons_hd. vm_compute. discriminate.
Defined.

(** With no runway, a flight that is waiting for one when the
    simulation is stopped gets SEM_SIM_ENCERRADA, not SEM_TIMEOUT, and
    ends with the status it was created with, SUCESSO. *)
Lemma expiracao_contraexemplo :
  exists s',
    SoFinal.aviao_thread SoFinal.sem_pista_encerra = Some (tt, s')
    /\ SoFinal.pistas (SoFinal.mundo SoFinal.sem_pista_encerra) = 0
    /\ SoFinal.codigos (SoFinal.historico s') = [SoFinal.SEM_SIM_ENCERRADA]
    /\ SoFinal.status_final (SoFinal.aviao s') = SoFinal.SUCESSO.
Proof.
  eexists. split; [vm_compute; reflexivity|].
  split; [reflexivity|]. split; reflexivity.
Qed.

(** ** So-final.c: the critical alert within and across phases *)

Section Prioridade.
Import SoFinal.

Lemma checa_falha_m_total s : exists f s1, checa_falha_m s = Some (f, s1).
Proof.
  unfold checa_falha_m.
  destruct (checa_falha (mundo s) (aviao s)) as [f [m a]]. eauto.
Qed.

Lemma deve_aguardar_alerta limite s :
  em_alerta s ->
  exists s1,
    deve_aguardar limite s = Some (false, s1)
    /\ ambiente s1 = ambiente s /\ em_alerta s1.
Proof.
  intros H. unfold deve_aguardar, le_mundo.
  unfold bind at 1 2. unfold le, ret at 1.
  destruct (_ && _); [|exists s; auto].
  destruct (checa_falha_m_total s) as (f & s1 & E).
  unfold bind at 1. rewrite E.
  destruct (checa_falha_m_gate _ _ _ E) as (_ & _ & _ & Ha & _ & _ & Hal & _).
  specialize (Hal H). exists s1.
  destruct f; [unfold ret; auto|].
  unfold le_aviao, bind, le, ret. rewrite Hal. auto.
Qed.

Lemma desistiu_total s :
  exists d s1, desistiu s = Some (d, s1) /\ ambiente s1 = ambiente s.
Proof.
  unfold desistiu, le_mundo. unfold bind at 1 2. unfold le, ret at 1.
  destruct (negb _); [exists true, s; auto|].
  destruct (checa_falha_m_total s) as (f & s1 & E).
  destruct (checa_falha_m_gate _ _ _ E) as (_ & _ & _ & Ha & _).
  exists f, s1. auto.
Qed.

(** With the alert up, aguardar_prioridade comes back without waiting,
    whatever the count of international flights in the queue. *)
Lemma aguardar_sem_espera t s :
  em_alerta s ->
  exists s',
    aguardar_prioridade t s = Some (tt, s')
    /\ ambiente s' = ambiente s.
Proof.
  intros H. unfold aguardar_prioridade.
  unfold time, le_mundo, poe_aviao, poe_mundo, emite, altera.
  cbn [aguardar_laco]. unfold bind, le, ret.
  match goal with
  | |- context [deve_aguardar ?l ?s1] =>
      destruct (deve_aguardar_alerta l s1) as (s2 & E & Ha & _);
        [exact H|]
  end.
  rewrite E.
  destruct (desistiu_total s2) as (d & s3 & Ed & Hd).
  rewrite Ed.
  destruct d; eexists; (split; [reflexivity|]);
    simpl; rewrite Hd, Ha; reflexivity.
Qed.

(** A phase that completes lowers the alert. *)
Lemma fase_completa_baixa f s s' :
  fase f s = Some (0, s') -> em_alerta_critico (aviao s') = false.
Proof.
  intros E.
  destruct (segue_caminho_rastro f s 0 s' E)
    as (c & Hp & _ & _ & _ & Hr & Hd).
  destruct (retorno_zero _ _ _ Hp (eq_sym Hr)) as [d ->]. exact Hd.
Qed.

End Prioridade.

(** ** So.c: the boost is kept *)

Section LeiturasSo.
Import So.

Lemma apos_so_le_aviao {B} (k : Aviao -> M Estado B) Q (s : Estado) :
  apos (k (aviao s)) Q s -> apos (bind le_aviao k) Q s.
Proof. abre. exact (fun H => H). Qed.

Lemma apos_so_le_mundo {B} (k : Mundo -> M Estado B) Q (s : Estado) :
  apos (k (mundo s)) Q s -> apos (bind le_mundo k) Q s.
Proof. abre. exact (fun H => H). Qed.

Lemma apos_so_agora {B} (k : Z -> M Estado B) Q (s : Estado) :
  apos (k (relogio (mundo s))) Q s -> apos (bind agora k) Q s.
Proof. abre. exact (fun H => H). Qed.

Variable P : Estado -> Prop.

Lemma preserva_so_le_mundo : preserva P le_mundo.
Proof. unfold le_mundo. auto with preserva. Qed.

Lemma preserva_so_le_aviao : preserva P le_aviao.
Proof. unfold le_aviao. auto with preserva. Qed.

Lemma preserva_so_agora : preserva P agora.
Proof. unfold agora. auto with preserva. Qed.

End LeiturasSo.

#[global] Hint Resolve preserva_so_le_mundo preserva_so_le_aviao
  preserva_so_agora : preserva.

Lemma checa_starvation_boosted m a :
  So.boosted a = true ->
  So.boosted (snd (snd (So.checa_starvation m a))) = true.
Proof.
  intros H. unfold So.checa_starvation, So.alerta_starvation.
  destruct (_ && (So.alertas_starvation a =? 0)).
  - simpl So.boosted at 1. rewrite H. simpl.
    destruct (_ && _); simpl; exact H.
  - destruct (_ && _); simpl; exact H.
Qed.

(** The alert raises the boost: at sixty seconds of wait
    checa_starvation leaves the aircraft boosted. *)
Lemma checa_starvation_impulsiona m a :
  So.falhou a = false ->
  So.alertas_starvation a = 0 ->
  So.ALERTA_CRITICO_SECS <= So.relogio m - So.inicio_espera a ->
  So.boosted (snd (snd (So.checa_starvation m a))) = true.
Proof.
  intros Hf Ha Hw. unfold So.checa_starvation, So.alerta_starvation.
  rewrite Hf, Ha. apply Z.leb_le in Hw. rewrite Hw. simpl.
  destruct (So.boosted a) eqn:Hb; simpl; rewrite Hf; simpl;
    destruct (So.TEMPO_MAXIMO_ESPERA <=? _); simpl; auto.
Qed.

Section Impulsionado.
Import So.
Variable n : nat.

Lemma imp_poe_mundo f : preserva (impulsionado n) (poe_mundo f).
Proof. intros s H. unfold poe_mundo. apply apos_altera. exact H. Qed.

Lemma imp_poe_aviao f :
  (forall a, boosted a = true -> boosted (f a) = true) ->
  preserva (impulsionado n) (poe_aviao f).
Proof.
  intros Hf s [H1 H2]. unfold poe_aviao. apply apos_altera.
  split; [exact (Hf _ H1)|exact H2].
Qed.

Lemma cessoes_app tr e :
  cessoes (tr ++ [e]) = (cessoes tr + if cede_classe e then 1 else 0)%nat.
Proof.
  unfold cessoes. rewrite filter_app, length_app. simpl.
  destruct (cede_classe e); reflexivity.
Qed.

Lemma imp_emite e :
  cede_classe e = false -> preserva (impulsionado n) (emite e).
Proof.
  intros He s [H1 H2]. unfold emite. apply apos_altera.
  split; [exact H1|]. simpl. rewrite cessoes_app, He, H2. lia.
Qed.

Lemma imp_bloqueia : preserva (impulsionado n) bloqueia.
Proof.
  intros s H. abre. unfold bloqueia.
  destruct (ambiente s); [exact I|exact H].
Qed.

Lemma imp_checa_starvation_m : preserva (impulsionado n) checa_starvation_m.
Proof.
  intros s [H1 H2]. abre. unfold checa_starvation_m.
  pose proof (checa_starvation_boosted (mundo s) (aviao s) H1) as H.
  destruct (checa_starvation _ _) as [c [m a]]. split; assumption.
Qed.

#[local] Hint Resolve imp_poe_mundo imp_bloqueia imp_checa_starvation_m
  : preserva.
#[local] Hint Extern 1 (preserva _ (poe_aviao _)) =>
  apply imp_poe_aviao; intros ? H; exact H : preserva.
#[local] Hint Extern 1 (preserva _ (emite _)) =>
  apply imp_emite; reflexivity : preserva.

Lemma imp_dorme : preserva (impulsionado n) dorme.
Proof. unfold dorme. auto with preserva. Qed.

Lemma imp_espera_sem r : preserva (impulsionado n) (espera_sem r).
Proof. unfold espera_sem. auto 20 with preserva. Qed.

Lemma imp_reavalia inicio timeout_total :
  preserva (impulsionado n) (reavalia inicio timeout_total).
Proof. unfold reavalia. auto 20 with preserva. Qed.

#[local] Hint Resolve imp_dorme imp_espera_sem imp_reavalia : preserva.

(** A boosted worker never takes the branch that gives way to the
    international flights. *)
Lemma imp_adquirir_volta r inicio timeout_total :
  preserva (impulsionado n) (adquirir_volta r inicio timeout_total).
Proof.
  intros s H. unfold adquirir_volta.
  apply apos_so_le_aviao. apply apos_so_le_mundo.
  assert (Hresto : preserva (impulsionado n)
                     (rc <- aguardar_sem_timed r 2;;
                      if rc =? 0 then ret (Some 0)
                      else reavalia inicio timeout_total)).
  { unfold aguardar_sem_timed. auto 20 with preserva. }
  assert (Hboost : preserva (impulsionado n)
                     (emite EvCedeBoost;;; dorme;;;
                      reavalia inicio timeout_total)).
  { auto 20 with preserva. }
  destruct H as [Hb Hc]. rewrite Hb. cbn [negb andb].
  destruct (tipo (aviao s));
    [destruct (existe_boost _ _); [apply Hboost|apply Hresto]
    |apply Hresto]; split; assumption.
Qed.

#[local] Hint Resolve imp_adquirir_volta : preserva.

Lemma imp_adquirir_laco r inicio timeout_total voltas :
  preserva (impulsionado n) (adquirir_laco voltas r inicio timeout_total).
Proof.
  induction voltas as [|v IH]; simpl; auto 20 with preserva.
Qed.

#[local] Hint Resolve imp_adquirir_laco : preserva.

Lemma imp_adquirir modo r timeout_total :
  preserva (impulsionado n)
           (adquirir_recurso_prioritario modo r timeout_total).
Proof.
  unfold adquirir_recurso_prioritario, sem_wait. auto 20 with preserva.
Qed.

Lemma imp_liberar r : preserva (impulsionado n) (liberar r).
Proof. unfold liberar. auto 20 with preserva. Qed.

Lemma imp_muda_estado e : preserva (impulsionado n) (muda_estado e).
Proof. unfold muda_estado. auto 20 with preserva. Qed.

Lemma imp_executa_fase : preserva (impulsionado n) executa_fase.
Proof. unfold executa_fase. auto 20 with preserva. Qed.

Lemma imp_aguardando_mais : preserva (impulsionado n) aguardando_mais.
Proof. unfold aguardando_mais. auto 20 with preserva. Qed.

Lemma imp_aguardando_menos : preserva (impulsionado n) aguardando_menos.
Proof. unfold aguardando_menos. auto 20 with preserva. Qed.

#[local] Hint Resolve imp_adquirir imp_liberar imp_muda_estado
  imp_executa_fase imp_aguardando_mais imp_aguardando_menos : preserva.

Lemma imp_par_laco first second voltas :
  forall acquired_first,
    preserva (impulsionado n) (par_laco voltas first second acquired_first).
Proof.
  induction voltas as [|v IH]; intros acq; simpl; auto 30 with preserva.
Qed.

Lemma imp_trio_laco r1 r2 r3 voltas :
  forall got1 got2,
    preserva (impulsionado n) (trio_laco voltas r1 r2 r3 got1 got2).
Proof.
  induction voltas as [|v IH]; intros g1 g2; simpl; auto 40 with preserva.
Qed.

#[local] Hint Resolve imp_par_laco imp_trio_laco : preserva.

Lemma imp_fase_pouso modo : preserva (impulsionado n) (fase_pouso modo).
Proof.
  unfold fase_pouso, sem_wait. auto 40 with preserva.
Qed.

Lemma imp_fase_desembarque modo :
  preserva (impulsionado n) (fase_desembarque modo).
Proof.
  unfold fase_desembarque, libera_desembarque, sem_wait.
  auto 40 with preserva.
Qed.

Lemma imp_fase_decolagem modo :
  preserva (impulsionado n) (fase_decolagem modo).
Proof.
  unfold fase_decolagem, conclui_decolagem, sem_wait.
  auto 40 with preserva.
Qed.

#[local] Hint Resolve imp_fase_pouso imp_fase_desembarque
  imp_fase_decolagem : preserva.

Lemma imp_rotina_aviao modo : preserva (impulsionado n) (rotina_aviao modo).
Proof.
  unfold rotina_aviao, parou. auto 40 with preserva.
Qed.

End Impulsionado.

(** C7 (So-final.c, aguardar_prioridade / reservar_recursos / pouso,
    desembarque, decolagem; So.c, checa_starvation /
    adquirir_recurso_prioritario).  In So-final.c the override lasts as
    long as em_alerta_critico is up: the aircraft does not wait in
    aguardar_prioridade and its reservation is granted whatever the
    count of contending international flights; a phase that fails
    leaves the flag up, and a phase that completes lowers it, so the
    next phase evaluates the wait anew.  In So.c checa_starvation
    boosts the aircraft at sixty seconds of wait, and a boosted
    aircraft stays boosted and never takes the branch that gives way
    to the international flights, in adquirir_recurso_prioritario and
    through the whole of rotina_aviao. *)
Theorem alerta_por_fase :
  (forall t s,
      SoFinal.em_alerta s ->
      exists s',
        SoFinal.aguardar_prioridade t s = Some (tt, s')
        /\ SoFinal.ambiente s' = SoFinal.ambiente s)
  /\ (forall np ng nt timeout_seg s,
         SoFinal.simulacao_ativa (SoFinal.mundo s) = true ->
         fst (SoFinal.checa_falha (SoFinal.mundo s) (SoFinal.aviao s))
         = false ->
         SoFinal.em_alerta_critico (SoFinal.aviao s) = true ->
         SoFinal.suficiente np ng nt (SoFinal.reserva (SoFinal.mundo s))
         = true ->
         exists s',
           SoFinal.reservar_recursos np ng nt timeout_seg s
           = Some (SoFinal.SEM_OK, s')
           /\ SoFinal.ambiente s' = SoFinal.ambiente s)
  /\ (forall f s rc s',
         SoFinal.em_alerta s ->
         SoFinal.fase f s = Some (rc, s') ->
         rc <> 0 -> SoFinal.em_alerta s')
  /\ (forall f s s',
         SoFinal.fase f s = Some (0, s') ->
         SoFinal.em_alerta_critico (SoFinal.aviao s') = false)
  /\ (forall m a,
         So.falhou a = false ->
         So.alertas_starvation a = 0 ->
         So.ALERTA_CRITICO_SECS <= So.relogio m - So.inicio_espera a ->
         So.boosted (snd (snd (So.checa_starvation m a))) = true)
  /\ (forall modo r timeout_total n s rc s',
         So.impulsionado n s ->
         So.adquirir_recurso_prioritario modo r timeout_total s
         = Some (rc, s') ->
         So.impulsionado n s')
  /\ (forall modo n s s',
         So.impulsionado n s ->
         So.rotina_aviao modo s = Some (tt, s') ->
         So.impulsionado n s').
Proof.
  split; [exact aguardar_sem_espera|].
  split.
  { intros np ng nt timeout_seg s H1 H2 H3 H4.
    destruct (alerta_isento np ng nt timeout_seg s H1 H2 H3 H4)
      as (s' & E & _ & Ha).
    exists s'. auto. }
  split.
  { intros f s rc s' H E Hrc.
    exact (apos_elim _ _ _ _ _ (alerta_fase f s H) E Hrc). }
  split; [exact fase_completa_baixa|].
  split; [exact checa_starvation_impulsiona|].
  split.
  - intros modo r timeout_total n s rc s' H E.
    exact (apos_elim _ _ _ _ _ (imp_adquirir n modo r timeout_total s H) E).
  - intros modo n s s' H E.
    exact (apos_elim _ _ _ _ _ (imp_rotina_aviao n modo s H) E).
Qed.

Lemma alerta_por_fase_testemunha :
  (exists s',
      SoFinal.aguardar_prioridade SoFinal.DOMESTICO
                                  SoFinal.domestico_em_alerta
      = Some (tt, s')
      /\ SoFinal.ambiente s' = SoFinal.ambiente SoFinal.domestico_em_alerta)
  /\ (exists s',
         SoFinal.reservar_recursos 1 0 1 10 SoFinal.domestico_em_alerta
         = Some (SoFinal.SEM_OK, s'))
  /\ (exists s',
         SoFinal.fase SoFinal.POUSO SoFinal.alerta_sem_pista
         = Some (-1, s')
         /\ SoFinal.em_alerta s')
  /\ (exists s',
         SoFinal.fase SoFinal.POUSO SoFinal.alerta_que_pousa
         = Some (0, s')
         /\ SoFinal.em_alerta_critico (SoFinal.aviao s') = false)
  /\ So.boosted
       (snd (snd (So.checa_starvation (So.livre 160)
                                      (So.novo 2 So.DOMESTICO)))) = true
  /\ (exists s',
         So.adquirir_recurso_prioritario false TORRE 10
                                         So.domestico_boosted
         = Some (0, s')
         /\ So.impulsionado 0 s')
  /\ (exists s',
         So.rotina_aviao false So.voo_boosted = Some (tt, s')
         /\ So.impulsionado 0 s').
Proof.
  destruct alerta_por_fase as (T1 & T2 & T3 & T4 & T5 & T6 & T7).
  split; [|split; [|split; [|split; [|split; [|split]]]]].
  - exact (T1 SoFinal.DOMESTICO SoFinal.domestico_em_alerta eq_refl).
  - destruct (T2 1 0 1 10 SoFinal.domestico_em_alerta
                eq_refl eq_refl eq_refl eq_refl) as (s' & E & _).
    exists s'. exact E.
  - destruct (SoFinal.fase SoFinal.POUSO SoFinal.alerta_sem_pista)
      as [[rc s']|] eqn:E; [|vm_compute in E; discriminate E].
    pose proof E as E'. vm_compute in E'. injection E' as Hrc _.
    assert (Hn : rc <> 0) by (rewrite <- Hrc; discriminate).
    pose proof (T3 SoFinal.POUSO SoFinal.alerta_sem_pista rc s'
                  eq_refl E Hn) as H.
    exists s'. rewrite <- Hrc. auto.
  - destruct (SoFinal.fase SoFinal.POUSO SoFinal.alerta_que_pousa)
      as [[rc s']|] eqn:E; [|vm_compute in E; discriminate E].
    pose proof E as E'. vm_compute in E'. injection E' as Hrc _.
    rewrite <- Hrc in E.
    pose proof (T4 SoFinal.POUSO SoFinal.alerta_que_pousa s' E) as H.
    exists s'. rewrite <- Hrc. auto.
  - apply T5; [reflexivity|reflexivity|vm_compute; discriminate].
  - destruct (So.adquirir_recurso_prioritario false TORRE 10
                                              So.domestico_boosted)
      as [[rc s']|] eqn:E; [|vm_compute in E; discriminate E].
    pose proof E as E'. vm_compute in E'. injection E' as Hrc _.
    assert (H0 : So.impulsionado 0 So.domestico_boosted)
      by (split; reflexivity).
    pose proof (T6 false TORRE 10 0%nat So.domestico_boosted rc s' H0 E)
      as H.
    exists s'. rewrite <- Hrc. auto.
  - destruct (So.rotina_aviao false So.voo_boosted)
      as [[[] s']|] eqn:E; [|vm_compute in E; discriminate E].
    assert (H0 : So.impulsionado 0 So.voo_boosted)
      by (split; reflexivity).
    pose proof (T7 false 0%nat So.voo_boosted s' H0 E) as H.
    exists s'. auto.
Defined.

(** In So-final.c the override does not outlive the phase: a domestic
    flight in critical alert lands without waiting, the landing lowers
    the flag, and at its next phase the flight waits in
    aguardar_prioridade behind the international flight in the queue,
    through both wake-ups, until the simulation is stopped. *)
Lemma alerta_contraexemplo :
  SoFinal.em_alerta_critico (SoFinal.aviao SoFinal.alerta_que_pousa) = true
  /\ exists s1 s2,
      SoFinal.pouso SoFinal.alerta_que_pousa = Some (0, s1)
      /\ SoFinal.em_alerta_critico (SoFinal.aviao s1) = false
      /\ SoFinal.ambiente s1
         = [SoFinal.encontra (SoFinal.na_fila 130);
            SoFinal.encontra (SoFinal.encerrada (SoFinal.na_fila 140))]
      /\ SoFinal.aguardar_prioridade SoFinal.DOMESTICO s1 = Some (tt, s2)
      /\ SoFinal.ambiente s2 = [].
Proof.
  split; [reflexivity|].
  eexists. eexists.
  split; [vm_compute; reflexivity|].
  split; [reflexivity|].
  split; [reflexivity|].
  split; [vm_compute; reflexivity|reflexivity].
Qed.

(** ** So.c: the order of acquisition *)

Lemma checa_starvation_tipo m a :
  So.tipo (snd (snd (So.checa_starvation m a))) = So.tipo a.
Proof.
  unfold So.checa_starvation, So.alerta_starvation.
  destruct (_ && (So.alertas_starvation a =? 0)).
  - simpl So.boosted. destruct (negb (So.boosted a));
      destruct (_ && _); reflexivity.
  - destruct (_ && _); reflexivity.
Qed.

Section OrdemSo.
Import So.
Variable s0 : Estado.
Variable ord : list Recurso.

Lemma em_ordem_app tr e :
  em_ordem ord (tr ++ [e]) = passo_ordem ord (em_ordem ord tr) e.
Proof. unfold em_ordem. rewrite fold_left_app. reflexivity. Qed.

Lemma segura_inicio : segura s0 ord [] s0.
Proof.
  split; [reflexivity|]. exists []. rewrite app_nil_r. auto.
Qed.

Lemma seg_poe_mundo h f : preserva (segura s0 ord h) (poe_mundo f).
Proof. intros s H. unfold poe_mundo. apply apos_altera. exact H. Qed.

Lemma seg_poe_aviao h f :
  (forall a, tipo (f a) = tipo a) ->
  preserva (segura s0 ord h) (poe_aviao f).
Proof.
  intros Hf s [H1 H2]. unfold poe_aviao. apply apos_altera.
  split; [simpl; rewrite Hf; exact H1|exact H2].
Qed.

Lemma seg_bloqueia h : preserva (segura s0 ord h) bloqueia.
Proof.
  intros s H. abre. unfold bloqueia.
  destruct (ambiente s); [exact I|exact H].
Qed.

Lemma seg_checa_starvation_m h :
  preserva (segura s0 ord h) checa_starvation_m.
Proof.
  intros s [H1 H2]. abre. unfold checa_starvation_m.
  pose proof (checa_starvation_tipo (mundo s) (aviao s)) as H.
  destruct (checa_starvation _ _) as [c [m a]].
  split; [simpl in *; congruence|exact H2].
Qed.

Lemma seg_emite h h' e :
  passo_ordem ord (Some h) e = Some h' ->
  garante (segura s0 ord h) (emite e) (fun _ s' => segura s0 ord h' s').
Proof.
  intros He s [H1 (tr & H2 & H3)]. unfold emite. apply apos_altera.
  split; [exact H1|]. exists (tr ++ [e]). simpl.
  rewrite H2, app_assoc, em_ordem_app, H3. auto.
Qed.

#[local] Hint Resolve seg_poe_mundo seg_bloqueia seg_checa_starvation_m
  : preserva.
#[local] Hint Extern 1 (preserva _ (poe_aviao _)) =>
  apply seg_poe_aviao; reflexivity : preserva.
#[local] Hint Extern 1 (preserva _ (emite _)) =>
  apply seg_emite; reflexivity : preserva.

Lemma seg_dorme h : preserva (segura s0 ord h) dorme.
Proof. unfold dorme. auto with preserva. Qed.

#[local] Hint Resolve seg_dorme : preserva.

Lemma seg_muda_estado h e : preserva (segura s0 ord h) (muda_estado e).
Proof. unfold muda_estado. auto 20 with preserva. Qed.

Lemma seg_executa_fase h : preserva (segura s0 ord h) executa_fase.
Proof. unfold executa_fase. auto 20 with preserva. Qed.

Lemma seg_aguardando_mais h : preserva (segura s0 ord h) aguardando_mais.
Proof. unfold aguardando_mais. auto 20 with preserva. Qed.

Lemma seg_aguardando_menos h : preserva (segura s0 ord h) aguardando_menos.
Proof. unfold aguardando_menos. auto 20 with preserva. Qed.

#[local] Hint Resolve seg_muda_estado seg_executa_fase
  seg_aguardando_mais seg_aguardando_menos : preserva.

Lemma seg_liberar h r :
  existsb (Recurso_eqb r) h = true ->
  garante (segura s0 ord h) (liberar r)
          (fun _ s' => segura s0 ord (retira r h) s').
Proof.
  intros Hr. unfold liberar.
  apply garante_bind; [auto with preserva|]. intros m.
  apply garante_bind; [auto with preserva|]. intros _.
  apply seg_emite. simpl. rewrite Hr. reflexivity.
Qed.

(** A failed turn of adquirir_recurso_prioritario returns -1 or goes
    round again. *)
Lemma seg_reavalia h inicio timeout_total :
  garante (segura s0 ord h) (reavalia inicio timeout_total)
          (fun v s' => (v = None \/ v = Some (-1)) /\ segura s0 ord h s').
Proof.
  unfold reavalia.
  apply garante_bind; [auto with preserva|]. intros c.
  destruct c; [apply garante_ret; auto|].
  apply garante_bind; [auto with preserva|]. intros t.
  destruct (_ <=? _); apply garante_ret; auto.
Qed.

Section Toma.
Variable h : list Recurso.
Variable r : Recurso.
Hypothesis vez : na_vez ord h r = true.

Lemma seg_espera_sem :
  garante (segura s0 ord h) (espera_sem r) (tomou_ou_nao s0 ord h r).
Proof.
  unfold espera_sem.
  apply garante_bind; [auto with preserva|]. intros i.
  destruct (obteve i).
  - apply garante_bind; [auto with preserva|]. intros m.
    destruct (0 <? _); [|intros s _; apply apos_trava].
    apply garante_bind; [auto with preserva|]. intros _.
    intros s H. apply apos_bind.
    eapply apos_mono;
      [apply (seg_emite h (h ++ [r]) (EvObteve r)); [|exact H]|].
    + simpl. rewrite vez. reflexivity.
    + cbv beta. intros _ s' H'. apply apos_ret. left. auto.
  - apply garante_ret. intros s H. right. split; [discriminate|exact H].
Qed.

Lemma seg_reavalia_volta inicio timeout_total :
  garante (segura s0 ord h) (reavalia inicio timeout_total)
          (volta_ok s0 ord h r).
Proof.
  eapply garante_fraco; [apply seg_reavalia|].
  intros v s [[->| ->] H]; simpl; [exact H|].
  right. split; [discriminate|exact H].
Qed.

Lemma seg_adquirir_volta inicio timeout_total :
  garante (segura s0 ord h) (adquirir_volta r inicio timeout_total)
          (volta_ok s0 ord h r).
Proof.
  unfold adquirir_volta.
  assert (Hresto : garante (segura s0 ord h)
                     (rc <- aguardar_sem_timed r 2;;
                      if rc =? 0 then ret (Some 0)
                      else reavalia inicio timeout_total)
                     (volta_ok s0 ord h r)).
  { unfold aguardar_sem_timed. intros s H. apply apos_bind.
    eapply apos_mono; [apply (seg_espera_sem s H)|]. cbv beta.
    intros rc s' [[-> H']|[Hn H']].
    - apply apos_ret. left. auto.
    - destruct (rc =? 0) eqn:E; [apply Z.eqb_eq in E; contradiction|].
      apply seg_reavalia_volta. exact H'. }
  assert (Hcede : forall e,
             passo_ordem ord (Some h) e = Some h ->
             garante (segura s0 ord h)
                     (emite e;;; dorme;;; reavalia inicio timeout_total)
                     (volta_ok s0 ord h r)).
  { intros e He.
    apply garante_bind; [apply seg_emite; exact He|]. intros _.
    apply garante_bind; [auto with preserva|]. intros _.
    apply seg_reavalia_volta. }
  apply garante_bind; [auto with preserva|]. intros a.
  apply garante_bind; [auto with preserva|]. intros m.
  destruct (tipo a).
  - destruct (existe_boost m a); [apply Hcede; reflexivity|exact Hresto].
  - destruct (_ && _); [apply Hcede; reflexivity|exact Hresto].
Qed.

Lemma seg_adquirir_laco inicio timeout_total voltas :
  garante (segura s0 ord h) (adquirir_laco voltas r inicio timeout_total)
          (tomou_ou_nao s0 ord h r).
Proof.
  induction voltas as [|v IH]; simpl; [intros s _; apply apos_trava|].
  intros s H. apply apos_bind.
  eapply apos_mono; [apply (seg_adquirir_volta inicio timeout_total s H)|].
  cbv beta. intros [rc|] s' H'; [apply apos_ret; exact H'|].
  apply IH. exact H'.
Qed.

Lemma seg_adquirir timeout_total :
  garante (segura s0 ord h)
          (adquirir_recurso_prioritario false r timeout_total)
          (tomou_ou_nao s0 ord h r).
Proof.
  unfold adquirir_recurso_prioritario.
  apply garante_bind; [auto with preserva|]. intros inicio.
  apply garante_bind; [auto with preserva|]. intros s.
  apply seg_adquirir_laco.
Qed.

End Toma.

End OrdemSo.

Lemma Recurso_eqb_refl r : Recurso_eqb r r = true.
Proof. destruct r; reflexivity. Qed.

Section LacosSo.
Import So.
Variable s0 : Estado.

(** Chaining a step whose effect on the held semaphores is known. *)
Ltac segue_com H :=
  apply apos_bind; eapply apos_mono; [apply H; assumption|]; cbv beta.

Lemma seg_desiste ord (k : M Estado (option Z)) :
  garante (segura s0 ord []) k (laco_ok s0 ord) ->
  garante (segura s0 ord [])
          (aguardando_menos;;;
           a <- le_aviao;;
           if falhou a then ret (Some (-1)) else k)
          (laco_ok s0 ord).
Proof.
  intros Hk s H.
  segue_com (seg_aguardando_menos s0 ord []). intros _ s1 H1.
  apply apos_so_le_aviao.
  destruct (falhou (aviao s1)); [apply apos_ret; exact H1|].
  apply Hk. exact H1.
Qed.

Lemma seg_espera_e_volta ord (k : M Estado (option Z)) :
  garante (segura s0 ord []) k (laco_ok s0 ord) ->
  garante (segura s0 ord []) (dorme;;; k) (laco_ok s0 ord).
Proof.
  intros Hk. apply garante_bind; [apply seg_dorme|]. intros _. exact Hk.
Qed.

Lemma seg_par_laco first second voltas :
  garante (segura s0 [first; second] [])
          (par_laco voltas first second false)
          (laco_ok s0 [first; second]).
Proof.
  assert (V1 : na_vez [first; second] [] first = true).
  { unfold na_vez. simpl. apply Recurso_eqb_refl. }
  assert (V2 : na_vez [first; second] [first] second = true).
  { unfold na_vez. simpl. rewrite !Recurso_eqb_refl. reflexivity. }
  induction voltas as [|v IH]; [intros s _; apply apos_trava|].
  intros s H. cbn [par_laco negb].
  segue_com (seg_aguardando_mais s0 [first; second] []). intros _ s1 H1.
  segue_com (seg_adquirir s0 [first; second] [] first V1 TIMEOUT_OPERACAO).
  intros r1 s2 [[-> H2]|[Hn H2]].
  - cbn [Z.eqb negb].
    segue_com (seg_adquirir s0 [first; second] [first] second V2
                 TIMEOUT_OPERACAO).
    intros r2 s3 [[-> H3]|[Hn H3]].
    + cbn [Z.eqb negb].
      segue_com (seg_aguardando_menos s0 [first; second] [first; second]).
      intros _ s4 H4. apply apos_ret. exact H4.
    + destruct (r2 =? 0) eqn:E; [apply Z.eqb_eq in E; contradiction|].
      cbn [negb].
      apply apos_bind.
      eapply apos_mono;
        [apply (seg_liberar s0 [first; second] [first] first);
         [simpl; rewrite Recurso_eqb_refl; reflexivity|exact H3]|].
      cbv beta. intros _ s4 H4.
      simpl retira in H4. rewrite Recurso_eqb_refl in H4.
      apply seg_desiste; [|exact H4].
      apply seg_espera_e_volta. exact IH.
  - destruct (r1 =? 0) eqn:E; [apply Z.eqb_eq in E; contradiction|].
    cbn [negb]. apply seg_desiste; [exact IH|exact H2].
Qed.

Lemma seg_trio_laco r1 r2 r3 voltas :
  garante (segura s0 [r1; r2; r3] [])
          (trio_laco voltas r1 r2 r3 false false)
          (laco_ok s0 [r1; r2; r3]).
Proof.
  assert (V1 : na_vez [r1; r2; r3] [] r1 = true).
  { unfold na_vez. simpl. apply Recurso_eqb_refl. }
  assert (V2 : na_vez [r1; r2; r3] [r1] r2 = true).
  { unfold na_vez. simpl. rewrite !Recurso_eqb_refl. reflexivity. }
  assert (V3 : na_vez [r1; r2; r3] [r1; r2] r3 = true).
  { unfold na_vez. simpl. rewrite !Recurso_eqb_refl. reflexivity. }
  induction voltas as [|v IH]; [intros s _; apply apos_trava|].
  intros s H. cbn [trio_laco negb].
  segue_com (seg_aguardando_mais s0 [r1; r2; r3] []). intros _ s1 H1.
  segue_com (seg_adquirir s0 [r1; r2; r3] [] r1 V1 TIMEOUT_OPERACAO).
  intros x1 s2 [[-> H2]|[Hn H2]].
  - cbn [Z.eqb negb].
    segue_com (seg_adquirir s0 [r1; r2; r3] [r1] r2 V2 TIMEOUT_OPERACAO).
    intros x2 s3 [[-> H3]|[Hn H3]].
    + cbn [Z.eqb negb].
      segue_com (seg_adquirir s0 [r1; r2; r3] [r1; r2] r3 V3
                   TIMEOUT_OPERACAO).
      intros x3 s4 [[-> H4]|[Hn H4]].
      * cbn [Z.eqb negb].
        segue_com (seg_aguardando_menos s0 [r1; r2; r3] [r1; r2; r3]).
        intros _ s5 H5. apply apos_ret. exact H5.
      * destruct (x3 =? 0) eqn:E; [apply Z.eqb_eq in E; contradiction|].
        cbn [negb].
        assert (L2 : existsb (Recurso_eqb r2) [r1; r2] = true).
        { simpl. rewrite Recurso_eqb_refl. apply orb_true_iff.
          right. reflexivity. }
        apply apos_bind.
        eapply apos_mono;
          [apply (seg_liberar s0 [r1; r2; r3] [r1; r2] r2 L2 _ H4)|].
        cbv beta. intros _ s5 H5.
        assert (L1 : existsb (Recurso_eqb r1) (retira r2 [r1; r2]) = true).
        { simpl. destruct (Recurso_eqb r2 r1) eqn:E21; simpl.
          - destruct r1, r2; simpl in *; try discriminate; reflexivity.
          - rewrite Recurso_eqb_refl. reflexivity. }
        apply apos_bind.
        eapply apos_mono;
          [apply (seg_liberar s0 [r1; r2; r3] _ r1 L1 _ H5)|].
        cbv beta. intros _ s6 H6.
        assert (R : retira r1 (retira r2 [r1; r2]) = []).
        { simpl. destruct (Recurso_eqb r2 r1) eqn:E21; simpl.
          - destruct r1, r2; simpl in *; try discriminate; reflexivity.
          - rewrite Recurso_eqb_refl. rewrite Recurso_eqb_refl.
            reflexivity. }
        rewrite R in H6.
        apply seg_desiste; [|exact H6].
        apply seg_espera_e_volta. exact IH.
    + destruct (x2 =? 0) eqn:E; [apply Z.eqb_eq in E; contradiction|].
      cbn [negb].
      apply apos_bind.
      eapply apos_mono;
        [apply (seg_liberar s0 [r1; r2; r3] [r1] r1);
         [simpl; rewrite Recurso_eqb_refl; reflexivity|exact H3]|].
      cbv beta. intros _ s4 H4.
      simpl retira in H4. rewrite Recurso_eqb_refl in H4.
      apply seg_desiste; [|exact H4].
      apply seg_espera_e_volta. exact IH.
  - destruct (x1 =? 0) eqn:E; [apply Z.eqb_eq in E; contradiction|].
    cbn [negb]. apply seg_desiste; [exact IH|exact H2].
Qed.

End LacosSo.

Section FasesSo.
Import So.

Ltac segue_com H :=
  apply apos_bind; eapply apos_mono; [eapply H; eassumption|]; cbv beta.

Ltac libera_com H :=
  match goal with
  | |- apos (bind (liberar ?r) _) _ _ =>
      match type of H with
      | segura ?s0 ?ord ?h _ =>
          apply apos_bind;
          eapply apos_mono; [apply (seg_liberar s0 ord h r eq_refl _ H)|];
          cbv beta; simpl retira
      end
  end.

(** Releasing the two semaphores of a landing. *)
Lemma seg_libera_par s0 first second :
  first <> second ->
  garante (segura s0 [first; second] [first; second])
          (liberar first;;; liberar second;;; ret 0)
          (fun _ s' => segura s0 [first; second] [] s').
Proof.
  intros Hd s H.
  destruct first, second; try contradiction;
    libera_com H; intros _ s1 H1;
    libera_com H1; intros _ s2 H2; apply apos_ret; exact H2.
Qed.

Lemma seg_libera_desembarque s0 first second :
  first <> second ->
  garante (segura s0 [first; second] [first; second])
          (libera_desembarque first second;;; ret 0)
          (fun _ s' => segura s0 [first; second] [] s').
Proof.
  intros Hd s H. unfold libera_desembarque.
  apply apos_bind. apply apos_so_le_aviao.
  destruct (tipo (aviao s)), first, second; try contradiction;
    libera_com H; intros _ s1 H1;
    segue_com (seg_dorme s0); intros _ s2 H2;
    (eapply apos_mono;
     [eapply seg_liberar; [|exact H2]; reflexivity|]);
    cbv beta; simpl retira; intros _ s3 H3; apply apos_ret; exact H3.
Qed.

Lemma seg_conclui_decolagem s0 r1 r2 r3 :
  r1 <> r2 -> r1 <> r3 -> r2 <> r3 ->
  garante (segura s0 [r1; r2; r3] [r1; r2; r3])
          (conclui_decolagem r1 r2 r3)
          (fun _ s' => segura s0 [r1; r2; r3] [] s').
Proof.
  intros D1 D2 D3 s H. unfold conclui_decolagem.
  segue_com (seg_muda_estado s0 [r1; r2; r3] [r1; r2; r3]).
  intros _ s1 H1.
  segue_com (seg_executa_fase s0 [r1; r2; r3] [r1; r2; r3]).
  intros _ s2 H2.
  destruct r1, r2, r3; try contradiction;
    libera_com H2; intros _ s3 H3;
    libera_com H3; intros _ s4 H4;
    libera_com H4; intros _ s5 H5;
    (apply apos_bind; eapply apos_mono;
     [eapply seg_poe_aviao; [reflexivity|eassumption]|]; cbv beta);
    intros _ s6 H6;
    apply apos_so_le_mundo;
    segue_com (seg_poe_mundo s0); intros _ s7 H7;
    apply apos_ret; exact H7.
Qed.

(** The body shared by fase_pouso and fase_desembarque in normal
    mode. *)
Lemma seg_par s0 first second e (fim : M Estado Z) :
  garante (segura s0 [first; second] [first; second]) fim
          (fun _ s' => segura s0 [first; second] [] s') ->
  garante (segura s0 [first; second] [])
          (s <- le;;
           v <- par_laco (S (length (ambiente s))) first second false;;
           match v with
           | Some rc => ret rc
           | None => muda_estado e;;; executa_fase;;; fim
           end)
          (fun _ s' => segura s0 [first; second] [] s').
Proof.
  intros Hfim s H. apply apos_bind. apply apos_le.
  segue_com (seg_par_laco s0 first second). intros [rc|] s1 H1.
  - apply apos_ret. exact H1.
  - simpl in H1.
    segue_com (seg_muda_estado s0 [first; second] [first; second]).
    intros _ s2 H2.
    segue_com (seg_executa_fase s0 [first; second] [first; second]).
    intros _ s3 H3. apply Hfim. exact H3.
Qed.

Lemma seg_fase_pouso s0 :
  garante (segura s0 (par (ordem_pouso (tipo (aviao s0)))) [])
          (fase_pouso false)
          (fun _ s' => segura s0 (par (ordem_pouso (tipo (aviao s0)))) [] s').
Proof.
  intros s H. unfold fase_pouso.
  segue_com (seg_muda_estado s0). intros _ s1 H1.
  apply apos_so_le_aviao. pose proof H1 as [Ht _]. rewrite Ht.
  destruct (tipo (aviao s0)); cbn [ordem_pouso par fst snd] in *;
    (apply seg_par; [apply seg_libera_par; discriminate|exact H1]).
Qed.

Lemma seg_fase_desembarque s0 :
  garante (segura s0 (par (ordem_desembarque (tipo (aviao s0)))) [])
          (fase_desembarque false)
          (fun _ s' =>
             segura s0 (par (ordem_desembarque (tipo (aviao s0)))) [] s').
Proof.
  intros s H. unfold fase_desembarque.
  segue_com (seg_muda_estado s0). intros _ s1 H1.
  apply apos_so_le_aviao. pose proof H1 as [Ht _]. rewrite Ht.
  destruct (tipo (aviao s0)); cbn [ordem_desembarque par fst snd] in *;
    (apply seg_par; [apply seg_libera_desembarque; discriminate|exact H1]).
Qed.

Lemma seg_fase_decolagem s0 :
  garante (segura s0 (trio (ordem_decolagem (tipo (aviao s0)))) [])
          (fase_decolagem false)
          (fun _ s' =>
             segura s0 (trio (ordem_decolagem (tipo (aviao s0)))) [] s').
Proof.
  intros s H. unfold fase_decolagem.
  segue_com (seg_muda_estado s0). intros _ s1 H1.
  apply apos_so_le_aviao. pose proof H1 as [Ht _]. rewrite Ht.
  destruct (tipo (aviao s0)); cbn [ordem_decolagem trio fst snd] in *;
    apply apos_bind; apply apos_le;
    (segue_com (seg_trio_laco s0)); intros [rc|] s2 H2;
    try (apply apos_ret; exact H2);
    (apply seg_conclui_decolagem; [discriminate..|exact H2]).
Qed.

End FasesSo.

(** In normal mode a phase of So.c takes its semaphores in the order of
    the flight class, each one in turn, and holds none when it
    returns. *)
Lemma ordem_da_classe (fase : M So.Estado Z)
      (ord : So.TipoVoo -> list Recurso) :
  (forall s0,
      garante (So.segura s0 (ord (So.tipo (So.aviao s0))) []) fase
              (fun _ s' => So.segura s0 (ord (So.tipo (So.aviao s0))) [] s')) ->
  forall s rc s',
    fase s = Some (rc, s') ->
    exists tr,
      So.historico s' = So.historico s ++ tr
      /\ So.em_ordem (ord (So.tipo (So.aviao s))) tr = Some [].
Proof.
  intros H s rc s' E.
  pose proof (apos_elim _ _ _ _ _ (H s s (segura_inicio s _)) E) as [_ Hs].
  exact Hs.
Qed.

(** C8 (So-final.c, pouso / desembarque / decolagem; So.c, fase_pouso /
    fase_desembarque / fase_decolagem).  So-final.c takes the
    semaphores of a phase in the one order of the table, tower first,
    whatever the flight class, and passes over every resource whose
    flag is up.  So.c, in normal mode, takes them in an order that
    depends on the flight class: every semaphore is taken in its turn
    in the order of the class and none is held when the phase returns;
    the order of a domestic flight is the one of the table, the order
    of an international flight ends with the tower. *)
Theorem ordem_de_aquisicao :
  (forall f s rc s' tr,
      SoFinal.fase f s = Some (rc, s') ->
      SoFinal.historico s' = SoFinal.historico s ++ tr ->
      (exists resto,
          filter (fun r => negb (SoFinal.has r (SoFinal.aviao s)))
                 (SoFinal.ordem f)
          = SoFinal.tentados tr ++ resto
          /\ (rc = 0 -> resto = []))
      /\ (forall r, SoFinal.has r (SoFinal.aviao s) = true ->
                    ~ In r (SoFinal.tentados tr)))
  /\ (forall s rc s',
         So.fase_pouso false s = Some (rc, s') ->
         exists tr,
           So.historico s' = So.historico s ++ tr
           /\ So.em_ordem (So.par (So.ordem_pouso (So.tipo (So.aviao s))))
                          tr = Some [])
  /\ (forall s rc s',
         So.fase_desembarque false s = Some (rc, s') ->
         exists tr,
           So.historico s' = So.historico s ++ tr
           /\ So.em_ordem
                (So.par (So.ordem_desembarque (So.tipo (So.aviao s))))
                tr = Some [])
  /\ (forall s rc s',
         So.fase_decolagem false s = Some (rc, s') ->
         exists tr,
           So.historico s' = So.historico s ++ tr
           /\ So.em_ordem
                (So.trio (So.ordem_decolagem (So.tipo (So.aviao s))))
                tr = Some [])
  /\ (So.par (So.ordem_pouso So.DOMESTICO) = SoFinal.ordem SoFinal.POUSO
      /\ So.par (So.ordem_desembarque So.DOMESTICO)
         = SoFinal.ordem SoFinal.DESEMBARQUE
      /\ So.trio (So.ordem_decolagem So.DOMESTICO)
         = SoFinal.ordem SoFinal.DECOLAGEM)
  /\ (So.par (So.ordem_pouso So.INTERNACIONAL) = [PISTA; TORRE]
      /\ So.par (So.ordem_desembarque So.INTERNACIONAL) = [PORTAO; TORRE]
      /\ So.trio (So.ordem_decolagem So.INTERNACIONAL)
         = [PORTAO; PISTA; TORRE]).
Proof.
  split; [exact ordem_fixa_final|].
  split.
  { exact (ordem_da_classe (So.fase_pouso false)
             (fun t => So.par (So.ordem_pouso t)) seg_fase_pouso). }
  split.
  { exact (ordem_da_classe (So.fase_desembarque false)
             (fun t => So.par (So.ordem_desembarque t))
             seg_fase_desembarque). }
  split.
  { exact (ordem_da_classe (So.fase_decolagem false)
             (fun t => So.trio (So.ordem_decolagem t))
             seg_fase_decolagem). }
  split; repeat split; reflexivity.
Qed.

Lemma ordem_de_aquisicao_testemunha :
  (exists s' resto,
      SoFinal.fase SoFinal.POUSO SoFinal.voo_tranquilo = Some (0, s')
      /\ [TORRE; PISTA] = SoFinal.tentados (SoFinal.historico s') ++ resto)
  /\ (exists rc s',
         So.fase_pouso false So.voo_boosted = Some (rc, s')
         /\ So.em_ordem [TORRE; PISTA] (So.historico s') = Some [])
  /\ (exists rc s',
         So.fase_desembarque false So.voo_boosted = Some (rc, s')
         /\ So.em_ordem [TORRE; PORTAO] (So.historico s') = Some [])
  /\ (exists rc s',
         So.fase_decolagem false So.decola_internacional = Some (rc, s')
         /\ So.em_ordem [PORTAO; PISTA; TORRE] (So.historico s') = Some []).
Proof.
  destruct ordem_de_aquisicao as (T1 & T2 & T3 & T4 & _).
  split; [|split; [|split]].
  - destruct (SoFinal.fase SoFinal.POUSO SoFinal.voo_tranquilo)
      as [[rc s']|] eqn:E; [|vm_compute in E; discriminate E].
    pose proof E as E'. vm_compute in E'. injection E' as Hrc _.
    destruct (T1 SoFinal.POUSO SoFinal.voo_tranquilo rc s'
                (SoFinal.historico s') E eq_refl) as [(resto & H & _) _].
    exists s', resto. rewrite <- Hrc. split; [reflexivity|exact H].
  - destruct (So.fase_pouso false So.voo_boosted)
      as [[rc s']|] eqn:E; [|vm_compute in E; discriminate E].
    destruct (T2 So.voo_boosted rc s' E) as (tr & Hh & Ho).
    exists rc, s'. split; [reflexivity|]. rewrite Hh. exact Ho.
  - destruct (So.fase_desembarque false So.voo_boosted)
      as [[rc s']|] eqn:E; [|vm_compute in E; discriminate E].
    destruct (T3 So.voo_boosted rc s' E) as (tr & Hh & Ho).
    exists rc, s'. split; [reflexivity|]. rewrite Hh. exact Ho.
  - destruct (So.fase_decolagem false So.decola_internacional)
      as [[rc s']|] eqn:E; [|vm_compute in E; discriminate E].
    destruct (T4 So.decola_internacional rc s' E) as (tr & Hh & Ho).
    exists rc, s'. split; [reflexivity|]. rewrite Hh. exact Ho.
Defined.

(** In So.c an international flight takes off gate first, runway
    second and tower last, against the order of the table (tower, gate,
    runway). *)
Lemma ordem_contraexemplo :
  exists s',
    So.fase_decolagem false So.decola_internacional = Some (0, s')
    /\ So.tipo (So.aviao So.decola_internacional) = So.INTERNACIONAL
    /\ So.obtidos (So.historico s') = [PORTAO; PISTA; TORRE]
    /\ SoFinal.ordem SoFinal.DECOLAGEM = [TORRE; PORTAO; PISTA]
    /\ So.em_ordem (SoFinal.ordem SoFinal.DECOLAGEM) (So.historico s')
       = None.
Proof.
  eexists. split; [vm_compute; reflexivity|].
  repeat split; reflexivity.
Qed.

(** ** An aircraft that was given up goes no further *)

Section Falho.
Import SoFinal.

Lemma checa_falha_falho m a :
  falho a -> checa_falha m a = (true, (m, a)).
Proof.
  intros H. unfold checa_falha, verificar_starvation.
  destruct H as [H|H]; rewrite H; simpl; rewrite H; reflexivity.
Qed.

Lemma checa_falha_m_falho s :
  falho (aviao s) -> checa_falha_m s = Some (true, s).
Proof.
  intros H. unfold checa_falha_m. rewrite (checa_falha_falho _ _ H).
  destruct s; reflexivity.
Qed.

Lemma entrada_falho s :
  falho (aviao s) -> entrada s = Some (Some (-1), s).
Proof.
  intros H. unfold entrada. unfold bind at 1.
  rewrite (checa_falha_m_falho s H). reflexivity.
Qed.

(** Phase entry: the phase returns -1 and leaves the state as it
    was. *)
Lemma fase_falho f s :
  falho (aviao s) -> fase f s = Some (-1, s).
Proof.
  intros H.
  destruct f; unfold fase, pouso, desembarque, decolagem, segue;
    unfold bind at 1; rewrite (entrada_falho s H); reflexivity.
Qed.

(** Reservation: SEM_AVIAO_FALHOU, or SEM_SIM_ENCERRADA when the
    simulation is over, with no wait and no debit. *)
Lemma reservar_falho np ng nt timeout_seg s :
  falho (aviao s) ->
  exists rc s',
    reservar_recursos np ng nt timeout_seg s = Some (rc, s')
    /\ rc = (if simulacao_ativa (mundo s) then SEM_AVIAO_FALHOU
             else SEM_SIM_ENCERRADA)
    /\ mundo s' = mundo s /\ aviao s' = aviao s
    /\ ambiente s' = ambiente s
    /\ historico s' = historico s ++ [EvReservar np ng nt rc].
Proof.
  intros H. unfold reservar_recursos. unfold bind at 1. unfold le.
  cbn [reservar_laco]. unfold bind at 1 2.
  unfold reservar_volta, le_mundo. unfold bind at 1 2. unfold le, ret at 1.
  destruct (simulacao_ativa (mundo s)); cbn [negb].
  - unfold bind at 1. rewrite (checa_falha_m_falho s H).
    unfold ret at 1 2. unfold emite, altera, bind, ret.
    eexists. eexists. split; [reflexivity|]. simpl. auto.
  - unfold ret at 1 2. unfold emite, altera, bind, ret.
    eexists. eexists. split; [reflexivity|]. simpl. auto.
Qed.

Lemma deve_aguardar_falho limite s :
  falho (aviao s) -> deve_aguardar limite s = Some (false, s).
Proof.
  intros H. unfold deve_aguardar, le_mundo.
  unfold bind at 1 2. unfold le, ret at 1.
  destruct (_ && _); [|reflexivity].
  unfold bind at 1. rewrite (checa_falha_m_falho s H). reflexivity.
Qed.

Lemma desistiu_falho s :
  falho (aviao s) -> desistiu s = Some (true, s).
Proof.
  intros H. unfold desistiu, le_mundo.
  unfold bind at 1 2. unfold le, ret at 1.
  destruct (negb _); [reflexivity|]. exact (checa_falha_m_falho s H).
Qed.

(** Priority wait: the aircraft enters the queue and leaves it at
    once, without waiting. *)
Lemma aguardar_falho t s :
  falho (aviao s) ->
  exists s',
    aguardar_prioridade t s = Some (tt, s')
    /\ ambiente s' = ambiente s
    /\ historico s' = historico s ++ [EvEntraFila t; EvDesiste t]
    /\ esperando_internacional (mundo s')
       = esperando_internacional (mundo s)
    /\ esperando_domestico (mundo s') = esperando_domestico (mundo s)
    /\ reserva (mundo s') = reserva (mundo s).
Proof.
  intros H. unfold aguardar_prioridade.
  unfold time, le_mundo, poe_aviao, poe_mundo, emite, altera.
  cbn [aguardar_laco]. unfold bind, le, ret.
  match goal with
  | |- context [deve_aguardar ?l ?s1] =>
      rewrite (deve_aguardar_falho l s1 H);
      rewrite (desistiu_falho s1 H)
  end.
  eexists. split; [reflexivity|]. simpl. rewrite <- app_assoc.
  split; [reflexivity|]. split; [reflexivity|].
  destruct t; simpl; repeat split; lia.
Qed.

End Falho.

Lemma checa_falha_ref_marcado m a :
  SoRefatorado.ja_marcado (SoRefatorado.status_final a) = true ->
  SoRefatorado.checa_falha m a = (true, (m, a)).
Proof.
  intros H. unfold SoRefatorado.checa_falha, SoRefatorado.verificar_starvation.
  rewrite H. rewrite H. reflexivity.
Qed.

Lemma reservar_ref_marcado amb m a np ng nt timeout_seg :
  SoRefatorado.ja_marcado (SoRefatorado.status_final a) = true ->
  SoRefatorado.reservar_recursos amb m a np ng nt timeout_seg
  = Some (if SoRefatorado.simulacao_ativa m
          then SoRefatorado.SEM_AVIAO_FALHOU
          else SoRefatorado.SEM_SIM_ENCERRADA, (m, a), amb).
Proof.
  intros H. unfold SoRefatorado.reservar_recursos.
  destruct amb as [|i amb]; cbn [SoRefatorado.reservar_laco];
    destruct (SoRefatorado.simulacao_ativa m); cbn [negb];
    rewrite ?(checa_falha_ref_marcado m a H); reflexivity.
Qed.

Section FalhoRefatorado.
Import SoRefatorado.

Lemma checa_falha_m_ref_marcado s :
  ja_marcado (status_final (aviao s)) = true ->
  checa_falha_m s = Some (true, s).
Proof.
  intros H. unfold checa_falha_m.
  rewrite (checa_falha_ref_marcado _ _ H). destruct s; reflexivity.
Qed.

(** Phase entry: the phase returns -1 and leaves the state as it
    was. *)
Lemma fase_ref_marcado f s :
  ja_marcado (status_final (aviao s)) = true -> fase f s = Some (-1, s).
Proof.
  intros H.
  destruct f; unfold fase, pouso, desembarque, decolagem, segue, entrada;
    unfold bind at 1 2; rewrite (checa_falha_m_ref_marcado s H);
    reflexivity.
Qed.

Lemma esperando_com_esperando_ref t v m :
  esperando t (com_esperando t v m) = v.
Proof. destruct t; reflexivity. Qed.

(** Priority wait: the aircraft is counted in the queue of its class
    and comes back without waiting; it stays counted. *)
Lemma aguardar_ref_marcado t s :
  ja_marcado (status_final (aviao s)) = true ->
  exists s',
    aguardar_prioridade t s = Some (tt, s')
    /\ ambiente s' = ambiente s
    /\ aviao s' = aviao s
    /\ historico s' = historico s ++ [EvEntraFila t]
    /\ esperando t (mundo s') = esperando t (mundo s) + 1.
Proof.
  intros H. unfold aguardar_prioridade.
  unfold le_mundo, poe_mundo, emite, altera.
  cbn [aguardar_laco]. unfold bind, le, ret.
  unfold deve_aguardar, le_mundo, bind, le, ret.
  cbn [mundo aviao ambiente historico].
  match goal with
  | |- context [if ?b then _ else _] => destruct b
  end.
  - rewrite checa_falha_m_ref_marcado by exact H.
    eexists. split; [reflexivity|]. simpl.
    rewrite esperando_com_esperando_ref. auto.
  - eexists. split; [reflexivity|]. simpl.
    rewrite esperando_com_esperando_ref. auto.
Qed.

End FalhoRefatorado.

(** C2 (So-final.c and So_refatorado_corrigido.c, checa_falha and the
    operations that call it).  For an aircraft whose status is FALHA or
    STARVATION, and in So_refatorado_corrigido.c also DEADLOCK,
    checa_falha reports true and changes nothing, and every operation
    that checks it stops at once.  In both files a phase returns -1 and
    leaves the state as it was, and reservar_recursos returns
    SEM_AVIAO_FALHOU (SEM_SIM_ENCERRADA once the simulation is over)
    without waiting and without debiting the gate.  aguardar_prioridade
    comes back without waiting: in So-final.c it has taken back the
    registration it made, so that the two queue counters are as before;
    in So_refatorado_corrigido.c it leaves the aircraft counted, the
    counter of its class one higher. *)
Theorem falha_interrompe :
  (forall m a,
      SoFinal.falho a -> SoFinal.checa_falha m a = (true, (m, a)))
  /\ (forall f s,
         SoFinal.falho (SoFinal.aviao s) ->
         SoFinal.fase f s = Some (-1, s))
  /\ (forall np ng nt timeout_seg s,
         SoFinal.falho (SoFinal.aviao s) ->
         exists rc s',
           SoFinal.reservar_recursos np ng nt timeout_seg s = Some (rc, s')
           /\ rc = (if SoFinal.simulacao_ativa (SoFinal.mundo s)
                    then SoFinal.SEM_AVIAO_FALHOU
                    else SoFinal.SEM_SIM_ENCERRADA)
           /\ SoFinal.mundo s' = SoFinal.mundo s
           /\ SoFinal.aviao s' = SoFinal.aviao s
           /\ SoFinal.ambiente s' = SoFinal.ambiente s
           /\ SoFinal.historico s'
              = SoFinal.historico s ++ [SoFinal.EvReservar np ng nt rc])
  /\ (forall t s,
         SoFinal.falho (SoFinal.aviao s) ->
         exists s',
           SoFinal.aguardar_prioridade t s = Some (tt, s')
           /\ SoFinal.ambiente s' = SoFinal.ambiente s
           /\ SoFinal.historico s'
              = SoFinal.historico s
                ++ [SoFinal.EvEntraFila t; SoFinal.EvDesiste t]
           /\ SoFinal.esperando_internacional (SoFinal.mundo s')
              = SoFinal.esperando_internacional (SoFinal.mundo s)
           /\ SoFinal.esperando_domestico (SoFinal.mundo s')
              = SoFinal.esperando_domestico (SoFinal.mundo s)
           /\ SoFinal.reserva (SoFinal.mundo s')
              = SoFinal.reserva (SoFinal.mundo s))
  /\ (forall m a,
         SoRefatorado.ja_marcado (SoRefatorado.status_final a) = true ->
         SoRefatorado.checa_falha m a = (true, (m, a)))
  /\ (forall amb m a np ng nt timeout_seg,
         SoRefatorado.ja_marcado (SoRefatorado.status_final a) = true ->
         SoRefatorado.reservar_recursos amb m a np ng nt timeout_seg
         = Some (if SoRefatorado.simulacao_ativa m
                 then SoRefatorado.SEM_AVIAO_FALHOU
                 else SoRefatorado.SEM_SIM_ENCERRADA, (m, a), amb))
  /\ (forall f s,
         SoRefatorado.ja_marcado
           (SoRefatorado.status_final (SoRefatorado.aviao s)) = true ->
         SoRefatorado.fase f s = Some (-1, s))
  /\ (forall t s,
         SoRefatorado.ja_marcado
           (SoRefatorado.status_final (SoRefatorado.aviao s)) = true ->
         exists s',
           SoRefatorado.aguardar_prioridade t s = Some (tt, s')
           /\ SoRefatorado.ambiente s' = SoRefatorado.ambiente s
           /\ SoRefatorado.aviao s' = SoRefatorado.aviao s
           /\ SoRefatorado.historico s'
              = SoRefatorado.historico s ++ [SoRefatorado.EvEntraFila t]
           /\ SoRefatorado.esperando t (SoRefatorado.mundo s')
              = SoRefatorado.esperando t (SoRefatorado.mundo s) + 1).
Proof.
  split; [exact checa_falha_falho|].
  split; [exact fase_falho|].
  split; [exact reservar_falho|].
  split; [exact aguardar_falho|].
  split; [exact checa_falha_ref_marcado|].
  split; [exact reservar_ref_marcado|].
  split; [exact fase_ref_marcado|exact aguardar_ref_marcado].
Qed.

Lemma falha_interrompe_testemunha :
  fst (SoFinal.checa_falha (SoFinal.mundo SoFinal.ja_falhou)
                           (SoFinal.aviao SoFinal.ja_falhou)) = true
  /\ SoFinal.fase SoFinal.POUSO SoFinal.ja_falhou
     = Some (-1, SoFinal.ja_falhou)
  /\ (exists s',
         SoFinal.reservar_recursos 1 0 1 10 SoFinal.ja_falhou
         = Some (SoFinal.SEM_AVIAO_FALHOU, s')
         /\ SoFinal.ambiente s' = SoFinal.ambiente SoFinal.ja_falhou)
  /\ (exists s',
         SoFinal.aguardar_prioridade SoFinal.DOMESTICO SoFinal.ja_falhou
         = Some (tt, s')
         /\ SoFinal.ambiente s' = SoFinal.ambiente SoFinal.ja_falhou
         /\ SoFinal.esperando_domestico (SoFinal.mundo s')
            = SoFinal.esperando_domestico (SoFinal.mundo SoFinal.ja_falhou))
  /\ fst (SoRefatorado.checa_falha
            (SoRefatorado.inicializarRecursos 3 5 2 100)
            (SoRefatorado.com_status SoRefatorado.DEADLOCK
               (SoRefatorado.novo 1 SoRefatorado.INTERNACIONAL 100)))
     = true
  /\ SoRefatorado.reservar_recursos []
       (SoRefatorado.inicializarRecursos 3 5 2 100)
       (SoRefatorado.com_status SoRefatorado.DEADLOCK
          (SoRefatorado.novo 1 SoRefatorado.INTERNACIONAL 100)) 1 0 1 10
     = Some (SoRefatorado.SEM_AVIAO_FALHOU,
             (SoRefatorado.inicializarRecursos 3 5 2 100,
              SoRefatorado.com_status SoRefatorado.DEADLOCK
                (SoRefatorado.novo 1 SoRefatorado.INTERNACIONAL 100)), [])
  /\ SoRefatorado.fase SoRefatorado.DECOLAGEM SoRefatorado.voo_marcado
     = Some (-1, SoRefatorado.voo_marcado)
  /\ (exists s',
         SoRefatorado.aguardar_prioridade SoRefatorado.INTERNACIONAL
                                          SoRefatorado.voo_marcado
         = Some (tt, s')
         /\ SoRefatorado.esperando_internacional (SoRefatorado.mundo s')
            = 1).
Proof.
  destruct falha_interrompe
    as (T1 & T2 & T3 & T4 & T5 & T6 & T7 & T8).
  assert (H : SoFinal.falho (SoFinal.aviao SoFinal.ja_falhou))
    by (left; reflexivity).
  split; [rewrite (T1 _ _ H); reflexivity|].
  split; [exact (T2 SoFinal.POUSO _ H)|].
  split.
  { destruct (T3 1 0 1 10 _ H) as (rc & s' & E & Hrc & _ & _ & Ha & _).
    exists s'. rewrite Hrc in E. auto. }
  split.
  { destruct (T4 SoFinal.DOMESTICO _ H) as (s' & E & Ha & _ & _ & Hd & _).
    exists s'. auto. }
  split.
  { rewrite (T5 (SoRefatorado.inicializarRecursos 3 5 2 100)
               (SoRefatorado.com_status SoRefatorado.DEADLOCK
                  (SoRefatorado.novo 1 SoRefatorado.INTERNACIONAL 100))
               eq_refl).
    reflexivity. }
  split.
  { exact (T6 [] (SoRefatorado.inicializarRecursos 3 5 2 100)
              (SoRefatorado.com_status SoRefatorado.DEADLOCK
                 (SoRefatorado.novo 1 SoRefatorado.INTERNACIONAL 100))
              1 0 1 10 eq_refl). }
  split; [exact (T7 SoRefatorado.DECOLAGEM SoRefatorado.voo_marcado
                    eq_refl)|].
  destruct (T8 SoRefatorado.INTERNACIONAL SoRefatorado.voo_marcado eq_refl)
    as (s' & E & _ & _ & _ & He).
  exists s'. split; [exact E|exact He].
Defined.

(** SUCESSO is not a status that checa_falha looks for, in either
    variant: in So-final.c every aircraft starts with it, and the
    flight lands, taking the tower and the runway. *)
Lemma falha_contraexemplo :
  SoFinal.status_final (SoFinal.aviao SoFinal.voo_tranquilo)
  = SoFinal.SUCESSO
  /\ fst (SoFinal.checa_falha (SoFinal.mundo SoFinal.voo_tranquilo)
                              (SoFinal.aviao SoFinal.voo_tranquilo))
     = false
  /\ (exists s',
         SoFinal.pouso SoFinal.voo_tranquilo = Some (0, s')
         /\ SoFinal.tentados (SoFinal.historico s') = [TORRE; PISTA])
  /\ fst (SoRefatorado.checa_falha
            (SoRefatorado.inicializarRecursos 3 5 2 100)
            (SoRefatorado.com_status SoRefatorado.SUCESSO
               (SoRefatorado.novo 1 SoRefatorado.DOMESTICO 100)))
     = false.
Proof.
  split; [reflexivity|]. split; [reflexivity|].
  split; [|reflexivity].
  eexists. split; [vm_compute; reflexivity|reflexivity].
Qed.

(** C4 (So_restrito.c, adquirir_fase).  A domestic flight that holds a
    tower slot and is polling the runway when its wait reaches ninety
    seconds leaves adquirir_fase with -1 and the tower slot still
    taken: the log has the acquisition and no sem_post.  In the same
    situation the loop of fase_pouso of So.c posts the tower slot back
    before it returns -1. *)
Theorem rollback_restrito :
  (exists s',
      SoRestrito.adquirir_fase false 0 SoRestrito.cai_com_a_torre
      = Some (-1, s')
      /\ SoRestrito.falhou (SoRestrito.aviao s') = true
      /\ SoRestrito.historico s' = [SoRestrito.EvPegou TORRE]
      /\ SoRestrito.sem_valor TORRE (SoRestrito.mundo s') = 1)
  /\ (exists s',
         So.par_laco 3 TORRE PISTA false So.cai_e_devolve
         = Some (Some (-1), s')
         /\ So.falhou (So.aviao s') = true
         /\ So.historico s' = [So.EvObteve TORRE; So.EvLibera TORRE]
         /\ So.sem_valor TORRE (So.mundo s') = 2).
Proof.
  split; eexists; (split; [vm_compute; reflexivity|]);
    repeat split; reflexivity.
Qed.

(** * Further properties of the code *)

(** ** verificar_starvation, the sweep of the monitor and the report *)

Lemma verificar_starvation_fixo m a :
  let r := SoFinal.verificar_starvation m a in
  SoFinal.verificar_starvation (fst r) (snd r) = r.
Proof.
  cbv zeta. unfold SoFinal.verificar_starvation.
  destruct (SoFinal.ja_marcado (SoFinal.status_final a)) eqn:Hj.
  { simpl. rewrite Hj. reflexivity. }
  destruct (_ && negb _) eqn:Hc.
  - cbn [fst snd]. simpl.
    rewrite andb_false_r.
    apply andb_true_iff in Hc. destruct Hc as [Hc _].
    apply andb_true_iff in Hc. destruct Hc as [_ Hc].
    apply Z.ltb_lt in Hc.
    replace (SoFinal.TEMPO_MAXIMO_ESPERA <=? _) with false
      by (symmetry; apply Z.leb_gt; exact Hc).
    reflexivity.
  - destruct (SoFinal.TEMPO_MAXIMO_ESPERA <=? _) eqn:H9.
    + destruct (SoFinal.tipo a); reflexivity.
    + cbn [fst snd]. rewrite Hj, Hc, H9. reflexivity.
Qed.

Lemma verificar_starvation_ref_fixo m a :
  let r := SoRefatorado.verificar_starvation m a in
  SoRefatorado.verificar_starvation (fst r) (snd r) = r.
Proof.
  cbv zeta. unfold SoRefatorado.verificar_starvation.
  destruct (SoRefatorado.ja_marcado (SoRefatorado.status_final a)) eqn:Hj.
  { simpl. rewrite Hj. reflexivity. }
  destruct (_ && negb _) eqn:Hc.
  - cbn [fst snd].
    apply andb_true_iff in Hc. destruct Hc as [Hc _].
    apply andb_true_iff in Hc. destruct Hc as [_ Hc].
    apply Z.ltb_lt in Hc.
    assert (H9 : (SoRefatorado.TEMPO_MAXIMO_ESPERA
                  <=? SoRefatorado.relogio m
                      - SoRefatorado.ultimo_tempo_espera a) = false)
      by (apply Z.leb_gt; exact Hc).
    destruct (SoRefatorado.status_final a) eqn:Hs; try discriminate Hj;
      simpl; rewrite ?Hs; simpl; rewrite ?Hs; simpl;
      rewrite andb_false_r, H9; reflexivity.
  - destruct (SoRefatorado.TEMPO_MAXIMO_ESPERA <=? _) eqn:H9.
    + destruct (SoRefatorado.tipo a); reflexivity.
    + cbn [fst snd]. rewrite Hj, Hc, H9. reflexivity.
Qed.

(** X1 (So-final.c and So_refatorado_corrigido.c, verificar_starvation).
    Checking an aircraft twice in a row is checking it once: the second
    call changes nothing.  And the two counters move together with the
    status: their sum goes up by one exactly when the call marks an
    aircraft that was not marked, and stays as it was otherwise. *)
Theorem verificar_starvation_uma_vez :
  (forall m a,
      let r := SoFinal.verificar_starvation m a in
      SoFinal.verificar_starvation (fst r) (snd r) = r
      /\ SoFinal.deadlock_count (fst r) + SoFinal.acidentes_count (fst r)
         = SoFinal.deadlock_count m + SoFinal.acidentes_count m
           + (if SoFinal.ja_marcado (SoFinal.status_final (snd r))
                 && negb (SoFinal.ja_marcado (SoFinal.status_final a))
              then 1 else 0))
  /\ (forall m a,
         let r := SoRefatorado.verificar_starvation m a in
         SoRefatorado.verificar_starvation (fst r) (snd r) = r
         /\ SoRefatorado.deadlock_count (fst r)
            + SoRefatorado.acidentes_count (fst r)
            = SoRefatorado.deadlock_count m + SoRefatorado.acidentes_count m
              + (if SoRefatorado.ja_marcado
                      (SoRefatorado.status_final (snd r))
                    && negb (SoRefatorado.ja_marcado
                               (SoRefatorado.status_final a))
                 then 1 else 0)).
Proof.
  split; intros m a; cbv zeta.
  - split; [exact (verificar_starvation_fixo m a)|].
    unfold SoFinal.verificar_starvation.
    destruct (SoFinal.ja_marcado (SoFinal.status_final a)) eqn:Hj.
    { simpl. rewrite Hj. simpl. lia. }
    destruct (_ && negb _); [simpl; lia|].
    destruct (SoFinal.TEMPO_MAXIMO_ESPERA <=? _).
    + destruct (SoFinal.tipo a); simpl; lia.
    + simpl. rewrite Hj. simpl. lia.
  - split; [exact (verificar_starvation_ref_fixo m a)|].
    unfold SoRefatorado.verificar_starvation.
    destruct (SoRefatorado.ja_marcado (SoRefatorado.status_final a)) eqn:Hj.
    { simpl. rewrite Hj. simpl. lia. }
    destruct (_ && negb _).
    + destruct (SoRefatorado.status_final a) eqn:Hs; try discriminate Hj;
        simpl; rewrite ?Hs; simpl; rewrite ?Hs; simpl; lia.
    + destruct (SoRefatorado.TEMPO_MAXIMO_ESPERA <=? _).
      * destruct (SoRefatorado.tipo a); simpl; lia.
      * simpl. rewrite Hj. simpl. lia.
Qed.

Section Varredura.
Import SoFinal.

Lemma com_status_de_cons st a l :
  com_status_de st (a :: l)
  = (if criado a && status_eqb (status_final a) st then 1 else 0)
    + com_status_de st l.
Proof.
  unfold com_status_de. simpl.
  destruct (criado a && status_eqb (status_final a) st); simpl length; lia.
Qed.

(** What the body of the sweep does to one record. *)
Lemma monitor_deadlock_casos t a :
  (monitor_deadlock t a = (a, 0)
   /\ (criado a && status_eqb (status_final a) ALERTA_CRITICO
       && parado t a = false))
  \/ (monitor_deadlock t a = (com_status DEADLOCK a, 1)
      /\ criado a = true /\ status_final a = ALERTA_CRITICO
      /\ parado t a = true).
Proof.
  unfold monitor_deadlock, criado, parado.
  destruct (id a =? 0); [left; auto|].
  destruct (status_final a) eqn:Hs; try (left; split; reflexivity).
  destruct (_ || _) eqn:Hp; [right; auto|left; auto].
Qed.

Lemma varre_cons t a l :
  varre t (a :: l)
  = (fst (monitor_deadlock t a) :: fst (varre t l),
     snd (monitor_deadlock t a) + snd (varre t l)).
Proof.
  simpl. destruct (monitor_deadlock t a) as [a' d].
  destruct (varre t l) as [l' n]. reflexivity.
Qed.

Lemma varre_conta t l :
  snd (varre t l)
  = com_status_de DEADLOCK (fst (varre t l)) - com_status_de DEADLOCK l.
Proof.
  induction l as [|a l IH]; [reflexivity|].
  rewrite varre_cons. cbn [fst snd]. rewrite !com_status_de_cons, IH.
  destruct (monitor_deadlock_casos t a) as [[E _]|(E & Hc & Hs & _)];
    rewrite E; cbn [fst snd].
  - lia.
  - assert (H1 : criado (com_status DEADLOCK a)
                 && status_eqb (status_final (com_status DEADLOCK a))
                               DEADLOCK = true)
      by (rewrite andb_true_iff; split; [exact Hc|reflexivity]).
    assert (H0 : criado a && status_eqb (status_final a) DEADLOCK = false)
      by (rewrite Hs; apply andb_false_r).
    rewrite H1, H0. lia.
Qed.

Lemma varre_marca t l :
  Forall2 (fun a a' =>
             a' = a
             \/ (criado a = true /\ status_final a = ALERTA_CRITICO
                 /\ parado t a = true /\ a' = com_status DEADLOCK a))
          l (fst (varre t l)).
Proof.
  induction l as [|a l IH]; [constructor|].
  rewrite varre_cons. cbn [fst]. constructor; [|exact IH].
  destruct (monitor_deadlock_casos t a) as [[E _]|(E & Hc & Hs & Hp)];
    rewrite E; cbn [fst]; auto.
Qed.

Lemma varre_de_novo t l :
  varre t (fst (varre t l)) = (fst (varre t l), 0).
Proof.
  induction l as [|a l IH]; [reflexivity|].
  rewrite varre_cons. cbn [fst]. rewrite varre_cons, IH. cbn [fst snd].
  destruct (monitor_deadlock_casos t a) as [[E _]|(E & Hc & Hs & Hp)];
    rewrite E; cbn [fst].
  - rewrite E. reflexivity.
  - unfold monitor_deadlock. unfold criado in Hc. simpl.
    destruct (id a =? 0); reflexivity.
Qed.

End Varredura.

(** X2 (So-final.c, monitor_deadlock).  A sweep of the monitor marks
    DEADLOCK only records that hold an aircraft in ALERTA_CRITICO with a
    phase open for more than LIMITE_DEADLOCK seconds, and changes no
    other record; deadlock_count goes up by exactly the number of
    records that became DEADLOCK; and a second sweep at the same time
    marks nothing. *)
Theorem monitor_varre :
  forall m avioes,
    let r := SoFinal.monitor_passada m avioes in
    Forall2 (fun a a' =>
               a' = a
               \/ (SoFinal.criado a = true
                   /\ SoFinal.status_final a = SoFinal.ALERTA_CRITICO
                   /\ SoFinal.parado (SoFinal.relogio m) a = true
                   /\ a' = SoFinal.com_status SoFinal.DEADLOCK a))
            avioes (snd r)
    /\ SoFinal.deadlock_count (fst r)
       = SoFinal.deadlock_count m
         + (SoFinal.com_status_de SoFinal.DEADLOCK (snd r)
            - SoFinal.com_status_de SoFinal.DEADLOCK avioes)
    /\ SoFinal.monitor_passada (fst r) (snd r) = r.
Proof.
  intros m avioes. cbv zeta. unfold SoFinal.monitor_passada.
  pose proof (varre_marca (SoFinal.relogio m) avioes) as H1.
  pose proof (varre_conta (SoFinal.relogio m) avioes) as H2.
  pose proof (varre_de_novo (SoFinal.relogio m) avioes) as H3.
  destruct (SoFinal.varre (SoFinal.relogio m) avioes) as [l' n].
  cbn [fst snd] in *. split; [exact H1|]. split; [simpl; lia|].
  simpl SoFinal.relogio. rewrite H3.
  unfold SoFinal.com_deadlock_count. simpl. rewrite Z.add_0_r.
  reflexivity.
Qed.

Section Relatorio.
Import SoFinal.

Lemma soma_no_resumo_conta r a st :
  (match st with
   | SUCESSO => sucesso | FALHA => falha | ALERTA_CRITICO => alerta
   | STARVATION => starvation | DEADLOCK => deadlocks
   end) (soma_no_resumo r a)
  = (match st with
     | SUCESSO => sucesso | FALHA => falha | ALERTA_CRITICO => alerta
     | STARVATION => starvation | DEADLOCK => deadlocks
     end) r
    + (if criado a && status_eqb (status_final a) st then 1 else 0).
Proof.
  unfold soma_no_resumo, criado.
  destruct (id a =? 0); simpl; [destruct st; lia|].
  destruct (status_final a), st; simpl; lia.
Qed.

Lemma resumo_conta st l :
  forall r,
    (match st with
     | SUCESSO => sucesso | FALHA => falha | ALERTA_CRITICO => alerta
     | STARVATION => starvation | DEADLOCK => deadlocks
     end) (fold_left soma_no_resumo l r)
    = (match st with
       | SUCESSO => sucesso | FALHA => falha | ALERTA_CRITICO => alerta
       | STARVATION => starvation | DEADLOCK => deadlocks
       end) r
      + com_status_de st l.
Proof.
  induction l as [|a l IH]; intros r.
  - unfold com_status_de. simpl. lia.
  - simpl fold_left. rewrite IH, soma_no_resumo_conta, com_status_de_cons.
    lia.
Qed.

Lemma criados_por_status l :
  com_status_de SUCESSO l + com_status_de FALHA l
  + com_status_de ALERTA_CRITICO l + com_status_de STARVATION l
  + com_status_de DEADLOCK l
  = Z.of_nat (length (filter criado l)).
Proof.
  induction l as [|a l IH]; [reflexivity|].
  rewrite !com_status_de_cons. simpl filter.
  destruct (criado a); simpl andb.
  - cbn [length]. rewrite Nat2Z.inj_succ.
    destruct (status_final a); cbn [status_eqb]; lia.
  - lia.
Qed.

End Relatorio.

(** X3 (So-final.c, gerarRelatorioFinal).  Each total of the final
    report is the number of created aircraft (records with a non-zero
    id) that have that status, so the five totals add up to the number
    of created aircraft: every aircraft is counted once. *)
Theorem relatorio_conta_todos :
  forall avioes,
    let r := SoFinal.gerarRelatorioFinal avioes in
    SoFinal.sucesso r = SoFinal.com_status_de SoFinal.SUCESSO avioes
    /\ SoFinal.falha r = SoFinal.com_status_de SoFinal.FALHA avioes
    /\ SoFinal.alerta r
       = SoFinal.com_status_de SoFinal.ALERTA_CRITICO avioes
    /\ SoFinal.starvation r
       = SoFinal.com_status_de SoFinal.STARVATION avioes
    /\ SoFinal.deadlocks r = SoFinal.com_status_de SoFinal.DEADLOCK avioes
    /\ SoFinal.sucesso r + SoFinal.falha r + SoFinal.alerta r
       + SoFinal.starvation r + SoFinal.deadlocks r
       = Z.of_nat (length (filter SoFinal.criado avioes)).
Proof.
  intros avioes. cbv zeta. unfold SoFinal.gerarRelatorioFinal.
  pose proof (resumo_conta SoFinal.SUCESSO avioes) as H1.
  pose proof (resumo_conta SoFinal.FALHA avioes) as H2.
  pose proof (resumo_conta SoFinal.ALERTA_CRITICO avioes) as H3.
  pose proof (resumo_conta SoFinal.STARVATION avioes) as H4.
  pose proof (resumo_conta SoFinal.DEADLOCK avioes) as H5.
  cbv beta iota in H1, H2, H3, H4, H5.
  rewrite H1, H2, H3, H4, H5. simpl.
  pose proof (criados_por_status avioes). repeat split; lia.
Qed.

(** ** So-final.c: the return codes of reservar_recursos *)


(** X4 (So-final.c, reservar_recursos).  The call returns one of its
    four codes, each for its own reason as the state it leaves shows:
    SEM_SIM_ENCERRADA only with the simulation stopped,
    SEM_AVIAO_FALHOU only for an aircraft marked FALHA or STARVATION,
    SEM_TIMEOUT only when at least timeout_seg seconds have passed on
    the clock since the call, and SEM_OK only with the simulation
    running and the aircraft not marked. *)
Theorem reservar_recursos_motivo np ng nt timeout_seg s rc s' :
  SoFinal.reservar_recursos np ng nt timeout_seg s = Some (rc, s') ->
  SoFinal.motivo (SoFinal.relogio (SoFinal.mundo s)) timeout_seg rc s'.
Proof.
  unfold SoFinal.reservar_recursos. unfold bind at 1. unfold le.
  unfold bind at 1.
  destruct (SoFinal.reservar_laco _ _ _ _ _ _ s) as [[rc1 s1]|] eqn:E;
    [|discriminate].
  pose proof (reservar_laco_motivo _ _ _ _ _ _ _ _ _ E) as H.
  intros H'. simpl in H'. injection H' as <- <-. exact H.
Qed.

Lemma reservar_recursos_motivo_testemunha :
  exists s',
    SoFinal.reservar_recursos 1 0 1 10 SoFinal.domestico_barrado
    = Some (SoFinal.SEM_TIMEOUT, s')
    /\ 10 <= SoFinal.relogio (SoFinal.mundo s') - 100.
Proof.
  destruct (SoFinal.reservar_recursos 1 0 1 10 SoFinal.domestico_barrado)
    as [[rc s']|] eqn:E; [|vm_compute in E; discriminate E].
  pose proof (reservar_recursos_motivo 1 0 1 10 _ rc s' E) as H.
  pose proof E as E'. vm_compute in E'. injection E' as Hrc _.
  exists s'. rewrite <- Hrc in *. split; [reflexivity|].
  destruct H as [[X _]|[(_ & _ & _ & Ht)|[[X _]|[X _]]]];
    try discriminate X.
  exact Ht.
Defined.

(** ** So-final.c: what a phase leaves behind on every path *)

Lemma rastro_saldo f t p c :
  SoFinal.possivel f p c ->
  forall x,
    (SoFinal.tomadas x (fst (SoFinal.rastro f t p c))
     + (if SoFinal.tem x p then 1 else 0)
     = SoFinal.devolvidas x (fst (SoFinal.rastro f t p c))
       + (if SoFinal.tem x (snd (SoFinal.rastro f t p c)) then 1 else 0))%nat
    /\ (SoFinal.tem x (snd (SoFinal.rastro f t p c)) = true ->
        SoFinal.tem x p = true).
Proof.
  intros Hp x. destruct c as [|d|d r|d r|d].
  - split; [simpl; lia|auto].
  - split; [destruct d; simpl; lia|auto].
  - split; [destruct d; simpl; lia|auto].
  - destruct Hp as [Hin Ht].
    destruct f, r; simpl in Hin; try (exfalso; intuition discriminate);
      destruct p as [[] [] []]; try discriminate Ht; destruct d, x;
      (split; [unfold SoFinal.tomadas, SoFinal.devolvidas; simpl; lia
              |simpl; congruence]).
  - destruct f, p as [[] [] []], d, x;
      (split; [unfold SoFinal.tomadas, SoFinal.devolvidas; simpl; lia
              |simpl; congruence]).
Qed.

(** X5 (So-final.c, pouso / desembarque / decolagem).  Semaphore units
    are conserved on every return path of a phase, failing or not: for
    each resource, the units the phase took from the semaphore plus the
    one held at the entry are the units it posted plus the one held at
    the return; and a flag is up at the return only if it was up at the
    entry. *)
Theorem fase_conserva_semaforos f s rc s' tr :
  SoFinal.fase f s = Some (rc, s') ->
  SoFinal.historico s' = SoFinal.historico s ++ tr ->
  forall r,
    (SoFinal.tomadas r tr
     + (if SoFinal.has r (SoFinal.aviao s) then 1 else 0)
     = SoFinal.devolvidas r tr
       + (if SoFinal.has r (SoFinal.aviao s') then 1 else 0))%nat
    /\ (SoFinal.has r (SoFinal.aviao s') = true ->
        SoFinal.has r (SoFinal.aviao s) = true).
Proof.
  intros E Hh r.
  destruct (segue_caminho_rastro f s rc s' E)
    as (c & Hp & Hh' & Hpos & _).
  rewrite Hh in Hh'. apply app_inv_head in Hh'. subst tr.
  rewrite !has_posse, Hpos.
  exact (rastro_saldo f _ _ c Hp r).
Qed.

Lemma fase_conserva_semaforos_testemunha :
  exists rc s',
    SoFinal.fase SoFinal.POUSO SoFinal.pouso_com_erro = Some (rc, s')
    /\ SoFinal.tomadas TORRE (SoFinal.historico s') = 1%nat
    /\ SoFinal.devolvidas TORRE (SoFinal.historico s') = 1%nat
    /\ SoFinal.has TORRE (SoFinal.aviao s') = false.
Proof.
  destruct (SoFinal.fase SoFinal.POUSO SoFinal.pouso_com_erro)
    as [[rc s']|] eqn:E; [|vm_compute in E; discriminate E].
  destruct (fase_conserva_semaforos SoFinal.POUSO SoFinal.pouso_com_erro
              rc s' (SoFinal.historico s') E eq_refl TORRE) as [H1 H2].
  pose proof E as E'. vm_compute in E'. injection E' as _ Hs.
  exists rc, s'. split; [reflexivity|].
  assert (Ht : SoFinal.tomadas TORRE (SoFinal.historico s') = 1%nat)
    by (rewrite <- Hs; reflexivity).
  assert (Hf : SoFinal.has TORRE (SoFinal.aviao s') = false).
  { destruct (SoFinal.has TORRE (SoFinal.aviao s')) eqn:X; [|reflexivity].
    discriminate (H2 eq_refl). }
  rewrite Ht, Hf in H1. simpl in H1.
  split; [exact Ht|]. split; [lia|exact Hf].
Defined.

Lemma devolve_valor r :
  (r = 0 /\ SoFinal.devolve r = 0)
  \/ (r = -2 /\ SoFinal.devolve r = -2)
  \/ (r = -3 /\ SoFinal.devolve r = -3)
  \/ (r <> 0 /\ r <> -2 /\ r <> -3 /\ SoFinal.devolve r = -1).
Proof.
  unfold SoFinal.devolve, SoFinal.SEM_OK, SoFinal.SEM_SIM_ENCERRADA,
    SoFinal.SEM_AVIAO_FALHOU.
  destruct (r =? 0) eqn:E0; [apply Z.eqb_eq in E0; auto|].
  destruct (r =? -2) eqn:E2; [apply Z.eqb_eq in E2; simpl; auto|].
  destruct (r =? -3) eqn:E3; [apply Z.eqb_eq in E3; simpl; auto 6|].
  apply Z.eqb_neq in E0, E2, E3. simpl. auto 8.
Qed.

Lemma erros_rastro f t p c :
  SoFinal.possivel f p c ->
  SoFinal.erros (fst (SoFinal.rastro f t p c))
  = match c with
    | SoFinal.CErro _ r => [r]
    | _ => []
    end.
Proof.
  intros Hp. destruct c as [|d|d r|d r|d].
  - reflexivity.
  - destruct d; reflexivity.
  - destruct d; reflexivity.
  - destruct Hp as [Hin Ht].
    destruct f, r; simpl in Hin; try (exfalso; intuition discriminate);
      destruct p as [[] [] []]; try discriminate Ht; destruct d; reflexivity.
  - destruct f, p as [[] [] []], d; reflexivity.
Qed.

(** X6 (So-final.c, pouso / desembarque / decolagem).  A phase returns
    0, -1, SEM_SIM_ENCERRADA or SEM_AVIAO_FALHOU.  It returns 0 exactly
    when its reservation was granted and no sem_wait failed; it hands
    up SEM_SIM_ENCERRADA or SEM_AVIAO_FALHOU exactly when that is what
    its reservation returned; every other failure is -1. *)
Theorem fase_retorno f s rc s' tr :
  SoFinal.fase f s = Some (rc, s') ->
  SoFinal.historico s' = SoFinal.historico s ++ tr ->
  (rc = 0 \/ rc = -1 \/ rc = SoFinal.SEM_SIM_ENCERRADA
   \/ rc = SoFinal.SEM_AVIAO_FALHOU)
  /\ (rc = 0 <->
      SoFinal.codigos tr = [SoFinal.SEM_OK] /\ SoFinal.erros tr = [])
  /\ (rc = SoFinal.SEM_SIM_ENCERRADA <->
      SoFinal.codigos tr = [SoFinal.SEM_SIM_ENCERRADA])
  /\ (rc = SoFinal.SEM_AVIAO_FALHOU <->
      SoFinal.codigos tr = [SoFinal.SEM_AVIAO_FALHOU]).
Proof.
  intros E Hh.
  destruct (segue_caminho_rastro f s rc s' E)
    as (c & Hp & Hh' & _ & _ & Hr & _).
  rewrite Hh in Hh'. apply app_inv_head in Hh'. subst tr rc.
  rewrite (codigos_rastro _ _ _ _ Hp), (erros_rastro _ _ _ _ Hp).
  unfold SoFinal.SEM_SIM_ENCERRADA, SoFinal.SEM_AVIAO_FALHOU,
    SoFinal.SEM_OK.
  assert (L : forall x y : Z, [x] = [y] -> x = y)
    by (intros x y H; injection H as H; exact H).
  destruct c as [|d|d r|d r|d]; simpl SoFinal.retorno;
    [| |simpl in Hp; unfold SoFinal.SEM_OK in Hp;
        destruct (devolve_valor r)
          as [[H0 _]|[[-> ->]|[[-> ->]|(N0 & N2 & N3 & ->)]]];
        [contradiction| | |]| |];
    (split; [lia|]);
    (split;
     [split;
      [intros H; first [lia|split; reflexivity]
      |intros [H1 H2];
       first [reflexivity|discriminate H1|discriminate H2
             |apply L in H1; lia]]|]);
    split;
    (split; intros H;
     first [reflexivity|lia|discriminate H|apply L in H; lia]).
Qed.

Lemma fase_retorno_testemunha :
  exists s',
    SoFinal.fase SoFinal.POUSO SoFinal.sem_pista_encerra
    = Some (SoFinal.SEM_SIM_ENCERRADA, s')
    /\ SoFinal.codigos (SoFinal.historico s') = [SoFinal.SEM_SIM_ENCERRADA].
Proof.
  destruct (SoFinal.fase SoFinal.POUSO SoFinal.sem_pista_encerra)
    as [[rc s']|] eqn:E; [|vm_compute in E; discriminate E].
  destruct (fase_retorno SoFinal.POUSO SoFinal.sem_pista_encerra rc s'
              (SoFinal.historico s') E eq_refl) as (_ & _ & [H _] & _).
  pose proof E as E'. vm_compute in E'. injection E' as Hrc _.
  exists s'. rewrite <- Hrc. split; [reflexivity|].
  apply H. rewrite <- Hrc. reflexivity.
Defined.

Section Conclusao.
Import SoFinal.

Lemma preserva_verdade {A} (c : M Estado A) :
  preserva (fun _ : Estado => True) c.
Proof. intros s _. apply apos_intro. intros x s' _. exact I. Qed.

Variable Q : Estado -> Prop.

Lemma segue_zero (b : M Estado (option Z)) (k : M Estado Z) :
  garante (fun _ => True) b (sai_ou_segue (fun _ => True)) ->
  garante (fun _ => True) k (fun rc s' => rc = 0 -> Q s') ->
  garante (fun _ => True) (segue b k) (fun rc s' => rc = 0 -> Q s').
Proof.
  intros Hb Hk s H. unfold segue. apply apos_bind.
  eapply apos_mono; [exact (Hb s H)|]. cbv beta.
  intros [rc|] s' [_ Hrc].
  - apply apos_ret. intros E. contradiction.
  - exact (Hk s' I).
Qed.

Lemma resto_zero {A} (c : M Estado A) (k : A -> M Estado Z) :
  (forall x, garante (fun _ => True) (k x) (fun rc s' => rc = 0 -> Q s')) ->
  garante (fun _ => True) (bind c k) (fun rc s' => rc = 0 -> Q s').
Proof. apply garante_bind. apply preserva_verdade. Qed.

(** What conclui establishes holds after every phase that returns 0:
    no other return of a phase gives 0. *)
Lemma fase_zero f :
  (forall s, apos (conclui f) (fun _ s' => Q s') s) ->
  garante (fun _ => True) (fase f) (fun rc s' => rc = 0 -> Q s').
Proof.
  intros Hc.
  destruct f; simpl; unfold pouso, desembarque, decolagem;
    (apply segue_zero;
     [apply bloco_entrada; intros; apply preserva_verdade|]);
    (apply resto_zero; intros _);
    (apply resto_zero; intros a);
    (apply resto_zero; intros r);
    (apply segue_zero;
     [apply bloco_reserva_negada; intros; apply preserva_verdade|]);
    repeat (apply segue_zero;
            [apply bloco_toma; intros; apply preserva_verdade|]);
    repeat (apply resto_zero; intros _);
    (intros s _; eapply apos_mono; [apply Hc|]; cbv beta; auto).
Qed.

End Conclusao.

Lemma conclui_repoe f s :
  apos (SoFinal.conclui f)
       (fun _ s' =>
          SoFinal.status_final (SoFinal.aviao s') <> SoFinal.ALERTA_CRITICO
          /\ SoFinal.em_alerta_critico (SoFinal.aviao s') = false
          /\ SoFinal.ultimo_tempo_espera (SoFinal.aviao s')
             = SoFinal.relogio (SoFinal.mundo s')
          /\ SoFinal.verificar_starvation (SoFinal.mundo s')
                                          (SoFinal.aviao s')
             = (SoFinal.mundo s', SoFinal.aviao s')) s.
Proof.
  apply apos_intro. intros rc s' E.
  unfold SoFinal.conclui, SoFinal.libera_minha_prioridade,
    SoFinal.liberar_prioridade, SoFinal.time, SoFinal.le_aviao,
    SoFinal.le_mundo, SoFinal.poe_aviao, SoFinal.poe_mundo, SoFinal.emite,
    altera, bind, le, ret in E.
  simpl in E.
  assert (H : SoFinal.status_final (SoFinal.aviao s') <> SoFinal.ALERTA_CRITICO
              /\ SoFinal.em_alerta_critico (SoFinal.aviao s') = false
              /\ SoFinal.ultimo_tempo_espera (SoFinal.aviao s')
                 = SoFinal.relogio (SoFinal.mundo s')).
  { destruct (SoFinal.status_final (SoFinal.aviao s)) eqn:Hs;
      simpl in E;
      destruct (0 <? _); simpl in E; injection E as _ <-; simpl;
      destruct f; simpl; rewrite ?Hs;
      destruct (SoFinal.tipo (SoFinal.aviao s)); simpl;
      (split; [discriminate|split; reflexivity]). }
  destruct H as (H1 & H2 & H3).
  split; [exact H1|]. split; [exact H2|]. split; [exact H3|].
  unfold SoFinal.verificar_starvation.
  destruct (SoFinal.ja_marcado _); [reflexivity|].
  rewrite H3, Z.sub_diag. reflexivity.
Qed.

(** X7 (So-final.c, pouso / desembarque / decolagem).  A phase that
    returns 0 leaves the aircraft with the alert flag down, a status
    that is not ALERTA_CRITICO, and the starvation clock restarted at
    the time of the return, so that a starvation check made then
    changes nothing. *)
Theorem fase_completa_repoe f s s' :
  SoFinal.fase f s = Some (0, s') ->
  SoFinal.status_final (SoFinal.aviao s') <> SoFinal.ALERTA_CRITICO
  /\ SoFinal.em_alerta_critico (SoFinal.aviao s') = false
  /\ SoFinal.ultimo_tempo_espera (SoFinal.aviao s')
     = SoFinal.relogio (SoFinal.mundo s')
  /\ SoFinal.verificar_starvation (SoFinal.mundo s') (SoFinal.aviao s')
     = (SoFinal.mundo s', SoFinal.aviao s').
Proof.
  intros E.
  pose proof (fase_zero _ f (conclui_repoe f) s I) as H.
  exact (apos_elim _ _ _ _ _ H E eq_refl).
Qed.

Lemma fase_completa_repoe_testemunha :
  exists s',
    SoFinal.fase SoFinal.POUSO SoFinal.alerta_que_pousa = Some (0, s')
    /\ SoFinal.status_final (SoFinal.aviao s') <> SoFinal.ALERTA_CRITICO
    /\ SoFinal.ultimo_tempo_espera (SoFinal.aviao s') = 101.
Proof.
  destruct (SoFinal.fase SoFinal.POUSO SoFinal.alerta_que_pousa)
    as [[rc s']|] eqn:E; [|vm_compute in E; discriminate E].
  pose proof E as E'. vm_compute in E'. injection E' as Hrc Hs.
  rewrite <- Hrc in E.
  destruct (fase_completa_repoe SoFinal.POUSO _ s' E) as (H1 & _ & H3 & _).
  exists s'. rewrite <- Hrc. split; [reflexivity|]. split; [exact H1|].
  rewrite H3, <- Hs. reflexivity.
Defined.

(** ** So-final.c: sem_trywait_timeout *)

Section Trywait.
Import SoFinal.

Lemma verificar_starvation_m_local s :
  exists s1,
    verificar_starvation_m s = Some (tt, s1)
    /\ historico s1 = historico s /\ ambiente s1 = ambiente s
    /\ relogio (mundo s1) = relogio (mundo s)
    /\ simulacao_ativa (mundo s1) = simulacao_ativa (mundo s).
Proof.
  unfold verificar_starvation_m, altera.
  pose proof (verificar_starvation_gate (mundo s) (aviao s))
    as (_ & _ & H3 & H4).
  destruct (verificar_starvation (mundo s) (aviao s)) as [m a].
  eexists. split; [reflexivity|]. simpl in *. auto.
Qed.

(** Why sem_trywait_timeout returned [rc], in the state it leaves. *)
Lemma sem_trywait_laco_motivo r start segundos :
  forall n s rc s',
    sem_trywait_laco n r start segundos s = Some (rc, s') ->
    historico s' = historico s ++ tomou r rc
    /\ ((rc = SEM_OK /\ simulacao_ativa (mundo s') = true
         /\ ~ falho (aviao s'))
        \/ (rc = SEM_TIMEOUT /\ segundos <= relogio (mundo s') - start)
        \/ (rc = SEM_SIM_ENCERRADA /\ simulacao_ativa (mundo s') = false)
        \/ (rc = SEM_AVIAO_FALHOU /\ falho (aviao s'))).
Proof.
  induction n as [|n IH]; intros s rc s' E; simpl in E; [discriminate E|].
  unfold time at 1, le_mundo at 1 in E.
  unfold bind at 1 2 in E. unfold le, ret at 1 in E.
  destruct (relogio (mundo s) - start <? segundos) eqn:Et.
  2:{ unfold ret in E. injection E as <- <-. apply Z.ltb_ge in Et.
      split; [simpl; rewrite app_nil_r; reflexivity|]. auto. }
  unfold bind at 1 2 in E. unfold le, ret at 1 in E.
  destruct (simulacao_ativa (mundo s)) eqn:Hsim; cbn [negb] in E.
  2:{ unfold ret in E. injection E as <- <-.
      split; [simpl; rewrite app_nil_r; reflexivity|]. auto. }
  unfold bind at 1 in E.
  destruct (checa_falha_m s) as [[f s1]|] eqn:Ec; [|discriminate E].
  destruct (checa_falha_m_gate _ _ _ Ec) as (_ & Hs1 & _ & _ & Hh1 & _).
  destruct (checa_falha_m_falhou _ _ _ Ec) as [Hf1 Hn1].
  destruct f.
  { unfold ret in E. injection E as <- <-.
    split; [simpl; rewrite app_nil_r; exact Hh1|]. auto 6. }
  unfold bind at 1 in E. unfold sem_trywait, le_mundo in E.
  unfold bind at 1 2 in E. unfold le, ret at 1 in E.
  destruct (0 <? sem_valor r (mundo s1)).
  { unfold poe_mundo, emite, altera, bind, ret in E. simpl in E.
    injection E as <- <-. simpl. rewrite Hh1.
    split; [reflexivity|]. left. rewrite Hs1. auto. }
  unfold ret at 1 in E. unfold bind at 1 in E.
  destruct (bloqueia s1) as [[i s2]|] eqn:Eb; [|discriminate E].
  assert (Hh2 : historico s2 = historico s1).
  { unfold bloqueia in Eb. destruct (ambiente s1); [discriminate Eb|].
    injection Eb as _ <-. apply acorda_local. }
  unfold time at 1, poe_aviao at 1, altera in E.
  unfold bind at 1 2 3 in E. unfold le, ret at 1 in E.
  unfold bind at 1 in E.
  match type of E with
  | context [verificar_starvation_m ?s3] =>
      destruct (verificar_starvation_m_local s3) as (s4 & E4 & Hh4 & _)
  end.
  rewrite E4 in E. simpl in Hh4.
  unfold bind at 1 in E.
  destruct (checa_falha_m s4) as [[f s5]|] eqn:Ec5; [|discriminate E].
  destruct (checa_falha_m_gate _ _ _ Ec5) as (_ & _ & _ & _ & Hh5 & _).
  destruct (checa_falha_m_falhou _ _ _ Ec5) as [Hf5 _].
  assert (Hh : historico s5 = historico s)
    by (rewrite Hh5, Hh4, Hh2, Hh1; reflexivity).
  destruct f.
  { unfold ret in E. injection E as <- <-.
    split; [simpl; rewrite app_nil_r; exact Hh|]. auto 6. }
  destruct (IH _ _ _ E) as [H1 H2]. rewrite Hh in H1. auto.
Qed.

End Trywait.

(** X8 (So-final.c, sem_trywait_timeout).  The call takes a unit of
    the semaphore exactly when it returns SEM_OK and touches the
    semaphore on no other return.  SEM_OK is returned only with the
    simulation running and the aircraft not failed, SEM_SIM_ENCERRADA
    only with the simulation stopped, SEM_AVIAO_FALHOU only for an
    aircraft marked FALHA or STARVATION, and SEM_TIMEOUT only when at
    least [segundos] seconds have passed since the call. *)
Theorem sem_trywait_timeout_motivo r segundos s rc s' :
  SoFinal.sem_trywait_timeout r segundos s = Some (rc, s') ->
  SoFinal.historico s' = SoFinal.historico s ++ SoFinal.tomou r rc
  /\ ((rc = SoFinal.SEM_OK
       /\ SoFinal.simulacao_ativa (SoFinal.mundo s') = true
       /\ ~ SoFinal.falho (SoFinal.aviao s'))
      \/ (rc = SoFinal.SEM_TIMEOUT
          /\ segundos <= SoFinal.relogio (SoFinal.mundo s')
                         - SoFinal.relogio (SoFinal.mundo s))
      \/ (rc = SoFinal.SEM_SIM_ENCERRADA
          /\ SoFinal.simulacao_ativa (SoFinal.mundo s') = false)
      \/ (rc = SoFinal.SEM_AVIAO_FALHOU
          /\ SoFinal.falho (SoFinal.aviao s'))).
Proof.
  unfold SoFinal.sem_trywait_timeout, SoFinal.time.
  unfold bind at 1 2 3. unfold le, ret at 1. intros E.
  exact (sem_trywait_laco_motivo _ _ _ _ _ _ _ E).
Qed.

Lemma sem_trywait_timeout_motivo_testemunha :
  exists s',
    SoFinal.sem_trywait_timeout TORRE 2 SoFinal.sem_torre
    = Some (SoFinal.SEM_TIMEOUT, s')
    /\ SoFinal.historico s' = [].
Proof.
  destruct (SoFinal.sem_trywait_timeout TORRE 2 SoFinal.sem_torre)
    as [[rc s']|] eqn:E; [|vm_compute in E; discriminate E].
  destruct (sem_trywait_timeout_motivo TORRE 2 _ rc s' E) as [H _].
  pose proof E as E'. vm_compute in E'. injection E' as Hrc _.
  exists s'. rewrite <- Hrc in *. split; [reflexivity|exact H].
Defined.

(** ** So-final.c: aguardar_prioridade *)

Section Fila.
Import SoFinal.

Lemma checa_falha_m_fila s f s1 :
  checa_falha_m s = Some (f, s1) ->
  esperando_internacional (mundo s1) = esperando_internacional (mundo s).
Proof.
  intros E. destruct (checa_falha_m_gate _ _ _ E) as (H & _).
  unfold porta in H. congruence.
Qed.

Lemma deve_aguardar_saida limite s c s1 :
  deve_aguardar limite s = Some (c, s1) ->
  historico s1 = historico s
  /\ (c = false -> pode_seguir limite s1).
Proof.
  unfold deve_aguardar, le_mundo. unfold bind at 1 2. unfold le, ret at 1.
  destruct (limite <? esperando_internacional (mundo s)) eqn:El;
    cbn [andb].
  2:{ unfold ret. intros E. injection E as <- <-. apply Z.ltb_ge in El.
      split; [reflexivity|]. intros _. left. exact El. }
  destruct (simulacao_ativa (mundo s)) eqn:Es.
  2:{ unfold ret. intros E. injection E as <- <-.
      split; [reflexivity|]. intros _. right. left. exact Es. }
  unfold bind at 1.
  destruct (checa_falha_m s) as [[f s2]|] eqn:Ec; [|discriminate].
  destruct (checa_falha_m_gate _ _ _ Ec) as (_ & _ & _ & _ & Hh & _).
  destruct (checa_falha_m_falhou _ _ _ Ec) as [Hf _].
  destruct f.
  - unfold ret. intros E. injection E as <- <-.
    split; [exact Hh|]. intros _. right. right. left. auto.
  - unfold le_aviao, bind, le, ret. intros E. injection E as <- <-.
    split; [exact Hh|]. intros Hc. right. right. right.
    destruct (em_alerta_critico (aviao s2)); [reflexivity|discriminate Hc].
Qed.

Lemma aguardar_laco_saida limite :
  forall n s s',
    aguardar_laco n limite s = Some (tt, s') ->
    historico s' = historico s /\ pode_seguir limite s'.
Proof.
  induction n as [|n IH]; intros s s' E; simpl in E; [discriminate E|].
  unfold bind at 1 in E.
  destruct (deve_aguardar limite s) as [[c s1]|] eqn:Ed; [|discriminate E].
  destruct (deve_aguardar_saida _ _ _ _ Ed) as [Hh Hc].
  destruct c.
  - unfold bind at 1 in E.
    destruct (bloqueia s1) as [[i s2]|] eqn:Eb; [|discriminate E].
    assert (Hh2 : historico s2 = historico s1).
    { unfold bloqueia in Eb. destruct (ambiente s1); [discriminate Eb|].
      injection Eb as _ <-. apply acorda_local. }
    destruct (IH _ _ E) as [H1 H2]. split; [congruence|exact H2].
  - unfold ret in E. injection E as <-. auto.
Qed.

Lemma desistiu_saida limite s d s1 :
  desistiu s = Some (d, s1) ->
  pode_seguir limite s ->
  historico s1 = historico s
  /\ (d = true -> simulacao_ativa (mundo s1) = false \/ falho (aviao s1))
  /\ (d = false ->
      simulacao_ativa (mundo s1) = true
      /\ ~ falho (aviao s1)
      /\ (esperando_internacional (mundo s1) <= limite
          \/ em_alerta_critico (aviao s1) = true)).
Proof.
  unfold desistiu, le_mundo. unfold bind at 1 2. unfold le, ret at 1.
  destruct (simulacao_ativa (mundo s)) eqn:Es; cbn [negb].
  2:{ unfold ret. intros E _. injection E as <- <-.
      split; [reflexivity|]. split; [auto|discriminate]. }
  intros Ec Hp.
  destruct (checa_falha_m_gate _ _ _ Ec)
    as (_ & Hs & _ & _ & Hh & _ & Hal & Hf).
  destruct (checa_falha_m_falhou _ _ _ Ec) as [Hf1 Hf0].
  pose proof (checa_falha_m_fila _ _ _ Ec) as He.
  split; [exact Hh|]. split; [auto|].
  intros ->. split; [congruence|]. split; [auto|].
  destruct Hp as [Hp|[Hp|[Hp|Hp]]].
  - left. rewrite He. exact Hp.
  - congruence.
  - rewrite (checa_falha_falho _ _ Hp) in Hf. discriminate Hf.
  - right. auto.
Qed.

End Fila.

(** X9 (So-final.c, aguardar_prioridade).  The call registers the
    aircraft in the queue of its class and comes back in one of two
    ways.  It gives up, taking the registration back, only when the
    simulation has stopped or the aircraft is marked FALHA or
    STARVATION.  It comes back registered only with the simulation
    running, the aircraft not failed, and either the alert flag up or
    no other international flight registered: at most itself for an
    international flight, none for a domestic one. *)
Theorem aguardar_prioridade_saida t s s' tr :
  SoFinal.aguardar_prioridade t s = Some (tt, s') ->
  SoFinal.historico s' = SoFinal.historico s ++ tr ->
  (tr = [SoFinal.EvEntraFila t; SoFinal.EvDesiste t]
   /\ (SoFinal.simulacao_ativa (SoFinal.mundo s') = false
       \/ SoFinal.falho (SoFinal.aviao s')))
  \/ (tr = [SoFinal.EvEntraFila t]
      /\ SoFinal.simulacao_ativa (SoFinal.mundo s') = true
      /\ ~ SoFinal.falho (SoFinal.aviao s')
      /\ (SoFinal.esperando_internacional (SoFinal.mundo s')
          <= SoFinal.limite_da_fila t
          \/ SoFinal.em_alerta_critico (SoFinal.aviao s') = true)).
Proof.
  unfold SoFinal.aguardar_prioridade.
  unfold SoFinal.time at 1, SoFinal.le_mundo at 1.
  unfold SoFinal.poe_aviao at 1, SoFinal.poe_mundo at 1.
  unfold SoFinal.emite at 1, altera.
  unfold bind at 1 2 3 4 5 6 7 8 9. unfold le, ret at 1 2.
  match goal with
  | |- context [SoFinal.aguardar_laco ?n ?l ?s1] =>
      destruct (SoFinal.aguardar_laco n l s1) as [[[] s2]|] eqn:El;
        [|discriminate];
        destruct (aguardar_laco_saida _ _ _ _ El) as [Hh2 Hp]
  end.
  simpl in Hh2.
  unfold bind at 1.
  destruct (SoFinal.desistiu s2) as [[d s3]|] eqn:Ed; [|discriminate].
  change (match t with
          | SoFinal.INTERNACIONAL => 1
          | SoFinal.DOMESTICO => 0
          end) with (SoFinal.limite_da_fila t) in Hp.
  destruct (desistiu_saida _ _ _ _ Ed Hp) as (Hh3 & Hd1 & Hd0).
  destruct d.
  - unfold SoFinal.le_mundo, SoFinal.poe_mundo, SoFinal.emite, altera,
      bind, le, ret.
    intros E Hh. injection E as <-. simpl in Hh.
    rewrite Hh3, Hh2, <- app_assoc in Hh. apply app_inv_head in Hh.
    left. split; [symmetry; exact Hh|]. simpl. auto.
  - unfold ret. intros E Hh. injection E as <-.
    rewrite Hh3, Hh2 in Hh. apply app_inv_head in Hh.
    right. split; [symmetry; exact Hh|]. auto.
Qed.

Lemma aguardar_prioridade_saida_testemunha :
  exists s',
    SoFinal.aguardar_prioridade SoFinal.DOMESTICO
                                SoFinal.atras_de_internacional
    = Some (tt, s')
    /\ SoFinal.historico s' = [SoFinal.EvEntraFila SoFinal.DOMESTICO]
    /\ SoFinal.esperando_internacional (SoFinal.mundo s') <= 0.
Proof.
  destruct (SoFinal.aguardar_prioridade SoFinal.DOMESTICO
                                        SoFinal.atras_de_internacional)
    as [[[] s']|] eqn:E; [|vm_compute in E; discriminate E].
  exists s'. split; [reflexivity|].
  assert (Hh : SoFinal.historico s'
               = SoFinal.historico SoFinal.atras_de_internacional
                 ++ [SoFinal.EvEntraFila SoFinal.DOMESTICO]).
  { vm_compute in E. injection E as <-. reflexivity. }
  destruct (aguardar_prioridade_saida _ _ _ _ E Hh)
    as [[H _]|(_ & _ & _ & [H|H])].
  - discriminate H.
  - split; [exact Hh|exact H].
  - vm_compute in E. injection E as <-. discriminate H.
Defined.

(** ** So-final.c: the semaphores over a whole flight *)

Lemma retem_app r b tr1 tr2 :
  SoFinal.retem r b (tr1 ++ tr2)
  = match SoFinal.retem r b tr1 with
    | Some b' => SoFinal.retem r b' tr2
    | None => None
    end.
Proof.
  unfold SoFinal.retem. rewrite fold_left_app.
  destruct (fold_left _ tr1 _) as [b'|]; [reflexivity|].
  induction tr2 as [|e tr2 IH]; [reflexivity|exact IH].
Qed.

(** A phase entered with no flag up takes and posts its semaphores one
    at a time and returns holding none. *)
Lemma retem_rastro f t c r :
  SoFinal.possivel f SoFinal.nada c ->
  SoFinal.retem r false (fst (SoFinal.rastro f t SoFinal.nada c))
  = Some false.
Proof.
  intros Hp. destruct c as [|d|d x|d x|d].
  - reflexivity.
  - destruct d; reflexivity.
  - destruct d; reflexivity.
  - destruct Hp as [Hin _].
    destruct f, x; simpl in Hin; try (exfalso; intuition discriminate);
      destruct d, r; reflexivity.
  - destruct f, d, r; reflexivity.
Qed.

Lemma retem_voo t r :
  forall fs cs,
    SoFinal.voo_valido fs cs ->
    SoFinal.retem r false (SoFinal.rastro_voo t fs cs) = Some false.
Proof.
  induction fs as [|f fs IH]; intros cs Hv.
  - destruct cs; reflexivity.
  - destruct cs as [|c cs]; [reflexivity|].
    destruct Hv as [Hp Hv]. cbn [SoFinal.rastro_voo].
    rewrite retem_app, (retem_rastro f t c r Hp).
    destruct (SoFinal.retorno c =? 0).
    + apply IH. exact Hv.
    + subst cs. destruct fs; reflexivity.
Qed.

(** X10 (So-final.c, aviao_thread with pouso / desembarque /
    decolagem).  Over a whole flight, on every exit path, the thread
    never waits on a semaphore of which it holds a unit, never posts a
    semaphore of which it holds none, and ends holding no unit: every
    sem_wait that succeeded is paired with a later sem_post of the same
    semaphore. *)
Theorem aviao_thread_nada_retem s s' tr :
  SoFinal.aviao_thread s = Some (tt, s') ->
  SoFinal.historico s' = SoFinal.historico s ++ tr ->
  forall r,
    SoFinal.retem r false tr = Some false
    /\ SoFinal.tomadas r tr = SoFinal.devolvidas r tr.
Proof.
  intros E Hh r.
  destruct (aviao_thread_rastro s s' E) as (cs & Hv & Hh' & _).
  rewrite Hh in Hh'. apply app_inv_head in Hh'. subst tr.
  split.
  - rewrite retem_app. change (SoFinal.retem r false SoFinal.ev_partida)
      with (Some false).
    apply retem_voo. exact Hv.
  - assert (Hap : forall a b,
               SoFinal.tomadas r (a ++ b)
               = (SoFinal.tomadas r a + SoFinal.tomadas r b)%nat
               /\ SoFinal.devolvidas r (a ++ b)
                  = (SoFinal.devolvidas r a + SoFinal.devolvidas r b)%nat).
    { intros a b. unfold SoFinal.tomadas, SoFinal.devolvidas.
      rewrite !filter_app, !length_app. auto. }
    assert (Hfs : forall fs cs,
               SoFinal.voo_valido fs cs ->
               SoFinal.tomadas r
                 (SoFinal.rastro_voo (SoFinal.tipo (SoFinal.aviao s)) fs cs)
               = SoFinal.devolvidas r
                   (SoFinal.rastro_voo (SoFinal.tipo (SoFinal.aviao s))
                                       fs cs)).
    { clear cs Hv E Hh. induction fs as [|f fs IH]; intros cs Hv.
      - destruct cs; reflexivity.
      - destruct cs as [|c cs]; [reflexivity|].
        destruct Hv as [Hp Hv]. cbn [SoFinal.rastro_voo].
        destruct (Hap (fst (SoFinal.rastro f (SoFinal.tipo (SoFinal.aviao s))
                                           SoFinal.nada c))
                      (SoFinal.rastro_voo (SoFinal.tipo (SoFinal.aviao s))
                                          fs cs)) as [-> ->].
        destruct (rastro_saldo f (SoFinal.tipo (SoFinal.aviao s)) _ c Hp r)
          as [H1 H2].
        assert (H3 : SoFinal.tem r
                       (snd (SoFinal.rastro f
                               (SoFinal.tipo (SoFinal.aviao s))
                               SoFinal.nada c)) = false).
        { destruct (SoFinal.tem r (snd _)); [|reflexivity].
          specialize (H2 eq_refl). destruct r; discriminate H2. }
        rewrite H3 in H1.
        replace (if SoFinal.tem r SoFinal.nada then 1%nat else 0%nat)
          with 0%nat in H1 by (destruct r; reflexivity).
        destruct (SoFinal.retorno c =? 0).
        + rewrite (IH cs Hv). lia.
        + subst cs.
          replace (SoFinal.rastro_voo (SoFinal.tipo (SoFinal.aviao s)) fs [])
            with (@nil SoFinal.Evento) by (destruct fs; reflexivity).
          change (SoFinal.tomadas r []) with 0%nat.
          change (SoFinal.devolvidas r []) with 0%nat. lia. }
    destruct (Hap SoFinal.ev_partida
                  (SoFinal.rastro_voo (SoFinal.tipo (SoFinal.aviao s))
                                      SoFinal.fases cs))
      as [-> ->].
    rewrite (Hfs SoFinal.fases cs Hv). destruct r; reflexivity.
Qed.

Lemma aviao_thread_nada_retem_testemunha :
  exists s',
    SoFinal.aviao_thread SoFinal.voo_tranquilo = Some (tt, s')
    /\ SoFinal.tomadas PISTA (SoFinal.historico s') = 2%nat
    /\ SoFinal.devolvidas PISTA (SoFinal.historico s') = 2%nat.
Proof.
  destruct (SoFinal.aviao_thread SoFinal.voo_tranquilo)
    as [[[] s']|] eqn:E; [|vm_compute in E; discriminate E].
  exists s'. split; [reflexivity|].
  assert (Hh : SoFinal.historico s'
               = SoFinal.historico SoFinal.voo_tranquilo
                 ++ SoFinal.historico s').
  { vm_compute in E. injection E as <-. reflexivity. }
  destruct (aviao_thread_nada_retem _ _ _ E Hh PISTA) as [_ H].
  rewrite <- H. vm_compute in E. injection E as <-.
  split; reflexivity.
Defined.

(** * So.c: further properties *)

(** ** checa_starvation *)

Lemma alerta_starvation_caido espera m a :
  So.falhou a = true -> So.alerta_starvation espera m a = (m, a).
Proof. intros H. unfold So.alerta_starvation. rewrite H. reflexivity. Qed.

Lemma alerta_starvation_campos espera m a :
  let r := So.alerta_starvation espera m a in
  So.falhou (snd r) = So.falhou a
  /\ So.estado (snd r) = So.estado a
  /\ So.inicio_espera (snd r) = So.inicio_espera a
  /\ So.total_falha (fst r) = So.total_falha m
  /\ So.relogio (fst r) = So.relogio m
  /\ So.total_alertas_starvation (fst r) - So.total_alertas_starvation m
     = So.alertas_starvation (snd r) - So.alertas_starvation a
  /\ (So.alertas_starvation (snd r) = So.alertas_starvation a
      \/ (So.alertas_starvation a = 0 /\ So.alertas_starvation (snd r) = 1))
  /\ So.total_boosts (fst r) - So.total_boosts m
     = (if So.boosted (snd r) && negb (So.boosted a) then 1 else 0).
Proof.
  cbv zeta. unfold So.alerta_starvation.
  destruct (negb (So.falhou a) && (So.ALERTA_CRITICO_SECS <=? espera))
    eqn:E1; cbn [andb].
  2:{ cbn [fst snd]. destruct (So.boosted a); cbn [andb negb];
      repeat split; auto; lia. }
  destruct (So.alertas_starvation a =? 0) eqn:E2.
  2:{ cbn [fst snd]. destruct (So.boosted a); cbn [andb negb];
      repeat split; auto; lia. }
  apply Z.eqb_eq in E2.
  destruct (So.boosted a) eqn:Eb; simpl; rewrite ?Eb, ?E2; simpl;
    repeat split; auto; rewrite ?Eb; cbn [andb]; lia.
Qed.

Lemma alerta_starvation_fixo espera m a :
  So.alerta_starvation espera (fst (So.alerta_starvation espera m a))
                       (snd (So.alerta_starvation espera m a))
  = So.alerta_starvation espera m a.
Proof.
  unfold So.alerta_starvation at 2 3 4.
  destruct (negb (So.falhou a) && (So.ALERTA_CRITICO_SECS <=? espera)
            && (So.alertas_starvation a =? 0)) eqn:E.
  - apply andb_prop in E. destruct E as [_ E0]. apply Z.eqb_eq in E0.
    unfold So.alerta_starvation.
    destruct (So.boosted a) eqn:Eb; simpl; rewrite ?Eb, E0; simpl;
      rewrite andb_false_r; reflexivity.
  - cbn [fst snd]. unfold So.alerta_starvation. rewrite E. reflexivity.
Qed.

(** X11 (So.c, checa_starvation).  The call returns 1 exactly when the
    aircraft had not fallen and has waited TEMPO_MAXIMO_ESPERA seconds
    or more; it then marks it fallen, in state EST_FALHA, and counts
    one failure.  Otherwise the failure count, the fallen flag and the
    state stay as they were.  A fallen aircraft is left untouched, and
    a second call at the same time returns 0 and changes nothing, so a
    fall is counted once.  The alert is counted once in the life of
    the aircraft: alertas_starvation goes from 0 to 1 and no further,
    and total_alertas_starvation and total_boosts rise with it. *)
Theorem checa_starvation_uma_vez m a :
  let r := So.checa_starvation m a in
  let m' := fst (snd r) in
  let a' := snd (snd r) in
  (fst r = true <->
   So.falhou a = false
   /\ So.TEMPO_MAXIMO_ESPERA <= So.relogio m - So.inicio_espera a)
  /\ (fst r = true ->
      So.falhou a' = true /\ So.estado a' = So.EST_FALHA
      /\ So.total_falha m' = So.total_falha m + 1)
  /\ (fst r = false ->
      So.falhou a' = So.falhou a /\ So.estado a' = So.estado a
      /\ So.total_falha m' = So.total_falha m)
  /\ (So.falhou a = true -> r = (false, (m, a)))
  /\ So.checa_starvation m' a' = (false, (m', a'))
  /\ So.total_alertas_starvation m' - So.total_alertas_starvation m
     = So.alertas_starvation a' - So.alertas_starvation a
  /\ (So.alertas_starvation a' = So.alertas_starvation a
      \/ (So.alertas_starvation a = 0 /\ So.alertas_starvation a' = 1))
  /\ So.total_boosts m' - So.total_boosts m
     = (if So.boosted a' && negb (So.boosted a) then 1 else 0).
Proof.
  cbv zeta.
  destruct (So.checa_starvation m a) as [c [m' a']] eqn:E. cbn [fst snd].
  unfold So.checa_starvation in E.
  pose proof (alerta_starvation_campos
                (So.relogio m - So.inicio_espera a) m a) as H.
  cbv zeta in H.
  destruct (So.alerta_starvation (So.relogio m - So.inicio_espera a) m a)
    as [m1 a1] eqn:Ea.
  cbn [fst snd] in H.
  destruct H as (Hf & He & Hi & Htf & Hr & Hta & Hal & Htb).
  rewrite Hf in E.
  destruct (So.falhou a) eqn:Efa; cbn [negb andb] in E.
  - injection E as <- <- <-.
    rewrite (alerta_starvation_caido _ _ _ Efa) in Ea.
    injection Ea as <- <-.
    repeat split; try discriminate; auto;
      try (intros [X _]; discriminate X).
    unfold So.checa_starvation. cbv zeta.
    rewrite (alerta_starvation_caido _ _ _ Efa), Efa. reflexivity.
  - destruct (So.TEMPO_MAXIMO_ESPERA
              <=? So.relogio m - So.inicio_espera a) eqn:Et;
      injection E as <- <- <-.
    + apply Z.leb_le in Et. simpl.
      split; [tauto|]. split; [intros _; repeat split; lia|].
      split; [discriminate|]. split; [discriminate|].
      split; [|split; [lia|split; [exact Hal|exact Htb]]].
      unfold So.checa_starvation. cbv zeta.
      rewrite alerta_starvation_caido by reflexivity. reflexivity.
    + split; [split; [discriminate|intros [_ H]; apply Z.leb_gt in Et; lia]|].
      split; [discriminate|]. split; [intros _; auto|].
      split; [discriminate|].
      split; [|split; [exact Hta|split; [exact Hal|exact Htb]]].
      unfold So.checa_starvation. cbv zeta. rewrite Hr, Hi.
      pose proof (alerta_starvation_fixo
                    (So.relogio m - So.inicio_espera a) m a) as Hfix.
      rewrite Ea in Hfix. cbn [fst snd] in Hfix.
      rewrite Hfix, Hf. cbn [negb andb]. rewrite Et. reflexivity.
Qed.

(** ** The outcome of rotina_aviao *)

Lemma checa_starvation_queda m a :
  let r := So.checa_starvation m a in
  So.operacoes_concluidas (snd (snd r)) = So.operacoes_concluidas a
  /\ So.tipo (snd (snd r)) = So.tipo a
  /\ (fst r = true ->
      So.falhou (snd (snd r)) = true
      /\ So.estado (snd (snd r)) = So.EST_FALHA)
  /\ (fst r = false ->
      So.falhou (snd (snd r)) = So.falhou a
      /\ So.estado (snd (snd r)) = So.estado a).
Proof.
  cbv zeta. unfold So.checa_starvation.
  pose proof (alerta_starvation_campos
                (So.relogio m - So.inicio_espera a) m a) as H.
  cbv zeta in H.
  assert (Ho : So.operacoes_concluidas
                 (snd (So.alerta_starvation
                         (So.relogio m - So.inicio_espera a) m a))
               = So.operacoes_concluidas a
               /\ So.tipo (snd (So.alerta_starvation
                                  (So.relogio m - So.inicio_espera a) m a))
                  = So.tipo a).
  { unfold So.alerta_starvation.
    destruct (_ && (So.alertas_starvation a =? 0)); [|auto].
    destruct (negb _); auto. }
  destruct (So.alerta_starvation _ m a) as [m1 a1].
  cbn [fst snd] in *. destruct H as (Hf & He & _). destruct Ho as [Ho Ht].
  destruct (negb (So.falhou a1) && _); cbn [fst snd].
  - split; [exact Ho|]. split; [exact Ht|]. split; [auto|discriminate].
  - split; [exact Ho|]. split; [exact Ht|]. split; [discriminate|auto].
Qed.

Section DesfechoSo.
Import So.
Lemma sit_poe_mundo k b f : preserva (situacao b k) (poe_mundo f).
Proof. intros s H. unfold poe_mundo. apply apos_altera. exact H. Qed.

Lemma sit_emite k b e : preserva (situacao b k) (emite e).
Proof. intros s H. unfold emite. apply apos_altera. exact H. Qed.

Lemma sit_bloqueia k b : preserva (situacao b k) bloqueia.
Proof.
  intros s H. abre. unfold bloqueia.
  destruct (ambiente s); [exact I|exact H].
Qed.

(** A write to the record of an aircraft that has not fallen, that
    touches neither the flag nor the count. *)
Lemma sit_poe_aviao k f :
  (forall a, falhou (f a) = falhou a
             /\ operacoes_concluidas (f a) = operacoes_concluidas a) ->
  preserva (situacao false k) (poe_aviao f).
Proof.
  intros Hf s (H1 & H2 & _). unfold poe_aviao. apply apos_altera.
  destruct (Hf (aviao s)) as [E1 E2].
  split; [simpl; congruence|]. split; [simpl; congruence|discriminate].
Qed.

#[local] Hint Resolve sit_poe_mundo sit_emite sit_bloqueia : preserva.
#[local] Hint Extern 1 (preserva (situacao false _) (poe_aviao _)) =>
  apply sit_poe_aviao; intros ?; split; reflexivity : preserva.

Lemma sit_dorme k b : preserva (situacao b k) dorme.
Proof. unfold dorme. auto with preserva. Qed.

Lemma sit_espera_sem k b r : preserva (situacao b k) (espera_sem r).
Proof. unfold espera_sem. auto 20 with preserva. Qed.

Lemma sit_liberar k b r : preserva (situacao b k) (liberar r).
Proof. unfold liberar. auto 20 with preserva. Qed.

Lemma sit_aguardando_mais k b : preserva (situacao b k) aguardando_mais.
Proof. unfold aguardando_mais. auto 20 with preserva. Qed.

Lemma sit_aguardando_menos k b : preserva (situacao b k) aguardando_menos.
Proof. unfold aguardando_menos. auto 20 with preserva. Qed.

Lemma sit_muda_estado k e : preserva (situacao false k) (muda_estado e).
Proof. unfold muda_estado. auto 20 with preserva. Qed.

#[local] Hint Resolve sit_dorme sit_espera_sem sit_liberar
  sit_aguardando_mais sit_aguardando_menos sit_muda_estado : preserva.

(** checa_starvation returns 1 exactly when it leaves the aircraft
    fallen. *)
Lemma sit_checa_starvation_m k :
  garante (situacao false k) checa_starvation_m
          (fun c s => situacao c k s).
Proof.
  intros s (H1 & H2 & _). abre. unfold checa_starvation_m.
  pose proof (checa_starvation_queda (mundo s) (aviao s)) as H.
  cbv zeta in H.
  destruct (checa_starvation (mundo s) (aviao s)) as [c [m a]].
  cbn [fst snd] in H. destruct H as (Ho & _ & Ht & Hf).
  destruct c.
  - destruct (Ht eq_refl) as [E1 E2].
    split; [exact E1|]. split; [simpl; congruence|intros _; exact E2].
  - destruct (Hf eq_refl) as [E1 _].
    split; [simpl; congruence|]. split; [simpl; congruence|discriminate].
Qed.

Lemma sit_reavalia k inicio timeout_total :
  garante (situacao false k) (reavalia inicio timeout_total)
          (fun v s => match v with
                      | Some rc => rc = -1 /\ exists b, situacao b k s
                      | None => situacao false k s
                      end).
Proof.
  intros s H. unfold reavalia. apply apos_bind.
  eapply apos_mono; [exact (sit_checa_starvation_m k s H)|].
  cbv beta. intros c s1 H1. destruct c.
  - apply apos_ret. split; [reflexivity|]. exists true. exact H1.
  - apply apos_so_agora.
    destruct (timeout_total <=? _); apply apos_ret; [|exact H1].
    split; [reflexivity|]. exists false. exact H1.
Qed.

Lemma sit_tenta k r inicio timeout_total :
  garante (situacao false k)
          (rc <- aguardar_sem_timed r 2;;
           if rc =? 0 then ret (Some 0) else reavalia inicio timeout_total)
          (fun v s => match v with
                      | Some rc => obteve_ou_caiu k rc s
                      | None => situacao false k s
                      end).
Proof.
  intros s H. apply apos_bind. unfold aguardar_sem_timed.
  eapply apos_mono; [exact (sit_espera_sem k false r s H)|].
  cbv beta. intros rc s1 H1. destruct (rc =? 0).
  - apply apos_ret. left. auto.
  - eapply apos_mono; [exact (sit_reavalia k inicio timeout_total s1 H1)|].
    cbv beta. intros [x|] s2 H2; [right; exact H2|exact H2].
Qed.

Lemma sit_cede k e inicio timeout_total :
  garante (situacao false k)
          (emite e;;; dorme;;; reavalia inicio timeout_total)
          (fun v s => match v with
                      | Some rc => obteve_ou_caiu k rc s
                      | None => situacao false k s
                      end).
Proof.
  intros s H. apply apos_bind.
  eapply apos_mono; [exact (sit_emite k false e s H)|].
  cbv beta. intros _ s1 H1. apply apos_bind.
  eapply apos_mono; [exact (sit_dorme k false s1 H1)|].
  cbv beta. intros _ s2 H2.
  eapply apos_mono; [exact (sit_reavalia k inicio timeout_total s2 H2)|].
  cbv beta. intros [x|] s3 H3; [right; exact H3|exact H3].
Qed.

Lemma sit_adquirir_volta k r inicio timeout_total :
  garante (situacao false k) (adquirir_volta r inicio timeout_total)
          (fun v s => match v with
                      | Some rc => obteve_ou_caiu k rc s
                      | None => situacao false k s
                      end).
Proof.
  intros s H. unfold adquirir_volta.
  apply apos_so_le_aviao. apply apos_so_le_mundo.
  destruct (tipo (aviao s)).
  - destruct (existe_boost _ _);
      [exact (sit_cede k _ _ _ s H)|exact (sit_tenta k _ _ _ s H)].
  - destruct (_ && _);
      [exact (sit_cede k _ _ _ s H)|exact (sit_tenta k _ _ _ s H)].
Qed.

Lemma sit_adquirir_laco k r inicio timeout_total :
  forall voltas,
    garante (situacao false k)
            (adquirir_laco voltas r inicio timeout_total)
            (obteve_ou_caiu k).
Proof.
  induction voltas as [|v IH]; intros s H; cbn [adquirir_laco].
  - apply apos_trava.
  - apply apos_bind.
    eapply apos_mono; [exact (sit_adquirir_volta k _ _ _ s H)|].
    cbv beta. intros [rc|] s1 H1; [apply apos_ret; exact H1|].
    exact (IH s1 H1).
Qed.

Lemma sit_adquirir k modo r timeout_total :
  garante (situacao false k)
          (adquirir_recurso_prioritario modo r timeout_total)
          (obteve_ou_caiu k).
Proof.
  intros s H. unfold adquirir_recurso_prioritario. destruct modo.
  - apply apos_bind. unfold sem_wait.
    eapply apos_mono; [exact (sit_espera_sem k false r s H)|].
    cbv beta. intros rc s1 H1.
    destruct (rc =? 0); apply apos_ret; [left; auto|].
    right. split; [reflexivity|]. exists false. exact H1.
  - apply apos_so_agora. apply apos_bind. apply apos_le.
    exact (sit_adquirir_laco k _ _ _ _ s H).
Qed.

(** if (a->falhou) return -1; after a call that gave up. *)
Lemma sit_desiste k (resto : M Estado (option Z)) Q :
  (forall s, situacao false k s -> apos resto Q s) ->
  (forall s, situacao true k s -> Q (Some (-1)) s) ->
  forall s,
    (exists b, situacao b k s) ->
    apos (aguardando_menos;;;
          a <- le_aviao;;
          if falhou a then ret (Some (-1)) else resto) Q s.
Proof.
  intros Hr Hq s [b H]. apply apos_bind.
  eapply apos_mono; [exact (sit_aguardando_menos k b s H)|].
  cbv beta. intros _ s1 H1. apply apos_so_le_aviao.
  destruct H1 as (E1 & E2 & E3). rewrite E1. destruct b.
  - apply apos_ret. apply Hq. split; auto.
  - apply Hr. split; auto.
Qed.

Lemma sit_primeiro k (ja : bool) r :
  garante (situacao false k)
          (if negb ja
           then adquirir_recurso_prioritario false r TIMEOUT_OPERACAO
           else ret 0)
          (obteve_ou_caiu k).
Proof.
  destruct ja; cbn [negb]; [|apply sit_adquirir].
  intros s H. apply apos_ret. left. auto.
Qed.

Lemma sit_par_laco k first second :
  forall voltas acquired_first,
    garante (situacao false k)
            (par_laco voltas first second acquired_first) (laco_fim k).
Proof.
  induction voltas as [|v IH]; intros acq s H; cbn [par_laco].
  { apply apos_trava. }
  apply apos_bind.
  eapply apos_mono; [exact (sit_aguardando_mais k false s H)|].
  cbv beta. intros _ s1 H1. apply apos_bind.
  eapply apos_mono; [exact (sit_primeiro k acq first s1 H1)|].
  cbv beta. intros r1 s2 [[-> H2]|[-> H2]].
  - cbn [Z.eqb negb]. apply apos_bind.
    eapply apos_mono; [exact (sit_adquirir k false second _ s2 H2)|].
    cbv beta. intros r2 s3 [[-> H3]|[-> [b H3]]]; cbn [Z.eqb negb].
    + apply apos_bind.
      eapply apos_mono; [exact (sit_aguardando_menos k false s3 H3)|].
      cbv beta. intros _ s4 H4. apply apos_ret. exact H4.
    + apply apos_bind.
      eapply apos_mono; [exact (sit_liberar k b first s3 H3)|].
      cbv beta. intros _ s4 H4.
      apply (sit_desiste k); [| |exists b; exact H4].
      * intros s5 H5. apply apos_bind.
        eapply apos_mono; [exact (sit_dorme k false s5 H5)|].
        cbv beta. intros _ s6 H6. exact (IH false s6 H6).
      * intros s5 H5. split; [reflexivity|exact H5].
  - cbn [Z.eqb negb].
    apply (sit_desiste k); [| |exact H2].
    + intros s3 H3. exact (IH acq s3 H3).
    + intros s3 H3. split; [reflexivity|exact H3].
Qed.

Lemma sit_trio_laco k r1 r2 r3 :
  forall voltas got1 got2,
    garante (situacao false k)
            (trio_laco voltas r1 r2 r3 got1 got2) (laco_fim k).
Proof.
  induction voltas as [|v IH]; intros g1 g2 s H; cbn [trio_laco].
  { apply apos_trava. }
  apply apos_bind.
  eapply apos_mono; [exact (sit_aguardando_mais k false s H)|].
  cbv beta. intros _ s1 H1. apply apos_bind.
  eapply apos_mono; [exact (sit_primeiro k g1 r1 s1 H1)|].
  cbv beta. intros x1 s2 [[-> H2]|[-> H2]]; cbn [Z.eqb negb].
  2:{ apply (sit_desiste k); [| |exact H2].
      - intros s3 H3. exact (IH g1 g2 s3 H3).
      - intros s3 H3. split; [reflexivity|exact H3]. }
  apply apos_bind.
  eapply apos_mono; [exact (sit_primeiro k g2 r2 s2 H2)|].
  cbv beta. intros x2 s3 [[-> H3]|[-> [b H3]]]; cbn [Z.eqb negb].
  2:{ apply apos_bind.
      eapply apos_mono; [exact (sit_liberar k b r1 s3 H3)|].
      cbv beta. intros _ s4 H4.
      apply (sit_desiste k); [| |exists b; exact H4].
      - intros s5 H5. apply apos_bind.
        eapply apos_mono; [exact (sit_dorme k false s5 H5)|].
        cbv beta. intros _ s6 H6. exact (IH false g2 s6 H6).
      - intros s5 H5. split; [reflexivity|exact H5]. }
  apply apos_bind.
  eapply apos_mono; [exact (sit_adquirir k false r3 _ s3 H3)|].
  cbv beta. intros x3 s4 [[-> H4]|[-> [b H4]]]; cbn [Z.eqb negb].
  - apply apos_bind.
    eapply apos_mono; [exact (sit_aguardando_menos k false s4 H4)|].
    cbv beta. intros _ s5 H5. apply apos_ret. exact H5.
  - apply apos_bind.
    eapply apos_mono; [exact (sit_liberar k b r2 s4 H4)|].
    cbv beta. intros _ s5 H5. apply apos_bind.
    eapply apos_mono; [exact (sit_liberar k b r1 s5 H5)|].
    cbv beta. intros _ s6 H6.
    apply (sit_desiste k); [| |exists b; exact H6].
    + intros s7 H7. apply apos_bind.
      eapply apos_mono; [exact (sit_dorme k false s7 H7)|].
      cbv beta. intros _ s8 H8. exact (IH false false s8 H8).
    + intros s7 H7. split; [reflexivity|exact H7].
Qed.

(** executa_fase counts one operation. *)
Lemma sit_executa_fase k :
  garante (situacao false k) executa_fase
          (fun _ s => situacao false (k + 1) s).
Proof.
  intros s H. unfold executa_fase. apply apos_bind.
  eapply apos_mono; [exact (sit_dorme k false s H)|].
  cbv beta. intros _ s1 H1. apply apos_so_agora. apply apos_bind.
  unfold poe_aviao at 1. apply apos_altera. apply apos_bind.
  unfold poe_aviao at 1. apply apos_altera.
  apply apos_so_le_aviao. unfold poe_aviao. apply apos_altera.
  destruct H1 as (E1 & E2 & _).
  split; [exact E1|]. split; [simpl; rewrite E2; reflexivity|discriminate].
Qed.

(** The end of the phases that take two semaphores. *)
Lemma sit_conclui k modo e (libera : M Estado unit) :
  preserva (situacao false (k + 1)) libera ->
  garante (situacao false k)
          (muda_estado e;;; executa_fase;;; libera;;; ret 0)
          (fase_ok modo k).
Proof.
  intros Hl s H. apply apos_bind.
  eapply apos_mono; [exact (sit_muda_estado k e s H)|].
  cbv beta. intros _ s1 H1. apply apos_bind.
  eapply apos_mono; [exact (sit_executa_fase k s1 H1)|].
  cbv beta. intros _ s2 H2. apply apos_bind.
  eapply apos_mono; [exact (Hl s2 H2)|].
  cbv beta. intros _ s3 H3. apply apos_ret. left. auto.
Qed.

Lemma sit_conclui_decolagem k modo r1 r2 r3 :
  garante (situacao false k) (conclui_decolagem r1 r2 r3)
          (fun rc s => fase_ok modo k rc s
                       /\ (rc = 0 -> estado (aviao s) = EST_FINALIZADO)).
Proof.
  intros s H. unfold conclui_decolagem. apply apos_bind.
  eapply apos_mono; [exact (sit_muda_estado k _ s H)|].
  cbv beta. intros _ s1 H1. apply apos_bind.
  eapply apos_mono; [exact (sit_executa_fase k s1 H1)|].
  cbv beta. intros _ s2 H2. apply apos_bind.
  eapply apos_mono; [exact (sit_liberar (k + 1) false r1 s2 H2)|].
  cbv beta. intros _ s3 H3. apply apos_bind.
  eapply apos_mono; [exact (sit_liberar (k + 1) false r2 s3 H3)|].
  cbv beta. intros _ s4 H4. apply apos_bind.
  eapply apos_mono; [exact (sit_liberar (k + 1) false r3 s4 H4)|].
  cbv beta. intros _ s5 H5. apply apos_bind.
  unfold poe_aviao. apply apos_altera. apply apos_so_le_mundo.
  apply apos_bind. unfold poe_mundo. apply apos_altera. apply apos_ret.
  destruct H5 as (E1 & E2 & _).
  split; [|intros _; reflexivity].
  left. split; [reflexivity|].
  split; [exact E1|]. split; [exact E2|discriminate].
Qed.

(** The two blocking waits of the test mode. *)
Lemma sit_espera_dupla k r1 r2 {A} (resto : M Estado A) Q :
  garante (situacao false k) resto Q ->
  garante (situacao false k)
          (sem_wait r1;;; dorme;;; sem_wait r2;;; resto) Q.
Proof.
  intros Hr. unfold sem_wait.
  apply garante_bind; [auto with preserva|]. intros _.
  apply garante_bind; [auto with preserva|]. intros _.
  apply garante_bind; [auto with preserva|]. intros _. exact Hr.
Qed.

Lemma sit_apos_par k modo first second (fim : M Estado Z) :
  garante (situacao false k) fim (fase_ok modo k) ->
  modo = false ->
  garante (situacao false k)
          (s <- le;;
           v <- par_laco (S (length (ambiente s))) first second false;;
           match v with
           | Some rc => ret rc
           | None => fim
           end)
          (fase_ok modo k).
Proof.
  intros Hf -> s H. apply apos_bind. apply apos_le. apply apos_bind.
  eapply apos_mono; [exact (sit_par_laco k first second _ false s H)|].
  cbv beta. intros [rc|] s1 H1.
  - apply apos_ret. destruct H1 as [-> H1]. right. auto.
  - exact (Hf s1 H1).
Qed.

Lemma sit_fase_pouso k modo :
  garante (situacao false k) (fase_pouso modo) (fase_ok modo k).
Proof.
  intros s H. unfold fase_pouso. apply apos_bind.
  eapply apos_mono; [exact (sit_muda_estado k _ s H)|].
  cbv beta. intros _ s1 H1. apply apos_so_le_aviao.
  destruct (ordem_pouso (tipo (aviao s1))) as [first second].
  assert (Hfim : garante (situacao false k)
                   (muda_estado EST_POUSANDO;;; executa_fase;;;
                    liberar first;;; liberar second;;; ret 0)
                   (fase_ok modo k)).
  { intros s2 H2. apply apos_bind.
    eapply apos_mono; [exact (sit_muda_estado k _ s2 H2)|].
    cbv beta. intros _ s3 H3. apply apos_bind.
    eapply apos_mono; [exact (sit_executa_fase k s3 H3)|].
    cbv beta. intros _ s4 H4. apply apos_bind.
    eapply apos_mono; [exact (sit_liberar (k + 1) false first s4 H4)|].
    cbv beta. intros _ s5 H5. apply apos_bind.
    eapply apos_mono; [exact (sit_liberar (k + 1) false second s5 H5)|].
    cbv beta. intros _ s6 H6. apply apos_ret. left. auto. }
  destruct modo eqn:Em.
  - exact (sit_espera_dupla k first second _ _ Hfim s1 H1).
  - exact (sit_apos_par k false first second _ Hfim eq_refl s1 H1).
Qed.

Lemma sit_libera_desembarque k first second :
  preserva (situacao false k) (libera_desembarque first second).
Proof. unfold libera_desembarque. auto 20 with preserva. Qed.

Lemma sit_fase_desembarque k modo :
  garante (situacao false k) (fase_desembarque modo) (fase_ok modo k).
Proof.
  intros s H. unfold fase_desembarque. apply apos_bind.
  eapply apos_mono; [exact (sit_muda_estado k _ s H)|].
  cbv beta. intros _ s1 H1. apply apos_so_le_aviao.
  destruct (ordem_desembarque (tipo (aviao s1))) as [first second].
  assert (Hfim : garante (situacao false k)
                   (muda_estado EST_DESEMBARCANDO;;; executa_fase;;;
                    libera_desembarque first second;;; ret 0)
                   (fase_ok modo k)).
  { apply sit_conclui. apply sit_libera_desembarque. }
  destruct modo eqn:Em.
  - exact (sit_espera_dupla k first second _ _ Hfim s1 H1).
  - exact (sit_apos_par k false first second _ Hfim eq_refl s1 H1).
Qed.

Lemma sit_fase_decolagem k modo :
  garante (situacao false k) (fase_decolagem modo)
          (fun rc s => fase_ok modo k rc s
                       /\ (rc = 0 -> estado (aviao s) = EST_FINALIZADO)).
Proof.
  intros s H. unfold fase_decolagem. apply apos_bind.
  eapply apos_mono; [exact (sit_muda_estado k _ s H)|].
  cbv beta. intros _ s1 H1. apply apos_so_le_aviao.
  destruct (ordem_decolagem (tipo (aviao s1))) as [[r1 r2] r3].
  destruct modo eqn:Em.
  - revert s1 H1. unfold sem_wait.
    apply garante_bind; [auto with preserva|]. intros _.
    apply garante_bind; [auto with preserva|]. intros _.
    apply garante_bind; [auto with preserva|]. intros _.
    apply garante_bind; [auto with preserva|]. intros _.
    apply garante_bind; [auto with preserva|]. intros _.
    apply sit_conclui_decolagem.
  - apply apos_bind. apply apos_le. apply apos_bind.
    eapply apos_mono; [exact (sit_trio_laco k r1 r2 r3 _ false false s1 H1)|].
    cbv beta. intros [rc|] s2 H2.
    + apply apos_ret. destruct H2 as [-> H2].
      split; [right; auto|discriminate].
    + exact (sit_conclui_decolagem k false r1 r2 r3 s2 H2).
Qed.

Ltac passa_vivo H :=
  apply apos_bind;
  match type of H with
  | situacao ?b ?k ?s =>
      match goal with
      | |- apos ?c _ s =>
          let Hp := fresh in
          assert (Hp : preserva (situacao b k) c)
            by auto 20 with preserva;
          eapply apos_mono; [exact (Hp s H)|]; clear Hp; cbv beta
      end
  end.

(** The test of rotina_aviao after a phase: it goes on exactly when
    the phase returned 0. *)
Lemma sit_parou k modo rc (resto : M Estado unit) Q :
  (forall s, situacao true k s -> modo = false -> Q tt s) ->
  garante (situacao false (k + 1)) resto Q ->
  forall s,
    fase_ok modo k rc s ->
    apos (p <- parou rc;; if p then ret tt else resto) Q s.
Proof.
  intros Hq Hr s H. unfold parou. apply apos_bind.
  apply apos_so_le_aviao. apply apos_ret.
  destruct H as [[-> H]|[-> [H Hm]]].
  - destruct H as (E1 & E2 & E3). rewrite E1. cbn [Z.eqb negb orb].
    apply Hr. split; auto.
  - cbn [Z.eqb negb orb]. apply apos_ret. auto.
Qed.

Lemma sit_rotina_aviao k modo :
  garante (situacao false k) (rotina_aviao modo)
          (fun _ s =>
             (situacao false (k + 3) s
              /\ estado (aviao s) = EST_FINALIZADO)
             \/ (modo = false
                 /\ exists n, 0 <= n < 3 /\ situacao true (k + n) s)).
Proof.
  intros s H. unfold rotina_aviao. apply apos_so_agora.
  passa_vivo H. intros _ s1 H1. passa_vivo H1. intros _ s2 H2.
  apply apos_so_le_aviao. passa_vivo H2. intros _ s3 H3.
  apply apos_so_le_aviao. passa_vivo H3. intros _ s4 H4.
  apply apos_bind.
  eapply apos_mono; [exact (sit_fase_pouso k modo s4 H4)|].
  cbv beta. intros rc1 s5 H5.
  apply (sit_parou k modo); [| |exact H5].
  { intros s6 H6 Hm. right. split; [exact Hm|].
    exists 0. rewrite Z.add_0_r. split; [lia|exact H6]. }
  clear. intros s H. apply apos_bind.
  eapply apos_mono; [exact (sit_fase_desembarque (k + 1) modo s H)|].
  cbv beta. intros rc2 s1 H1.
  apply (sit_parou (k + 1) modo); [| |exact H1].
  { intros s2 H2 Hm. right. split; [exact Hm|].
    exists 1. split; [lia|exact H2]. }
  clear. intros s H. passa_vivo H. intros _ s1 H1.
  apply apos_so_agora. passa_vivo H1. intros _ s2 H2.
  apply apos_bind.
  eapply apos_mono; [exact (sit_fase_decolagem (k + 1 + 1) modo s2 H2)|].
  cbv beta. intros rc3 s3 [H3 Hfin]. unfold parou.
  apply apos_bind. apply apos_so_le_aviao.
  apply apos_ret. apply apos_ret.
  destruct H3 as [[-> H3]|[-> [H3 Hm]]].
  - left. replace (k + 3) with (k + 1 + 1 + 1) by lia. auto.
  - right. split; [exact Hm|]. exists 2.
    replace (k + 2) with (k + 1 + 1) by lia. split; [lia|exact H3].
Qed.

End DesfechoSo.

(** X12 (So.c, fase_pouso / fase_desembarque / fase_decolagem with
    executa_fase).  A phase entered by an aircraft that has not fallen
    returns 0 or -1.  It returns 0 with the aircraft still not fallen
    and exactly one operation more counted.  It returns -1 only in
    normal mode and only for an aircraft that fell during the phase:
    the aircraft is then marked falhou, in state EST_FALHA, with its
    count of operations unchanged.  A timeout of
    adquirir_recurso_prioritario alone never ends a phase. *)
Theorem fase_desfecho modo fase s rc s' :
  In fase (So.fases modo) ->
  fase s = Some (rc, s') ->
  So.falhou (So.aviao s) = false ->
  (rc = 0
   /\ So.falhou (So.aviao s') = false
   /\ So.operacoes_concluidas (So.aviao s')
      = So.operacoes_concluidas (So.aviao s) + 1)
  \/ (rc = -1
      /\ modo = false
      /\ So.falhou (So.aviao s') = true
      /\ So.estado (So.aviao s') = So.EST_FALHA
      /\ So.operacoes_concluidas (So.aviao s')
         = So.operacoes_concluidas (So.aviao s)).
Proof.
  intros Hin E Hf.
  assert (H0 : So.situacao false (So.operacoes_concluidas (So.aviao s)) s).
  { split; [exact Hf|]. split; [reflexivity|discriminate]. }
  assert (H : So.fase_ok modo (So.operacoes_concluidas (So.aviao s)) rc s').
  { destruct Hin as [<-|[<-|[<-|[]]]].
    - exact (apos_elim _ _ _ _ _ (sit_fase_pouso _ modo s H0) E).
    - exact (apos_elim _ _ _ _ _ (sit_fase_desembarque _ modo s H0) E).
    - exact (proj1 (apos_elim _ _ _ _ _ (sit_fase_decolagem _ modo s H0) E)). }
  destruct H as [[-> (H1 & H2 & _)]|[-> [(H1 & H2 & H3) Hm]]].
  - left. auto.
  - right. auto 6.
Qed.

Lemma fase_desfecho_testemunha :
  exists s',
    So.fase_pouso false So.espera_longa = Some (-1, s')
    /\ So.falhou (So.aviao s') = true
    /\ So.operacoes_concluidas (So.aviao s') = 0.
Proof.
  destruct (So.fase_pouso false So.espera_longa) as [[rc s']|] eqn:E;
    [|vm_compute in E; discriminate E].
  destruct (fase_desfecho false (So.fase_pouso false) So.espera_longa rc s')
    as [(Hrc & _)|(Hrc & _ & Hf & _ & Ho)].
  - left. reflexivity.
  - exact E.
  - reflexivity.
  - exfalso. vm_compute in E. injection E as Hx _. lia.
  - exists s'. subst rc. split; [reflexivity|]. split; [exact Hf|exact Ho].
Defined.

(** X13 (So.c, rotina_aviao).  The thread of an aircraft that had not
    fallen ends in one of two ways.  Either the aircraft is in state
    EST_FINALIZADO, not fallen, and has counted exactly three
    operations more; or, in normal mode only, it has fallen: it is
    marked falhou, in state EST_FALHA, and has counted fewer than
    three operations more.  No thread ends in any other state. *)
Theorem rotina_aviao_desfecho modo s s' :
  So.rotina_aviao modo s = Some (tt, s') ->
  So.falhou (So.aviao s) = false ->
  (So.estado (So.aviao s') = So.EST_FINALIZADO
   /\ So.falhou (So.aviao s') = false
   /\ So.operacoes_concluidas (So.aviao s')
      = So.operacoes_concluidas (So.aviao s) + 3)
  \/ (modo = false
      /\ So.estado (So.aviao s') = So.EST_FALHA
      /\ So.falhou (So.aviao s') = true
      /\ So.operacoes_concluidas (So.aviao s)
         <= So.operacoes_concluidas (So.aviao s')
         < So.operacoes_concluidas (So.aviao s) + 3).
Proof.
  intros E Hf.
  assert (H0 : So.situacao false (So.operacoes_concluidas (So.aviao s)) s).
  { split; [exact Hf|]. split; [reflexivity|discriminate]. }
  destruct (apos_elim _ _ _ _ _ (sit_rotina_aviao _ modo s H0) E)
    as [[(H1 & H2 & _) H3]|[Hm (n & Hn & H1 & H2 & H3)]].
  - left. auto.
  - right. split; [exact Hm|]. split; [auto|]. split; [exact H1|lia].
Qed.

Lemma rotina_aviao_desfecho_testemunha :
  exists s',
    So.rotina_aviao false So.voo_boosted = Some (tt, s')
    /\ So.estado (So.aviao s') = So.EST_FINALIZADO
    /\ So.operacoes_concluidas (So.aviao s') = 3.
Proof.
  destruct (So.rotina_aviao false So.voo_boosted) as [[[] s']|] eqn:E;
    [|vm_compute in E; discriminate E].
  destruct (rotina_aviao_desfecho false So.voo_boosted s' E eq_refl)
    as [(H1 & _ & H2)|(_ & H1 & _)].
  - exists s'. split; [reflexivity|]. split; [exact H1|exact H2].
  - exfalso. vm_compute in E. injection E as <-. discriminate H1.
Defined.

(** ** adquirir_recurso_prioritario *)

Section TomaSo.
Import So.

Lemma obtidos_app tr e :
  obtidos (tr ++ [e])
  = obtidos tr ++ match e with EvObteve r => [r] | _ => [] end.
Proof.
  unfold obtidos. rewrite flat_map_app. simpl. rewrite app_nil_r.
  reflexivity.
Qed.

Lemma liberados_app tr e :
  liberados (tr ++ [e])
  = liberados tr ++ match e with EvLibera r => [r] | _ => [] end.
Proof.
  unfold liberados. rewrite flat_map_app. simpl. rewrite app_nil_r.
  reflexivity.
Qed.

Variables h l : list Recurso.

Lemma q_poe_mundo f : preserva (quieto h l) (poe_mundo f).
Proof. intros s H. unfold poe_mundo. apply apos_altera. exact H. Qed.

Lemma q_poe_aviao f : preserva (quieto h l) (poe_aviao f).
Proof. intros s H. unfold poe_aviao. apply apos_altera. exact H. Qed.

Lemma q_bloqueia : preserva (quieto h l) bloqueia.
Proof.
  intros s H. abre. unfold bloqueia.
  destruct (ambiente s); [exact I|exact H].
Qed.

Lemma q_checa_starvation_m : preserva (quieto h l) checa_starvation_m.
Proof.
  intros s H. abre. unfold checa_starvation_m.
  destruct (checa_starvation _ _) as [c [m a]]. exact H.
Qed.

Lemma q_emite e :
  match e with EvObteve _ | EvLibera _ => False | _ => True end ->
  preserva (quieto h l) (emite e).
Proof.
  intros He s [H1 H2]. unfold emite. apply apos_altera.
  split; simpl; [rewrite obtidos_app|rewrite liberados_app];
    destruct e; try contradiction; rewrite app_nil_r; assumption.
Qed.

#[local] Hint Resolve q_poe_mundo q_poe_aviao q_bloqueia
  q_checa_starvation_m : preserva.
#[local] Hint Extern 1 (preserva (quieto _ _) (emite _)) =>
  apply q_emite; exact I : preserva.

Lemma q_dorme : preserva (quieto h l) dorme.
Proof. unfold dorme. auto with preserva. Qed.

Lemma q_aguardando_mais : preserva (quieto h l) aguardando_mais.
Proof. unfold aguardando_mais. auto 20 with preserva. Qed.

Lemma q_aguardando_menos : preserva (quieto h l) aguardando_menos.
Proof. unfold aguardando_menos. auto 20 with preserva. Qed.

Lemma q_muda_estado e : preserva (quieto h l) (muda_estado e).
Proof. unfold muda_estado. auto 20 with preserva. Qed.

#[local] Hint Resolve q_dorme q_aguardando_mais q_aguardando_menos
  q_muda_estado : preserva.

(** A wait on the semaphore takes one unit when it returns 0 and none
    when it returns -1. *)
Lemma q_espera_sem r :
  garante (quieto h l) (espera_sem r)
          (fun rc s => (rc = 0 /\ quieto (h ++ [r]) l s)
                       \/ (rc = -1 /\ quieto h l s)).
Proof.
  intros s H. unfold espera_sem. apply apos_bind.
  eapply apos_mono; [exact (q_bloqueia s H)|].
  cbv beta. intros i s1 [H1 H2]. destruct (obteve i).
  - apply apos_so_le_mundo. destruct (0 <? _); [|apply apos_trava].
    apply apos_bind. unfold poe_mundo. apply apos_altera.
    apply apos_bind. unfold emite. apply apos_altera. apply apos_ret.
    left. split; [reflexivity|].
    split; simpl; [rewrite obtidos_app|rewrite liberados_app];
      rewrite ?app_nil_r; congruence.
  - apply apos_ret. right. split; [reflexivity|]. split; assumption.
Qed.

Lemma q_reavalia inicio timeout_total :
  garante (quieto h l) (reavalia inicio timeout_total)
          (fun v s => quieto h l s
                      /\ (v <> None ->
                          v = Some (-1)
                          /\ desistencia inicio timeout_total s)).
Proof.
  intros s H. unfold reavalia. abre. unfold bind, checa_starvation_m.
  pose proof (checa_starvation_queda (mundo s) (aviao s)) as Hq.
  cbv zeta in Hq.
  destruct (checa_starvation (mundo s) (aviao s)) as [c [m a]].
  cbn [fst snd] in Hq. destruct Hq as (_ & _ & Ht & _).
  destruct c.
  - unfold ret. split; [exact H|]. intros _. split; [reflexivity|].
    left. simpl. apply Ht. reflexivity.
  - unfold agora, bind, le, ret. cbn [mundo].
    destruct (timeout_total <=? relogio m - inicio) eqn:E.
    + split; [exact H|]. intros _. split; [reflexivity|].
      right. simpl. apply Z.leb_le. exact E.
    + split; [exact H|]. intros X. contradiction X. reflexivity.
Qed.

Lemma q_tenta r inicio timeout_total :
  garante (quieto h l)
          (rc <- aguardar_sem_timed r 2;;
           if rc =? 0 then ret (Some 0) else reavalia inicio timeout_total)
          (volta_toma h l r inicio timeout_total).
Proof.
  intros s H. apply apos_bind. unfold aguardar_sem_timed.
  eapply apos_mono; [exact (q_espera_sem r s H)|].
  cbv beta. intros rc s1 [[-> H1]|[-> H1]]; cbn [Z.eqb].
  - apply apos_ret. left. auto.
  - eapply apos_mono; [exact (q_reavalia inicio timeout_total s1 H1)|].
    cbv beta. intros [x|] s2 [H2 H3]; [|exact H2].
    destruct H3 as [E Hd]; [discriminate|]. injection E as ->.
    right. auto.
Qed.

Lemma q_cede r e inicio timeout_total :
  match e with EvObteve _ | EvLibera _ => False | _ => True end ->
  garante (quieto h l)
          (emite e;;; dorme;;; reavalia inicio timeout_total)
          (volta_toma h l r inicio timeout_total).
Proof.
  intros He s H. apply apos_bind.
  eapply apos_mono; [exact (q_emite e He s H)|].
  cbv beta. intros _ s1 H1. apply apos_bind.
  eapply apos_mono; [exact (q_dorme s1 H1)|].
  cbv beta. intros _ s2 H2.
  eapply apos_mono; [exact (q_reavalia inicio timeout_total s2 H2)|].
  cbv beta. intros [x|] s3 [H3 H4]; [|exact H3].
  destruct H4 as [E Hd]; [discriminate|]. injection E as ->.
  right. auto.
Qed.

Lemma q_adquirir_volta r inicio timeout_total :
  garante (quieto h l) (adquirir_volta r inicio timeout_total)
          (volta_toma h l r inicio timeout_total).
Proof.
  intros s H. unfold adquirir_volta.
  apply apos_so_le_aviao. apply apos_so_le_mundo.
  destruct (tipo (aviao s)).
  - destruct (existe_boost _ _);
      [exact (q_cede r EvCedeBoost _ _ I s H)|exact (q_tenta _ _ _ s H)].
  - destruct (_ && _);
      [exact (q_cede r EvCede _ _ I s H)|exact (q_tenta _ _ _ s H)].
Qed.

Lemma q_adquirir_laco r inicio timeout_total :
  forall voltas,
    garante (quieto h l) (adquirir_laco voltas r inicio timeout_total)
            (fun rc => volta_toma h l r inicio timeout_total (Some rc)).
Proof.
  induction voltas as [|v IH]; intros s H; cbn [adquirir_laco].
  - apply apos_trava.
  - apply apos_bind.
    eapply apos_mono; [exact (q_adquirir_volta _ _ _ s H)|].
    cbv beta. intros [rc|] s1 H1; [apply apos_ret; exact H1|].
    exact (IH s1 H1).
Qed.

End TomaSo.

(** X14 (So.c, adquirir_recurso_prioritario with aguardar_sem_timed,
    checa_starvation).  In normal mode the call returns 0 or -1.  It
    returns 0 exactly when it took one unit of the semaphore it was
    asked for, and it takes nothing else; when it returns -1 it has
    taken nothing, and either the aircraft has fallen or at least
    [timeout_total] seconds have passed since the call.  It never
    posts a semaphore. *)
Theorem adquirir_recurso_prioritario_retorno r timeout_total s rc s' :
  So.adquirir_recurso_prioritario false r timeout_total s = Some (rc, s') ->
  So.liberados (So.historico s') = So.liberados (So.historico s)
  /\ ((rc = 0
       /\ So.obtidos (So.historico s')
          = So.obtidos (So.historico s) ++ [r])
      \/ (rc = -1
          /\ So.obtidos (So.historico s') = So.obtidos (So.historico s)
          /\ (So.falhou (So.aviao s') = true
              \/ timeout_total
                 <= So.relogio (So.mundo s') - So.relogio (So.mundo s)))).
Proof.
  unfold So.adquirir_recurso_prioritario, So.agora.
  unfold bind at 1 2 3. unfold le, ret at 1. intros E.
  assert (H0 : So.quieto (So.obtidos (So.historico s))
                         (So.liberados (So.historico s)) s)
    by (split; reflexivity).
  pose proof (apos_elim _ _ _ _ _
                (q_adquirir_laco _ _ r (So.relogio (So.mundo s))
                                 timeout_total _ s H0) E) as H.
  destruct H as [[-> [H1 H2]]|[-> [[H1 H2] H3]]].
  - split; [exact H2|]. left. auto.
  - split; [exact H2|]. right. auto.
Qed.

Lemma adquirir_recurso_prioritario_retorno_testemunha :
  exists s',
    So.adquirir_recurso_prioritario false TORRE So.TIMEOUT_OPERACAO
                                    So.domestico_boosted
    = Some (0, s')
    /\ So.obtidos (So.historico s') = [TORRE].
Proof.
  destruct (So.adquirir_recurso_prioritario
              false TORRE So.TIMEOUT_OPERACAO So.domestico_boosted)
    as [[rc s']|] eqn:E; [|vm_compute in E; discriminate E].
  destruct (adquirir_recurso_prioritario_retorno _ _ _ _ _ E)
    as [_ [[-> H]|[Hrc _]]].
  - exists s'. split; [reflexivity|exact H].
  - exfalso. vm_compute in E. injection E as Hx _. lia.
Defined.

(** ** A boosted international flight *)

Section CedeASi.
Import So.

Section Quadro.
Variable P : Aviao -> list Evento -> Prop.

Lemma loc_poe_mundo f : preserva (local P) (poe_mundo f).
Proof. intros s H. unfold poe_mundo. apply apos_altera. exact H. Qed.

Lemma loc_bloqueia : preserva (local P) bloqueia.
Proof.
  intros s H. abre. unfold bloqueia.
  destruct (ambiente s); [exact I|exact H].
Qed.

#[local] Hint Resolve loc_poe_mundo loc_bloqueia : preserva.

Lemma loc_dorme : preserva (local P) dorme.
Proof. unfold dorme. auto with preserva. Qed.

Lemma loc_aguardando_mais : preserva (local P) aguardando_mais.
Proof. unfold aguardando_mais. auto 20 with preserva. Qed.

Lemma loc_aguardando_menos : preserva (local P) aguardando_menos.
Proof. unfold aguardando_menos. auto 20 with preserva. Qed.

End Quadro.

Variables h l : list Recurso.

Lemma ced_emite :
  preserva (local (em_curso h l)) (emite EvCedeBoost).
Proof.
  intros s ((H1 & H2 & H3 & H4) & H5). unfold emite. apply apos_altera.
  unfold local, em_curso, cede_a_si. simpl.
  rewrite obtidos_app, liberados_app, !app_nil_r. auto 6.
Qed.

Lemma ced_reavalia inicio timeout_total :
  garante (local (em_curso h l)) (reavalia inicio timeout_total)
          (fun v s => match v with
                      | Some rc => rc = -1 /\ local (parado h l) s
                      | None => local (em_curso h l) s
                      end).
Proof.
  intros s ((H1 & H2 & H3 & H4) & H5). unfold reavalia. abre.
  unfold bind, checa_starvation_m.
  pose proof (checa_starvation_queda (mundo s) (aviao s)) as Hq.
  pose proof (checa_starvation_boosted (mundo s) (aviao s) H2) as Hb.
  cbv zeta in Hq.
  destruct (checa_starvation (mundo s) (aviao s)) as [c [m a]].
  cbn [fst snd] in Hq, Hb. destruct Hq as (_ & Ht & Hc & Hn).
  assert (Hced : cede_a_si h l a (historico s)).
  { split; [congruence|]. auto. }
  destruct c.
  - unfold ret. split; [reflexivity|]. split; [exact Hced|].
    left. apply Hc. reflexivity.
  - destruct (Hn eq_refl) as [_ He].
    unfold agora, bind, le, ret. cbn [mundo].
    destruct (timeout_total <=? relogio m - inicio).
    + split; [reflexivity|]. split; [exact Hced|].
      right. simpl. congruence.
    + split; [exact Hced|]. simpl. congruence.
Qed.

(** The scan of avioes[] finds the caller's own record, so the caller
    gives way and does not wait on the semaphore. *)
Lemma ced_adquirir_volta r inicio timeout_total :
  garante (local (em_curso h l)) (adquirir_volta r inicio timeout_total)
          (fun v s => match v with
                      | Some rc => rc = -1 /\ local (parado h l) s
                      | None => local (em_curso h l) s
                      end).
Proof.
  intros s H. unfold adquirir_volta.
  apply apos_so_le_aviao. apply apos_so_le_mundo.
  pose proof H as ((H1 & H2 & _) & H5).
  rewrite H1. unfold existe_boost. rewrite H2, H5. cbn [andb orb].
  apply apos_bind. eapply apos_mono; [exact (ced_emite s H)|].
  cbv beta. intros _ s1 S1. apply apos_bind.
  eapply apos_mono; [exact (loc_dorme _ s1 S1)|].
  cbv beta. intros _ s2 S2. exact (ced_reavalia _ _ s2 S2).
Qed.

Lemma ced_adquirir_laco r inicio timeout_total :
  forall voltas,
    garante (local (em_curso h l))
            (adquirir_laco voltas r inicio timeout_total)
            (fun rc s => rc = -1 /\ local (parado h l) s).
Proof.
  induction voltas as [|v IH]; intros s H; cbn [adquirir_laco].
  - apply apos_trava.
  - apply apos_bind.
    eapply apos_mono; [exact (ced_adquirir_volta _ _ _ s H)|].
    cbv beta. intros [rc|] s1 H1; [apply apos_ret; exact H1|].
    exact (IH s1 H1).
Qed.

Lemma ced_adquirir r timeout_total :
  garante (local (em_curso h l))
          (adquirir_recurso_prioritario false r timeout_total)
          (fun rc s => rc = -1 /\ local (parado h l) s).
Proof.
  intros s H. unfold adquirir_recurso_prioritario.
  apply apos_so_agora. apply apos_bind. apply apos_le.
  exact (ced_adquirir_laco _ _ _ _ s H).
Qed.

(** The first call of a turn gives up; the phase returns if the
    aircraft has fallen and takes another turn otherwise. *)
Lemma ced_turno r (resto : M Estado (option Z))
      (outro : Z -> M Estado (option Z)) Q :
  (forall s, local (em_curso h l) s -> apos resto Q s) ->
  (forall s, local (parado h l) s -> falhou (aviao s) = true ->
             Q (Some (-1)) s) ->
  garante (local (em_curso h l))
          (aguardando_mais;;;
           x <- adquirir_recurso_prioritario false r TIMEOUT_OPERACAO;;
           if negb (x =? 0) then
             aguardando_menos;;;
             a <- le_aviao;;
             if falhou a then ret (Some (-1)) else resto
           else outro x)
          Q.
Proof.
  intros Hr Hq s H. apply apos_bind.
  eapply apos_mono; [exact (loc_aguardando_mais _ s H)|].
  cbv beta. intros _ s1 H1. apply apos_bind.
  eapply apos_mono; [exact (ced_adquirir r _ s1 H1)|].
  cbv beta. intros x s2 [-> H2]. cbn [Z.eqb negb]. apply apos_bind.
  eapply apos_mono; [exact (loc_aguardando_menos _ s2 H2)|].
  cbv beta. intros _ s3 H3. apply apos_so_le_aviao.
  destruct (falhou (aviao s3)) eqn:Ef.
  - apply apos_ret. apply Hq; assumption.
  - apply Hr. destruct H3 as [Hc [Hx|Hx]]; [congruence|].
    split; assumption.
Qed.

Lemma ced_par_laco first second :
  forall voltas,
    garante (local (em_curso h l)) (par_laco voltas first second false)
            (fun v s => v = Some (-1)
                        /\ local (cede_a_si h l) s
                        /\ falhou (aviao s) = true).
Proof.
  induction voltas as [|v IH]; cbn [par_laco negb].
  { intros s H. apply apos_trava. }
  eapply ced_turno.
  - exact IH.
  - intros s [H _] Hf. auto.
Qed.

Lemma ced_trio_laco r1 r2 r3 :
  forall voltas,
    garante (local (em_curso h l)) (trio_laco voltas r1 r2 r3 false false)
            (fun v s => v = Some (-1)
                        /\ local (cede_a_si h l) s
                        /\ falhou (aviao s) = true).
Proof.
  induction voltas as [|v IH]; cbn [trio_laco negb].
  { intros s H. apply apos_trava. }
  eapply ced_turno.
  - exact IH.
  - intros s [H _] Hf. auto.
Qed.

Lemma ced_muda_estado e :
  em_andamento e = true ->
  garante (local (cede_a_si h l)) (muda_estado e)
          (fun _ s => local (em_curso h l) s).
Proof.
  intros He s H. unfold muda_estado. apply apos_bind.
  unfold poe_aviao at 1. apply apos_altera. apply apos_so_agora.
  unfold poe_aviao. apply apos_altera.
  split; [exact H|exact He].
Qed.

Lemma ced_fase_pouso :
  garante (local (cede_a_si h l)) (fase_pouso false) (cai_sem_nada h l).
Proof.
  intros s H. unfold fase_pouso. apply apos_bind.
  eapply apos_mono; [exact (ced_muda_estado EST_AGUARDANDO_POUSO eq_refl s H)|].
  cbv beta. intros _ s1 H1. apply apos_so_le_aviao.
  destruct (ordem_pouso _) as [first second].
  apply apos_bind. apply apos_le. apply apos_bind.
  eapply apos_mono; [exact (ced_par_laco first second _ s1 H1)|].
  cbv beta. intros v s2 (-> & H2 & H3). apply apos_ret.
  split; [reflexivity|]. auto.
Qed.

Lemma ced_fase_desembarque :
  garante (local (cede_a_si h l)) (fase_desembarque false) (cai_sem_nada h l).
Proof.
  intros s H. unfold fase_desembarque. apply apos_bind.
  eapply apos_mono;
    [exact (ced_muda_estado EST_AGUARDANDO_DESEMBARQUE eq_refl s H)|].
  cbv beta. intros _ s1 H1. apply apos_so_le_aviao.
  destruct (ordem_desembarque _) as [first second].
  apply apos_bind. apply apos_le. apply apos_bind.
  eapply apos_mono; [exact (ced_par_laco first second _ s1 H1)|].
  cbv beta. intros v s2 (-> & H2 & H3). apply apos_ret.
  split; [reflexivity|]. auto.
Qed.

Lemma ced_fase_decolagem :
  garante (local (cede_a_si h l)) (fase_decolagem false) (cai_sem_nada h l).
Proof.
  intros s H. unfold fase_decolagem. apply apos_bind.
  eapply apos_mono;
    [exact (ced_muda_estado EST_AGUARDANDO_DECOLAGEM eq_refl s H)|].
  cbv beta. intros _ s1 H1. apply apos_so_le_aviao.
  destruct (ordem_decolagem _) as [[r1 r2] r3].
  apply apos_bind. apply apos_le. apply apos_bind.
  eapply apos_mono; [exact (ced_trio_laco r1 r2 r3 _ s1 H1)|].
  cbv beta. intros v s2 (-> & H2 & H3). apply apos_ret.
  split; [reflexivity|]. auto.
Qed.

End CedeASi.

(** X15 (So.c, adquirir_recurso_prioritario and the three phases).  In
    normal mode an international flight that is boosted never takes a
    semaphore again: the scan of avioes[] for a boosted aircraft finds
    the caller's own record, so every turn of
    adquirir_recurso_prioritario gives way, and every phase it enters
    returns -1 with the aircraft fallen, having taken and posted
    nothing, however idle the airport is. *)
Theorem internacional_boosted_cai fase s rc s' :
  In fase (So.fases false) ->
  So.tipo (So.aviao s) = So.INTERNACIONAL ->
  So.boosted (So.aviao s) = true ->
  fase s = Some (rc, s') ->
  rc = -1
  /\ So.falhou (So.aviao s') = true
  /\ So.obtidos (So.historico s') = So.obtidos (So.historico s)
  /\ So.liberados (So.historico s') = So.liberados (So.historico s).
Proof.
  intros Hin Ht Hb E.
  assert (H0 : So.local (So.cede_a_si (So.obtidos (So.historico s))
                                      (So.liberados (So.historico s))) s).
  { split; [exact Ht|]. split; [exact Hb|]. split; reflexivity. }
  assert (H : rc = -1
              /\ So.local (So.cede_a_si (So.obtidos (So.historico s))
                                        (So.liberados (So.historico s))) s'
              /\ So.falhou (So.aviao s') = true).
  { destruct Hin as [<-|[<-|[<-|[]]]].
    - exact (apos_elim _ _ _ _ _ (ced_fase_pouso _ _ s H0) E).
    - exact (apos_elim _ _ _ _ _ (ced_fase_desembarque _ _ s H0) E).
    - exact (apos_elim _ _ _ _ _ (ced_fase_decolagem _ _ s H0) E). }
  destruct H as (Hrc & (_ & _ & H1 & H2) & Hf). auto.
Qed.

Lemma internacional_boosted_cai_testemunha :
  exists s',
    So.fase_pouso false So.internacional_boosted = Some (-1, s')
    /\ So.falhou (So.aviao s') = true
    /\ So.obtidos (So.historico s') = [].
Proof.
  destruct (So.fase_pouso false So.internacional_boosted)
    as [[rc s']|] eqn:E; [|vm_compute in E; discriminate E].
  destruct (internacional_boosted_cai (So.fase_pouso false)
              So.internacional_boosted rc s')
    as (-> & Hf & Ho & _).
  - left. reflexivity.
  - reflexivity.
  - reflexivity.
  - exact E.
  - exists s'. split; [reflexivity|]. split; [exact Hf|exact Ho].
Defined.

(** ** rotina_monitor *)

Lemma monitor_laco_conta t :
  forall avioes n,
    n <= snd (So.monitor_laco t avioes n)
    /\ (snd (So.monitor_laco t avioes n) = n <->
        forall a, In (Some a) avioes ->
                  So.em_andamento (So.estado a) = false)
    /\ (fst (So.monitor_laco t avioes n) = true <->
        forall a, In (Some a) avioes ->
                  So.em_andamento (So.estado a) = true ->
                  So.LIMITE_DEADLOCK <= t - So.ultimo_progresso a).
Proof.
  induction avioes as [|[a|] resto IH]; intros n; cbn [So.monitor_laco].
  - cbn [fst snd]. split; [lia|]. split; split; auto; intros _ a [].
  - destruct (So.em_andamento (So.estado a)) eqn:Ea; cbn [negb].
    + destruct (t - So.ultimo_progresso a <? So.LIMITE_DEADLOCK) eqn:Et.
      * cbn [fst snd]. split; [lia|]. split; split.
        -- lia.
        -- intros H. specialize (H a (or_introl eq_refl)). congruence.
        -- discriminate.
        -- intros H. specialize (H a (or_introl eq_refl) Ea).
           apply Z.ltb_lt in Et. lia.
      * destruct (IH (n + 1)) as (H1 & H2 & H3). apply Z.ltb_ge in Et.
        split; [lia|]. split; split.
        -- lia.
        -- intros H. specialize (H a (or_introl eq_refl)). congruence.
        -- intros H x [Hx|Hx] Hax; [injection Hx as <-; exact Et|].
           exact (proj1 H3 H x Hx Hax).
        -- intros H. apply H3. intros x Hx. apply H. right. exact Hx.
    + destruct (IH n) as (H1 & H2 & H3).
      split; [exact H1|]. split; split.
      * intros H x [Hx|Hx]; [injection Hx as <-; exact Ea|].
        exact (proj1 H2 H x Hx).
      * intros H. apply H2. intros x Hx. apply H. right. exact Hx.
      * intros H x [Hx|Hx] Hax; [injection Hx as <-; congruence|].
        exact (proj1 H3 H x Hx Hax).
      * intros H. apply H3. intros x Hx. apply H. right. exact Hx.
  - destruct (IH n) as (H1 & H2 & H3).
    split; [exact H1|]. split; split.
    + intros H x [Hx|Hx]; [discriminate Hx|]. exact (proj1 H2 H x Hx).
    + intros H. apply H2. intros x Hx. apply H. right. exact Hx.
    + intros H x [Hx|Hx] Hax; [discriminate Hx|].
      exact (proj1 H3 H x Hx Hax).
    + intros H. apply H3. intros x Hx. apply H. right. exact Hx.
Qed.

(** X16 (So.c, rotina_monitor).  One turn of the monitor counts a
    deadlock alert exactly when some aircraft of avioes[] is neither
    finished nor failed and every such aircraft made its last progress
    LIMITE_DEADLOCK seconds ago or more.  It leaves its loop exactly
    when it counted an alert in test mode, or the creation is over and
    no aircraft of avioes[] is still active: the break of the scan
    never makes it take an airport with active aircraft for an empty
    one. *)
Theorem monitor_volta_decide modo encerrar_criacao t avioes :
  let r := So.monitor_volta modo encerrar_criacao t avioes in
  (fst r = true <->
   (exists a, In (Some a) avioes
              /\ So.em_andamento (So.estado a) = true)
   /\ (forall a, In (Some a) avioes ->
                 So.em_andamento (So.estado a) = true ->
                 So.LIMITE_DEADLOCK <= t - So.ultimo_progresso a))
  /\ (snd r = true <->
      (fst r = true /\ modo = true)
      \/ (encerrar_criacao = true
          /\ forall a, In (Some a) avioes ->
                       So.em_andamento (So.estado a) = false)).
Proof.
  cbv zeta. unfold So.monitor_volta.
  destruct (monitor_laco_conta t avioes 0) as (H1 & H2 & H3).
  destruct (So.monitor_laco t avioes 0) as [p n]. cbn [fst snd] in *.
  assert (Hn : (0 <? n) = true <->
               exists a, In (Some a) avioes
                         /\ So.em_andamento (So.estado a) = true).
  { rewrite Z.ltb_lt. split.
    - intros Hpos.
      destruct (existsb (fun o => match o with
                                  | Some a => So.em_andamento (So.estado a)
                                  | None => false
                                  end) avioes) eqn:Ex.
      + apply existsb_exists in Ex. destruct Ex as ([a|] & Hin & Ha);
          [exists a; auto|discriminate Ha].
      + exfalso. assert (n = 0); [|lia]. apply H2. intros a Hin.
        destruct (So.em_andamento (So.estado a)) eqn:Ea; [|reflexivity].
        assert (Ht : existsb (fun o => match o with
                                      | Some a => So.em_andamento (So.estado a)
                                      | None => false
                                      end) avioes = true).
        { apply existsb_exists. exists (Some a). auto. }
        congruence.
    - intros (a & Hin & Ha).
      assert (n <> 0); [|lia]. intros Hz.
      rewrite (proj1 H2 Hz a Hin) in Ha. discriminate Ha. }
  split.
  - rewrite andb_true_iff, Hn, H3. reflexivity.
  - rewrite orb_true_iff, !andb_true_iff, Z.eqb_eq, H2. reflexivity.
Qed.

(** * So_restrito.c: further properties *)

(** ** checa_starvation *)

Lemma final_estado e :
  SoRestrito.final e = true <-> e = SoRestrito.EST_FINAL.
Proof. destruct e; simpl; split; intros H; congruence. Qed.

(** A wait beyond the range of int: at the clock 2147483748 an
    aircraft that waits since 0 has the wait -2147483548, and
    checa_starvation leaves it alone. *)
Lemma checa_starvation_alem_do_int :
  let m := {| SoRestrito.relogio := 2147483748;
              SoRestrito.sem_pistas := 3; SoRestrito.sem_portoes := 5;
              SoRestrito.sem_torre := 1;
              SoRestrito.aguardando_internacional := 0;
              SoRestrito.total_falha := 0;
              SoRestrito.total_alertas_starvation := 0;
              SoRestrito.total_boosts := 0 |} in
  let a := {| SoRestrito.id := 1; SoRestrito.tipo := SoRestrito.DOMESTICO;
              SoRestrito.estado := SoRestrito.EST_AG_POUSO;
              SoRestrito.inicio_espera := 0;
              SoRestrito.ultimo_progresso := 0;
              SoRestrito.alertas_starv := 0; SoRestrito.falhou := false;
              SoRestrito.boosted := false; SoRestrito.operacoes := 0 |} in
  para_int (SoRestrito.relogio m - SoRestrito.inicio_espera a)
  = -2147483548
  /\ SoRestrito.checa_starvation m a = (m, a).
Proof. split; vm_compute; reflexivity. Qed.

Lemma para_int_pequeno z :
  -2147483648 <= z < 2147483648 -> para_int z = z.
Proof.
  intros H. unfold para_int.
  rewrite Z.mod_small by lia. lia.
Qed.

(** X17 (So_restrito.c, checa_starvation).  The wait the call tests is
    (int)(t - a->inicio_espera): the difference itself when it fits an
    int, its low 32 bits otherwise.  The call leaves a fallen or
    finished aircraft untouched.  Otherwise it makes the aircraft fall
    exactly when that wait is FALHA_TIMEOUT or more, putting it in
    state EST_FALHA and counting one failure; it boosts an aircraft
    only if it is a domestic flight, at its first alert, and never an
    international one; total_boosts rises only with such a boost; and
    a second call at the same time changes nothing. *)
Theorem checa_starvation_restrito m a :
  let m' := fst (SoRestrito.checa_starvation m a) in
  let a' := snd (SoRestrito.checa_starvation m a) in
  let espera :=
    para_int
      (SoRestrito.relogio m - SoRestrito.inicio_espera a) in
  (-2147483648
   <= SoRestrito.relogio m - SoRestrito.inicio_espera a
   < 2147483648 ->
   espera = SoRestrito.relogio m - SoRestrito.inicio_espera a)
  /\ (SoRestrito.falhou a = true
      \/ SoRestrito.estado a = SoRestrito.EST_FINAL ->
      SoRestrito.checa_starvation m a = (m, a))
  /\ (SoRestrito.falhou a = false ->
      SoRestrito.estado a <> SoRestrito.EST_FINAL ->
      (SoRestrito.falhou a' = true <-> SoRestrito.FALHA_TIMEOUT <= espera)
      /\ (SoRestrito.falhou a' = true ->
          SoRestrito.estado a' = SoRestrito.EST_FALHA
          /\ SoRestrito.total_falha m' = SoRestrito.total_falha m + 1)
      /\ (SoRestrito.falhou a' = false ->
          SoRestrito.estado a' = SoRestrito.estado a
          /\ SoRestrito.total_falha m' = SoRestrito.total_falha m))
  /\ (SoRestrito.boosted a' = true ->
      SoRestrito.boosted a = true
      \/ (SoRestrito.tipo a = SoRestrito.DOMESTICO
          /\ SoRestrito.alertas_starv a = 0
          /\ SoRestrito.ALERTA_CRITICO <= espera))
  /\ (SoRestrito.boosted a = true -> SoRestrito.boosted a' = true)
  /\ SoRestrito.total_boosts m' - SoRestrito.total_boosts m
     = (if SoRestrito.boosted a' && negb (SoRestrito.boosted a)
        then 1 else 0)
  /\ SoRestrito.checa_starvation m' a' = (m', a').
Proof.
  cbv zeta. split; [apply para_int_pequeno|].
  destruct (SoRestrito.checa_starvation m a) as [m' a'] eqn:E.
  cbn [fst snd]. pose proof E as E'.
  unfold SoRestrito.checa_starvation in E.
  destruct (SoRestrito.falhou a) eqn:Ef; cbn [orb] in E.
  { injection E as <- <-. rewrite Ef.
    split; [reflexivity|]. split; [discriminate|].
    split; [auto|]. split; [auto|].
    split; [destruct (SoRestrito.boosted a); simpl; lia|exact E']. }
  destruct (SoRestrito.final (SoRestrito.estado a)) eqn:Efin.
  { injection E as <- <-. rewrite Ef. apply final_estado in Efin.
    split; [reflexivity|]. split; [intros _ H; contradiction|].
    split; [auto|]. split; [auto|].
    split; [destruct (SoRestrito.boosted a); simpl; lia|exact E']. }
  clear E'.
  assert (Hnf : SoRestrito.estado a <> SoRestrito.EST_FINAL).
  { intros H. apply final_estado in H. congruence. }
  split; [intros [H|H]; [discriminate H|contradiction]|].
  assert (Hfixo : forall m1 a1,
             SoRestrito.falhou a1 = false ->
             SoRestrito.estado a1 = SoRestrito.estado a ->
             SoRestrito.inicio_espera a1 = SoRestrito.inicio_espera a ->
             SoRestrito.relogio m1 = SoRestrito.relogio m ->
             SoRestrito.alertas_starv a1 <> 0
             \/ para_int
                 (SoRestrito.relogio m - SoRestrito.inicio_espera a)
                < SoRestrito.ALERTA_CRITICO ->
             para_int
                 (SoRestrito.relogio m - SoRestrito.inicio_espera a)
             < SoRestrito.FALHA_TIMEOUT ->
             SoRestrito.checa_starvation m1 a1 = (m1, a1)).
  { intros m1 a1 H1 H2 H3 H4 H5 H6. unfold SoRestrito.checa_starvation.
    rewrite H1, H2, Efin, H3, H4. cbn [orb].
    replace ((SoRestrito.ALERTA_CRITICO
              <=? para_int
                 (SoRestrito.relogio m - SoRestrito.inicio_espera a))
             && (SoRestrito.alertas_starv a1 =? 0)) with false.
    - apply Z.leb_gt in H6. rewrite H6. reflexivity.
    - symmetry. apply andb_false_iff.
      destruct H5 as [H5|H5];
        [right; apply Z.eqb_neq; exact H5|left; apply Z.leb_gt; exact H5]. }
  assert (Hcaido : forall m1 a1,
             SoRestrito.falhou a1 = true ->
             SoRestrito.checa_starvation m1 a1 = (m1, a1)).
  { intros m1 a1 H1. unfold SoRestrito.checa_starvation.
    rewrite H1. reflexivity. }
  destruct (SoRestrito.ALERTA_CRITICO
            <=? para_int
                 (SoRestrito.relogio m - SoRestrito.inicio_espera a)) eqn:Ea;
    cbn [andb] in E.
  2:{ apply Z.leb_gt in Ea.
      destruct (SoRestrito.FALHA_TIMEOUT
                <=? para_int
                 (SoRestrito.relogio m - SoRestrito.inicio_espera a))
        eqn:Eq; injection E as <- <-.
      - apply Z.leb_le in Eq.
        unfold SoRestrito.ALERTA_CRITICO, SoRestrito.FALHA_TIMEOUT in *.
        lia.
      - apply Z.leb_gt in Eq. simpl. rewrite Ef.
        split; [intros _ _; split; [split; [discriminate|lia]|];
                split; [discriminate|auto]|].
        split; [auto|]. split; [auto|].
        split; [destruct (SoRestrito.boosted a); simpl; lia|].
        apply Hfixo; auto. }
  apply Z.leb_le in Ea.
  destruct (SoRestrito.alertas_starv a =? 0) eqn:E0.
  2:{ apply Z.eqb_neq in E0.
      destruct (SoRestrito.FALHA_TIMEOUT
                <=? para_int
                 (SoRestrito.relogio m - SoRestrito.inicio_espera a))
        eqn:Eq; injection E as <- <-; simpl.
      - apply Z.leb_le in Eq.
        split; [intros _ _; split; [split; auto|]; split; [auto|discriminate]|].
        split; [auto|]. split; [auto|].
        split; [destruct (SoRestrito.boosted a); simpl; lia|].
        apply Hcaido. reflexivity.
      - apply Z.leb_gt in Eq. rewrite Ef.
        split; [intros _ _; split; [split; [discriminate|lia]|];
                split; [discriminate|auto]|].
        split; [auto|]. split; [auto|].
        split; [destruct (SoRestrito.boosted a); simpl; lia|].
        apply Hfixo; auto. }
  apply Z.eqb_eq in E0.
  assert (Hb : forall m1 a1,
             (m1, a1)
             = match SoRestrito.tipo a with
               | SoRestrito.DOMESTICO =>
                   if negb (SoRestrito.boosted a)
                   then (SoRestrito.com_totais
                           (SoRestrito.total_falha m)
                           (SoRestrito.total_alertas_starvation m + 1)
                           (SoRestrito.total_boosts m + 1) m,
                         SoRestrito.com_alerta 1 true a)
                   else (SoRestrito.com_totais
                           (SoRestrito.total_falha m)
                           (SoRestrito.total_alertas_starvation m + 1)
                           (SoRestrito.total_boosts m) m,
                         SoRestrito.com_alerta 1 (SoRestrito.boosted a) a)
               | SoRestrito.INTERNACIONAL =>
                   (SoRestrito.com_totais
                      (SoRestrito.total_falha m)
                      (SoRestrito.total_alertas_starvation m + 1)
                      (SoRestrito.total_boosts m) m,
                    SoRestrito.com_alerta 1 (SoRestrito.boosted a) a)
               end ->
             SoRestrito.falhou a1 = false
             /\ SoRestrito.estado a1 = SoRestrito.estado a
             /\ SoRestrito.inicio_espera a1 = SoRestrito.inicio_espera a
             /\ SoRestrito.relogio m1 = SoRestrito.relogio m
             /\ SoRestrito.alertas_starv a1 = 1
             /\ SoRestrito.total_falha m1 = SoRestrito.total_falha m
             /\ (SoRestrito.boosted a1 = true ->
                 SoRestrito.boosted a = true
                 \/ SoRestrito.tipo a = SoRestrito.DOMESTICO)
             /\ (SoRestrito.boosted a = true -> SoRestrito.boosted a1 = true)
             /\ SoRestrito.total_boosts m1 - SoRestrito.total_boosts m
                = (if SoRestrito.boosted a1 && negb (SoRestrito.boosted a)
                   then 1 else 0)).
  { intros m1 a1 H.
    destruct (SoRestrito.tipo a);
      [|destruct (SoRestrito.boosted a) eqn:Eb; cbn [negb] in H];
      injection H as -> ->; simpl; rewrite ?Eb; simpl;
      repeat split; auto; try lia.
    destruct (SoRestrito.boosted a); simpl; lia. }
  match type of E with
  | (let '(_, _) := ?x in _) = _ =>
      destruct x as [m1 a1] eqn:E1
  end.
  symmetry in E1. simpl in E1. apply Hb in E1.
  destruct E1 as (H1 & H2 & H3 & H4 & H5 & H6 & H7 & H8 & H9).
  destruct (SoRestrito.FALHA_TIMEOUT
            <=? para_int
                 (SoRestrito.relogio m - SoRestrito.inicio_espera a))
    eqn:Eq; injection E as <- <-; simpl.
  - apply Z.leb_le in Eq.
    split; [intros _ _; split; [split; auto|]; split; [|discriminate];
            intros _; split; [reflexivity|lia]|].
    split; [intros H; destruct (H7 H); auto|].
    split; [exact H8|]. split; [exact H9|].
    apply Hcaido. reflexivity.
  - apply Z.leb_gt in Eq. rewrite H1.
    split; [intros _ _; split; [split; [discriminate|lia]|];
            split; [discriminate|auto]|].
    split; [intros H; destruct (H7 H); auto|].
    split; [exact H8|]. split; [exact H9|].
    apply Hfixo; auto. left. lia.
Qed.

(** ** adquirir_fase *)

Section AdquirirFase.
Import SoRestrito.

Lemma apos_r_le_aviao {B} (k : Aviao -> M Execucao B) Q (s : Execucao) :
  apos (k (aviao s)) Q s -> apos (bind le_aviao k) Q s.
Proof. intros H. abre. unfold bind, le_aviao, le, ret. exact H. Qed.

Lemma apos_r_le_mundo {B} (k : Mundo -> M Execucao B) Q (s : Execucao) :
  apos (k (mundo s)) Q s -> apos (bind le_mundo k) Q s.
Proof. intros H. abre. unfold bind, le_mundo, le, ret. exact H. Qed.

Lemma apos_r_agora {B} (k : Z -> M Execucao B) Q (s : Execucao) :
  apos (k (relogio (mundo s))) Q s -> apos (bind agora k) Q s.
Proof. intros H. abre. unfold bind, agora, le, ret. exact H. Qed.

Lemma posse_apos_app tr e held :
  posse_apos tr = Some held ->
  posse_apos (tr ++ [e]) = passo_posse (Some held) e.
Proof.
  unfold posse_apos. intros H. rewrite fold_left_app, H. reflexivity.
Qed.

Variable h0 : list Evento.

Lemma rs_poe_mundo held f : preserva (segura h0 held) (poe_mundo f).
Proof. intros s H. unfold poe_mundo. apply apos_altera. exact H. Qed.

Lemma rs_dorme held : preserva (segura h0 held) dorme.
Proof.
  intros s H. abre. unfold dorme.
  destruct (ambiente s); [exact I|exact H].
Qed.

Lemma rs_checa_starvation_m held :
  preserva (segura h0 held) checa_starvation_m.
Proof.
  intros s H. unfold checa_starvation_m. apply apos_altera.
  destruct (checa_starvation _ _) as [m a]. exact H.
Qed.

Lemma rs_emite_pegou held r :
  garante (segura h0 held) (emite (EvPegou r))
          (fun _ s => segura h0 (held ++ [r]) s).
Proof.
  intros s (tr & H1 & H2). unfold emite. apply apos_altera.
  exists (tr ++ [EvPegou r]). simpl. rewrite H1, app_assoc.
  split; [reflexivity|]. rewrite (posse_apos_app _ _ _ H2). reflexivity.
Qed.

Lemma rs_sem_post held r :
  garante (segura h0 (r :: held)) (sem_post r)
          (fun _ s => segura h0 held s).
Proof.
  intros s (tr & H1 & H2). unfold sem_post.
  apply apos_r_le_mundo. apply apos_bind. unfold poe_mundo.
  apply apos_altera. unfold emite. apply apos_altera.
  exists (tr ++ [EvPost r]). simpl. rewrite H1, app_assoc.
  split; [reflexivity|]. rewrite (posse_apos_app _ _ _ H2). simpl.
  rewrite Recurso_eqb_refl. reflexivity.
Qed.

#[local] Hint Resolve rs_poe_mundo rs_dorme rs_checa_starvation_m
  : preserva.

Lemma rs_aguardando_soma held d :
  preserva (segura h0 held) (aguardando_soma d).
Proof.
  unfold aguardando_soma. intros s H. apply apos_r_le_aviao.
  destruct (tipo (aviao s)); [|apply apos_ret; exact H].
  apply apos_r_le_mundo. exact (rs_poe_mundo held _ s H).
Qed.

(** The rollback posts what was taken, in the order it was taken. *)
Lemma rs_devolve :
  forall tomados held,
    garante (segura h0 (tomados ++ held)) (devolve tomados)
            (fun _ s => segura h0 held s).
Proof.
  induction tomados as [|r resto IH]; intros held s H; cbn [devolve].
  - apply apos_ret. exact H.
  - apply apos_bind.
    eapply apos_mono; [exact (rs_sem_post (resto ++ held) r s H)|].
    cbv beta. intros _ s1 H1. exact (IH held s1 H1).
Qed.

(** The aircraft record is written by checa_starvation only. *)
Lemma vc_poe_mundo held f : preserva (vivo_com h0 held) (poe_mundo f).
Proof. intros s H. unfold poe_mundo. apply apos_altera. exact H. Qed.

Lemma vc_dorme held : preserva (vivo_com h0 held) dorme.
Proof.
  intros s H. abre. unfold dorme.
  destruct (ambiente s); [exact I|exact H].
Qed.

Lemma vc_aguardando_soma held d :
  preserva (vivo_com h0 held) (aguardando_soma d).
Proof.
  unfold aguardando_soma. intros s H. apply apos_r_le_aviao.
  destruct (tipo (aviao s)); [|apply apos_ret; exact H].
  apply apos_r_le_mundo. exact (vc_poe_mundo held _ s H).
Qed.

Lemma vc_sem_trywait held r :
  garante (vivo_com h0 held) (sem_trywait r)
          (fun ok s => vivo_com h0 (if ok then held ++ [r] else held) s).
Proof.
  intros s [Hf (tr & H1 & H2)]. abre.
  unfold sem_trywait, le_mundo, poe_mundo, emite, altera, bind, le, ret.
  destruct (0 <? _).
  - split; [exact Hf|]. exists (tr ++ [EvPegou r]). simpl.
    rewrite H1, app_assoc. split; [reflexivity|].
    rewrite (posse_apos_app _ _ _ H2). reflexivity.
  - split; [exact Hf|]. exists tr. auto.
Qed.

Lemma vc_sem_wait held r :
  garante (vivo_com h0 held) (sem_wait r)
          (fun _ s => vivo_com h0 (held ++ [r]) s).
Proof.
  intros s H. unfold sem_wait. apply apos_bind.
  eapply apos_mono; [exact (vc_dorme held s H)|].
  cbv beta. intros _ s1 [Hf (tr & H1 & H2)]. abre.
  unfold le_mundo, poe_mundo, emite, altera, bind, le, ret, trava.
  destruct (0 <? _); [|exact I].
  split; [exact Hf|]. exists (tr ++ [EvPegou r]). simpl.
  rewrite H1, app_assoc. split; [reflexivity|].
  rewrite (posse_apos_app _ _ _ H2). reflexivity.
Qed.

(** checa_starvation may make the aircraft fall; it holds what it
    held. *)
Lemma vc_checa_e_le held {B} (k : Aviao -> M Execucao B) Q :
  (forall a s, falhou a = falhou (aviao s) -> segura h0 held s ->
               apos (k a) Q s) ->
  forall s, segura h0 held s ->
            apos (checa_starvation_m;;; a <- le_aviao;; k a) Q s.
Proof.
  intros Hk s H. apply apos_bind.
  eapply apos_mono; [exact (rs_checa_starvation_m held s H)|].
  cbv beta. intros _ s1 H1. apply apos_r_le_aviao.
  apply Hk; [reflexivity|exact H1].
Qed.

(** The poll of one semaphore takes it, or gives up holding what was
    held. *)
Lemma vc_tenta held r inicio_recurso :
  forall voltas,
    garante (vivo_com h0 held) (tenta voltas r inicio_recurso)
            (fun ok s => if ok then vivo_com h0 (held ++ [r]) s
                         else segura h0 held s).
Proof.
  induction voltas as [|v IH]; intros s H; cbn [tenta].
  { apply apos_trava. }
  apply apos_bind.
  eapply apos_mono; [exact (vc_sem_trywait held r s H)|].
  cbv beta. intros ok s1 H1. destruct ok.
  { apply apos_ret. exact H1. }
  apply apos_bind.
  eapply apos_mono; [exact (vc_dorme held s1 H1)|].
  cbv beta. intros _ s2 [_ H2].
  apply (vc_checa_e_le held); [|exact H2].
  intros a s3 Ha H3. destruct (falhou a) eqn:Ef.
  - apply apos_ret. exact H3.
  - apply apos_r_agora. destruct (TIMEOUT_RECURSO <=? _).
    + apply apos_ret. exact H3.
    + apply IH. split; [congruence|exact H3].
Qed.

Lemma firstn_prefixo (pre resto : list Recurso) :
  firstn (length pre) (pre ++ resto) = pre.
Proof.
  rewrite firstn_app, Nat.sub_diag, firstn_all. simpl.
  apply app_nil_r.
Qed.

Lemma vc_percorre modo ordem :
  forall resto pre,
    ordem = pre ++ resto ->
    garante (vivo_com h0 pre)
            (percorre modo ordem resto (length pre) (length pre))
            (percorrido modo h0 ordem).
Proof.
  induction resto as [|r resto IH]; intros pre Ho s H; cbn [percorre].
  - apply apos_ret. rewrite app_nil_r in Ho. subst pre.
    destruct H as [Hf H]. rewrite <- (firstn_all ordem) in H at 1.
    split; [exact H|]. split; [lia|auto].
  - assert (Ho' : ordem = (pre ++ [r]) ++ resto)
      by (rewrite <- app_assoc; exact Ho).
    assert (Hl : length (pre ++ [r]) = S (length pre))
      by (rewrite length_app; simpl; lia).
    destruct modo.
    + apply apos_bind.
      eapply apos_mono; [exact (vc_sem_wait pre r s H)|].
      cbv beta. intros _ s1 H1. apply apos_bind.
      assert (Hd : apos (if (S (length pre) <? length ordem)%nat
                         then dorme else ret tt)
                        (fun _ s' => vivo_com h0 (pre ++ [r]) s') s1).
      { destruct (_ <? _)%nat;
          [exact (vc_dorme _ s1 H1)|apply apos_ret; exact H1]. }
      eapply apos_mono; [exact Hd|].
      cbv beta. intros _ s2 H2. rewrite <- Hl.
      exact (IH (pre ++ [r]) Ho' s2 H2).
    + apply apos_r_agora. apply apos_bind. apply apos_le. apply apos_bind.
      eapply apos_mono; [exact (vc_tenta pre r _ _ s H)|].
      cbv beta. intros ok s1 H1. apply apos_r_le_aviao.
      assert (Hlen : (length pre < length ordem)%nat).
      { rewrite Ho, length_app. simpl. lia. }
      destruct ok.
      * destruct H1 as [Hf H1]. rewrite Hf.
        rewrite Nat.eqb_refl. cbn [negb]. rewrite <- Hl.
        apply (IH (pre ++ [r]) Ho'). split; assumption.
      * destruct (falhou (aviao s1)) eqn:Ef.
        -- apply apos_ret.
           split; [|split; [lia|intros X; congruence]].
           rewrite Ho, firstn_prefixo. exact H1.
        -- replace (length pre =? S (length pre))%nat with false
             by (symmetry; apply Nat.eqb_neq; lia).
           cbn [negb]. apply apos_bind.
           rewrite Ho, firstn_prefixo.
           assert (H1' : segura h0 (pre ++ []) s1)
             by (rewrite app_nil_r; exact H1).
           eapply apos_mono; [exact (rs_devolve pre [] s1 H1')|].
           cbv beta. intros _ s2 H2. apply apos_ret.
           split; [exact H2|]. split; [lia|auto].
Qed.

Lemma rs_percorrido_aguardando modo ordem acquired d :
  preserva (percorrido modo h0 ordem acquired) (aguardando_soma d).
Proof.
  unfold aguardando_soma. intros s H. apply apos_r_le_aviao.
  destruct (tipo (aviao s)); [|apply apos_ret; exact H].
  apply apos_r_le_mundo. unfold poe_mundo. apply apos_altera. exact H.
Qed.

Lemma rs_adquirir_laco modo ordem :
  forall voltas inicio_total,
    garante (segura h0 [])
            (adquirir_laco voltas modo ordem inicio_total)
            (adquirido h0 ordem).
Proof.
  induction voltas as [|v IH]; intros ini s H; cbn [adquirir_laco].
  { apply apos_trava. }
  apply apos_r_le_aviao. destruct (falhou (aviao s)) eqn:Ef.
  { apply apos_ret. right. split; [reflexivity|]. split; [exact Ef|].
    exists O. split; [lia|exact H]. }
  apply apos_r_le_mundo. destruct (_ && _).
  { apply apos_bind.
    eapply apos_mono; [exact (rs_dorme [] s H)|].
    cbv beta. intros _ s1 H1. apply apos_bind.
    eapply apos_mono; [exact (rs_checa_starvation_m [] s1 H1)|].
    cbv beta. intros _ s2 H2. exact (IH ini s2 H2). }
  apply apos_bind.
  eapply apos_mono; [exact (vc_aguardando_soma [] 1 s (conj Ef H))|].
  cbv beta. intros _ s1 H1. apply apos_bind.
  eapply apos_mono; [exact (vc_percorre modo ordem ordem [] eq_refl s1 H1)|].
  cbv beta. intros acq s2 H2. apply apos_bind.
  eapply apos_mono; [exact (rs_percorrido_aguardando modo ordem acq _ s2 H2)|].
  cbv beta. intros _ s3 (H3 & Hle & Hv). apply apos_r_le_aviao.
  destruct (falhou (aviao s3)) eqn:Ef3.
  { apply apos_ret. right. split; [reflexivity|]. split; [exact Ef3|].
    exists acq. split; [exact Hle|exact H3]. }
  destruct (acq =? length ordem)%nat eqn:Eq.
  { apply apos_ret. left. split; [reflexivity|].
    apply Nat.eqb_eq in Eq. subst acq. rewrite firstn_all in H3.
    exact H3. }
  apply Nat.eqb_neq in Eq.
  destruct (Hv eq_refl) as [Hx|[-> ->]]; [contradiction|].
  apply apos_bind.
  eapply apos_mono; [exact (rs_checa_starvation_m [] s3 H3)|].
  cbv beta. intros _ s4 H4. apply apos_r_agora. exact (IH _ s4 H4).
Qed.

End AdquirirFase.

(** X18 (So_restrito.c, adquirir_fase).  In either mode the call
    returns 0 or -1.  When it returns 0 the semaphores it took and did
    not post back are exactly those of the phase, in the order of the
    flight class; every earlier attempt was rolled back in full.  It
    returns -1 only for an aircraft that has fallen, and then what it
    still holds is a prefix of that order: nothing, or the semaphores
    taken before the one on which the aircraft fell. *)
Theorem adquirir_fase_retorno modo fase s rc s' tr :
  SoRestrito.adquirir_fase modo fase s = Some (rc, s') ->
  SoRestrito.historico s' = SoRestrito.historico s ++ tr ->
  let ordem :=
    SoRestrito.ordem_fase fase (SoRestrito.tipo (SoRestrito.aviao s)) in
  (rc = 0 /\ SoRestrito.posse_apos tr = Some ordem)
  \/ (rc = -1
      /\ SoRestrito.falhou (SoRestrito.aviao s') = true
      /\ exists j, (j <= length ordem)%nat
                   /\ SoRestrito.posse_apos tr = Some (firstn j ordem)).
Proof.
  intros E Hh ordem.
  assert (H0 : SoRestrito.segura (SoRestrito.historico s) [] s).
  { exists []. rewrite app_nil_r. split; reflexivity. }
  assert (H : SoRestrito.adquirido (SoRestrito.historico s) ordem rc s').
  { revert E. unfold SoRestrito.adquirir_fase, SoRestrito.le_aviao,
      SoRestrito.agora.
    unfold bind at 1 2 3 4 5. unfold le, ret at 1 2.
    destruct (SoRestrito.falhou (SoRestrito.aviao s)) eqn:Ef.
    - unfold ret. intros E. injection E as <- <-.
      right. split; [reflexivity|]. split; [exact Ef|].
      exists O. split; [lia|exact H0].
    - intros E.
      exact (apos_elim _ _ _ _ _
               (rs_adquirir_laco _ modo ordem _ _ s H0) E). }
  destruct H as [[-> (tr' & H1 & H2)]|[-> (Hf & j & Hj & tr' & H1 & H2)]];
    rewrite Hh in H1; apply app_inv_head in H1; subst tr'.
  - left. auto.
  - right. split; [reflexivity|]. split; [exact Hf|]. exists j. auto.
Qed.

Lemma adquirir_fase_retorno_testemunha :
  exists s',
    SoRestrito.adquirir_fase false 0 SoRestrito.chegada_internacional
    = Some (0, s')
    /\ SoRestrito.posse_apos (SoRestrito.historico s')
       = Some [PISTA; TORRE].
Proof.
  destruct (SoRestrito.adquirir_fase false 0
                                     SoRestrito.chegada_internacional)
    as [[rc s']|] eqn:E; [|vm_compute in E; discriminate E].
  destruct (adquirir_fase_retorno false 0 _ rc s' (SoRestrito.historico s')
                                  E)
    as [[-> H]|[Hrc _]].
  - vm_compute in E. injection E as <-. reflexivity.
  - exists s'. split; [reflexivity|exact H].
  - exfalso. vm_compute in E. injection E as Hx _. lia.
Defined.

(** ** rotina_monitor *)

Section MonitorRestrito.
Import SoRestrito.

(** What checa_starvation does to the record depends on the clock
    only, and it writes the counters only. *)
Lemma checa_starvation_quadro m a :
  relogio (fst (checa_starvation m a)) = relogio m
  /\ ultimo_progresso (snd (checa_starvation m a)) = ultimo_progresso a
  /\ inicio_espera (snd (checa_starvation m a)) = inicio_espera a
  /\ (forall m2, relogio m2 = relogio m ->
                 snd (checa_starvation m2 a) = snd (checa_starvation m a))
  /\ total_falha (fst (checa_starvation m a)) - total_falha m
     = (if negb (falhou a) && falhou (snd (checa_starvation m a))
        then 1 else 0)
  /\ (falhou a = false -> final (estado a) = false ->
      FALHA_TIMEOUT <= para_int (relogio m - inicio_espera a) ->
      falhou (snd (checa_starvation m a)) = true).
Proof.
  unfold checa_starvation.
  destruct (falhou a) eqn:Ef; cbn [orb].
  { cbn [fst snd negb andb]. rewrite Ef.
    repeat split; auto; try lia; try discriminate. }
  destruct (final (estado a)) eqn:Efin.
  { cbn [fst snd]. rewrite Ef. cbn [negb andb].
    repeat split; auto; try lia; try discriminate. }
  assert (H : forall m2, relogio m2 = relogio m ->
              snd (let '(m1, a1) :=
                     if (ALERTA_CRITICO
                         <=? para_int (relogio m2 - inicio_espera a))
                        && (alertas_starv a =? 0)
                     then
                       let m' := com_totais (total_falha m2)
                                   (total_alertas_starvation m2 + 1)
                                   (total_boosts m2) m2 in
                       match tipo a with
                       | DOMESTICO =>
                           if negb (boosted a)
                           then (com_totais (total_falha m')
                                   (total_alertas_starvation m')
                                   (total_boosts m' + 1) m',
                                 com_alerta 1 true a)
                           else (m', com_alerta 1 (boosted a) a)
                       | INTERNACIONAL => (m', com_alerta 1 (boosted a) a)
                       end
                     else (m2, a) in
                   if FALHA_TIMEOUT <=? para_int (relogio m2 - inicio_espera a)
                   then (com_totais (total_falha m1 + 1)
                           (total_alertas_starvation m1)
                           (total_boosts m1) m1, com_falha a1)
                   else (m1, a1))
              = snd (let '(m1, a1) :=
                     if (ALERTA_CRITICO
                         <=? para_int (relogio m - inicio_espera a))
                        && (alertas_starv a =? 0)
                     then
                       let m' := com_totais (total_falha m)
                                   (total_alertas_starvation m + 1)
                                   (total_boosts m) m in
                       match tipo a with
                       | DOMESTICO =>
                           if negb (boosted a)
                           then (com_totais (total_falha m')
                                   (total_alertas_starvation m')
                                   (total_boosts m' + 1) m',
                                 com_alerta 1 true a)
                           else (m', com_alerta 1 (boosted a) a)
                       | INTERNACIONAL => (m', com_alerta 1 (boosted a) a)
                       end
                     else (m, a) in
                   if FALHA_TIMEOUT <=? para_int (relogio m - inicio_espera a)
                   then (com_totais (total_falha m1 + 1)
                           (total_alertas_starvation m1)
                           (total_boosts m1) m1, com_falha a1)
                   else (m1, a1))).
  { intros m2 ->.
    destruct (_ && (alertas_starv a =? 0));
      [destruct (tipo a); [|destruct (negb (boosted a))]|];
      destruct (FALHA_TIMEOUT <=? _); reflexivity. }
  split; [|split; [|split; [|split; [exact H|]]]];
    clear H;
    (destruct ((ALERTA_CRITICO <=? para_int (relogio m - inicio_espera a))
               && (alertas_starv a =? 0));
     [destruct (tipo a); [|destruct (negb (boosted a))]|]);
    (destruct (FALHA_TIMEOUT <=? para_int (relogio m - inicio_espera a)) eqn:Eq;
     [apply Z.leb_le in Eq|apply Z.leb_gt in Eq]);
    simpl; rewrite ?Ef; simpl; try reflexivity; try lia;
    (split; [lia|intros; try reflexivity; lia]).
Qed.

Lemma varrido_relogio m1 m o :
  relogio m1 = relogio m ->
  varrido m1 o = varrido m o
  /\ cai_na_varredura m1 o = cai_na_varredura m o.
Proof.
  intros H. destruct o as [a|]; [|auto]. simpl.
  destruct (checa_starvation_quadro m a) as (_ & _ & _ & Hq & _).
  rewrite (Hq m1 H). auto.
Qed.

Lemma monitor_laco_faz t :
  forall avioes m n p,
    let '(m', l, n', p') := monitor_laco t m avioes n p in
    relogio m' = relogio m
    /\ l = map (varrido m) avioes
    /\ n' = n + Z.of_nat (length (filter ativo_em avioes))
    /\ (p' = true <->
        p = true
        /\ forall a, In (Some a) avioes -> ativo a = true ->
                     LIMITE_DEADLOCK <= t - ultimo_progresso a)
    /\ total_falha m'
       = total_falha m
         + Z.of_nat (length (filter (cai_na_varredura m) avioes)).
Proof.
  induction avioes as [|[a|] resto IH]; intros m n p;
    cbn [monitor_laco].
  - simpl. split; [reflexivity|]. split; [reflexivity|].
    split; [lia|]. split; [|lia].
    split; [intros Hp; split; [exact Hp|intros a []]|tauto].
  - destruct (ativo a) eqn:Ea.
    + destruct (checa_starvation_quadro m a)
        as (Hr & Hu & _ & _ & Hf & _).
      destruct (checa_starvation m a) as [m1 a1] eqn:Ec.
      cbn [fst snd] in Hr, Hu, Hf.
      match goal with
      | |- context [monitor_laco t m1 resto (n + 1) ?q] =>
          specialize (IH m1 (n + 1) q);
            destruct (monitor_laco t m1 resto (n + 1) q)
            as [[[m' l] n'] p']
      end.
      destruct IH as (I1 & I2 & I3 & I4 & I5).
      assert (Hm : map (varrido m1) resto = map (varrido m) resto).
      { apply map_ext. intros o. apply (varrido_relogio m1 m o Hr). }
      assert (Hc : filter (cai_na_varredura m1) resto
                   = filter (cai_na_varredura m) resto).
      { apply filter_ext. intros o. apply (varrido_relogio m1 m o Hr). }
      split; [congruence|].
      split; [simpl; rewrite Ea, Ec; cbn [snd]; congruence|].
      split; [cbn [filter ativo_em]; rewrite Ea; cbn [length];
              rewrite Nat2Z.inj_succ; lia|].
      split.
      * rewrite I4, Hu. split.
        -- intros [Hp Hall].
           destruct (t - ultimo_progresso a <? LIMITE_DEADLOCK) eqn:Et;
             [discriminate Hp|].
           split; [exact Hp|]. apply Z.ltb_ge in Et.
           intros x [Hx|Hx] Hax; [injection Hx as <-; exact Et|auto].
        -- intros [Hp Hall].
           pose proof (Hall a (or_introl eq_refl) Ea) as Ha.
           apply Z.ltb_ge in Ha. rewrite Ha. split; [exact Hp|].
           intros x Hx. apply Hall. right. exact Hx.
      * rewrite I5, Hc. cbn [filter cai_na_varredura].
        rewrite Ea, Ec. cbn [snd andb].
        destruct (negb (falhou a) && falhou a1); cbn [length];
          rewrite ?Nat2Z.inj_succ; lia.
    + specialize (IH m n p).
      destruct (monitor_laco t m resto n p) as [[[m' l] n'] p'].
      destruct IH as (I1 & I2 & I3 & I4 & I5).
      split; [exact I1|].
      split; [simpl; rewrite Ea; congruence|].
      split; [cbn [filter ativo_em]; rewrite Ea; exact I3|].
      split.
      * rewrite I4. split; intros [Hp Hall]; (split; [exact Hp|]).
        -- intros x [Hx|Hx] Hax; [injection Hx as <-; congruence|auto].
        -- intros x Hx. apply Hall. right. exact Hx.
      * rewrite I5. cbn [filter cai_na_varredura]. rewrite Ea.
        reflexivity.
  - specialize (IH m n p).
    destruct (monitor_laco t m resto n p) as [[[m' l] n'] p'].
    destruct IH as (I1 & I2 & I3 & I4 & I5).
    split; [exact I1|]. split; [simpl; congruence|].
    split; [exact I3|]. split; [|exact I5].
    rewrite I4. split; intros [Hp Hall]; (split; [exact Hp|]).
    + intros x [Hx|Hx] Hax; [discriminate Hx|auto].
    + intros x Hx. apply Hall. right. exact Hx.
Qed.

Lemma ativo_nao_final a : ativo a = true -> final (estado a) = false.
Proof. unfold ativo. destruct (estado a); simpl; congruence. Qed.

Lemma ativos_zero avioes :
  Z.of_nat (length (filter ativo_em avioes)) = 0 <->
  forall a, In (Some a) avioes -> ativo a = false.
Proof.
  induction avioes as [|o resto IH]; simpl.
  - split; [intros _ a []|reflexivity].
  - destruct (ativo_em o) eqn:Eo.
    + cbn [length]. rewrite Nat2Z.inj_succ. split; [lia|].
      intros H. destruct o as [a|]; [|discriminate Eo].
      simpl in Eo. rewrite (H a (or_introl eq_refl)) in Eo.
      discriminate Eo.
    + rewrite IH. split.
      * intros H a [Hx|Hx]; [subst o; exact Eo|auto].
      * intros H a Hx. apply H. right. exact Hx.
Qed.

End MonitorRestrito.

(** X19 (So_restrito.c, rotina_monitor).  One turn of the monitor runs
    checa_starvation, at the time of the sweep, on every aircraft that
    is neither finished nor failed and leaves the others as they were;
    total_falha rises by the number of aircraft the sweep made fall;
    afterwards no aircraft that is still active and not fallen has a
    wait of FALHA_TIMEOUT or more, the wait being the int that
    checa_starvation computes, (int)(t - a->inicio_espera).  The turn
    counts a deadlock alert exactly when some aircraft was active and
    every active one made its last progress LIMITE_DEADLOCK seconds ago
    or more, and it leaves the loop exactly on an alert in test mode or
    when creation is over and no aircraft was active. *)
Theorem monitor_restrito_volta modo criando m avioes :
  let '(m', l, alerta, fim) :=
    SoRestrito.monitor_volta modo criando m avioes in
  l = map (SoRestrito.varrido m) avioes
  /\ SoRestrito.total_falha m'
     = SoRestrito.total_falha m
       + Z.of_nat (length (filter (SoRestrito.cai_na_varredura m) avioes))
  /\ (forall a', In (Some a') l ->
                 SoRestrito.ativo a' = true ->
                 SoRestrito.falhou a' = false ->
                 para_int
                   (SoRestrito.relogio m - SoRestrito.inicio_espera a')
                 < SoRestrito.FALHA_TIMEOUT)
  /\ (alerta = true <->
      (exists a, In (Some a) avioes /\ SoRestrito.ativo a = true)
      /\ (forall a, In (Some a) avioes -> SoRestrito.ativo a = true ->
                    SoRestrito.LIMITE_DEADLOCK
                    <= SoRestrito.relogio m
                       - SoRestrito.ultimo_progresso a))
  /\ (fim = true <->
      (alerta = true /\ modo = true)
      \/ (criando = false
          /\ forall a, In (Some a) avioes -> SoRestrito.ativo a = false)).
Proof.
  unfold SoRestrito.monitor_volta. cbv zeta.
  pose proof (monitor_laco_faz (SoRestrito.relogio m) avioes m 0 true) as H.
  destruct (SoRestrito.monitor_laco (SoRestrito.relogio m) m avioes 0 true)
    as [[[m' l] n] p].
  cbv beta iota. destruct H as (H1 & H2 & H3 & H4 & H5).
  split; [exact H2|]. split; [exact H5|].
  assert (Hn : (0 <? n) = true <->
               exists a, In (Some a) avioes /\ SoRestrito.ativo a = true).
  { rewrite Z.ltb_lt, H3, Z.add_0_l. split.
    - intros Hpos.
      destruct (filter SoRestrito.ativo_em avioes) as [|o f] eqn:Ef;
        [simpl in Hpos; lia|].
      assert (Hin : In o (filter SoRestrito.ativo_em avioes))
        by (rewrite Ef; left; reflexivity).
      apply filter_In in Hin. destruct Hin as [Hin Ho].
      destruct o as [a|]; [exists a; auto|discriminate Ho].
    - intros (a & Hin & Ha).
      assert (Hz : Z.of_nat (length (filter SoRestrito.ativo_em avioes))
                   <> 0).
      { intros Hz. rewrite (proj1 (ativos_zero avioes) Hz a Hin) in Ha.
        discriminate Ha. }
      lia. }
  split; [|split].
  - intros a' Hin Ha Hf. rewrite H2 in Hin. apply in_map_iff in Hin.
    destruct Hin as ([a|] & Hv & Hin); [|discriminate Hv].
    simpl in Hv. injection Hv as Hv.
    destruct (SoRestrito.ativo a) eqn:Eat; [|congruence].
    destruct (checa_starvation_quadro m a) as (_ & _ & Hi & _ & _ & Hq).
    rewrite Hv in Hi, Hq. rewrite Hi.
    destruct (SoRestrito.falhou a) eqn:Efa.
    + exfalso. revert Hv. unfold SoRestrito.checa_starvation.
      rewrite Efa. simpl. intros <-. congruence.
    + destruct (Z.lt_ge_cases
                  (para_int
                     (SoRestrito.relogio m - SoRestrito.inicio_espera a))
                  SoRestrito.FALHA_TIMEOUT) as [Hlt|Hge]; [exact Hlt|].
      rewrite (Hq eq_refl (ativo_nao_final a Eat) Hge) in Hf.
      discriminate Hf.
  - rewrite andb_true_iff, Hn, H4. tauto.
  - rewrite orb_true_iff, !andb_true_iff, negb_true_iff, Z.eqb_eq.
    rewrite Hn, H4, H3, Z.add_0_l, ativos_zero. tauto.
Qed.

(** * So_refatorado_corrigido.c: further properties *)

(** ** reservar_recursos *)

Section MotivoRefatorado.
Import SoRefatorado.

Lemma verificar_starvation_ref_relogio m a :
  relogio (fst (verificar_starvation m a)) = relogio m.
Proof.
  unfold verificar_starvation.
  destruct (ja_marcado (status_final a)); [reflexivity|].
  destruct (_ && negb _); [reflexivity|].
  destruct (TEMPO_MAXIMO_ESPERA <=? _); [|reflexivity].
  destruct (tipo a); reflexivity.
Qed.

Lemma reservar_laco_motivo_ref np ng nt inicio timeout_seg :
  forall amb m a rc m' a' resto,
    reservar_laco amb np ng nt inicio timeout_seg m a
    = Some (rc, (m', a'), resto) ->
    motivo inicio timeout_seg rc m' a'.
Proof.
  assert (Hturn : forall amb m a rc m' a' resto
                         (rec : Mundo -> Aviao ->
                                option (Z * (Mundo * Aviao) * list Interf)),
             (if negb (simulacao_ativa m)
              then Some (SEM_SIM_ENCERRADA, (m, a), amb)
              else
                let '(f, (m1, a1)) := checa_falha m a in
                if f then Some (SEM_AVIAO_FALHOU, (m1, a1), amb)
                else
                  if negb (match tipo a1 with
                           | DOMESTICO =>
                               (0 <? esperando_internacional m1)
                               && negb (em_alerta_critico a1)
                           | INTERNACIONAL => false
                           end)
                     && ((np <=? pistas_disp m1) && (ng <=? portoes_disp m1)
                         && (nt <=? torres_disp m1))
                  then Some (SEM_OK,
                             (com_disp (pistas_disp m1 - np)
                                       (portoes_disp m1 - ng)
                                       (torres_disp m1 - nt) m1, a1), amb)
                  else
                    if timeout_seg <=? para_int (relogio m1 - inicio)
                    then Some (SEM_TIMEOUT, (m1, a1), amb)
                    else rec m1 a1) = Some (rc, (m', a'), resto) ->
             motivo inicio timeout_seg rc m' a'
             \/ exists m1 a1, rec m1 a1 = Some (rc, (m', a'), resto)).
  { intros amb m a rc m' a' resto rec.
    destruct (simulacao_ativa m) eqn:Es; cbn [negb].
    2:{ intros E. injection E as <- <- <- <-. left.
        right. right. left. auto. }
    unfold checa_falha.
    pose proof (verificar_starvation_ref_gate m a) as (_ & G2 & _).
    pose proof (verificar_starvation_ref_relogio m a) as G3.
    destruct (verificar_starvation m a) as [m1 a1]. simpl in G2, G3.
    destruct (ja_marcado (status_final a1)) eqn:Ej.
    { intros E. injection E as <- <- <- <-. left.
      right. right. right. auto. }
    destruct (negb _ && _).
    - intros E. injection E as <- <- <- <-. left. left.
      split; [reflexivity|]. split; [simpl; congruence|exact Ej].
    - destruct (timeout_seg <=? para_int (relogio m1 - inicio)) eqn:Et.
      + intros E. injection E as <- <- <- <-. left. right. left.
        apply Z.leb_le in Et.
        split; [reflexivity|]. split; [congruence|]. auto.
      + intros E. right. exists m1, a1. exact E. }
  induction amb as [|i amb IH]; intros m a rc m' a' resto E.
  - apply (Hturn [] m a rc m' a' resto (fun _ _ => None)) in E.
    destruct E as [H|(m1 & a1 & E)]; [exact H|discriminate E].
  - apply (Hturn (i :: amb) m a rc m' a' resto
             (fun m1 a1 => let '(m2, a2) := acorda i a1 in
                           reservar_laco amb np ng nt inicio timeout_seg
                                         m2 a2)) in E.
    destruct E as [H|(m1 & a1 & E)]; [exact H|].
    destruct (acorda i a1) as [m2 a2]. exact (IH _ _ _ _ _ _ E).
Qed.

End MotivoRefatorado.

(** X20 (So_refatorado_corrigido.c, reservar_recursos).  The call
    returns one of its four codes, each for its own reason in the state
    it leaves: SEM_SIM_ENCERRADA only with the simulation stopped;
    SEM_AVIAO_FALHOU only for an aircraft marked FALHA, STARVATION or
    DEADLOCK; SEM_TIMEOUT only with the simulation running, the
    aircraft not marked and the time elapsed since the call, which the
    code takes as (int)(agora_t - inicio), at least timeout_seg; SEM_OK
    only with the simulation running and the aircraft not marked.  The
    wake-ups it did not use are left to the caller.  When the
    difference of the two times fits an int, SEM_TIMEOUT comes only
    with at least timeout_seg seconds elapsed since the call. *)
Theorem reservar_recursos_motivo_ref amb m a np ng nt timeout_seg rc m' a'
        resto :
  SoRefatorado.reservar_recursos amb m a np ng nt timeout_seg
  = Some (rc, (m', a'), resto) ->
  SoRefatorado.motivo (SoRefatorado.relogio m) timeout_seg rc m' a'
  /\ (exists cons, amb = cons ++ resto)
  /\ (rc = SoRefatorado.SEM_TIMEOUT ->
      -2147483648
      <= SoRefatorado.relogio m' - SoRefatorado.relogio m
      < 2147483648 ->
      timeout_seg <= SoRefatorado.relogio m' - SoRefatorado.relogio m).
Proof.
  unfold SoRefatorado.reservar_recursos. intros E.
  pose proof (reservar_laco_motivo_ref _ _ _ _ _ _ _ _ _ _ _ _ E) as Hm.
  split; [exact Hm|]. split.
  - destruct (reservar_laco_ref _ _ _ _ _ _ _ _ _ _ _ _ E)
      as (cons & H & _).
    exists cons. exact H.
  - intros Hrc Hint. rewrite <- (para_int_pequeno _ Hint).
    destruct Hm as [(H & _)|[(_ & _ & _ & H)|[(H & _)|(H & _)]]];
      [|exact H| |]; rewrite Hrc in H; discriminate H.
Qed.

Lemma reservar_recursos_motivo_ref_testemunha :
  exists m' a',
    SoRefatorado.reservar_recursos
      SoRefatorado.espera_internacional
      (SoRefatorado.internacional_esperando 100)
      (SoRefatorado.novo 7 SoRefatorado.DOMESTICO 100) 1 0 1
      SoRefatorado.TIMEOUT_OPERACAO
    = Some (SoRefatorado.SEM_TIMEOUT, (m', a'), [])
    /\ SoRefatorado.TIMEOUT_OPERACAO
       <= para_int (SoRefatorado.relogio m' - 100).
Proof.
  destruct (SoRefatorado.reservar_recursos
              SoRefatorado.espera_internacional
              (SoRefatorado.internacional_esperando 100)
              (SoRefatorado.novo 7 SoRefatorado.DOMESTICO 100) 1 0 1
              SoRefatorado.TIMEOUT_OPERACAO)
    as [[[rc [m' a']] resto]|] eqn:E; [|vm_compute in E; discriminate E].
  destruct (reservar_recursos_motivo_ref _ _ _ _ _ _ _ _ _ _ _ E)
    as [[(Hrc & _)|[(Hrc & _ & _ & Ht)|[(Hrc & _)|(Hrc & _)]]] _];
    try (exfalso; vm_compute in E; injection E as Hx _ _ _;
         rewrite Hrc in Hx; discriminate Hx).
  exists m', a'. split; [|exact Ht].
  pose proof E as E'. vm_compute in E'. injection E' as _ _ _ <-.
  rewrite Hrc. reflexivity.
Defined.

(** ** monitor_deadlock and gerarRelatorioFinal *)

Section RelatorioRefatorado.
Import SoRefatorado.

Lemma soma_no_resumo_vale r a st :
  total_de st (soma_no_resumo r a) = total_de st r + vale st a.
Proof.
  unfold soma_no_resumo, vale, criado.
  destruct (id a =? 0); simpl; [lia|].
  destruct (status_final a), st; simpl; lia.
Qed.

Lemma relatorio_vale st l :
  forall r,
    total_de st (fold_left soma_no_resumo l r)
    = total_de st r + fold_right (fun a n => vale st a + n) 0 l.
Proof.
  induction l as [|a l IH]; intros r; simpl.
  - lia.
  - rewrite IH, soma_no_resumo_vale. lia.
Qed.

Lemma vale_soma a :
  vale PENDENTE a + vale SUCESSO a + vale FALHA a
  + vale ALERTA_CRITICO a + vale STARVATION a + vale DEADLOCK a
  = (if criado a then 1 else 0).
Proof.
  unfold vale. destruct (criado a); simpl; [|reflexivity].
  destruct (status_final a); reflexivity.
Qed.

Lemma monitor_deadlock_casos_ref t a :
  monitor_deadlock t a = (a, 0)
  \/ (monitor_deadlock t a = (com_status DEADLOCK a, 1)
      /\ criado a = true
      /\ (status_final a = PENDENTE \/ status_final a = ALERTA_CRITICO)).
Proof.
  unfold monitor_deadlock, criado.
  destruct (id a =? 0); [left; reflexivity|].
  destruct (status_final a); try (left; reflexivity);
    (destruct (_ || _); [right; auto|left; reflexivity]).
Qed.

(** What the body of the sweep does to the count of one record. *)
Lemma monitor_deadlock_vale t a :
  let a' := fst (monitor_deadlock t a) in
  let d := snd (monitor_deadlock t a) in
  vale SUCESSO a' = vale SUCESSO a
  /\ vale FALHA a' = vale FALHA a
  /\ vale STARVATION a' = vale STARVATION a
  /\ vale DEADLOCK a' = vale DEADLOCK a + d
  /\ vale PENDENTE a' + vale ALERTA_CRITICO a' + d
     = vale PENDENTE a + vale ALERTA_CRITICO a
  /\ 0 <= d
  /\ vale PENDENTE a' <= vale PENDENTE a
  /\ vale ALERTA_CRITICO a' <= vale ALERTA_CRITICO a
  /\ monitor_deadlock t a' = (a', 0).
Proof.
  cbv zeta.
  destruct (monitor_deadlock_casos_ref t a) as [E|(E & Hc & Hs)];
    rewrite E; cbn [fst snd].
  - repeat split; try lia. exact E.
  - unfold vale. simpl status_final.
    replace (criado (com_status DEADLOCK a)) with true
      by (rewrite <- Hc; reflexivity).
    rewrite Hc. cbn [andb].
    split; [destruct Hs as [-> | ->]; reflexivity|].
    split; [destruct Hs as [-> | ->]; reflexivity|].
    split; [destruct Hs as [-> | ->]; reflexivity|].
    split; [destruct Hs as [-> | ->]; reflexivity|].
    split; [destruct Hs as [-> | ->]; reflexivity|].
    split; [lia|].
    split; [destruct Hs as [-> | ->]; simpl; lia|].
    split; [destruct Hs as [-> | ->]; simpl; lia|].
    unfold monitor_deadlock. simpl.
    destruct (id a =? 0); reflexivity.
Qed.

Lemma varre_cons_ref t a l :
  varre t (a :: l)
  = (fst (monitor_deadlock t a) :: fst (varre t l),
     snd (monitor_deadlock t a) + snd (varre t l)).
Proof.
  simpl. destruct (monitor_deadlock t a) as [a' d].
  destruct (varre t l) as [l' n]. reflexivity.
Qed.

Lemma varre_vale t l :
  let l' := fst (varre t l) in
  let n := snd (varre t l) in
  let soma st x := fold_right (fun a k => vale st a + k) 0 x in
  soma SUCESSO l' = soma SUCESSO l
  /\ soma FALHA l' = soma FALHA l
  /\ soma STARVATION l' = soma STARVATION l
  /\ soma DEADLOCK l' = soma DEADLOCK l + n
  /\ soma PENDENTE l' + soma ALERTA_CRITICO l' + n
     = soma PENDENTE l + soma ALERTA_CRITICO l
  /\ 0 <= n
  /\ soma PENDENTE l' <= soma PENDENTE l
  /\ soma ALERTA_CRITICO l' <= soma ALERTA_CRITICO l
  /\ varre t l' = (l', 0).
Proof.
  cbv zeta. induction l as [|a l IH].
  - simpl. repeat split; lia.
  - rewrite varre_cons_ref. cbn [fst snd fold_right].
    destruct IH as (I1 & I2 & I3 & I4 & I5 & I6 & I7 & I8 & I9).
    destruct (monitor_deadlock_vale t a)
      as (M1 & M2 & M3 & M4 & M5 & M6 & M7 & M8 & M9).
    cbv zeta in M1, M2, M3, M4, M5, M6, M7, M8, M9.
    rewrite varre_cons_ref, I9, M9. cbn [fst snd].
    repeat split; try lia. 
Qed.

Lemma criados_soma l :
  fold_right (fun a k => vale PENDENTE a + k) 0 l
  + fold_right (fun a k => vale SUCESSO a + k) 0 l
  + fold_right (fun a k => vale FALHA a + k) 0 l
  + fold_right (fun a k => vale ALERTA_CRITICO a + k) 0 l
  + fold_right (fun a k => vale STARVATION a + k) 0 l
  + fold_right (fun a k => vale DEADLOCK a + k) 0 l
  = Z.of_nat (length (filter criado l)).
Proof.
  induction l as [|a l IH]; [reflexivity|].
  cbn [fold_right filter]. pose proof (vale_soma a) as H.
  destruct (criado a); cbn [length]; rewrite ?Nat2Z.inj_succ; lia.
Qed.

End RelatorioRefatorado.

(** X21 (So_refatorado_corrigido.c, gerarRelatorioFinal and
    monitor_deadlock).  The six totals of the report add up to the
    number of created aircraft, each counted once under its status.
    One sweep of the monitor moves aircraft from the Pendente and
    AlertaCritico totals to the Deadlock total and touches no other
    total: the Deadlock total and deadlock_count rise by the same
    number, which is what the other two lose, and the Sucesso, Falha
    and Starvation totals are as before.  A second sweep at the same
    time marks nothing. *)
Theorem varredura_e_relatorio m avioes :
  let r := SoRefatorado.gerarRelatorioFinal avioes in
  let m' := fst (SoRefatorado.monitor_passada m avioes) in
  let l' := snd (SoRefatorado.monitor_passada m avioes) in
  let r' := SoRefatorado.gerarRelatorioFinal l' in
  let n := SoRefatorado.deadlock_count m' - SoRefatorado.deadlock_count m in
  SoRefatorado.suc r + SoRefatorado.fal r + SoRefatorado.al r
  + SoRefatorado.starv r + SoRefatorado.dead r + SoRefatorado.pend r
  = Z.of_nat (length (filter SoRefatorado.criado avioes))
  /\ 0 <= n
  /\ SoRefatorado.dead r' = SoRefatorado.dead r + n
  /\ SoRefatorado.pend r' + SoRefatorado.al r' + n
     = SoRefatorado.pend r + SoRefatorado.al r
  /\ SoRefatorado.pend r' <= SoRefatorado.pend r
  /\ SoRefatorado.al r' <= SoRefatorado.al r
  /\ SoRefatorado.suc r' = SoRefatorado.suc r
  /\ SoRefatorado.fal r' = SoRefatorado.fal r
  /\ SoRefatorado.starv r' = SoRefatorado.starv r
  /\ SoRefatorado.acidentes_count m' = SoRefatorado.acidentes_count m
  /\ SoRefatorado.monitor_passada m' l' = (m', l').
Proof.
  cbv zeta.
  unfold SoRefatorado.monitor_passada, SoRefatorado.gerarRelatorioFinal.
  pose proof (varre_vale (SoRefatorado.relogio m) avioes) as H.
  cbv zeta in H.
  destruct (SoRefatorado.varre (SoRefatorado.relogio m) avioes)
    as [l' n] eqn:Ev.
  cbn [fst snd] in *.
  destruct H as (H1 & H2 & H3 & H4 & H5 & H6 & H7 & H8 & H9).
  pose proof (criados_soma avioes) as Hc.
  pose proof (fun st l =>
                relatorio_vale st l
                  {| SoRefatorado.suc := 0; SoRefatorado.fal := 0;
                     SoRefatorado.al := 0; SoRefatorado.starv := 0;
                     SoRefatorado.dead := 0; SoRefatorado.pend := 0 |})
    as Hr.
  pose proof (Hr SoRefatorado.PENDENTE avioes) as P1.
  pose proof (Hr SoRefatorado.SUCESSO avioes) as P2.
  pose proof (Hr SoRefatorado.FALHA avioes) as P3.
  pose proof (Hr SoRefatorado.ALERTA_CRITICO avioes) as P4.
  pose proof (Hr SoRefatorado.STARVATION avioes) as P5.
  pose proof (Hr SoRefatorado.DEADLOCK avioes) as P6.
  pose proof (Hr SoRefatorado.PENDENTE l') as Q1.
  pose proof (Hr SoRefatorado.SUCESSO l') as Q2.
  pose proof (Hr SoRefatorado.FALHA l') as Q3.
  pose proof (Hr SoRefatorado.ALERTA_CRITICO l') as Q4.
  pose proof (Hr SoRefatorado.STARVATION l') as Q5.
  pose proof (Hr SoRefatorado.DEADLOCK l') as Q6.
  cbn [SoRefatorado.total_de SoRefatorado.suc SoRefatorado.fal
       SoRefatorado.al SoRefatorado.starv SoRefatorado.dead
       SoRefatorado.pend] in P1, P2, P3, P4, P5, P6, Q1, Q2, Q3, Q4, Q5, Q6.
  simpl SoRefatorado.deadlock_count. simpl SoRefatorado.acidentes_count.
  repeat (split; [lia|]).
  unfold SoRefatorado.com_contadores.
  cbn [SoRefatorado.relogio]. rewrite H9.
  cbn [SoRefatorado.deadlock_count SoRefatorado.acidentes_count
       SoRefatorado.relogio SoRefatorado.simulacao_ativa
       SoRefatorado.pistas_disp SoRefatorado.portoes_disp
       SoRefatorado.torres_disp SoRefatorado.esperando_internacional
       SoRefatorado.esperando_domestico].
  rewrite Z.add_0_r. reflexivity.
Qed.

(** ** The worker of So_refatorado_corrigido.c *)

Section LeiturasRef.
Import SoRefatorado.
Variable P : Estado -> Prop.

Lemma preserva_ref_le_mundo : preserva P le_mundo.
Proof. unfold le_mundo. auto with preserva. Qed.

Lemma preserva_ref_le_aviao : preserva P le_aviao.
Proof. unfold le_aviao. auto with preserva. Qed.

Lemma preserva_ref_le_semaforos : preserva P le_semaforos.
Proof. unfold le_semaforos. auto with preserva. Qed.

Lemma preserva_ref_agora : preserva P agora.
Proof. unfold agora. auto with preserva. Qed.

End LeiturasRef.

#[global] Hint Resolve preserva_ref_le_mundo preserva_ref_le_aviao
  preserva_ref_le_semaforos preserva_ref_agora : preserva.

(** ** What a status records *)

Section GuardaRefatorado.
Import SoRefatorado.

Lemma apos_ref_le_aviao {B} (k : Aviao -> M Estado B) Q (s : Estado) :
  apos (k (aviao s)) Q s -> apos (bind le_aviao k) Q s.
Proof. intros H. abre. unfold bind, le_aviao, le, ret. exact H. Qed.

Lemma apos_ref_le_mundo {B} (k : Mundo -> M Estado B) Q (s : Estado) :
  apos (k (mundo s)) Q s -> apos (bind le_mundo k) Q s.
Proof. intros H. abre. unfold bind, le_mundo, le, ret. exact H. Qed.

Lemma apos_ref_le_semaforos {B} (k : Semaforos -> M Estado B) Q
      (s : Estado) :
  apos (k (semaforos s)) Q s -> apos (bind le_semaforos k) Q s.
Proof. intros H. abre. unfold bind, le_semaforos, le, ret. exact H. Qed.

Lemma apos_ref_agora {B} (k : Z -> M Estado B) Q (s : Estado) :
  apos (k (relogio (mundo s))) Q s -> apos (bind agora k) Q s.
Proof. intros H. abre. unfold bind, agora, le, ret. exact H. Qed.

Variable registro : bool.

(** No write of the monitor or of the starvation check produces
    SUCESSO or PENDENTE. *)
Lemma guarda_verificar_starvation m a :
  guarda_st registro (status_final a) ->
  guarda_st registro (status_final (snd (verificar_starvation m a))).
Proof.
  intros [H1 H2]. unfold verificar_starvation.
  destruct (ja_marcado (status_final a)); [split; assumption|].
  destruct (_ && negb _).
  { simpl. destruct (status_final a) eqn:E; simpl;
      split; try discriminate; try congruence;
      intros Hr; try discriminate; auto. }
  destruct (TEMPO_MAXIMO_ESPERA <=? _); [|split; assumption].
  destruct (tipo a); simpl; split; intros; discriminate.
Qed.

Lemma guarda_monitor_deadlock t a :
  guarda_st registro (status_final a) ->
  guarda_st registro (status_final (fst (monitor_deadlock t a))).
Proof.
  intros H. unfold monitor_deadlock.
  destruct (id a =? 0); [exact H|].
  destruct (status_final a) eqn:E; try (simpl; rewrite E; exact H);
    (destruct (_ || _); simpl;
     [split; intros; discriminate|rewrite E; exact H]).
Qed.

Lemma guarda_acorda i a :
  guarda_st registro (status_final a) ->
  guarda_st registro (status_final (snd (acorda i a))).
Proof.
  intros H. unfold acorda. destruct (monitor_passou i); [|exact H].
  pose proof (guarda_monitor_deadlock (relogio (visto i)) a H) as Hm.
  destruct (monitor_deadlock _ a) as [a' n]. exact Hm.
Qed.

Lemma guarda_reservar_laco np ng nt inicio timeout_seg :
  forall amb m a rc m' a' resto,
    reservar_laco amb np ng nt inicio timeout_seg m a
    = Some (rc, (m', a'), resto) ->
    guarda_st registro (status_final a) ->
    guarda_st registro (status_final a').
Proof.
  assert (Hturn : forall amb m a rc m' a' resto
                         (rec : Mundo -> Aviao ->
                                option (Z * (Mundo * Aviao) * list Interf)),
             (if negb (simulacao_ativa m)
              then Some (SEM_SIM_ENCERRADA, (m, a), amb)
              else
                let '(f, (m1, a1)) := checa_falha m a in
                if f then Some (SEM_AVIAO_FALHOU, (m1, a1), amb)
                else
                  if negb (match tipo a1 with
                           | DOMESTICO =>
                               (0 <? esperando_internacional m1)
                               && negb (em_alerta_critico a1)
                           | INTERNACIONAL => false
                           end)
                     && ((np <=? pistas_disp m1) && (ng <=? portoes_disp m1)
                         && (nt <=? torres_disp m1))
                  then Some (SEM_OK,
                             (com_disp (pistas_disp m1 - np)
                                       (portoes_disp m1 - ng)
                                       (torres_disp m1 - nt) m1, a1), amb)
                  else
                    if timeout_seg <=? para_int (relogio m1 - inicio)
                    then Some (SEM_TIMEOUT, (m1, a1), amb)
                    else rec m1 a1) = Some (rc, (m', a'), resto) ->
             guarda_st registro (status_final a) ->
             guarda_st registro (status_final a')
             \/ exists m1 a1,
                 rec m1 a1 = Some (rc, (m', a'), resto)
                 /\ guarda_st registro (status_final a1)).
  { intros amb m a rc m' a' resto rec E H.
    destruct (negb (simulacao_ativa m)).
    { injection E as <- <- <- <-. left. exact H. }
    unfold checa_falha in E.
    pose proof (guarda_verificar_starvation m a H) as Hv.
    destruct (verificar_starvation m a) as [m1 a1]. simpl in Hv.
    destruct (ja_marcado (status_final a1)).
    { injection E as <- <- <- <-. left. exact Hv. }
    destruct (negb _ && _).
    { injection E as <- <- <- <-. left. exact Hv. }
    destruct (timeout_seg <=? para_int (relogio m1 - inicio)).
    { injection E as <- <- <- <-. left. exact Hv. }
    right. exists m1, a1. auto. }
  induction amb as [|i amb IH]; intros m a rc m' a' resto E H.
  - destruct (Hturn [] m a rc m' a' resto (fun _ _ => None) E H)
      as [Hg|(m1 & a1 & E1 & _)]; [exact Hg|discriminate E1].
  - destruct (Hturn (i :: amb) m a rc m' a' resto
                (fun m1 a1 => let '(m2, a2) := acorda i a1 in
                              reservar_laco amb np ng nt inicio timeout_seg
                                            m2 a2) E H)
      as [Hg|(m1 & a1 & E1 & H1)]; [exact Hg|].
    pose proof (guarda_acorda i a1 H1) as Ha.
    destruct (acorda i a1) as [m2 a2]. exact (IH _ _ _ _ _ _ E1 Ha).
Qed.

Lemma an_poe_mundo c e f : preserva (anotado registro c e) (poe_mundo f).
Proof. intros s H. unfold poe_mundo. apply apos_altera. exact H. Qed.

Lemma an_poe_semaforos c e f :
  preserva (anotado registro c e) (poe_semaforos f).
Proof. intros s H. unfold poe_semaforos. apply apos_altera. exact H. Qed.

(** A write to the record that leaves the status as it is or records
    a failure. *)
Lemma an_poe_aviao c e f :
  (forall a, status_final (f a) = status_final a
             \/ status_final (f a) = FALHA) ->
  preserva (anotado registro c e) (poe_aviao f).
Proof.
  intros Hf s ((H1 & H2) & H3). unfold poe_aviao. apply apos_altera.
  split; [|exact H3]. unfold guarda. simpl.
  destruct (Hf (aviao s)) as [-> | ->];
    [split; assumption|split; intros; discriminate].
Qed.

Lemma codigos_app_ref tr x :
  codigos (tr ++ [x])
  = codigos tr ++ match x with EvReservar _ _ _ rc => [rc] | _ => [] end.
Proof.
  unfold codigos. rewrite flat_map_app. simpl. rewrite app_nil_r.
  reflexivity.
Qed.

Lemma erros_app_ref tr x :
  erros (tr ++ [x])
  = erros tr ++ match x with EvSemWaitErro r => [r] | _ => [] end.
Proof.
  unfold erros. rewrite flat_map_app. simpl. rewrite app_nil_r.
  reflexivity.
Qed.

Lemma an_emite c e x :
  match x with EvReservar _ _ _ _ | EvSemWaitErro _ => False | _ => True end ->
  preserva (anotado registro c e) (emite x).
Proof.
  intros Hx s (H1 & H2 & H3). unfold emite. apply apos_altera.
  split; [exact H1|]. simpl. rewrite codigos_app_ref, erros_app_ref.
  destruct x; try contradiction; rewrite !app_nil_r; auto.
Qed.

Lemma an_bloqueia c e : preserva (anotado registro c e) bloqueia.
Proof.
  intros s ((H1 & H2) & H3). abre. unfold bloqueia.
  destruct (ambiente s) as [|i resto]; [exact I|].
  pose proof (guarda_acorda (interf i) (aviao s) (conj H1 H2)) as Ha.
  destruct (acorda (interf i) (aviao s)) as [m a].
  split; [exact Ha|exact H3].
Qed.

Lemma an_checa_falha_m c e : preserva (anotado registro c e) checa_falha_m.
Proof.
  intros s ((H1 & H2) & H3). abre. unfold checa_falha_m, checa_falha.
  pose proof (guarda_verificar_starvation (mundo s) (aviao s) (conj H1 H2))
    as Hv.
  destruct (verificar_starvation (mundo s) (aviao s)) as [m a].
  split; [exact Hv|exact H3].
Qed.

#[local] Hint Resolve an_poe_mundo an_poe_semaforos an_bloqueia
  an_checa_falha_m : preserva.
#[local] Hint Extern 1 (preserva (anotado _ _ _) (poe_aviao _)) =>
  apply an_poe_aviao; intros ?; (left; reflexivity) || (right; reflexivity)
  : preserva.
#[local] Hint Extern 1 (preserva (anotado _ _ _) (emite _)) =>
  apply an_emite; exact I : preserva.

Lemma an_liberar_reserva c e p g t :
  preserva (anotado registro c e) (liberar_reserva p g t).
Proof. unfold liberar_reserva. auto 20 with preserva. Qed.

Lemma an_deve_aguardar c e limite :
  preserva (anotado registro c e) (deve_aguardar limite).
Proof. unfold deve_aguardar. auto 20 with preserva. Qed.

#[local] Hint Resolve an_liberar_reserva an_deve_aguardar : preserva.

Lemma an_aguardar_laco c e limite :
  forall voltas,
    preserva (anotado registro c e) (aguardar_laco voltas limite).
Proof.
  induction voltas as [|v IH]; simpl; auto 20 with preserva.
Qed.

#[local] Hint Resolve an_aguardar_laco : preserva.

Lemma an_aguardar_prioridade c e t :
  preserva (anotado registro c e) (aguardar_prioridade t).
Proof. unfold aguardar_prioridade. auto 20 with preserva. Qed.

Lemma an_liberar_prioridade c e t :
  preserva (anotado registro c e) (liberar_prioridade t).
Proof. unfold liberar_prioridade. auto 20 with preserva. Qed.

#[local] Hint Resolve an_aguardar_prioridade an_liberar_prioridade
  : preserva.

Lemma an_libera_minha_prioridade c e :
  preserva (anotado registro c e) libera_minha_prioridade.
Proof. unfold libera_minha_prioridade. auto 20 with preserva. Qed.

Lemma an_sem_post c e r : preserva (anotado registro c e) (sem_post r).
Proof. unfold sem_post. auto 20 with preserva. Qed.

Lemma an_sleep c e n : preserva (anotado registro c e) (sleep n).
Proof. unfold sleep. auto 20 with preserva. Qed.

Lemma an_marca_inicio c e f :
  preserva (anotado registro c e) (marca_inicio f).
Proof. unfold marca_inicio. auto 20 with preserva. Qed.

#[local] Hint Resolve an_libera_minha_prioridade an_sem_post an_sleep
  an_marca_inicio : preserva.

Lemma an_solta c e r : preserva (anotado registro c e) (solta r).
Proof. unfold solta. auto 20 with preserva. Qed.

#[local] Hint Resolve an_solta : preserva.

(** reservar_recursos logs the code it returns. *)
Lemma an_reservar_recursos_m c e np ng nt timeout_seg :
  garante (anotado registro c e)
          (reservar_recursos_m np ng nt timeout_seg)
          (fun rc s => anotado registro (c ++ [rc]) e s).
Proof.
  intros s (H1 & H2 & H3). abre. unfold reservar_recursos_m.
  destruct (reservar_recursos _ _ _ _ _ _ _)
    as [[[rc [m a]] resto]|] eqn:E; [|exact I].
  unfold reservar_recursos in E.
  pose proof (guarda_reservar_laco _ _ _ _ _ _ _ _ _ _ _ _ E H1) as Hg.
  split; [exact Hg|]. simpl.
  rewrite codigos_app_ref, erros_app_ref, app_nil_r, H2, H3. auto.
Qed.

(** sem_wait returns 0 or -1, and logs an error when it returns -1. *)
Lemma an_sem_wait c e r :
  garante (anotado registro c e) (sem_wait r)
          (fun w s => (w = 0 /\ anotado registro c e s)
                      \/ (w = -1 /\ anotado registro c (e ++ [r]) s)).
Proof.
  intros s H. unfold sem_wait. apply apos_bind.
  eapply apos_mono; [exact (an_bloqueia c e s H)|].
  cbv beta. intros i s1 H1. destruct (erro_sem i).
  - apply apos_bind. unfold emite. apply apos_altera. apply apos_ret.
    right. split; [reflexivity|]. destruct H1 as (G & C & E).
    split; [exact G|]. simpl.
    rewrite codigos_app_ref, erros_app_ref, app_nil_r, C, E. auto.
  - apply apos_ref_le_semaforos. destruct (0 <? _); [|apply apos_trava].
    apply apos_bind.
    eapply apos_mono; [exact (an_poe_semaforos c e _ s1 H1)|].
    cbv beta. intros _ s2 H2. apply apos_bind.
    eapply apos_mono; [exact (an_emite c e (EvSemWait r) I s2 H2)|].
    cbv beta. intros _ s3 H3. apply apos_ret. left. auto.
Qed.

Lemma garante_segue_ref (P0 P1 : Estado -> Prop) Q
      (b : M Estado (option Z)) (k : M Estado Z) :
  garante P0 b (bloco registro P1) ->
  garante P1 k (fase_feita registro Q) ->
  garante P0 (segue b k) (fase_feita registro Q).
Proof.
  intros Hb Hk s H. unfold segue. apply apos_bind.
  eapply apos_mono; [exact (Hb s H)|].
  cbv beta. intros [rc|] s1 H1.
  - apply apos_ret. destruct H1 as [Hrc Hg].
    split; [exact Hg|]. intros Hz. contradiction.
  - exact (Hk s1 H1).
Qed.

Lemma an_entrada c e :
  garante (anotado registro c e) entrada
          (bloco registro (anotado registro c e)).
Proof.
  intros s H. unfold entrada. apply apos_bind.
  eapply apos_mono; [exact (an_checa_falha_m c e s H)|].
  cbv beta. intros f s1 H1. destruct f.
  { apply apos_ret. split; [discriminate|apply H1]. }
  apply apos_ref_le_aviao. apply apos_bind.
  eapply apos_mono; [exact (an_aguardar_prioridade c e _ s1 H1)|].
  cbv beta. intros _ s2 H2. apply apos_bind.
  eapply apos_mono; [exact (an_checa_falha_m c e s2 H2)|].
  cbv beta. intros f s3 H3. destruct f; [|apply apos_ret; exact H3].
  apply apos_bind.
  eapply apos_mono; [exact (an_libera_minha_prioridade c e s3 H3)|].
  cbv beta. intros _ s4 H4. apply apos_ret.
  split; [discriminate|apply H4].
Qed.

Lemma an_reserva_negada c e r :
  garante (anotado registro (c ++ [r]) e) (reserva_negada r)
          (bloco registro (anotado registro (c ++ [SEM_OK]) e)).
Proof.
  intros s H. unfold reserva_negada.
  destruct (r =? SEM_OK) eqn:Er; cbn [negb].
  { apply apos_ret. apply Z.eqb_eq in Er. subst r. exact H. }
  apply apos_bind.
  assert (Hp : preserva (anotado registro (c ++ [r]) e)
                 (if r =? SEM_TIMEOUT then poe_aviao (com_status FALHA)
                  else ret tt)) by auto 20 with preserva.
  eapply apos_mono; [exact (Hp s H)|].
  cbv beta. intros _ s1 H1. apply apos_bind.
  eapply apos_mono; [exact (an_libera_minha_prioridade _ e s1 H1)|].
  cbv beta. intros _ s2 H2. apply apos_ret.
  split; [discriminate|apply H2].
Qed.

Lemma an_toma c e r (desfaz : M Estado unit) np ng nt :
  (forall e', preserva (anotado registro c e') desfaz) ->
  garante (anotado registro c e) (toma r desfaz np ng nt)
          (bloco registro (anotado registro c e)).
Proof.
  intros Hd s H. unfold toma. apply apos_ref_le_aviao.
  destruct (negb (has r (aviao s))); [|apply apos_ret; exact H].
  apply apos_bind.
  eapply apos_mono; [exact (an_sem_wait c e r s H)|].
  cbv beta. intros w s1 [[-> H1]|[-> H1]]; cbn [Z.eqb negb].
  - apply apos_bind.
    assert (Hp : preserva (anotado registro c e)
                   (poe_aviao (com_has r true))) by auto with preserva.
    eapply apos_mono; [exact (Hp s1 H1)|].
    cbv beta. intros _ s2 H2. apply apos_ret. exact H2.
  - apply apos_bind.
    eapply apos_mono; [exact (Hd _ s1 H1)|].
    cbv beta. intros _ s2 H2. apply apos_bind.
    eapply apos_mono; [exact (an_liberar_reserva c _ np ng nt s2 H2)|].
    cbv beta. intros _ s3 H3. apply apos_bind.
    eapply apos_mono; [exact (an_libera_minha_prioridade c _ s3 H3)|].
    cbv beta. intros _ s4 H4. apply apos_ret.
    split; [discriminate|apply H4].
Qed.

Lemma an_conclui c e f :
  garante (anotado registro c e) (conclui f)
          (fase_feita registro (anotado registro c e)).
Proof.
  intros s H. unfold conclui. apply apos_ref_agora.
  apply apos_bind.
  assert (Hp : preserva (anotado registro c e)
                 (poe_aviao (com_fim f (relogio (mundo s)))))
    by auto with preserva.
  eapply apos_mono; [exact (Hp s H)|].
  cbv beta. intros _ s2 H2. apply apos_bind.
  eapply apos_mono; [exact (an_libera_minha_prioridade c e s2 H2)|].
  cbv beta. intros _ s3 H3. apply apos_ret.
  split; [apply H3|intros _; exact H3].
Qed.

Lemma an_fase c e f :
  garante (anotado registro c e) (fase f)
          (fase_feita registro (anotado registro (c ++ [SEM_OK]) e)).
Proof.
  destruct f; cbn [fase]; unfold pouso, desembarque, decolagem;
    (eapply garante_segue_ref; [apply an_entrada|]);
    intros s H; apply apos_bind;
    (eapply apos_mono; [exact (an_marca_inicio c e _ s H)|]);
    cbv beta; intros _ s1 H1; apply apos_ref_le_aviao; cbv zeta;
    apply apos_bind;
    (eapply apos_mono; [exact (an_reservar_recursos_m c e _ _ _ _ s1 H1)|]);
    cbv beta; intros r s2 H2; revert s2 H2;
    (eapply garante_segue_ref; [apply an_reserva_negada|]);
    repeat (eapply garante_segue_ref;
            [apply an_toma; intros e'; auto 20 with preserva|]);
    repeat first
      [apply an_conclui
      |apply garante_bind; [solve [auto 20 with preserva]|intros _]].
Qed.

Lemma an_completou c e f :
  garante (anotado registro c e) (completou f)
          (fun ok s => guarda registro s
                       /\ (ok = true ->
                           anotado registro (c ++ [SEM_OK]) e s)).
Proof.
  intros s H. unfold completou. apply apos_bind.
  eapply apos_mono; [exact (an_fase c e f s H)|].
  cbv beta. intros r s1 [Hg Hr]. destruct (r =? 0) eqn:Er.
  - apply Z.eqb_eq in Er. specialize (Hr Er). apply apos_bind.
    eapply apos_mono; [exact (an_checa_falha_m _ e s1 Hr)|].
    cbv beta. intros f0 s2 H2. apply apos_ret.
    split; [apply H2|intros _; exact H2].
  - apply apos_ret. split; [exact Hg|discriminate].
Qed.

(** The thread writes SUCESSO once, over PENDENTE, after the three
    phases. *)
Lemma an_aviao_thread c e :
  garante (anotado registro c e) aviao_thread
          (fun _ s =>
             (registro = true -> guarda true s)
             /\ (status_final (aviao s) = SUCESSO ->
                 codigos (historico s) = c ++ [SEM_OK; SEM_OK; SEM_OK]
                 /\ erros (historico s) = e)).
Proof.
  assert (Hfim : forall s, guarda registro s ->
            (registro = true -> guarda true s)
            /\ (status_final (aviao s) = SUCESSO ->
                codigos (historico s) = c ++ [SEM_OK; SEM_OK; SEM_OK]
                /\ erros (historico s) = e)).
  { intros s [H1 H2]. split.
    - intros Hr. split; [exact H1|intros _; exact (H2 Hr)].
    - intros Hs. contradiction. }
  intros s H. unfold aviao_thread. apply apos_ref_agora. apply apos_bind.
  assert (Hp : preserva (anotado registro c e)
                 (poe_aviao (com_ultimo_tempo_espera (relogio (mundo s)))))
    by auto with preserva.
  eapply apos_mono; [exact (Hp s H)|].
  cbv beta. intros _ s1 H1. apply apos_bind.
  eapply apos_mono; [exact (an_completou c e POUSO s1 H1)|].
  cbv beta. intros ok1 s2 [G2 H2].
  destruct ok1; [|apply apos_ret; exact (Hfim s2 G2)].
  specialize (H2 eq_refl). apply apos_bind.
  eapply apos_mono; [exact (an_completou _ e DESEMBARQUE s2 H2)|].
  cbv beta. intros ok2 s3 [G3 H3].
  destruct ok2; [|apply apos_ret; exact (Hfim s3 G3)].
  specialize (H3 eq_refl). apply apos_bind.
  eapply apos_mono; [exact (an_completou _ e DECOLAGEM s3 H3)|].
  cbv beta. intros ok3 s4 [G4 H4].
  destruct ok3; [|apply apos_ret; exact (Hfim s4 G4)].
  specialize (H4 eq_refl). apply apos_ref_le_aviao.
  destruct H4 as ((N1 & N2) & C4 & E4).
  rewrite <- !app_assoc in C4. simpl in C4.
  destruct (status_final (aviao s4)) eqn:Es;
    try (apply apos_ret; apply Hfim; split; rewrite Es; assumption).
  unfold poe_aviao. apply apos_altera. split.
  - intros Hr. exfalso. exact (N2 Hr eq_refl).
  - intros _. simpl. auto.
Qed.

End GuardaRefatorado.

(** X22 (So_refatorado_corrigido.c, aviao_thread with pouso /
    desembarque / decolagem, verificar_starvation, monitor_deadlock).
    The thread of an aircraft whose status is not SUCESSO ends with
    SUCESSO only if the status was PENDENTE and its three reservations
    were granted with no sem_wait error: the three phases completed.
    A status that records an alert or a failure is never erased: an
    aircraft that is not PENDENTE when its thread starts is neither
    PENDENTE nor SUCESSO when it ends, whatever it completed. *)
Theorem sucesso_sem_registro s s' tr :
  SoRefatorado.aviao_thread s = Some (tt, s') ->
  SoRefatorado.historico s' = SoRefatorado.historico s ++ tr ->
  SoRefatorado.status_final (SoRefatorado.aviao s) <> SoRefatorado.SUCESSO ->
  (SoRefatorado.status_final (SoRefatorado.aviao s') = SoRefatorado.SUCESSO ->
   SoRefatorado.status_final (SoRefatorado.aviao s) = SoRefatorado.PENDENTE
   /\ SoRefatorado.codigos tr
      = [SoRefatorado.SEM_OK; SoRefatorado.SEM_OK; SoRefatorado.SEM_OK]
   /\ SoRefatorado.erros tr = [])
  /\ (SoRefatorado.status_final (SoRefatorado.aviao s)
      <> SoRefatorado.PENDENTE ->
      SoRefatorado.status_final (SoRefatorado.aviao s')
      <> SoRefatorado.SUCESSO
      /\ SoRefatorado.status_final (SoRefatorado.aviao s')
         <> SoRefatorado.PENDENTE).
Proof.
  intros E Hh Hs.
  assert (Hreg : SoRefatorado.status_final (SoRefatorado.aviao s)
                 <> SoRefatorado.PENDENTE ->
                 SoRefatorado.status_final (SoRefatorado.aviao s')
                 <> SoRefatorado.SUCESSO
                 /\ SoRefatorado.status_final (SoRefatorado.aviao s')
                    <> SoRefatorado.PENDENTE).
  { intros Hp.
    assert (H0 : SoRefatorado.anotado true
                   (SoRefatorado.codigos (SoRefatorado.historico s))
                   (SoRefatorado.erros (SoRefatorado.historico s)) s).
    { split; [split; [exact Hs|intros _; exact Hp]|]. auto. }
    destruct (apos_elim _ _ _ _ _ (an_aviao_thread true _ _ s H0) E)
      as [Hg _].
    destruct (Hg eq_refl) as [G1 G2]. split; [exact G1|exact (G2 eq_refl)]. }
  split; [|exact Hreg].
  intros Hfim.
  assert (Hpend : SoRefatorado.status_final (SoRefatorado.aviao s)
                  = SoRefatorado.PENDENTE).
  { destruct (SoRefatorado.status_final (SoRefatorado.aviao s)) eqn:Es;
      try reflexivity;
      (exfalso; destruct Hreg as [Hx _]; [discriminate|exact (Hx Hfim)]). }
  split; [exact Hpend|].
  assert (H0 : SoRefatorado.anotado false
                 (SoRefatorado.codigos (SoRefatorado.historico s))
                 (SoRefatorado.erros (SoRefatorado.historico s)) s).
  { split; [split; [exact Hs|discriminate]|]. auto. }
  destruct (apos_elim _ _ _ _ _ (an_aviao_thread false _ _ s H0) E)
    as [_ Hc].
  destruct (Hc Hfim) as [C1 C2]. rewrite Hh in C1, C2.
  unfold SoRefatorado.codigos in C1. unfold SoRefatorado.erros in C2.
  rewrite flat_map_app in C1, C2.
  apply app_inv_head in C1.
  rewrite <- (app_nil_r (flat_map _ (SoRefatorado.historico s))) in C2
    at 2.
  apply app_inv_head in C2. auto.
Qed.

Lemma sucesso_sem_registro_testemunha :
  (exists s',
      SoRefatorado.aviao_thread SoRefatorado.voo_tranquilo = Some (tt, s')
      /\ SoRefatorado.status_final (SoRefatorado.aviao s')
         = SoRefatorado.SUCESSO
      /\ SoRefatorado.codigos (SoRefatorado.historico s') = [0; 0; 0])
  /\ (exists s',
         SoRefatorado.aviao_thread SoRefatorado.voo_em_alerta
         = Some (tt, s')
         /\ SoRefatorado.status_final (SoRefatorado.aviao s')
            <> SoRefatorado.SUCESSO).
Proof.
  split.
  - destruct (SoRefatorado.aviao_thread SoRefatorado.voo_tranquilo)
      as [[[] s']|] eqn:E; [|vm_compute in E; discriminate E].
    assert (Hh : SoRefatorado.historico s'
                 = SoRefatorado.historico SoRefatorado.voo_tranquilo
                   ++ SoRefatorado.historico s') by reflexivity.
    assert (Hf : SoRefatorado.status_final (SoRefatorado.aviao s')
                 = SoRefatorado.SUCESSO)
      by (vm_compute in E; injection E as <-; reflexivity).
    destruct (sucesso_sem_registro _ _ _ E Hh) as [H _];
      [discriminate|].
    destruct (H Hf) as (_ & Hc & _).
    exists s'. split; [reflexivity|]. split; [exact Hf|exact Hc].
  - destruct (SoRefatorado.aviao_thread SoRefatorado.voo_em_alerta)
      as [[[] s']|] eqn:E; [|vm_compute in E; discriminate E].
    assert (Hh : SoRefatorado.historico s'
                 = SoRefatorado.historico SoRefatorado.voo_em_alerta
                   ++ SoRefatorado.historico s') by reflexivity.
    destruct (sucesso_sem_registro _ _ _ E Hh) as [_ H];
      [discriminate|].
    destruct H as [H _]; [discriminate|].
    exists s'. split; [reflexivity|exact H].
Defined.

(** ** What the worker of So_refatorado_corrigido.c gives back *)

Section EmDiaRefatorado.
Import SoRefatorado.

(** A property of the record that verificar_starvation and the monitor
    keep is kept by reservar_recursos. *)
Lemma reservar_laco_mantem (P : Aviao -> Prop) np ng nt inicio timeout_seg :
  (forall m a, P a -> P (snd (verificar_starvation m a))) ->
  (forall i a, P a -> P (snd (acorda i a))) ->
  forall amb m a rc m' a' resto,
    reservar_laco amb np ng nt inicio timeout_seg m a
    = Some (rc, (m', a'), resto) ->
    P a -> P a'.
Proof.
  intros Hvs Hac.
  induction amb as [|i amb IH]; intros m a rc m' a' resto E H;
    simpl in E;
    (destruct (negb (simulacao_ativa m));
     [injection E as <- <- <- <-; exact H|]);
    unfold checa_falha in E;
    pose proof (Hvs m a H) as Hv;
    destruct (verificar_starvation m a) as [m1 a1]; simpl in Hv;
    (destruct (ja_marcado (status_final a1));
     [injection E as <- <- <- <-; exact Hv|]);
    (destruct (negb _ && _);
     [injection E as <- <- <- <-; exact Hv|]);
    (destruct (timeout_seg <=? para_int (relogio m1 - inicio));
     [injection E as <- <- <- <-; exact Hv|]).
  - discriminate E.
  - pose proof (Hac i a1 Hv) as Ha.
    destruct (acorda i a1) as [m2 a2]. exact (IH _ _ _ _ _ _ E Ha).
Qed.

Lemma has_verificar_starvation_ref r m a :
  has r (snd (verificar_starvation m a)) = has r a.
Proof.
  unfold verificar_starvation.
  destruct (ja_marcado (status_final a)); [reflexivity|].
  destruct (_ && negb _).
  { simpl. destruct (status_final a); destruct r; reflexivity. }
  destruct (TEMPO_MAXIMO_ESPERA <=? _); [|reflexivity].
  destruct (tipo a); destruct r; reflexivity.
Qed.

Lemma has_monitor_deadlock_ref r t a :
  has r (fst (monitor_deadlock t a)) = has r a.
Proof.
  unfold monitor_deadlock.
  destruct (id a =? 0); [reflexivity|].
  destruct (status_final a); try reflexivity;
    destruct (_ || _); destruct r; reflexivity.
Qed.

Lemma has_acorda_ref r i a : has r (snd (acorda i a)) = has r a.
Proof.
  unfold acorda. destruct (monitor_passou i); [|reflexivity].
  pose proof (has_monitor_deadlock_ref r (relogio (visto i)) a) as H.
  destruct (monitor_deadlock _ a) as [a' n]. exact H.
Qed.

Variable h0 : list Evento.

(** The books may be read with any table that has the same entries. *)
Lemma em_dia_igual pf pr fl q pf' pr' q' s :
  (forall r, pf r = pf' r) -> (forall r, pr r = pr' r) -> q = q' ->
  em_dia h0 pf pr fl q s -> em_dia h0 pf' pr' fl q' s.
Proof.
  intros Hf Hr <- (H1 & tr & H2 & H3 & H4 & H5).
  split; [intros r; rewrite <- Hf; apply H1|].
  exists tr. repeat split; try assumption.
  intros r. rewrite <- Hr. apply H3.
Qed.

(** One more event in the log. *)
Lemma em_dia_emite pf pr fl q pr' fl' q' x s :
  (forall r, passo_semaforo r (Some (pr r)) x = Some (pr' r)) ->
  passo_fila (Some fl) x = Some fl' ->
  passo_saldo q x = q' ->
  em_dia h0 pf pr fl q s ->
  apos (emite x) (fun _ => em_dia h0 pf pr' fl' q') s.
Proof.
  intros Hs Hf Hq (H1 & tr & H2 & H3 & H4 & H5).
  unfold emite. apply apos_altera.
  split; [exact H1|]. exists (tr ++ [x]). simpl.
  split; [rewrite H2, app_assoc; reflexivity|].
  unfold retem, na_fila, saldo in *.
  split; [intros r; rewrite fold_left_app, H3; exact (Hs r)|].
  split; [rewrite fold_left_app, H4; exact Hf
         |rewrite fold_left_app, H5; exact Hq].
Qed.

Section Quadro.
Variables (pf pr : Recurso -> bool) (fl : bool) (qp qg qt : Z).

Let D := em_dia h0 pf pr fl (qp, qg, qt).

Lemma dia_poe_mundo f : preserva D (poe_mundo f).
Proof. intros s H. unfold poe_mundo. apply apos_altera. exact H. Qed.

Lemma dia_poe_semaforos f : preserva D (poe_semaforos f).
Proof. intros s H. unfold poe_semaforos. apply apos_altera. exact H. Qed.

(** A write to the record that leaves the has_* flags alone. *)
Lemma dia_poe_aviao f :
  (forall a r, has r (f a) = has r a) -> preserva D (poe_aviao f).
Proof.
  intros Hf s (H1 & H2). unfold poe_aviao. apply apos_altera.
  split; [|exact H2]. intros r. simpl. rewrite Hf. apply H1.
Qed.

Lemma dia_emite x :
  match x with EvSleep _ | EvSemWaitErro _ => True | _ => False end ->
  preserva D (emite x).
Proof.
  intros Hx s H.
  destruct x; try contradiction;
    match goal with
    | |- apos (emite ?e) _ _ =>
        eapply apos_mono;
        [exact (em_dia_emite pf pr fl (qp, qg, qt) pr fl (qp, qg, qt) e s
                  (fun _ => eq_refl) eq_refl eq_refl H)
        |cbv beta; intros ? s1 H1; exact H1]
    end.
Qed.

Lemma dia_bloqueia : preserva D bloqueia.
Proof.
  intros s (H1 & H2). abre. unfold bloqueia.
  destruct (ambiente s) as [|i resto]; [exact I|].
  pose proof (fun r => has_acorda_ref r (interf i) (aviao s)) as Ha.
  destruct (acorda (interf i) (aviao s)) as [m a].
  split; [|exact H2]. intros r. simpl. simpl in Ha. rewrite Ha. apply H1.
Qed.

Lemma dia_checa_falha_m : preserva D checa_falha_m.
Proof.
  intros s (H1 & H2). abre. unfold checa_falha_m, checa_falha.
  pose proof (fun r => has_verificar_starvation_ref r (mundo s) (aviao s))
    as Hv.
  destruct (verificar_starvation (mundo s) (aviao s)) as [m a].
  split; [|exact H2]. intros r. simpl. simpl in Hv. rewrite Hv. apply H1.
Qed.

End Quadro.

#[local] Hint Resolve dia_poe_mundo dia_poe_semaforos dia_bloqueia
  dia_checa_falha_m : preserva.
#[local] Hint Extern 1 (preserva (em_dia _ _ _ _ _) (poe_aviao _)) =>
  apply dia_poe_aviao; intros ? []; reflexivity : preserva.
#[local] Hint Extern 1 (preserva (em_dia _ _ _ _ _) (emite _)) =>
  apply dia_emite; exact I : preserva.

Lemma garante_passa {A B} (P : Estado -> Prop) (R : A -> Estado -> Prop)
      (Q : B -> Estado -> Prop) (c : M Estado A) (k : A -> M Estado B) :
  garante P c R -> (forall x, garante (R x) (k x) Q) ->
  garante P (bind c k) Q.
Proof.
  intros Hc Hk s H. apply apos_bind.
  eapply apos_mono; [exact (Hc s H)|]. intros x s1 H1. exact (Hk x s1 H1).
Qed.

Lemma garante_le_aviao {B} (P : Estado -> Prop) (Q : B -> Estado -> Prop)
      (k : Aviao -> M Estado B) :
  (forall s, P s -> apos (k (aviao s)) Q s) ->
  garante P (bind le_aviao k) Q.
Proof. intros H s Hs. apply apos_ref_le_aviao. exact (H s Hs). Qed.

Ltac passa L := eapply garante_passa; [L|intros ?; cbv beta].
Ltac mantem :=
  apply garante_bind; [solve [auto 20 with preserva]|intros ?].

Section Livros.
Variables (pf pr : Recurso -> bool) (qp qg qt : Z).

Lemma dia_entra fl t :
  fl = false ->
  garante (em_dia h0 pf pr fl (qp, qg, qt)) (emite (EvEntraFila t))
          (fun _ => em_dia h0 pf pr true (qp, qg, qt)).
Proof.
  intros -> s H.
  exact (em_dia_emite pf pr false (qp, qg, qt) pr true (qp, qg, qt)
           (EvEntraFila t) s (fun _ => eq_refl) eq_refl eq_refl H).
Qed.

Lemma dia_sai fl t :
  fl = true ->
  garante (em_dia h0 pf pr fl (qp, qg, qt)) (emite (EvLiberaPrioridade t))
          (fun _ => em_dia h0 pf pr false (qp, qg, qt)).
Proof.
  intros -> s H.
  exact (em_dia_emite pf pr true (qp, qg, qt) pr false (qp, qg, qt)
           (EvLiberaPrioridade t) s (fun _ => eq_refl) eq_refl eq_refl H).
Qed.

Lemma dia_credita fl p g t :
  garante (em_dia h0 pf pr fl (qp, qg, qt)) (emite (EvLiberaReserva p g t))
          (fun _ => em_dia h0 pf pr fl (qp - p, qg - g, qt - t)).
Proof.
  intros s H.
  exact (em_dia_emite pf pr fl (qp, qg, qt) pr fl _
           (EvLiberaReserva p g t) s (fun _ => eq_refl) eq_refl eq_refl H).
Qed.

Lemma dia_espera fl r :
  pr r = false ->
  garante (em_dia h0 pf pr fl (qp, qg, qt)) (emite (EvSemWait r))
          (fun _ => em_dia h0 pf (poe r true pr) fl (qp, qg, qt)).
Proof.
  intros Hr s H.
  refine (em_dia_emite pf pr fl (qp, qg, qt) (poe r true pr) fl _
            (EvSemWait r) s _ eq_refl eq_refl H).
  intros x. unfold poe. simpl.
  destruct x, r; simpl; try reflexivity; rewrite Hr; reflexivity.
Qed.

Lemma dia_posta fl r :
  pr r = true ->
  garante (em_dia h0 pf pr fl (qp, qg, qt)) (emite (EvSemPost r))
          (fun _ => em_dia h0 pf (poe r false pr) fl (qp, qg, qt)).
Proof.
  intros Hr s H.
  refine (em_dia_emite pf pr fl (qp, qg, qt) (poe r false pr) fl _
            (EvSemPost r) s _ eq_refl eq_refl H).
  intros x. unfold poe. simpl.
  destruct x, r; simpl; try reflexivity; rewrite Hr; reflexivity.
Qed.

Lemma dia_deve_aguardar fl limite :
  preserva (em_dia h0 pf pr fl (qp, qg, qt)) (deve_aguardar limite).
Proof. unfold deve_aguardar. auto 20 with preserva. Qed.

Lemma dia_aguardar_laco fl limite :
  forall voltas,
    preserva (em_dia h0 pf pr fl (qp, qg, qt)) (aguardar_laco voltas limite).
Proof.
  pose proof (dia_deve_aguardar fl limite).
  induction voltas as [|v IH]; simpl; auto 20 with preserva.
Qed.

(** aguardar_prioridade puts the worker in the count; only
    liberar_prioridade takes it out. *)
Lemma dia_aguardar_prioridade t :
  garante (em_dia h0 pf pr false (qp, qg, qt)) (aguardar_prioridade t)
          (fun _ => em_dia h0 pf pr true (qp, qg, qt)).
Proof.
  unfold aguardar_prioridade.
  unfold le_mundo at 1; mantem.
  mantem.
  passa ltac:(apply dia_entra; reflexivity).
  mantem.
  apply dia_aguardar_laco.
Qed.

Lemma dia_liberar_prioridade t :
  garante (em_dia h0 pf pr true (qp, qg, qt)) (liberar_prioridade t)
          (fun _ => em_dia h0 pf pr false (qp, qg, qt)).
Proof.
  unfold liberar_prioridade.
  unfold le_mundo at 1; mantem.
  mantem.
  apply dia_sai; reflexivity.
Qed.

Lemma dia_libera_minha_prioridade :
  garante (em_dia h0 pf pr true (qp, qg, qt)) libera_minha_prioridade
          (fun _ => em_dia h0 pf pr false (qp, qg, qt)).
Proof.
  unfold libera_minha_prioridade.
  unfold le_aviao at 1; mantem.
  apply dia_liberar_prioridade.
Qed.

Lemma dia_liberar_reserva fl p g t :
  garante (em_dia h0 pf pr fl (qp, qg, qt)) (liberar_reserva p g t)
          (fun _ => em_dia h0 pf pr fl (qp - p, qg - g, qt - t)).
Proof.
  unfold liberar_reserva.
  unfold le_mundo at 1; mantem.
  mantem.
  apply dia_credita.
Qed.

Lemma dia_sem_post fl r :
  pr r = true ->
  garante (em_dia h0 pf pr fl (qp, qg, qt)) (sem_post r)
          (fun _ => em_dia h0 pf (poe r false pr) fl (qp, qg, qt)).
Proof.
  intros Hr. unfold sem_post.
  unfold le_semaforos at 1; mantem.
  mantem.
  apply dia_posta; exact Hr.
Qed.

Lemma dia_sleep fl n :
  preserva (em_dia h0 pf pr fl (qp, qg, qt)) (sleep n).
Proof. unfold sleep. auto 20 with preserva. Qed.

Lemma dia_marca_inicio fl f :
  preserva (em_dia h0 pf pr fl (qp, qg, qt)) (marca_inicio f).
Proof. unfold marca_inicio, agora. auto 20 with preserva. Qed.

(** reservar_recursos adds what it debited to what the worker owes,
    and only when it returns SEM_OK. *)
Lemma dia_reservar_recursos_m fl np ng nt timeout_seg :
  garante (em_dia h0 pf pr fl (qp, qg, qt))
          (reservar_recursos_m np ng nt timeout_seg)
          (fun rc s =>
             if rc =? SEM_OK
             then em_dia h0 pf pr fl (qp + np, qg + ng, qt + nt) s
             else em_dia h0 pf pr fl (qp, qg, qt) s).
Proof.
  intros s (H1 & tr & H2 & H3 & H4 & H5). abre.
  unfold reservar_recursos_m.
  destruct (reservar_recursos _ _ _ _ _ _ _)
    as [[[rc [m a]] resto]|] eqn:E; [|exact I].
  unfold reservar_recursos in E.
  assert (Ha : forall r, has r a = pf r).
  { intros r. rewrite <- H1.
    exact (reservar_laco_mantem
             (fun x => has r x = has r (aviao s)) _ _ _ _ _
             (fun m0 a0 Hx =>
                eq_trans (has_verificar_starvation_ref r m0 a0) Hx)
             (fun i a0 Hx => eq_trans (has_acorda_ref r i a0) Hx)
             _ _ _ _ _ _ _ E eq_refl). }
  assert (Hl : forall q',
             passo_saldo (qp, qg, qt) (EvReservar np ng nt rc) = q' ->
             em_dia h0 pf pr fl q'
                    {| mundo := m;
                       semaforos :=
                         last (map sems_vistos
                                   (firstn (length (ambiente s)
                                            - length resto)
                                           (ambiente s)))
                              (semaforos s);
                       aviao := a;
                       ambiente := skipn (length (ambiente s)
                                          - length resto) (ambiente s);
                       historico :=
                         historico s ++ [EvReservar np ng nt rc] |}).
  { intros q' Hq. split; [exact Ha|].
    exists (tr ++ [EvReservar np ng nt rc]). simpl.
    split; [rewrite H2, app_assoc; reflexivity|].
    unfold retem, na_fila, saldo in *.
    split; [intros r; rewrite fold_left_app, H3; reflexivity|].
    split; [rewrite fold_left_app, H4; reflexivity
           |rewrite fold_left_app, H5; exact Hq]. }
  destruct (rc =? SEM_OK) eqn:Erc; apply Hl; simpl; rewrite Erc;
    reflexivity.
Qed.

(** sem_wait takes a unit exactly when it returns 0. *)
Lemma dia_sem_wait fl r :
  pr r = false ->
  garante (em_dia h0 pf pr fl (qp, qg, qt)) (sem_wait r)
          (fun w s =>
             if w =? 0
             then em_dia h0 pf (poe r true pr) fl (qp, qg, qt) s
             else em_dia h0 pf pr fl (qp, qg, qt) s).
Proof.
  intros Hr. unfold sem_wait.
  apply garante_bind; [solve [auto with preserva]|intros i].
  destruct (erro_sem i).
  - mantem.
    apply garante_ret. intros s H. exact H.
  - apply garante_bind; [solve [auto with preserva]|intros sm].
    destruct (0 <? sem_valor r sm); [|intros s H; apply apos_trava].
    mantem.
    passa ltac:(apply dia_espera; exact Hr).
    apply garante_ret. intros s H. exact H.
Qed.

End Livros.

#[local] Hint Resolve dia_deve_aguardar dia_aguardar_laco dia_sleep
  dia_marca_inicio : preserva.

Lemma garante_de {A} (P P' : Estado -> Prop) (Q : A -> Estado -> Prop)
      (c : M Estado A) :
  (forall s, P s -> P' s) -> garante P' c Q -> garante P c Q.
Proof. intros HP Hc s H. exact (Hc s (HP s H)). Qed.

Lemma trio_igual (a b c a' b' c' : Z) :
  a = a' -> b = b' -> c = c' -> (a, b, c) = (a', b', c').
Proof. intros -> -> ->. reflexivity. Qed.

Lemma poe_mesmo (p : Recurso -> bool) r b :
  p r = b -> forall x, p x = poe r b p x.
Proof.
  intros H x. unfold poe.
  destruct x, r; simpl; try reflexivity; exact H.
Qed.

Ltac arruma H :=
  refine (em_dia_igual _ _ _ _ _ _ _ _ _ _ _ H);
  [intros []; reflexivity|intros []; reflexivity|apply trio_igual; lia].

Lemma garante_segue_quite (P0 P1 : Estado -> Prop)
      (b : M Estado (option Z)) (k : M Estado Z) :
  garante P0 b (sai_quite h0 P1) ->
  garante P1 k (fun _ => quite h0) ->
  garante P0 (segue b k) (fun _ => quite h0).
Proof.
  intros Hb Hk. unfold segue. passa ltac:(exact Hb).
  destruct x as [rc|]; [|exact Hk].
  apply garante_ret. intros s H. exact H.
Qed.

Lemma dia_poe_has pf pr fl q r b :
  garante (em_dia h0 pf pr fl q) (poe_aviao (com_has r b))
          (fun _ => em_dia h0 (poe r b pf) pr fl q).
Proof.
  intros s (H1 & H2). unfold poe_aviao. apply apos_altera.
  split; [|exact H2]. intros x. simpl. unfold poe.
  rewrite <- H1. destruct x, r; reflexivity.
Qed.

(** if (has_r) { sem_post(&r); has_r = 0; } leaves the flag down and
    the unit posted, whether the flag was up or not. *)
Lemma dia_solta pf fl qp qg qt r :
  garante (em_dia h0 pf pf fl (qp, qg, qt)) (solta r)
          (fun _ => em_dia h0 (poe r false pf) (poe r false pf) fl
                           (qp, qg, qt)).
Proof.
  unfold solta. apply garante_le_aviao. intros s H.
  destruct (has r (aviao s)) eqn:Eh.
  - assert (Hr : pf r = true) by (rewrite <- (proj1 H r); exact Eh).
    apply apos_bind.
    eapply apos_mono; [exact (dia_sem_post pf pf qp qg qt fl r Hr s H)|].
    cbv beta. intros ? s1 H1.
    exact (dia_poe_has _ _ _ _ r false s1 H1).
  - assert (Hr : pf r = false) by (rewrite <- (proj1 H r); exact Eh).
    apply apos_ret.
    exact (em_dia_igual _ _ _ _ _ _ _ _ (poe_mesmo pf r false Hr)
             (poe_mesmo pf r false Hr) eq_refl H).
Qed.

Lemma dia_entrada :
  garante (quite h0) entrada
          (sai_quite h0 (em_dia h0 nada nada true (0, 0, 0))).
Proof.
  unfold entrada, quite.
  apply garante_bind; [solve [auto with preserva]|intros f].
  destruct f; [apply garante_ret; intros s H; exact H|].
  unfold le_aviao at 1. mantem.
  passa ltac:(apply dia_aguardar_prioridade).
  apply garante_bind; [solve [auto with preserva]|intros f].
  destruct f; [|apply garante_ret; intros s H; exact H].
  passa ltac:(apply dia_libera_minha_prioridade).
  apply garante_ret. intros s H. exact H.
Qed.

(** A reservation that was refused is not owed. *)
Lemma dia_reserva_negada np ng nt r :
  garante (fun s =>
             if r =? SEM_OK
             then em_dia h0 nada nada true (0 + np, 0 + ng, 0 + nt) s
             else em_dia h0 nada nada true (0, 0, 0) s)
          (reserva_negada r)
          (sai_quite h0 (em_dia h0 nada nada true (np, ng, nt))).
Proof.
  unfold reserva_negada. destruct (r =? SEM_OK); cbn [negb]; cbv iota.
  - apply garante_ret. intros s H. exact H.
  - apply (garante_de _ (em_dia h0 nada nada true (0, 0, 0)));
      [intros s H; exact H|].
    mantem.
    passa ltac:(apply dia_libera_minha_prioridade).
    apply garante_ret. intros s H. exact H.
Qed.

(** A sem_wait that fails is followed by the release of what the phase
    holds and of the whole reservation. *)
Lemma dia_toma pf r (desfaz : M Estado unit) np ng nt :
  garante (em_dia h0 pf pf true (np, ng, nt)) desfaz
          (fun _ => em_dia h0 nada nada true (np, ng, nt)) ->
  garante (em_dia h0 pf pf true (np, ng, nt)) (toma r desfaz np ng nt)
          (sai_quite h0 (em_dia h0 (poe r true pf) (poe r true pf) true
                                (np, ng, nt))).
Proof.
  intros Hd. unfold toma. apply garante_le_aviao. intros s H.
  destruct (has r (aviao s)) eqn:Eh; cbn [negb].
  - assert (Hr : pf r = true) by (rewrite <- (proj1 H r); exact Eh).
    apply apos_ret.
    exact (em_dia_igual _ _ _ _ _ _ _ _ (poe_mesmo pf r true Hr)
             (poe_mesmo pf r true Hr) eq_refl H).
  - assert (Hr : pf r = false) by (rewrite <- (proj1 H r); exact Eh).
    apply apos_bind.
    eapply apos_mono; [exact (dia_sem_wait pf pf np ng nt true r Hr s H)|].
    cbv beta. intros w s1 H1. destruct (w =? 0); cbn [negb].
    + apply apos_bind.
      eapply apos_mono; [exact (dia_poe_has _ _ _ _ r true s1 H1)|].
      cbv beta. intros ? s2 H2. apply apos_ret. exact H2.
    + apply apos_bind.
      eapply apos_mono; [exact (Hd s1 H1)|].
      cbv beta. intros ? s2 H2. apply apos_bind.
      eapply apos_mono;
        [exact (dia_liberar_reserva _ _ _ _ _ true np ng nt s2 H2)|].
      cbv beta. intros ? s3 H3. apply apos_bind.
      eapply apos_mono;
        [exact (dia_libera_minha_prioridade _ _ _ _ _ s3 H3)|].
      cbv beta. intros ? s4 H4. apply apos_ret. simpl. unfold quite.
      arruma H4.
Qed.

Lemma dia_conclui f :
  garante (em_dia h0 nada nada true (0, 0, 0)) (conclui f)
          (fun _ => quite h0).
Proof.
  unfold conclui, agora, quite. mantem. mantem.
  passa ltac:(apply dia_libera_minha_prioridade).
  apply garante_ret. intros s H. exact H.
Qed.

Ltac desfeito :=
  first
    [apply garante_ret; intros s H; exact H
    |eapply garante_fraco;
     [apply dia_solta|cbv beta; intros ? s H; arruma H]
    |passa ltac:(apply dia_solta);
     eapply garante_fraco;
     [apply dia_solta|cbv beta; intros ? s H; arruma H]].

Ltac fim_de_fase :=
  repeat
    match goal with
    | |- garante _ (bind _ _) _ =>
        first [mantem
              |passa ltac:(apply dia_solta)
              |passa ltac:(apply dia_liberar_reserva)]
    end;
  eapply garante_de; [|apply dia_conclui];
  cbv beta; intros s H; arruma H.

(** Each phase leaves the books as it found them, on every path. *)
Lemma dia_fase f : garante (quite h0) (fase f) (fun _ => quite h0).
Proof.
  destruct f; cbn [fase]; unfold pouso, desembarque, decolagem;
    (eapply garante_segue_quite; [apply dia_entrada|]);
    mantem; unfold le_aviao at 1;
    (apply garante_bind; [solve [auto with preserva]|intros a]);
    cbv zeta;
    generalize (falta (has_pista a)), (falta (has_portao a)),
               (falta (has_torre a));
    intros np ng nt;
    passa ltac:(apply dia_reservar_recursos_m);
    (eapply garante_segue_quite; [apply dia_reserva_negada|]);
    repeat (eapply garante_segue_quite; [apply dia_toma; desfeito|]);
    fim_de_fase.
Qed.

Lemma dia_completou f :
  garante (quite h0) (completou f) (fun _ => quite h0).
Proof.
  unfold completou. passa ltac:(apply dia_fase). unfold quite.
  destruct (x =? 0); [|apply garante_ret; intros s H; exact H].
  apply garante_bind; [solve [auto with preserva]|intros c].
  apply garante_ret. intros s H. exact H.
Qed.

Lemma dia_aviao_thread :
  garante (quite h0) aviao_thread (fun _ => quite h0).
Proof.
  assert (Hf : forall b (k : M Estado unit),
             garante (quite h0) k (fun _ => quite h0) ->
             garante (quite h0) (if b : bool then k else ret tt)
                     (fun _ => quite h0)).
  { intros [|] k Hk; [exact Hk|].
    apply garante_ret. intros s H. exact H. }
  unfold aviao_thread, agora.
  apply (garante_de _ (em_dia h0 nada nada false (0, 0, 0)));
    [intros s H; exact H|].
  mantem. mantem. fold (quite h0).
  passa ltac:(apply dia_completou). apply Hf.
  passa ltac:(apply dia_completou). apply Hf.
  passa ltac:(apply dia_completou). apply Hf.
  unfold quite. unfold le_aviao at 1.
  apply garante_bind; [solve [auto with preserva]|intros a].
  destruct (status_final a);
    first [apply preserva_ret
          |apply dia_poe_aviao; intros ? []; reflexivity].
Qed.

End EmDiaRefatorado.

(** ** So_refatorado_corrigido.c: the shared counters against the log *)

Section Conferido.
Import SoRefatorado.

Lemma mesmas_contas_refl m : mesmas_contas m m.
Proof. repeat split. Qed.

Lemma mesmas_contas_trans m1 m2 m3 :
  mesmas_contas m1 m2 -> mesmas_contas m2 m3 -> mesmas_contas m1 m3.
Proof.
  intros (A1 & A2 & A3 & A4 & A5) (B1 & B2 & B3 & B4 & B5).
  repeat split; congruence.
Qed.

Lemma esperando_mesmas t m m' :
  mesmas_contas m m' -> esperando t m = esperando t m'.
Proof. intros (_ & _ & _ & A4 & A5). destruct t; assumption. Qed.

(** The replay reads the five counters only. *)
Lemma refaz_mesmas m m' e :
  mesmas_contas m m' -> mesmas_contas (refaz m e) (refaz m' e).
Proof.
  intros H. pose proof H as (A1 & A2 & A3 & A4 & A5).
  destruct e as [t|t|np ng nt rc|np ng nt|r|r|r|n]; simpl; try exact H.
  - destruct t; repeat split; simpl; congruence.
  - rewrite <- (esperando_mesmas t m m' H).
    destruct (0 <? esperando t m); [|exact H].
    destruct t; repeat split; simpl; congruence.
  - destruct (rc =? SEM_OK); [|exact H].
    repeat split; simpl; congruence.
  - repeat split; simpl; congruence.
Qed.

Lemma verificar_starvation_contas m a :
  mesmas_contas (fst (verificar_starvation m a)) m.
Proof.
  unfold verificar_starvation.
  destruct (ja_marcado (status_final a)); [apply mesmas_contas_refl|].
  destruct (_ && negb _); [apply mesmas_contas_refl|].
  destruct (TEMPO_MAXIMO_ESPERA <=? _); [|apply mesmas_contas_refl].
  destruct (tipo a); repeat split.
Qed.

Lemma acorda_contas i a : mesmas_contas (fst (acorda i a)) (visto i).
Proof.
  unfold acorda. destruct (monitor_passou i); [|apply mesmas_contas_refl].
  destruct (monitor_deadlock _ a) as [a' n]. repeat split.
Qed.

(** reservar_recursos: the wake-ups it used, and the counters it leaves
    from those the last of them showed. *)
Lemma reservar_laco_contas np ng nt inicio timeout_seg :
  forall amb m a rc m' a' resto,
    reservar_laco amb np ng nt inicio timeout_seg m a
    = Some (rc, (m', a'), resto) ->
    exists cons,
      amb = cons ++ resto
      /\ mesmas_contas m' (refaz (last (map visto cons) m)
                                 (EvReservar np ng nt rc)).
Proof.
  induction amb as [|i amb IH]; intros m a rc m' a' resto E;
    simpl in E;
    (destruct (negb (simulacao_ativa m));
     [injection E as <- <- <- <-; exists []; split;
      [reflexivity|apply mesmas_contas_refl]|]);
    unfold checa_falha in E;
    pose proof (verificar_starvation_contas m a) as Hv;
    destruct (verificar_starvation m a) as [m1 a1]; simpl in Hv;
    (destruct (ja_marcado (status_final a1));
     [injection E as <- <- <- <-; exists []; split;
      [reflexivity|exact Hv]|]);
    (destruct (negb _ && _);
     [injection E as <- <- <- <-; exists []; split;
      [reflexivity
      |exact (refaz_mesmas m1 m (EvReservar np ng nt SEM_OK) Hv)]|]);
    (destruct (timeout_seg <=? para_int (relogio m1 - inicio));
     [injection E as <- <- <- <-; exists []; split;
      [reflexivity|exact Hv]|]).
  - discriminate E.
  - pose proof (acorda_contas i a1) as Ha.
    destruct (acorda i a1) as [m2 a2]. simpl in Ha.
    destruct (IH _ _ _ _ _ _ E) as (cons & -> & Hc).
    exists (i :: cons). split; [reflexivity|].
    cbn [map]. rewrite last_cons.
    destruct cons as [|j cons].
    + cbn [map last] in *.
      eapply mesmas_contas_trans; [exact Hc|].
      apply refaz_mesmas. exact Ha.
    + cbn [map] in *. rewrite last_cons in *. exact Hc.
Qed.

Variables (amb0 : list Despertar) (m0 : Mundo) (h0 : list Evento).

Let C := conferido amb0 m0 h0.

Lemma conf_poe_semaforos f : preserva C (poe_semaforos f).
Proof. intros s H. unfold poe_semaforos. apply apos_altera. exact H. Qed.

Lemma conf_poe_aviao f : preserva C (poe_aviao f).
Proof. intros s H. unfold poe_aviao. apply apos_altera. exact H. Qed.

(** One more call in the log, the counters written as it says. *)
Lemma conferido_mais s s' e :
  historico s' = historico s ++ [e] ->
  ambiente s' = ambiente s ->
  mesmas_contas (mundo s') (refaz (mundo s) e) ->
  C s -> C s'.
Proof.
  intros Hh Ha Hm (tr1 & tr2 & w & H1 & H2 & H3).
  exists tr1, (tr2 ++ [e]), w.
  split; [rewrite Hh, H1, <- !app_assoc; reflexivity|].
  split; [rewrite Ha; exact H2|].
  rewrite fold_left_app. simpl.
  eapply mesmas_contas_trans; [exact Hm|]. apply refaz_mesmas. exact H3.
Qed.

(** A wake-up: the counters are those it shows. *)
Lemma conferido_acorda s s' i :
  historico s' = historico s ->
  ambiente s = i :: ambiente s' ->
  mesmas_contas (mundo s') (visto (interf i)) ->
  C s -> C s'.
Proof.
  intros Hh Ha Hm (tr1 & tr2 & w & H1 & H2 & H3).
  exists (tr1 ++ tr2), [], (visto (interf i)).
  split; [rewrite Hh, H1, app_nil_r; reflexivity|].
  split; [|exact Hm].
  right. destruct H2 as [(A & _ & _)|(pre & j & A & _)].
  - exists [], i. rewrite <- A, Ha. auto.
  - exists (pre ++ [j]), i. rewrite A, Ha, <- app_assoc. auto.
Qed.

Lemma conf_emite x :
  match x with
  | EvSemWait _ | EvSemWaitErro _ | EvSemPost _ | EvSleep _ => True
  | _ => False
  end ->
  preserva C (emite x).
Proof.
  intros Hx s H. unfold emite. apply apos_altera.
  apply (conferido_mais s _ x); try reflexivity; [|exact H].
  destruct x; try contradiction; apply mesmas_contas_refl.
Qed.

Lemma conf_bloqueia : preserva C bloqueia.
Proof.
  intros s H. abre. unfold bloqueia.
  destruct (ambiente s) as [|i resto] eqn:E; [exact I|].
  pose proof (acorda_contas (interf i) (aviao s)) as Ha.
  destruct (acorda (interf i) (aviao s)) as [m a]. simpl in Ha.
  apply (conferido_acorda s _ i); try assumption; reflexivity.
Qed.

Lemma conf_checa_falha_m : preserva C checa_falha_m.
Proof.
  intros s (tr1 & tr2 & w & H1 & H2 & H3). abre.
  unfold checa_falha_m, checa_falha.
  pose proof (verificar_starvation_contas (mundo s) (aviao s)) as Hv.
  destruct (verificar_starvation (mundo s) (aviao s)) as [m a].
  simpl in Hv. exists tr1, tr2, w.
  split; [exact H1|]. split; [exact H2|].
  exact (mesmas_contas_trans _ _ _ Hv H3).
Qed.

#[local] Hint Resolve conf_poe_semaforos conf_poe_aviao conf_bloqueia
  conf_checa_falha_m : preserva.
#[local] Hint Extern 1 (preserva _ (emite _)) =>
  apply conf_emite; exact I : preserva.

Lemma conf_liberar_reserva p g t : preserva C (liberar_reserva p g t).
Proof.
  intros s H. abre.
  apply (conferido_mais s _ (EvLiberaReserva p g t));
    try reflexivity; [|exact H].
  apply mesmas_contas_refl.
Qed.

Lemma conf_liberar_prioridade t : preserva C (liberar_prioridade t).
Proof.
  intros s H. abre.
  unfold liberar_prioridade, le_mundo, poe_mundo, emite, altera, bind, le,
    ret.
  simpl. destruct (0 <? esperando t (mundo s)) eqn:E; simpl;
    (apply (conferido_mais s _ (EvLiberaPrioridade t));
     try reflexivity; [|exact H]);
    simpl; rewrite E; apply mesmas_contas_refl.
Qed.

Lemma conf_deve_aguardar limite : preserva C (deve_aguardar limite).
Proof. unfold deve_aguardar. auto 20 with preserva. Qed.

#[local] Hint Resolve conf_liberar_reserva conf_liberar_prioridade
  conf_deve_aguardar : preserva.

Lemma conf_aguardar_laco limite :
  forall voltas, preserva C (aguardar_laco voltas limite).
Proof.
  induction voltas as [|v IH]; simpl; auto 20 with preserva.
Qed.

(** The entry in the count of the class, then the wait. *)
Lemma conf_aguardar_prioridade t : preserva C (aguardar_prioridade t).
Proof.
  intros s H.
  assert (H1 : C {| mundo := com_esperando t (esperando t (mundo s) + 1)
                                           (mundo s);
                    semaforos := semaforos s; aviao := aviao s;
                    ambiente := ambiente s;
                    historico := historico s ++ [EvEntraFila t] |}).
  { apply (conferido_mais s _ (EvEntraFila t)); try reflexivity;
      [|exact H].
    apply mesmas_contas_refl. }
  pose proof (conf_aguardar_laco
                (match t with INTERNACIONAL => 1 | DOMESTICO => 0 end)
                (S (length (ambiente s))) _ H1) as H2.
  revert H2. abre. intros H2. exact H2.
Qed.

(** The wake-ups that reservar_recursos used are the first of the
    oracle. *)
Lemma usados_primeiros (amb : list Despertar) cons resto :
  map interf amb = cons ++ resto ->
  map interf (firstn (length amb - length resto) amb) = cons
  /\ amb = firstn (length amb - length resto) amb
           ++ skipn (length amb - length resto) amb.
Proof.
  intros E. split; [|symmetry; apply firstn_skipn].
  assert (L : (length amb - length resto)%nat = length cons).
  { pose proof (f_equal (@length _) E) as L.
    rewrite length_map, length_app in L. lia. }
  rewrite L, <- firstn_map, E, firstn_app, firstn_all, Nat.sub_diag.
  simpl. apply app_nil_r.
Qed.

Lemma conf_reservar_recursos_m np ng nt timeout_seg :
  preserva C (reservar_recursos_m np ng nt timeout_seg).
Proof.
  intros s H. abre. unfold reservar_recursos_m.
  destruct (reservar_recursos _ _ _ _ _ _ _)
    as [[[rc [m a]] resto]|] eqn:E; [|exact I].
  unfold reservar_recursos in E.
  destruct (reservar_laco_contas _ _ _ _ _ _ _ _ _ _ _ _ E)
    as (cons & Hc & Hm).
  destruct (usados_primeiros _ _ _ Hc) as [U1 U2].
  set (u := (length (ambiente s) - length resto)%nat) in *.
  destruct (firstn u (ambiente s)) as [|d ds].
  - simpl in U1, U2. subst cons. simpl in Hm.
    apply (conferido_mais s _ (EvReservar np ng nt rc));
      [reflexivity|simpl; symmetry; exact U2|exact Hm|exact H].
  - destruct (@exists_last _ (d :: ds)) as (l & x & El); [discriminate|].
    rewrite El in *. clear El d ds. subst cons.
    rewrite !map_app in Hm. simpl in Hm. rewrite last_last in Hm.
    destruct H as (tr1 & tr2 & w & H1 & H2 & H3).
    exists (tr1 ++ tr2), [EvReservar np ng nt rc], (visto (interf x)).
    simpl. split; [rewrite H1, <- !app_assoc; reflexivity|].
    split; [|exact Hm].
    right. destruct H2 as [(A & _ & _)|(pre & j & A & _)].
    + exists l, x. rewrite <- A, U2 at 1.
      rewrite <- app_assoc. auto.
    + exists (pre ++ j :: l), x. rewrite A, U2 at 1.
      split; [|reflexivity].
      rewrite <- !app_assoc. simpl. rewrite <- ?app_assoc. reflexivity.
Qed.

#[local] Hint Resolve conf_aguardar_prioridade conf_reservar_recursos_m
  : preserva.

Lemma conf_sem_wait r : preserva C (sem_wait r).
Proof. unfold sem_wait. auto 20 with preserva. Qed.

Lemma conf_sem_post r : preserva C (sem_post r).
Proof. unfold sem_post. auto 20 with preserva. Qed.

Lemma conf_sleep n : preserva C (sleep n).
Proof. unfold sleep. auto 20 with preserva. Qed.

Lemma conf_libera_minha_prioridade : preserva C libera_minha_prioridade.
Proof. unfold libera_minha_prioridade. auto 20 with preserva. Qed.

Lemma conf_marca_inicio f : preserva C (marca_inicio f).
Proof. unfold marca_inicio. auto 20 with preserva. Qed.

#[local] Hint Resolve conf_sem_wait conf_sem_post conf_sleep
  conf_libera_minha_prioridade conf_marca_inicio : preserva.

Lemma conf_solta r : preserva C (solta r).
Proof. unfold solta. auto 20 with preserva. Qed.

Lemma conf_entrada : preserva C entrada.
Proof. unfold entrada. auto 30 with preserva. Qed.

Lemma conf_reserva_negada r : preserva C (reserva_negada r).
Proof. unfold reserva_negada. auto 30 with preserva. Qed.

Lemma conf_conclui f : preserva C (conclui f).
Proof. unfold conclui. auto 30 with preserva. Qed.

#[local] Hint Resolve conf_solta conf_entrada conf_reserva_negada
  conf_conclui : preserva.

Lemma conf_toma r desfaz np ng nt :
  preserva C desfaz -> preserva C (toma r desfaz np ng nt).
Proof. intros H. unfold toma. auto 30 with preserva. Qed.

Lemma conf_segue (b : M Estado (option Z)) (k : M Estado Z) :
  preserva C b -> preserva C k -> preserva C (segue b k).
Proof. intros Hb Hk. unfold segue. auto 30 with preserva. Qed.

#[local] Hint Resolve conf_toma conf_segue : preserva.

Lemma conf_fase f : preserva C (fase f).
Proof.
  destruct f; cbn [fase]; unfold pouso, desembarque, decolagem;
    auto 60 with preserva.
Qed.

#[local] Hint Resolve conf_fase : preserva.

Lemma conf_aviao_thread : preserva C aviao_thread.
Proof. unfold aviao_thread, completou. auto 60 with preserva. Qed.

End Conferido.

(** liberar_reserva adds its arguments to the counters of the gate. *)
Lemma liberar_reserva_credita_ref p g t s0 :
  exists s1,
    SoRefatorado.liberar_reserva p g t s0 = Some (tt, s1)
    /\ SoRefatorado.pistas_disp (SoRefatorado.mundo s1)
       = SoRefatorado.pistas_disp (SoRefatorado.mundo s0) + p
    /\ SoRefatorado.portoes_disp (SoRefatorado.mundo s1)
       = SoRefatorado.portoes_disp (SoRefatorado.mundo s0) + g
    /\ SoRefatorado.torres_disp (SoRefatorado.mundo s1)
       = SoRefatorado.torres_disp (SoRefatorado.mundo s0) + t
    /\ SoRefatorado.historico s1
       = SoRefatorado.historico s0 ++ [SoRefatorado.EvLiberaReserva p g t]
    /\ SoRefatorado.semaforos s1 = SoRefatorado.semaforos s0
    /\ SoRefatorado.aviao s1 = SoRefatorado.aviao s0
    /\ SoRefatorado.ambiente s1 = SoRefatorado.ambiente s0.
Proof. eexists. split; [reflexivity|]. simpl. repeat split. Qed.

(** X23 (So_refatorado_corrigido.c, aviao_thread with pouso /
    desembarque / decolagem, reservar_recursos, liberar_reserva,
    aguardar_prioridade and liberar_prioridade).  A thread started with
    the three has_* flags down gives back all it takes, on every path
    it can leave by: for each semaphore the sem_waits that returned 0
    and the sem_posts alternate, starting with a sem_wait and ending
    with a sem_post, and the flag is down again at the end; every entry
    in the queue count is followed by one liberar_prioridade before the
    next, the last one included; and the units that the calls of
    liberar_reserva name are, class by class, those that the
    reservations that returned SEM_OK name.  The shared counters are
    read as well as the log.  The worker sees the shared variables anew
    at each wake-up; the three counters of the gate and the two of the
    queue at the end of the thread are those that the last wake-up it
    went through showed (those of the start when it went through none)
    with the calls logged since then replayed on them: a reservation
    that returned SEM_OK takes its amounts from the gate,
    liberar_reserva adds its amounts to it, the entry in the queue adds
    one to the counter of the class and liberar_prioridade takes one
    from it if it is positive.  And a call of liberar_reserva, from any
    state, adds its three arguments to the three counters of the gate,
    logs itself, and leaves the semaphores, the aircraft and the
    wake-ups to come as they are. *)
Theorem voo_devolve_tudo s s' tr :
  (forall r, SoRefatorado.has r (SoRefatorado.aviao s) = false) ->
  SoRefatorado.aviao_thread s = Some (tt, s') ->
  SoRefatorado.historico s' = SoRefatorado.historico s ++ tr ->
  (forall r, SoRefatorado.retem r false tr = Some false
             /\ SoRefatorado.has r (SoRefatorado.aviao s') = false)
  /\ SoRefatorado.na_fila false tr = Some false
  /\ SoRefatorado.saldo tr = (0, 0, 0)
  /\ (exists tr1 tr2 w,
         tr = tr1 ++ tr2
         /\ ((SoRefatorado.ambiente s' = SoRefatorado.ambiente s
              /\ tr1 = [] /\ w = SoRefatorado.mundo s)
             \/ exists pre i,
                 SoRefatorado.ambiente s
                 = pre ++ i :: SoRefatorado.ambiente s'
                 /\ w = SoRefatorado.visto (SoRefatorado.interf i))
         /\ SoRefatorado.mesmas_contas
              (SoRefatorado.mundo s')
              (fold_left SoRefatorado.refaz tr2 w))
  /\ (forall p g t s0,
         exists s1,
           SoRefatorado.liberar_reserva p g t s0 = Some (tt, s1)
           /\ SoRefatorado.pistas_disp (SoRefatorado.mundo s1)
              = SoRefatorado.pistas_disp (SoRefatorado.mundo s0) + p
           /\ SoRefatorado.portoes_disp (SoRefatorado.mundo s1)
              = SoRefatorado.portoes_disp (SoRefatorado.mundo s0) + g
           /\ SoRefatorado.torres_disp (SoRefatorado.mundo s1)
              = SoRefatorado.torres_disp (SoRefatorado.mundo s0) + t
           /\ SoRefatorado.historico s1
              = SoRefatorado.historico s0
                ++ [SoRefatorado.EvLiberaReserva p g t]
           /\ SoRefatorado.semaforos s1 = SoRefatorado.semaforos s0
           /\ SoRefatorado.aviao s1 = SoRefatorado.aviao s0
           /\ SoRefatorado.ambiente s1 = SoRefatorado.ambiente s0).
Proof.
  intros Hh E Htr.
  assert (H0 : SoRefatorado.quite (SoRefatorado.historico s) s).
  { split; [exact Hh|]. exists []. rewrite app_nil_r.
    repeat split. }
  destruct (apos_elim _ _ _ _ _
              (dia_aviao_thread (SoRefatorado.historico s) s H0) E)
    as (H1 & tr' & H2 & H3 & H4 & H5).
  rewrite Htr in H2. apply app_inv_head in H2. subst tr'.
  split; [intros r; split; [apply H3|apply H1]|].
  split; [exact H4|]. split; [exact H5|].
  split; [|exact liberar_reserva_credita_ref].
  assert (C0 : SoRefatorado.conferido (SoRefatorado.ambiente s)
                 (SoRefatorado.mundo s) (SoRefatorado.historico s) s).
  { exists [], [], (SoRefatorado.mundo s).
    split; [rewrite app_nil_r; reflexivity|].
    split; [left; auto|apply mesmas_contas_refl]. }
  destruct (apos_elim _ _ _ _ _
              (conf_aviao_thread _ _ _ s C0) E)
    as (tr1 & tr2 & w & C1 & C2 & C3).
  rewrite Htr in C1. apply app_inv_head in C1.
  exists tr1, tr2, w. auto.
Qed.

Lemma voo_devolve_tudo_testemunha :
  (exists s',
      SoRefatorado.aviao_thread SoRefatorado.voo_tranquilo = Some (tt, s')
      /\ SoRefatorado.erros (SoRefatorado.historico s') = []
      /\ SoRefatorado.codigos (SoRefatorado.historico s') = [0; 0; 0]
      /\ SoRefatorado.retem TORRE false
                            (SoRefatorado.historico s') = Some false
      /\ SoRefatorado.saldo (SoRefatorado.historico s') = (0, 0, 0))
  /\ (exists s',
         SoRefatorado.aviao_thread SoRefatorado.voo_com_erro
         = Some (tt, s')
         /\ SoRefatorado.erros (SoRefatorado.historico s')
            = [PISTA]
         /\ SoRefatorado.codigos (SoRefatorado.historico s') = [0]
         /\ SoRefatorado.retem TORRE false
                               (SoRefatorado.historico s') = Some false
         /\ SoRefatorado.saldo (SoRefatorado.historico s') = (0, 0, 0)).
Proof.
  assert (Hn : forall r,
             SoRefatorado.has r (SoRefatorado.novo 1 SoRefatorado.DOMESTICO
                                                   100) = false)
    by (intros []; reflexivity).
  split.
  - destruct (SoRefatorado.aviao_thread SoRefatorado.voo_tranquilo)
      as [[[] s']|] eqn:E; [|vm_compute in E; discriminate E].
    assert (Hh : SoRefatorado.historico s'
                 = SoRefatorado.historico SoRefatorado.voo_tranquilo
                   ++ SoRefatorado.historico s') by reflexivity.
    destruct (voo_devolve_tudo SoRefatorado.voo_tranquilo _ _ Hn E Hh)
      as (H1 & _ & H3 & _).
    exists s'. split; [reflexivity|].
    split; [vm_compute in E; injection E as <-; reflexivity|].
    split; [vm_compute in E; injection E as <-; reflexivity|].
    split; [exact (proj1 (H1 TORRE))|exact H3].
  - destruct (SoRefatorado.aviao_thread SoRefatorado.voo_com_erro)
      as [[[] s']|] eqn:E; [|vm_compute in E; discriminate E].
    assert (Hh : SoRefatorado.historico s'
                 = SoRefatorado.historico SoRefatorado.voo_com_erro
                   ++ SoRefatorado.historico s') by reflexivity.
    destruct (voo_devolve_tudo SoRefatorado.voo_com_erro _ _ Hn E Hh)
      as (H1 & _ & H3 & _).
    exists s'. split; [reflexivity|].
    split; [vm_compute in E; injection E as <-; reflexivity|].
    split; [vm_compute in E; injection E as <-; reflexivity|].
    split; [exact (proj1 (H1 TORRE))|exact H3].
Defined.

(** * So-final.c: the thread at the ends of a run *)

(** ** So-final.c: a thread started after the simulation was stopped *)

Section Encerramento.
Import SoFinal.

Lemma verificar_starvation_calmo m a :
  ultimo_tempo_espera a = relogio m -> verificar_starvation m a = (m, a).
Proof.
  intros H. unfold verificar_starvation.
  destruct (ja_marcado _); [reflexivity|].
  rewrite H, Z.sub_diag. reflexivity.
Qed.

Lemma aviao_thread_encerrada m a amb h :
  simulacao_ativa m = false ->
  vivo a ->
  aviao_thread {| mundo := m; aviao := a; ambiente := amb; historico := h |}
  = Some (tt,
          {| mundo :=
               if 0 <? esperando (tipo a) m
               then com_esperando (tipo a) (esperando (tipo a) m - 1)
                      (com_esperando (tipo a) (esperando (tipo a) m)
                         (com_esperando (tipo a) (esperando (tipo a) m + 1)
                                        m))
               else com_esperando (tipo a) (esperando (tipo a) m)
                      (com_esperando (tipo a) (esperando (tipo a) m + 1) m);
             aviao :=
               com_inicio POUSO (relogio m)
                 (com_ultimo_tempo_espera (relogio m)
                    (com_has PISTA false
                       (com_has PORTAO false
                          (com_has TORRE false
                             (com_ultimo_tempo_espera (relogio m) a)))));
             ambiente := amb;
             historico :=
               h ++ [EvHas TORRE false; EvHas PORTAO false;
                     EvHas PISTA false; EvEntraFila (tipo a);
                     EvDesiste (tipo a);
                     EvReservar 1 0 1 SEM_SIM_ENCERRADA;
                     EvLiberaPrioridade (tipo a)] |}).
Proof.
  intros Hs [Hv1 Hv2].
  assert (Hst : match status_final a with
                | FALHA | STARVATION => true
                | _ => false
                end = false)
    by (destruct (status_final a); congruence).
  unfold aviao_thread, marca_espera, marca, pouso, segue, entrada,
    aguardar_prioridade, desistiu, checa_falha_m, checa_falha,
    marca_inicio, reservar_recursos, reserva_negada,
    libera_minha_prioridade, liberar_prioridade, time, le_mundo, le_aviao,
    poe_aviao, poe_mundo, emite, altera.
  unfold bind, le, ret. simpl.
  rewrite verificar_starvation_calmo by reflexivity.
  simpl. rewrite Hst.
  unfold deve_aguardar, le_mundo, bind, le, ret. simpl.
  rewrite Hs, Bool.andb_false_r. simpl.
  rewrite Hs. simpl.
  rewrite verificar_starvation_calmo by reflexivity.
  simpl. rewrite Hst.
  unfold reservar_volta, le_mundo, bind, le, ret. simpl.
  rewrite Hs. simpl.
  rewrite !esperando_com_esperando, Z.add_simpl_r.
  rewrite <- !app_assoc. simpl.
  destruct (0 <? esperando (tipo a) m); simpl;
    rewrite <- ?app_assoc; reflexivity.
Qed.

End Encerramento.

(** X24 (So-final.c, aviao_thread with pouso, aguardar_prioridade,
    reservar_recursos and liberar_prioridade).  A thread started once
    simulacao_ativa is false, for an aircraft that is not FALHA or
    STARVATION, returns without waiting once: pouso comes back with
    SEM_SIM_ENCERRADA from a request for one runway and one tower,
    having touched neither the gate nor a semaphore.  The thread leaves
    status_final as it found it, with inicio_pouso written and
    fim_pouso not.  The queue count of the class of the flight is
    lowered twice for one increment, by aguardar_prioridade and by
    liberar_prioridade, so that it ends one below what it was, unless it
    was not positive. *)
Theorem voo_apos_encerramento s :
  SoFinal.simulacao_ativa (SoFinal.mundo s) = false ->
  SoFinal.vivo (SoFinal.aviao s) ->
  exists s',
    SoFinal.aviao_thread s = Some (tt, s')
    /\ SoFinal.ambiente s' = SoFinal.ambiente s
    /\ SoFinal.historico s'
       = SoFinal.historico s
         ++ [SoFinal.EvHas TORRE false; SoFinal.EvHas PORTAO false;
             SoFinal.EvHas PISTA false;
             SoFinal.EvEntraFila (SoFinal.tipo (SoFinal.aviao s));
             SoFinal.EvDesiste (SoFinal.tipo (SoFinal.aviao s));
             SoFinal.EvReservar 1 0 1 SoFinal.SEM_SIM_ENCERRADA;
             SoFinal.EvLiberaPrioridade (SoFinal.tipo (SoFinal.aviao s))]
    /\ SoFinal.status_final (SoFinal.aviao s')
       = SoFinal.status_final (SoFinal.aviao s)
    /\ SoFinal.inicio_pouso (SoFinal.aviao s')
       = SoFinal.relogio (SoFinal.mundo s)
    /\ SoFinal.fim_pouso (SoFinal.aviao s')
       = SoFinal.fim_pouso (SoFinal.aviao s)
    /\ SoFinal.reserva (SoFinal.mundo s')
       = SoFinal.reserva (SoFinal.mundo s)
    /\ (forall r, SoFinal.sem_valor r (SoFinal.mundo s')
                  = SoFinal.sem_valor r (SoFinal.mundo s))
    /\ SoFinal.esperando (SoFinal.tipo (SoFinal.aviao s)) (SoFinal.mundo s')
       = if 0 <? SoFinal.esperando (SoFinal.tipo (SoFinal.aviao s))
                                   (SoFinal.mundo s)
         then SoFinal.esperando (SoFinal.tipo (SoFinal.aviao s))
                                (SoFinal.mundo s) - 1
         else SoFinal.esperando (SoFinal.tipo (SoFinal.aviao s))
                                (SoFinal.mundo s).
Proof.
  intros Hs Hv. destruct s as [m a amb h]. simpl in Hs, Hv.
  eexists. split; [exact (aviao_thread_encerrada m a amb h Hs Hv)|].
  cbn [SoFinal.ambiente SoFinal.historico SoFinal.aviao SoFinal.mundo].
  split; [reflexivity|]. split; [reflexivity|].
  split; [reflexivity|]. split; [reflexivity|]. split; [reflexivity|].
  destruct (0 <? SoFinal.esperando (SoFinal.tipo a) m);
    (split; [destruct (SoFinal.tipo a); reflexivity|]);
    (split; [intros r; destruct (SoFinal.tipo a), r; reflexivity|]);
    rewrite ?esperando_com_esperando; reflexivity.
Qed.

Lemma voo_apos_encerramento_testemunha :
  exists s',
    SoFinal.aviao_thread SoFinal.chega_tarde = Some (tt, s')
    /\ SoFinal.status_final (SoFinal.aviao s') = SoFinal.SUCESSO
    /\ SoFinal.fim_pouso (SoFinal.aviao s') = 0
    /\ SoFinal.esperando_domestico (SoFinal.mundo SoFinal.chega_tarde) = 1
    /\ SoFinal.esperando_domestico (SoFinal.mundo s') = 0.
Proof.
  destruct (voo_apos_encerramento SoFinal.chega_tarde)
    as (s' & E & _ & _ & Hst & _ & Hf & _ & _ & He).
  - reflexivity.
  - split; discriminate.
  - exists s'. split; [exact E|]. split; [exact Hst|].
    split; [exact Hf|]. split; [reflexivity|exact He].
Defined.

(** ** So-final.c: the status a thread leaves *)

Section EstadoDoVoo.
Import SoFinal.

Lemma fase_do_voo_desfecho s0 tr s f :
  ate_aqui s0 tr nada s ->
  apos (fase f)
       (fun rc s' =>
          exists c, possivel f nada c /\ rc = retorno c
                    /\ desfecho c (aviao s')
                    /\ ate_aqui s0 (tr ++ fst (rastro f (tipo (aviao s0))
                                                      nada c)) nada s') s.
Proof.
  intros H. eapply apos_mono; [apply fase_caminho|]. cbv beta.
  intros rc s' (c & Hp & Ha & Hr & Hd).
  destruct H as (Hh & Hpos & Ht).
  rewrite Hpos, Ht in *.
  exists c. split; [exact Hp|]. split; [exact Hr|]. split; [exact Hd|].
  rewrite <- (rastro_nada f (tipo (aviao s0)) c Hp) at 2.
  eapply ate_aqui_trans; [|exact Ha]. unfold ate_aqui. auto.
Qed.

Lemma aviao_thread_estado s0 :
  apos aviao_thread
       (fun _ s' =>
          exists cs,
            voo_valido fases cs
            /\ historico s'
               = historico s0
                 ++ ev_partida ++ rastro_voo (tipo (aviao s0)) fases cs
            /\ fim_do_voo cs (aviao s')) s0.
Proof.
  pose proof (ate_aqui_inicio s0) as H0.
  unfold aviao_thread.
  passo marca_espera_ate. intros _ s1 H1.
  passo marca_ate. intros _ s2 H2.
  passo marca_ate. intros _ s3 H3.
  passo marca_ate. intros _ s4 H4.
  assert (H4' : ate_aqui s0 ev_partida nada s4).
  { destruct (posse (aviao s0)) as [b1 b2 b3]. exact H4. }
  clear H0 H1 H2 H3 H4.
  change pouso with (fase POUSO).
  passo fase_do_voo_desfecho. intros r1 s5 (c1 & Hp1 & -> & Hd1 & H5).
  rewrite encerra_retorno.
  destruct (retorno c1 =? 0) eqn:E1; cbn [negb].
  2: { apply apos_ret. exists [c1]. split; [simpl; rewrite E1; auto|].
       split; [|exact Hd1]. destruct H5 as [H5 _]. rewrite H5.
       unfold fases. cbn [rastro_voo].
       rewrite ?app_nil_r, <- ?app_assoc. reflexivity. }
  passo marca_espera_ate. intros _ s6 H6.
  change desembarque with (fase DESEMBARQUE).
  passo fase_do_voo_desfecho. intros r2 s7 (c2 & Hp2 & -> & Hd2 & H7).
  rewrite encerra_retorno.
  destruct (retorno c2 =? 0) eqn:E2; cbn [negb].
  2: { apply apos_ret. exists [c1; c2].
       split; [simpl; rewrite E1, E2; auto|].
       split; [|exact Hd2]. destruct H7 as [H7 _]. rewrite H7.
       unfold fases. cbn [rastro_voo].
       rewrite ?app_nil_r, <- ?app_assoc. reflexivity. }
  passo marca_espera_ate. intros _ s8 H8.
  change decolagem with (fase DECOLAGEM).
  passo fase_do_voo_desfecho. intros r3 s9 (c3 & Hp3 & -> & Hd3 & H9).
  assert (Hv : voo_valido fases [c1; c2; c3]).
  { simpl. rewrite E1, E2. destruct (retorno c3 =? 0); auto. }
  assert (Hr : forall s, ate_aqui s0
                 (((ev_partida ++ fst (rastro POUSO (tipo (aviao s0))
                                              nada c1))
                   ++ fst (rastro DESEMBARQUE (tipo (aviao s0)) nada c2))
                  ++ fst (rastro DECOLAGEM (tipo (aviao s0)) nada c3))
                 nada s ->
               historico s
               = historico s0
                 ++ ev_partida
                 ++ rastro_voo (tipo (aviao s0)) fases [c1; c2; c3]).
  { intros s [Hh _]. rewrite Hh. unfold fases. cbn [rastro_voo].
    rewrite ?app_nil_r, <- ?app_assoc. reflexivity. }
  destruct ((retorno c3 =? SEM_SIM_ENCERRADA)
            || (retorno c3 =? SEM_AVIAO_FALHOU)) eqn:Ex.
  { apply apos_ret. exists [c1; c2; c3].
    split; [exact Hv|]. split; [exact (Hr _ H9)|].
    cbn [fim_do_voo]. destruct (retorno c3 =? 0) eqn:E3; [|exact Hd3].
    apply Z.eqb_eq in E3. rewrite E3 in Ex. discriminate Ex. }
  destruct (retorno c3 =? 0) eqn:E3.
  - eapply apos_mono; [apply poe_aviao_ate; eauto|]. cbv beta.
    intros _ s10 [H10 Ha]. exists [c1; c2; c3].
    split; [exact Hv|]. split; [exact (Hr _ H10)|].
    cbn [fim_do_voo]. rewrite E3, Ha. reflexivity.
  - apply apos_ret. exists [c1; c2; c3].
    split; [exact Hv|]. split; [exact (Hr _ H9)|].
    cbn [fim_do_voo]. rewrite E3. exact Hd3.
Qed.

End EstadoDoVoo.

Lemma codigos_soma tr1 tr2 :
  SoFinal.codigos (tr1 ++ tr2) = SoFinal.codigos tr1 ++ SoFinal.codigos tr2.
Proof. apply flat_map_app. Qed.

Lemma erros_soma tr1 tr2 :
  SoFinal.erros (tr1 ++ tr2) = SoFinal.erros tr1 ++ SoFinal.erros tr2.
Proof. apply flat_map_app. Qed.

(** What the log says of the path of a phase. *)
Lemma caminho_pelos_codigos f t c :
  SoFinal.possivel f SoFinal.nada c ->
  (SoFinal.codigos (fst (SoFinal.rastro f t SoFinal.nada c))
   = [SoFinal.SEM_OK] ->
   SoFinal.erros (fst (SoFinal.rastro f t SoFinal.nada c)) = [] ->
   SoFinal.retorno c = 0)
  /\ (In SoFinal.SEM_TIMEOUT
         (SoFinal.codigos (fst (SoFinal.rastro f t SoFinal.nada c))) ->
      exists d, c = SoFinal.CNegada d SoFinal.SEM_TIMEOUT)
  /\ (SoFinal.retorno c = 0 ->
      SoFinal.codigos (fst (SoFinal.rastro f t SoFinal.nada c))
      = [SoFinal.SEM_OK]
      /\ SoFinal.erros (fst (SoFinal.rastro f t SoFinal.nada c)) = [])
  /\ (length (SoFinal.codigos (fst (SoFinal.rastro f t SoFinal.nada c)))
      <= 1)%nat.
Proof.
  intros Hp.
  rewrite (codigos_rastro f t _ c Hp), (erros_rastro f t _ c Hp).
  split; [|split; [|split]].
  - destruct c; simpl; intros H1 H2; try discriminate; try reflexivity.
    injection H1 as ->. simpl in Hp. contradiction.
  - destruct c; simpl; intros H; try contradiction.
    + destruct H as [<-|[]]. exists d. reflexivity.
    + destruct H as [H|[]]. discriminate H.
    + destruct H as [H|[]]. discriminate H.
  - intros Hz. destruct (retorno_zero f _ c Hp Hz) as [d ->]. auto.
  - destruct c; simpl; lia.
Qed.

(** X25 (So-final.c, aviao_thread with pouso / desembarque /
    decolagem).  What status_final says when the thread ends.  A thread
    whose three reservations were granted and whose sem_waits all
    succeeded ends with SUCESSO whatever the status was before or
    during the flight: the last write is unconditional, so a DEADLOCK
    mark is erased.  A thread in which reservar_recursos returned
    SEM_TIMEOUT ends with FALHA. *)
Theorem voo_estado_final s s' tr :
  SoFinal.aviao_thread s = Some (tt, s') ->
  SoFinal.historico s' = SoFinal.historico s ++ tr ->
  (SoFinal.codigos tr
   = [SoFinal.SEM_OK; SoFinal.SEM_OK; SoFinal.SEM_OK] ->
   SoFinal.erros tr = [] ->
   SoFinal.status_final (SoFinal.aviao s') = SoFinal.SUCESSO)
  /\ (In SoFinal.SEM_TIMEOUT (SoFinal.codigos tr) ->
      SoFinal.status_final (SoFinal.aviao s') = SoFinal.FALHA).
Proof.
  intros E Hh.
  destruct (apos_elim _ _ _ _ _ (aviao_thread_estado s) E)
    as (cs & Hv & H1 & Hf).
  rewrite Hh in H1. apply app_inv_head in H1. subst tr.
  rewrite codigos_soma, erros_soma.
  change (SoFinal.codigos SoFinal.ev_partida) with (@nil Z).
  change (SoFinal.erros SoFinal.ev_partida) with (@nil Recurso).
  cbn [app].
  set (t := SoFinal.tipo (SoFinal.aviao s)) in *.
  destruct cs as [|c1 [|c2 [|c3 [|c4 cs]]]];
    cbn [SoFinal.voo_valido SoFinal.fases] in Hv.
  - discriminate Hv.
  - destruct Hv as [Hp1 _].
    destruct (caminho_pelos_codigos SoFinal.POUSO t c1 Hp1)
      as (_ & T1 & _ & L1).
    unfold SoFinal.fases. cbn [SoFinal.rastro_voo].
    rewrite app_nil_r. cbn [SoFinal.fim_do_voo] in Hf.
    split.
    + intros H. rewrite H in L1. simpl in L1. lia.
    + intros H. destruct (T1 H) as [d ->]. exact (Hf eq_refl).
  - destruct Hv as [Hp1 Hv].
    destruct (SoFinal.retorno c1 =? 0) eqn:E1; [|discriminate Hv].
    destruct Hv as [Hp2 _]. apply Z.eqb_eq in E1.
    destruct (caminho_pelos_codigos SoFinal.POUSO t c1 Hp1)
      as (_ & _ & K1 & _).
    destruct (K1 E1) as [C1 _].
    destruct (caminho_pelos_codigos SoFinal.DESEMBARQUE t c2 Hp2)
      as (_ & T2 & _ & L2).
    unfold SoFinal.fases. cbn [SoFinal.rastro_voo].
    rewrite app_nil_r, codigos_soma, C1. cbn [SoFinal.fim_do_voo] in Hf.
    split.
    + intros H. injection H as H. rewrite H in L2. simpl in L2. lia.
    + intros [H|H]; [discriminate H|].
      destruct (T2 H) as [d ->]. exact (Hf eq_refl).
  - destruct Hv as [Hp1 Hv].
    destruct (SoFinal.retorno c1 =? 0) eqn:E1; [|discriminate Hv].
    destruct Hv as [Hp2 Hv].
    destruct (SoFinal.retorno c2 =? 0) eqn:E2; [|discriminate Hv].
    destruct Hv as [Hp3 _]. apply Z.eqb_eq in E1, E2.
    destruct (caminho_pelos_codigos SoFinal.POUSO t c1 Hp1)
      as (_ & _ & K1 & _).
    destruct (K1 E1) as [C1 R1].
    destruct (caminho_pelos_codigos SoFinal.DESEMBARQUE t c2 Hp2)
      as (_ & _ & K2 & _).
    destruct (K2 E2) as [C2 R2].
    destruct (caminho_pelos_codigos SoFinal.DECOLAGEM t c3 Hp3)
      as (Z3 & T3 & _ & _).
    unfold SoFinal.fases. cbn [SoFinal.rastro_voo].
    rewrite app_nil_r, !codigos_soma, !erros_soma, C1, C2, R1, R2.
    cbn [app]. cbn [SoFinal.fim_do_voo] in Hf.
    split.
    + intros H He. injection H as H. rewrite (Z3 H He) in Hf. exact Hf.
    + intros [H|[H|H]]; [discriminate H|discriminate H|].
      destruct (T3 H) as [d ->]. exact (Hf eq_refl).
  - exfalso. destruct Hv as [_ Hv].
    destruct (SoFinal.retorno c1 =? 0); [|discriminate Hv].
    destruct Hv as [_ Hv].
    destruct (SoFinal.retorno c2 =? 0); [|discriminate Hv].
    destruct Hv as [_ Hv].
    destruct (SoFinal.retorno c3 =? 0); [exact Hv|discriminate Hv].
Qed.

Lemma voo_estado_final_testemunha :
  (exists s',
      SoFinal.aviao_thread SoFinal.voo_marcado = Some (tt, s')
      /\ SoFinal.status_final (SoFinal.aviao SoFinal.voo_marcado)
         = SoFinal.DEADLOCK
      /\ SoFinal.status_final (SoFinal.aviao s') = SoFinal.SUCESSO)
  /\ (exists s',
         SoFinal.aviao_thread SoFinal.sem_pista_espera = Some (tt, s')
         /\ SoFinal.status_final (SoFinal.aviao s') = SoFinal.FALHA).
Proof.
  split.
  - destruct (SoFinal.aviao_thread SoFinal.voo_marcado)
      as [[[] s']|] eqn:E; [|vm_compute in E; discriminate E].
    assert (Hh : SoFinal.historico s'
                 = SoFinal.historico SoFinal.voo_marcado
                   ++ SoFinal.historico s') by reflexivity.
    destruct (voo_estado_final _ _ _ E Hh) as [H _].
    exists s'. split; [reflexivity|]. split; [reflexivity|].
    apply H; vm_compute in E; injection E as <-; reflexivity.
  - destruct (SoFinal.aviao_thread SoFinal.sem_pista_espera)
      as [[[] s']|] eqn:E; [|vm_compute in E; discriminate E].
    assert (Hh : SoFinal.historico s'
                 = SoFinal.historico SoFinal.sem_pista_espera
                   ++ SoFinal.historico s') by reflexivity.
    destruct (voo_estado_final _ _ _ E Hh) as [_ H].
    exists s'. split; [reflexivity|].
    apply H. vm_compute in E. injection E as <-. vm_compute. auto.
Defined.
